(* ===== verification/_CoqProject ===== *)
-Q . S2P
Prelude.v
GoStrings.v
Utf8.v
HttpRoute.v
Store.v
MemoryStore.v
PgArray.v
GoNet.v
GoUrl.v
GoCrypto.v
Http.v
ServeMux.v
Metrics.v
Spans.v
ClientIP.v
Authn.v
RateLimit.v
TokenBuckets.v
Tracing.v
Authz.v
AuditTrail.v
AuditFile.v
Rotation.v
Gateway.v
Admin.v
AdminKeys.v
CircuitBreaker.v
PluginManager.v
PluginRestart.v
Balancer.v
Mediation.v
Plugins.v
Sdk.v
Driver.v
System.v
Revocation.v
Accountability.v
Protocol.v
Concurrent.v
RateBound.v
Config.v
Postgres.v
PostgresSpec.v
CidrText.v
Serve.v
Cli.v
Bench.v
