(* ===== verification/Prelude.v ===== *)
(** * PDAG: a verification development

    PDAG is an authorizing gateway in front of the PowerDNS HTTP API.  A request
    to its proxy port runs through a chain of middlewares (request ID, metrics,
    tracing, audit, authentication, rate limit, body buffer, authorization) and
    only then reaches a backend.  API keys live in a key store and are managed
    through an admin API on a port of its own; authorization is delegated to plugin
    processes, each behind a circuit breaker; audit entries go to a log file
    through a buffer and a background writer.

    ** How the code is modelled

    Go code that answers HTTP requests is a function on a [World] (Http): the
    response writer, the cells the middlewares share by pointer, the counters, the
    clock, and a state [S] of the components behind the handlers.  A handler
    returns or panics.  What one component expects of another is a class over [S]
    ([KeyStore], [KeyManager], [RateLimiter], [Authorizer], [Publisher],
    [Reserver], [Tracer], [HasPool]), as the interfaces of the code are; the clients'
    theorems are proved against the classes.  [Deployment] (Mediation) is what the
    components together promise: none touches what belongs to another, and the
    authorizer allows only what a plugin of a role allows; [System] is a state that
    keeps these promises with the components themselves.  Code guarded by one mutex for a whole
    method is one atomic function, and concurrency is the order of such functions;
    where goroutines communicate otherwise (the authorization fan-out, the plugin
    restarts, the audit writer, the servers and their shutdown) the component is a
    transition system whose events are the atomic steps.  An [error] is a [gerror]
    (below), with wrapping and [errors.Is].  Integers are Z with the wrap-around
    written where the code can reach it; times are nanoseconds on one line, with the
    saturation of [Time.Sub].

    The outside world is an argument: the answers of the file system, of the plugin
    processes and of the HTTP client are inputs of the functions that ask for them, and
    the libraries the code is built on are classes whose laws are their documented
    behaviour: [Database] for database/sql, [Rpc] for go-plugin and gRPC, [Otel] for
    OpenTelemetry.  [PostgresSpec] states as laws what
    PostgreSQL's manual documents of the statements the store sends; it has an
    executable instance, on which the witnesses run.  The laws allow the database to
    refuse any statement, but not to lose the answer of one it has carried out.

    ** Files

    - Prelude: errors, machine integers, time, automation, list lemmas.
    - GoStrings, Utf8, GoNet, GoUrl, GoCrypto: the functions of Go's strings,
      unicode/utf8, encoding/hex, net, net/url, crypto/sha256 and crypto/hmac the
      program calls, executable.
    - HttpRoute: internal/httproute/normalize.go.
    - Store: the records and interfaces of internal/store/store.go, [KeyManagerSpec],
      the contract of a key manager as an abstract map, and the key machine, the
      same contract as a step relation on maps of keys.
    - MemoryStore: internal/store/memory/memory.go, and its refinement of that
      contract.
    - PgArray, Postgres: internal/store/postgres.  PostgresSpec: the documented
      database, the store's refinement of the contract, the executable instance.
      CidrText: address ranges that parse are storable as array elements.
    - Http: internal/middleware (context, chain, request ID, body buffer, status
      recorder) and internal/metrics/middleware.go, on a model of net/http.
      ServeMux: the mux in front of the three servers' handlers.
    - Metrics: the rest of internal/metrics.
    - Spans: internal/tracing/middleware.go.  Tracing: internal/tracing/tracing.go.
    - ClientIP: internal/clientip/clientip.go.
    - Authn: internal/authn/hmac (service and middleware) and
      internal/admin/hmac/keygen.go.
    - RateLimit: internal/ratelimit and internal/ratelimit/token/limiter.go.
      TokenBuckets: the same limiter at the grain of its map and its locks.
    - Authz: internal/authz/middleware.go and sdk/convert.go.
    - AuditTrail: internal/audit (entries, body redaction, middleware).  AuditFile:
      internal/audit/file/logger.go.  Rotation: its files.
    - Gateway: the proxy server's handler of cmd/pdag/serve.go.
    - Admin: internal/admin/server.go.  AdminKeys: the invariant of the keys the
      admin API leaves in any store that meets the contract.
    - CircuitBreaker, PluginManager: internal/authz/plugin.  PluginRestart: its
      restart goroutines and Close, step by step.
    - Balancer: internal/proxy/balancer and internal/proxy/single.
    - Mediation: the whole path of a request, over any deployment of the components.
    - Plugins: the policies under plugins/.  Sdk: sdk/plugin.go and the stubs of
      proto/authz, the two ends of a plugin call.
    - Driver: plugin processes, and the fan-out of a request run by a script.
    - System: the running program, its components put together.  Accountability: its
      audit log.  Revocation: the admin API and the proxy on the same keys.
    - Protocol: the calls one request makes on the shared components, as a protocol the
      proxy server keeps to whatever it is answered.  Concurrent: any number of such
      requests, the admin API and the background work, interleaved.  RateBound: how many
      of them go upstream for one principal.
    - Config: internal/config/config.go and what serve.go derives from a
      configuration.
    - Serve: the rest of cmd/pdag/serve.go.  Cli: the other files of cmd/pdag.
    - Bench: bench/bench_write.go.

    ** What the theorems show

    - The gateway as a whole (Gateway, Mediation, System, Accountability, Revocation): which
      conditions, in which order, a request must have met before the backend is
      consulted; that whatever is sent to a backend is what a plugin of a role of the
      presented key has allowed; that in fail-closed mode nothing is sent unrecorded; that
      read-only keys only read, and that a key that was deleted, disabled or rotated
      through the admin API is of no use any more.  A usable key is one that is enabled,
      open to the client's address and not expired at the reading of the clock that the
      authentication itself makes.
    - Concurrency (Protocol, Concurrent, RateBound): in every interleaving, mediation on
      the keys of the moment of the lookup, accountability without blocking, withdrawal
      that also stops requests on their way, and the rate limit on what is sent upstream,
      with what the eviction of idle buckets adds to it.
    - Authentication (Authn, ClientIP): a request is forwarded if and only if it
      carries the secret of a usable key; all refusals of a well-formed header look alike
      and cost the same number of SHA-256 blocks, but for HMAC secrets longer than a
      block; generated keys verify; which hop of X-Forwarded-For is believed.
    - Authorization (Authz, PluginManager, CircuitBreaker, Plugins, Sdk, Driver): ALLOW if
      and only if a plugin of one of the roles said so, under every interleaving, and an
      answer always comes; one working plugin that allows is enough; the boundary to the
      plugin processes is fail-closed; plugins see no credentials and are started only from verified
      binaries, the checks coming before the launch; every plugin process has one owner that
      kills it, also when restarts and Close meet; when breakers trip, block and recover;
      what the shipped plugins allow.
    - Limits (RateLimit, Http): the number of requests let through in a window, the
      independence of principals, complete bodies within the limit.
    - Audit (AuditTrail, AuditFile, Rotation): fail-closed mode, redaction at any depth, order and
      completeness of the files across rotations, commits that never block.
    - Keys (Store, MemoryStore, Postgres, PgArray, Admin, AdminKeys): both stores
      refine the abstract key machine and list the same pages; every admin operation
      does exactly what was asked and audits it, or changes nothing, or counts the
      inconsistency; the keys stay well formed; array literals round-trip.
    - Forwarding (Balancer): at most one failover, what goes upstream, and that each
      round of health checks decides the state of every backend anew.
    - Operation (Config, Serve, Cli, Metrics): which configurations load, and that
      a loaded one starts the components it describes; everything opened is closed
      on every path, with two exceptions; the servers stop without leaks; what the key commands do; the
      metrics register without a panic; what the tracer's initialization installs.
    - The benchmark (Bench): its counters agree in every interleaving, its report is
      ordered.
    - Some theorems record behaviour the documentation does not promise: anonymous
      audit entries, a canceled probe that wedges a breaker, the first line of a
      forwarded header, eviction of rate-limit buckets, verbatim metric labels,
      entries lost after a panic or after Close, health marks without a failure, a
      role named NULL that makes keys unreadable, duplicate secret IDs, records hidden
      from the ACME plugin, key commands without audit rows, a tracer that cannot start,
      lost status counts, a bucket deleted while it is in use, a restart that outlives
      Close, an admin limiter that is never closed.

    ** Bounds and fuel

    No component theorem depends on fuel.  Loops are structural (the balancer's
    over the remaining backends, the parsers' over the input, the flag parser's over
    the arguments); [trim_left_fuel] runs for the length of its input, each step
    shortening it, and the groups of an IPv6 address are at most eight.
    Escaping and cleaning paths is structural too.
    [Authorize_returns] bounds the fan-out by the number of its events, and
    [lifecycle_stops] the shutdown by the number of servers.  [drive] (Driver) runs a
    fan-out with fuel for four events per role; [drive_inv] shows that it has then
    returned.  [bench_counts] assumes fewer than 2^63 steps, so that no counter wraps.

    ** Not modelled

    Viper's decoding of the YAML file and the environment ([Unmarshal] of the record
    [viper]) is a parameter.  JSON text, [strconv.Quote], [url.Parse] and time parsing are
    parameters of the definitions that use them.  Log lines, help texts and histogram
    observations have no counterpart, nor have the timeouts of the HTTP servers and
    the sizes of the connection pool.  The wire formats (protobuf, OTLP) belong to the
    libraries.  A plugin call's timeout is one of the
    outcomes of its RPC, and a [Shutdown] that times out is one step like one that does
    not: handlers still running when the components are closed are not followed.
    Trailers and the bytes of an upgraded connection are left out.  In System one request
    is handled after the other; requests that overlap are the subject of Concurrent, where each call on the key
    store, the limiter and the audit log is an atomic step checked against the component,
    while the answers of the plugin manager are any its contract allows (its own
    interleavings are in PluginManager) and the flags of the backends are as each
    request reads them ([stored] of Balancer).  In System the
    restarts a fan-out asks for are recorded but not run. *)

From Stdlib Require Export ZifyBool.
From stdpp Require Export base tactics list gmap strings numbers sorting relations pretty.

(** ** Scopes

    String literals come from [stdpp_scope], where [+:+] is string
    concatenation; [=?] and [<?] of [go_scope] are the comparisons of the
    code on Go strings. *)

Declare Scope go_scope.
Delimit Scope go_scope with go.
Infix "=?" := String.eqb (at level 70) : go_scope.
#[global] Arguments String.append !_ _ / : simpl nomatch.

(** ** Go errors

    An [error] value is a message, a sentinel of the repository, or a
    [fmt.Errorf("...: %w", err)] wrapper around another error. *)

Inductive gerror :=
  | ErrKeyNotFound
  | ErrInvalidCredentials
  | ErrMsg (msg : string)
  | ErrWrap (msg : string) (inner : gerror).

#[global] Instance gerror_eq_dec : EqDecision gerror.
Proof. solve_decision. Defined.

(** [errors.Is(err, target)] walks the [%w] chain. *)
Fixpoint errors_Is (err target : gerror) : bool :=
  bool_decide (err = target) ||
  match err with ErrWrap _ e => errors_Is e target | _ => false end.

(** ** Fallible results: a value or an [error] *)

Inductive result (A : Type) :=
  | Ok (a : A)
  | Err (e : gerror).
Arguments Ok {A} a.
Arguments Err {A} e.

#[global] Instance result_eq_dec {A} `{EqDecision A} : EqDecision (result A).
Proof. solve_decision. Defined.

#[global] Instance result_ret : MRet result := λ A a, Ok a.
#[global] Instance result_bind : MBind result := λ A B f r,
  match r with Ok a => f a | Err e => Err e end.
#[global] Instance result_fmap : FMap result := λ A B f r,
  match r with Ok a => Ok (f a) | Err e => Err e end.

Definition is_Ok {A} (r : result A) : bool :=
  match r with Ok _ => true | Err _ => false end.

Definition result_of_option {A} (e : gerror) (o : option A) : result A :=
  match o with Some a => Ok a | None => Err e end.

Lemma bind_Ok {A B} (f : A → result B) (r : result A) b :
  (r ≫= f) = Ok b ↔ ∃ a, r = Ok a ∧ f a = Ok b.
Proof. destruct r; cbn; naive_solver. Qed.

(** ** Machine integers *)

Definition wrap64 (z : Z) : Z := (z + 2 ^ 63) `mod` 2 ^ 64 - 2 ^ 63.
Definition wrapu64 (z : Z) : Z := z `mod` 2 ^ 64.
Definition int64 (z : Z) : Prop := (- 2 ^ 63 ≤ z < 2 ^ 63)%Z.

Lemma wrap64_id z : int64 z → wrap64 z = z.
Proof. unfold int64, wrap64. intros. rewrite Z.mod_small; lia. Qed.

Lemma wrap64_range z : int64 (wrap64 z).
Proof.
  unfold int64, wrap64.
  pose proof (Z.mod_pos_bound (z + 2 ^ 63) (2 ^ 64)). lia.
Qed.

Lemma wrapu64_id z : (0 ≤ z < 2 ^ 64)%Z → wrapu64 z = z.
Proof. intros. unfold wrapu64. rewrite Z.mod_small; lia. Qed.

(** ** Time

    A [time.Time] is its number of nanoseconds on one time line; a
    [time.Duration] is an int64 number of nanoseconds.  [Time.Sub] saturates
    at the int64 bounds instead of wrapping around. *)

Abbreviation Time := Z (only parsing).
Abbreviation Duration := Z (only parsing).

Definition time_Sub (t u : Time) : Duration :=
  Z.max (- 2 ^ 63) (Z.min (2 ^ 63 - 1) (t - u)).
Definition time_Before (t u : Time) : bool := (t <? u)%Z.
Definition time_After (t u : Time) : bool := (u <? t)%Z.

Definition Second : Duration := 1000000000%Z.
Definition Minute : Duration := (60 * Second)%Z.

(** [time.Time{}], 0001-01-01 UTC, in nanoseconds of the Unix time line. *)
Definition zeroTime : Time := (-62135596800 * Second)%Z.
Definition time_IsZero (t : Time) : bool := (t =? zeroTime)%Z.

Lemma time_Sub_exact t u : int64 (t - u) → time_Sub t u = (t - u)%Z.
Proof. unfold int64, time_Sub. lia. Qed.

(** ** Proof automation of the development *)

Create HintDb pdag.
Create Rewrite HintDb pdag.
#[export] Hint Rewrite @lookup_insert_eq @lookup_delete_eq @lookup_empty : pdag.

(** Boolean tests of the code to propositions. *)
Ltac unbool :=
  repeat match goal with
  | H : andb _ _ = true |- _ => apply andb_true_iff in H as [? ?]
  | H : orb _ _ = false |- _ => apply orb_false_iff in H as [? ?]
  | H : negb _ = true |- _ => apply negb_true_iff in H
  | H : negb _ = false |- _ => apply negb_false_iff in H
  | H : String.eqb _ _ = true |- _ => apply String.eqb_eq in H
  | H : String.eqb _ _ = false |- _ => apply String.eqb_neq in H
  | H : Z.eqb _ _ = true |- _ => apply Z.eqb_eq in H
  | H : Z.eqb _ _ = false |- _ => apply Z.eqb_neq in H
  | H : Z.ltb _ _ = true |- _ => apply Z.ltb_lt in H
  | H : Z.ltb _ _ = false |- _ => apply Z.ltb_ge in H
  | H : Z.leb _ _ = true |- _ => apply Z.leb_le in H
  | H : Z.leb _ _ = false |- _ => apply Z.leb_gt in H
  | H : Nat.eqb _ _ = true |- _ => apply Nat.eqb_eq in H
  | H : Nat.eqb _ _ = false |- _ => apply Nat.eqb_neq in H
  | H : Nat.ltb _ _ = true |- _ => apply Nat.ltb_lt in H
  | H : Nat.ltb _ _ = false |- _ => apply Nat.ltb_ge in H
  | H : bool_decide _ = true |- _ => apply bool_decide_eq_true in H
  | H : bool_decide _ = false |- _ => apply bool_decide_eq_false in H
  end.

(** Case split on the tests of a handler body, one [if] or [match] at a time. *)
Ltac split_if :=
  match goal with
  | |- context [match ?b with true => _ | false => _ end] => destruct b eqn:?
  | H : context [match ?b with true => _ | false => _ end] |- _ => destruct b eqn:?
  end.
Ltac split_match :=
  match goal with
  | |- context [match ?x with _ => _ end] => destruct x eqn:?
  | H : context [match ?x with _ => _ end] |- _ => destruct x eqn:?
  end.

(** ** Lists *)

Lemma Forall_take_drop {A} (P : A → Prop) n m l :
  Forall P l → Forall P (take n (drop m l)).
Proof. intros H. by apply Forall_take, Forall_drop. Qed.

Lemma sublist_fmap_mono {A B} (f : A → B) l k :
  l `sublist_of` k → f <$> l `sublist_of` f <$> k.
Proof. induction 1; cbn; by constructor. Qed.

Lemma NoDup_fmap_filter {A B} (f : A → B) (P : A → Prop) `{∀ x, Decision (P x)} l :
  NoDup (f <$> l) → NoDup (f <$> filter P l).
Proof. intros. eapply sublist_NoDup; [done|]. apply sublist_fmap_mono, sublist_filter. Qed.

(** Consecutive pages of a list are a prefix of it. *)
Lemma concat_pages {A} (l : list A) k n :
  concat ((λ i, take k (drop (i * k) l)) <$> seq 0 n) = take (n * k) l.
Proof.
  induction n as [|n IH]; [by rewrite take_0|].
  rewrite seq_S, fmap_app, concat_app, IH. cbn. rewrite app_nil_r.
  replace (k + n * k) with (n * k + k) by lia. apply take_take_drop.
Qed.

#[export] Hint Resolve NoDup_fmap_filter : pdag.

(** ** Maps *)

(** Changing a key that is there is inserting its new value. *)
Lemma alter_present `{Countable K} {A} (f : A → A) (m : gmap K A) i x :
  m !! i = Some x → alter f i m = <[i := f x]> m.
Proof.
  intros E. apply map_eq. intros j. rewrite lookup_alter, lookup_insert.
  case_decide; [by subst; rewrite E|done].
Qed.

Lemma filter_all {A} (P : A → Prop) `{∀ x, Decision (P x)} (l : list A) :
  Forall P l → filter P l = l.
Proof. induction 1; [done|]. rewrite filter_cons_True by done. by f_equal. Qed.
