(* ===== verification/GoStrings.v ===== *)
(** * The string functions of Go's standard library the program calls

    A Go string is a sequence of bytes, here a [string] of 8-bit [ascii].  The
    separators and cut sets of the program are single bytes, so [Split], [Cut]
    and [ContainsAny] are modelled on bytes.  [TrimSpace] and [range] work on
    UTF-8 runes, and so do their models. *)

From S2P Require Import Prelude.
From Stdlib Require Import Ascii.

(** ** Bytes *)

Definition byte (c : ascii) : Z := Z.of_nat (nat_of_ascii c).
Definition chr (z : Z) : ascii := ascii_of_nat (Z.to_nat z).

Lemma byte_range c : (0 ≤ byte c < 256)%Z.
Proof. unfold byte. pose proof (nat_ascii_bounded c). lia. Qed.

Lemma chr_byte c : chr (byte c) = c.
Proof. unfold chr, byte. rewrite Nat2Z.id. apply ascii_nat_embedding. Qed.

Lemma byte_chr z : (0 ≤ z < 256)%Z → byte (chr z) = z.
Proof. intros. unfold chr, byte. rewrite nat_ascii_embedding; lia. Qed.

Lemma byte_inj c d : byte c = byte d → c = d.
Proof. intros H. rewrite <- (chr_byte c), <- (chr_byte d). congruence. Qed.

Lemma chr_eqb_neq z w :
  (0 ≤ z < 256)%Z → (0 ≤ w < 256)%Z → z ≠ w → Ascii.eqb (chr z) (chr w) = false.
Proof.
  intros Hz Hw Hne. apply Ascii.eqb_neq. intros E. apply (f_equal byte) in E.
  by rewrite !byte_chr in E.
Qed.

Definition slen (s : string) : Z := Z.of_nat (String.length s).

(** ** Searching *)

Fixpoint has_char (c : ascii) (s : string) : bool :=
  match s with
  | "" => false
  | String d s' => Ascii.eqb c d || has_char c s'
  end.

(** [strings.ContainsAny(s, cutset)] for a set of single bytes. *)
Fixpoint ContainsAny (s cutset : string) : bool :=
  match s with
  | "" => false
  | String d s' => has_char d cutset || ContainsAny s' cutset
  end.

(** The remainder of [s] after the prefix [p]. *)
Fixpoint strip_prefix (p s : string) : option string :=
  match p, s with
  | "", _ => Some s
  | String a p', String b s' => if Ascii.eqb a b then strip_prefix p' s' else None
  | _, _ => None
  end.

Definition HasPrefix (s p : string) : bool := bool_decide (is_Some (strip_prefix p s)).
Definition TrimPrefix (s p : string) : string := default s (strip_prefix p s).

Fixpoint HasSuffix (s suf : string) : bool :=
  String.eqb s suf || match s with "" => false | String _ s' => HasSuffix s' suf end.

(** ** Splitting and joining *)

Fixpoint Split (s : string) (sep : ascii) : list string :=
  match s with
  | "" => [""]
  | String c s' =>
      if Ascii.eqb c sep then "" :: Split s' sep
      else match Split s' sep with
           | [] => [String c ""]
           | p :: ps => String c p :: ps
           end
  end.

Definition Join (elems : list string) (sep : string) : string := String.concat sep elems.

(** [strings.Cut(s, sep)]: the parts around the first separator, if any. *)
Fixpoint Cut (s : string) (sep : ascii) : option (string * string) :=
  match s with
  | "" => None
  | String c s' =>
      if Ascii.eqb c sep then Some ("", s')
      else match Cut s' sep with
           | Some (a, b) => Some (String c a, b)
           | None => None
           end
  end.

(** ** Case *)

Definition ascii_lower (c : ascii) : ascii :=
  if (65 <=? byte c)%Z && (byte c <=? 90)%Z then chr (byte c + 32) else c.
Definition ascii_upper (c : ascii) : ascii :=
  if (97 <=? byte c)%Z && (byte c <=? 122)%Z then chr (byte c - 32) else c.

Fixpoint smap (f : ascii → ascii) (s : string) : string :=
  match s with "" => "" | String c s' => String (f c) (smap f s') end.

(** [strings.EqualFold(s, t)] when [t] is ASCII and has no letter with a
    non-ASCII case variant (k and s have one; the literals and hex digests the
    program compares with do not). *)
Definition EqualFold (s t : string) : bool :=
  String.eqb (smap ascii_lower s) (smap ascii_lower t).

(** ** White space

    The UTF-8 encodings of the runes of [unicode.IsSpace]. *)

Definition bytes (l : list Z) : string := String.string_of_list_ascii (chr <$> l).

Definition space_encodings : list string :=
  [bytes [9]; bytes [10]; bytes [11]; bytes [12]; bytes [13]; bytes [32];
   bytes [194; 133]; bytes [194; 160]; bytes [225; 154; 128];
   bytes [226; 128; 128]; bytes [226; 128; 129]; bytes [226; 128; 130];
   bytes [226; 128; 131]; bytes [226; 128; 132]; bytes [226; 128; 133];
   bytes [226; 128; 134]; bytes [226; 128; 135]; bytes [226; 128; 136];
   bytes [226; 128; 137]; bytes [226; 128; 138]; bytes [226; 128; 168];
   bytes [226; 128; 169]; bytes [226; 128; 175]; bytes [226; 129; 159];
   bytes [227; 128; 128]]%Z.

Fixpoint srev_app (s acc : string) : string :=
  match s with "" => acc | String c s' => srev_app s' (String c acc) end.
Definition srev (s : string) : string := srev_app s "".

(** The first of the given prefixes that [s] starts with, cut off. *)
Fixpoint strip_one (encs : list string) (s : string) : option string :=
  match encs with
  | [] => None
  | e :: encs' => match strip_prefix e s with Some r => Some r | None => strip_one encs' s end
  end.

Fixpoint trim_left_fuel (encs : list string) (fuel : nat) (s : string) : string :=
  match fuel with
  | 0 => s
  | S f => match strip_one encs s with Some r => trim_left_fuel encs f r | None => s end
  end.
Definition trim_left (encs : list string) (s : string) : string :=
  trim_left_fuel encs (String.length s) s.

Definition TrimSpace (s : string) : string :=
  let l := trim_left space_encodings s in
  srev (trim_left (srev <$> space_encodings) (srev l)).

(** [strings.TrimRight(s, cutset)] for a cut set of single bytes. *)
Fixpoint TrimRight (s cutset : string) : string :=
  match s with
  | "" => ""
  | String c s' =>
      match TrimRight s' cutset with
      | "" => if has_char c cutset then "" else String c ""
      | r => String c r
      end
  end.

(** ** Hexadecimal, [encoding/hex] *)

Definition hex_digit (z : Z) : ascii :=
  if (z <? 10)%Z then chr (48 + z) else chr (87 + z).
Fixpoint hex_EncodeToString (b : list Z) : string :=
  match b with
  | [] => ""
  | x :: r => String (hex_digit (x `div` 16)) (String (hex_digit (x `mod` 16)) (hex_EncodeToString r))
  end.

Definition hex_val (c : ascii) : option Z :=
  let b := byte c in
  if (48 <=? b)%Z && (b <=? 57)%Z then Some (b - 48)%Z
  else if (97 <=? b)%Z && (b <=? 102)%Z then Some (b - 87)%Z
  else if (65 <=? b)%Z && (b <=? 70)%Z then Some (b - 55)%Z
  else None.

Fixpoint hex_DecodeString (s : string) : result (list Z) :=
  match s with
  | "" => Ok []
  | String a (String b r) =>
      match hex_val a, hex_val b with
      | Some x, Some y => (λ t, (16 * x + y)%Z :: t) <$> hex_DecodeString r
      | _, _ => Err (ErrMsg "encoding/hex: invalid byte")
      end
  | String a "" =>
      match hex_val a with
      | Some _ => Err (ErrMsg "encoding/hex: odd length hex string")
      | None => Err (ErrMsg "encoding/hex: invalid byte")
      end
  end.

(** ** Lemmas *)

Lemma strip_prefix_Some p s r : strip_prefix p s = Some r ↔ s = p +:+ r.
Proof.
  revert s. induction p as [|a p IH]; intros s; cbn; [split; congruence|].
  destruct s as [|b s]; [done|].
  destruct (Ascii.eqb_spec a b) as [->|Hne]; [rewrite IH|]; split; congruence.
Qed.

Lemma HasPrefix_true s p : HasPrefix s p = true ↔ ∃ r, s = p +:+ r.
Proof.
  unfold HasPrefix. rewrite bool_decide_eq_true. unfold is_Some.
  by setoid_rewrite strip_prefix_Some.
Qed.

Lemma TrimPrefix_app p s : TrimPrefix (p +:+ s) p = s.
Proof. unfold TrimPrefix. by rewrite (proj2 (strip_prefix_Some p _ s) eq_refl). Qed.

Lemma sapp_assoc (a b c : string) : (a +:+ b) +:+ c = a +:+ (b +:+ c).
Proof. induction a; cbn; congruence. Qed.

Lemma sapp_nil_r (a : string) : a +:+ "" = a.
Proof. induction a; cbn; congruence. Qed.

Lemma HasSuffix_iff s suf : HasSuffix s suf = true ↔ ∃ a, s = a +:+ suf.
Proof.
  induction s as [|c s IH]; cbn [HasSuffix].
  - rewrite orb_false_r, String.eqb_eq. split; [intros <-; by exists ""|].
    intros ([|] & E); [done|discriminate].
  - rewrite orb_true_iff, String.eqb_eq, IH. split.
    + intros [<-|(a & ->)]; [by exists ""|by exists (String c a)].
    + intros ([|b a] & E); [by left|]. injection E as <- ->. right. by exists a.
Qed.

Lemma has_char_app c a b : has_char c (a +:+ b) = has_char c a || has_char c b.
Proof. induction a as [|d a IH]; cbn; [done|]. by rewrite IH, orb_assoc. Qed.

Lemma Split_not_nil s sep : Split s sep ≠ [].
Proof. destruct s as [|c s]; cbn; [done|]. destruct (Ascii.eqb c sep), (Split s sep); done. Qed.

Lemma Split_no_sep s sep : has_char sep s = false → Split s sep = [s].
Proof.
  induction s as [|c s IH]; cbn; [done|]. intros [H1 H2]%orb_false_iff.
  rewrite Ascii.eqb_sym, H1, IH; done.
Qed.

Lemma Split_app_sep a b sep :
  has_char sep a = false → Split (a +:+ String sep b) sep = a :: Split b sep.
Proof.
  induction a as [|c a IH]; cbn.
  - by rewrite Ascii.eqb_refl.
  - intros [H1 H2]%orb_false_iff. rewrite Ascii.eqb_sym, H1, IH; done.
Qed.

Lemma Split_sep_app a b sep : Split (a +:+ String sep b) sep = Split a sep ++ Split b sep.
Proof.
  induction a as [|c a IH]; cbn; [by rewrite Ascii.eqb_refl|].
  destruct (Ascii.eqb c sep); [by rewrite IH|]. rewrite IH.
  destruct (Split a sep) eqn:E; [by apply Split_not_nil in E|done].
Qed.

Lemma Split_parts s sep : Forall (λ p, has_char sep p = false) (Split s sep).
Proof.
  induction s as [|c s IH]; cbn; [by repeat constructor|].
  destruct (Ascii.eqb_spec c sep) as [->|Hne]; [by constructor|].
  destruct (Split s sep) as [|p ps] eqn:E; inversion IH; subst; constructor; cbn; try done;
    rewrite (proj2 (Ascii.eqb_neq sep c)) by congruence; done.
Qed.

Lemma Join_cons2 a b l sep : Join (a :: b :: l) sep = a +:+ sep +:+ Join (b :: l) sep.
Proof. done. Qed.

Lemma Join_Split s sep : Join (Split s sep) (String sep "") = s.
Proof.
  induction s as [|c s IH]; [done|]. cbn [Split].
  destruct (Ascii.eqb_spec c sep) as [->|Hne].
  - destruct (Split s sep) as [|p ps] eqn:E; [by apply Split_not_nil in E|].
    rewrite Join_cons2, IH. done.
  - destruct (Split s sep) as [|p ps] eqn:E; [by apply Split_not_nil in E|].
    destruct ps; cbn in *; by rewrite <- IH.
Qed.

Lemma Split_Join l sep :
  l ≠ [] → Forall (λ p, has_char sep p = false) l → Split (Join l (String sep "")) sep = l.
Proof.
  intros Hne Hl. induction Hl as [|p l Hp Hl IH]; [done|].
  destruct l as [|q l]; [by apply Split_no_sep|].
  rewrite Join_cons2. cbn [String.append].
  rewrite Split_app_sep by done. by rewrite IH.
Qed.

Lemma Cut_Some s sep a b :
  Cut s sep = Some (a, b) ↔ s = a +:+ String sep b ∧ has_char sep a = false.
Proof.
  revert a. induction s as [|c s IH]; intros a; cbn.
  - split; [done|]. intros [H _]. by destruct a.
  - destruct (Ascii.eqb_spec c sep) as [->|Hne].
    + split; [naive_solver|]. intros [H1 H2]. destruct a as [|d a]; cbn in *; [naive_solver|].
      simplify_eq. by rewrite Ascii.eqb_refl in H2.
    + destruct (Cut s sep) as [[a' b']|] eqn:E.
      * split.
        { intros [= <- <-]. destruct (proj1 (IH a')) as [-> ?]; [naive_solver|].
          cbn. rewrite (proj2 (Ascii.eqb_neq sep c)) by congruence. done. }
        { intros [H1 H2]. destruct a as [|d a]; cbn in *; simplify_eq.
          apply orb_false_iff in H2 as [_ H2].
          assert (Some (a', b') = Some (a, b)) by (apply IH; done). congruence. }
      * split; [done|]. intros [H1 H2]. destruct a as [|d a]; cbn in *; simplify_eq.
        apply orb_false_iff in H2 as [_ H2].
        assert (None = Some (a, b)) by (apply IH; done). done.
Qed.

Lemma Cut_None s sep : Cut s sep = None ↔ has_char sep s = false.
Proof.
  induction s as [|c s IH]; cbn; [done|].
  rewrite (Ascii.eqb_sym sep c). destruct (Ascii.eqb c sep); [done|].
  destruct (Cut s sep) as [[? ?]|]; cbn; naive_solver.
Qed.

Lemma hex_digit_val z : (0 ≤ z < 16)%Z → hex_val (hex_digit z) = Some z.
Proof.
  intros Hz.
  assert (z ∈ [0;1;2;3;4;5;6;7;8;9;10;11;12;13;14;15]%Z) as Hin.
  { rewrite list_elem_of_In. cbn. lia. }
  revert Hin. rewrite list_elem_of_In. cbn. clear Hz.
  intros Hin. repeat (destruct Hin as [<-|Hin]; [reflexivity|]). done.
Qed.

(** Hex round trip on bytes. *)
Lemma hex_Decode_Encode b :
  Forall (λ x, 0 ≤ x < 256)%Z b → hex_DecodeString (hex_EncodeToString b) = Ok b.
Proof.
  induction 1 as [|x b Hx Hb IH]; [done|]. cbn [hex_EncodeToString hex_DecodeString].
  rewrite !hex_digit_val by (try apply Z.mod_pos_bound; try split;
    try apply Z.div_pos; try apply Z.div_lt_upper_bound; lia).
  rewrite IH. cbn. do 2 f_equal. pose proof (Z.div_mod x 16). lia.
Qed.

#[export] Hint Resolve Split_not_nil Split_parts byte_range : pdag.
