(* ===== verification/Utf8.v ===== *)
(** * UTF-8 as Go's [range] over a string and [WriteRune] see it

    [range_runes s] is the sequence of runes a [for _, c := range s] loop
    visits: each valid encoding is one rune, each byte that does not start one
    is [RuneError]. *)

From S2P Require Import Prelude GoStrings.
From Stdlib Require Import Ascii.

Definition RuneError : Z := 65533.

Definition cont (c : ascii) : bool := (128 <=? byte c)%Z && (byte c <=? 191)%Z.

(** Valid second bytes after a leading byte of a 3- or 4-byte encoding. *)
Definition accept (b0 : Z) (c : ascii) : bool :=
  let lo := if (b0 =? 224)%Z then 160%Z else if (b0 =? 240)%Z then 144%Z else 128%Z in
  let hi := if (b0 =? 237)%Z then 159%Z else if (b0 =? 244)%Z then 143%Z else 191%Z in
  (lo <=? byte c)%Z && (byte c <=? hi)%Z.

Definition lead2 (b0 : Z) : bool := (194 <=? b0)%Z && (b0 <=? 223)%Z.
Definition lead3 (b0 : Z) : bool := (224 <=? b0)%Z && (b0 <=? 239)%Z.
Definition lead4 (b0 : Z) : bool := (240 <=? b0)%Z && (b0 <=? 244)%Z.

Definition rune2 (b0 b1 : Z) : Z := ((b0 - 192) * 64 + (b1 - 128))%Z.
Definition rune3 (b0 b1 b2 : Z) : Z := ((b0 - 224) * 4096 + (b1 - 128) * 64 + (b2 - 128))%Z.
Definition rune4 (b0 b1 b2 b3 : Z) : Z :=
  ((b0 - 240) * 262144 + (b1 - 128) * 4096 + (b2 - 128) * 64 + (b3 - 128))%Z.

(** [utf8.DecodeRuneInString] on a non-empty string: the rune, whether the
    encoding was valid, and the rest of the string. *)
Definition decode_rune (c0 : ascii) (s1 : string) : Z * bool * string :=
  let b0 := byte c0 in
  if (b0 <? 128)%Z then (b0, true, s1)
  else match s1 with
  | String c1 s2 =>
      if lead2 b0 && cont c1 then (rune2 b0 (byte c1), true, s2)
      else match s2 with
      | String c2 s3 =>
          if lead3 b0 && accept b0 c1 && cont c2
          then (rune3 b0 (byte c1) (byte c2), true, s3)
          else match s3 with
          | String c3 s4 =>
              if lead4 b0 && accept b0 c1 && cont c2 && cont c3
              then (rune4 b0 (byte c1) (byte c2) (byte c3), true, s4)
              else (RuneError, false, s1)
          | "" => (RuneError, false, s1)
          end
      | "" => (RuneError, false, s1)
      end
  | "" => (RuneError, false, s1)
  end.

(** The runes with their validity; the fuel is the length of the string, which
    every decoding step shortens. *)
Fixpoint decode_fuel (fuel : nat) (s : string) : list (Z * bool) :=
  match fuel, s with
  | S f, String c s1 => let '(r, ok, rest) := decode_rune c s1 in (r, ok) :: decode_fuel f rest
  | _, _ => []
  end.
Definition decode_all (s : string) : list (Z * bool) := decode_fuel (String.length s) s.
Definition range_runes (s : string) : list Z := (decode_all s).*1.
Definition ValidString (s : string) : bool := forallb snd (decode_all s).

(** [utf8.AppendRune] *)
Definition encode_rune (r : Z) : string :=
  if (r <? 128)%Z then bytes [r]
  else if (r <? 2048)%Z then bytes [192 + r `div` 64; 128 + r `mod` 64]%Z
  else if (55296 <=? r)%Z && (r <=? 57343)%Z then bytes [239; 191; 189]%Z
  else if (r <? 65536)%Z
       then bytes [224 + r `div` 4096; 128 + (r `div` 64) `mod` 64; 128 + r `mod` 64]%Z
  else if (r <=? 1114111)%Z
       then bytes [240 + r `div` 262144; 128 + (r `div` 4096) `mod` 64;
                   128 + (r `div` 64) `mod` 64; 128 + r `mod` 64]%Z
  else bytes [239; 191; 189]%Z.

(** ** Lemmas *)

(** Bounds of the byte tests, as arithmetic facts for [lia]. *)
Lemma cont_bounds c : cont c = true → (128 ≤ byte c ≤ 191)%Z.
Proof. unfold cont. lia. Qed.

Lemma accept_bounds b0 c :
  accept b0 c = true →
  (128 ≤ byte c ≤ 191 ∧ (b0 = 224 → 160 ≤ byte c) ∧ (b0 = 240 → 144 ≤ byte c) ∧
   (b0 = 237 → byte c ≤ 159) ∧ (b0 = 244 → byte c ≤ 143))%Z.
Proof.
  unfold accept.
  destruct (Z.eqb_spec b0 224), (Z.eqb_spec b0 240), (Z.eqb_spec b0 237), (Z.eqb_spec b0 244); lia.
Qed.

(** Division and remainder of a number written in base 64. *)
Lemma base64_divmod q d : (0 ≤ d < 64)%Z → ((q * 64 + d) `div` 64 = q ∧ (q * 64 + d) `mod` 64 = d)%Z.
Proof.
  intros Hd. rewrite (Z.add_comm (q * 64) d), Z.div_add, Z.mod_add, Z.div_small, Z.mod_small by lia.
  lia.
Qed.

Lemma encode_rune_ascii r : (0 ≤ r < 128)%Z → encode_rune r = String (chr r) "".
Proof. intros. unfold encode_rune. by rewrite (proj2 (Z.ltb_lt r 128)) by lia. Qed.

Lemma encode_rune2 b0 b1 :
  (194 ≤ b0 ≤ 223)%Z → (128 ≤ b1 ≤ 191)%Z → encode_rune (rune2 b0 b1) = bytes [b0; b1].
Proof.
  intros. unfold encode_rune, rune2.
  destruct (base64_divmod (b0 - 192) (b1 - 128)) as [-> ->]; [lia|].
  rewrite (proj2 (Z.ltb_ge _ 128)) by lia. rewrite (proj2 (Z.ltb_lt _ 2048)) by lia.
  repeat f_equal; lia.
Qed.

Lemma encode_rune3 b0 b1 b2 :
  (224 ≤ b0 ≤ 239)%Z → (128 ≤ b1 ≤ 191)%Z → (128 ≤ b2 ≤ 191)%Z →
  (b0 = 224 → 160 ≤ b1)%Z → (b0 = 237 → b1 ≤ 159)%Z →
  encode_rune (rune3 b0 b1 b2) = bytes [b0; b1; b2].
Proof.
  intros H0 H1 H2 He0 Hed. unfold encode_rune, rune3.
  replace ((b0 - 224) * 4096 + (b1 - 128) * 64 + (b2 - 128))%Z
    with (((b0 - 224) * 64 + (b1 - 128)) * 64 + (b2 - 128))%Z by lia.
  set (q := ((b0 - 224) * 64 + (b1 - 128))%Z).
  replace 4096%Z with (64 * 64)%Z by done. rewrite <- Z.div_div by lia.
  destruct (base64_divmod q (b2 - 128)) as [-> ->]; [lia|].
  destruct (base64_divmod (b0 - 224) (b1 - 128)) as [Hq Hr]; [lia|]. fold q in Hq, Hr.
  rewrite Hq, Hr.
  rewrite (proj2 (Z.ltb_ge _ 128)) by lia. rewrite (proj2 (Z.ltb_ge _ 2048)) by lia.
  rewrite (proj2 (Z.ltb_lt _ 65536)) by lia.
  destruct (_ && _) eqn:E; [exfalso; unbool; lia|]. repeat f_equal; lia.
Qed.

Lemma encode_rune4 b0 b1 b2 b3 :
  (240 ≤ b0 ≤ 244)%Z → (128 ≤ b1 ≤ 191)%Z → (128 ≤ b2 ≤ 191)%Z → (128 ≤ b3 ≤ 191)%Z →
  (b0 = 240 → 144 ≤ b1)%Z → (b0 = 244 → b1 ≤ 143)%Z →
  encode_rune (rune4 b0 b1 b2 b3) = bytes [b0; b1; b2; b3].
Proof.
  intros H0 H1 H2 H3 Hf0 Hf4. unfold encode_rune, rune4.
  replace ((b0 - 240) * 262144 + (b1 - 128) * 4096 + (b2 - 128) * 64 + (b3 - 128))%Z
    with ((((b0 - 240) * 64 + (b1 - 128)) * 64 + (b2 - 128)) * 64 + (b3 - 128))%Z by lia.
  set (q1 := ((b0 - 240) * 64 + (b1 - 128))%Z). set (q2 := (q1 * 64 + (b2 - 128))%Z).
  replace 262144%Z with (64 * (64 * 64))%Z by done. replace 4096%Z with (64 * 64)%Z by done.
  rewrite <- !Z.div_div by lia.
  destruct (base64_divmod q2 (b3 - 128)) as [-> ->]; [lia|].
  destruct (base64_divmod q1 (b2 - 128)) as [Hq2 Hr2]; [lia|]. fold q2 in Hq2, Hr2.
  destruct (base64_divmod (b0 - 240) (b1 - 128)) as [Hq1 Hr1]; [lia|]. fold q1 in Hq1, Hr1.
  rewrite Hq2, Hr2, Hq1, Hr1.
  rewrite (proj2 (Z.ltb_ge _ 128)) by lia. rewrite (proj2 (Z.ltb_ge _ 2048)) by lia.
  rewrite (proj2 (Z.ltb_ge _ 65536)) by lia. rewrite (proj2 (Z.leb_le _ 1114111)) by lia.
  destruct (_ && _) eqn:E; [exfalso; unbool; lia|]. repeat f_equal; lia.
Qed.

(** Re-encoding a validly decoded rune gives back the bytes it came from. *)
Lemma decode_encode c s1 r rest :
  decode_rune c s1 = (r, true, rest) → encode_rune r +:+ rest = String c s1.
Proof.
  unfold decode_rune. pose proof (byte_range c).
  destruct (Z.ltb_spec (byte c) 128).
  { intros [= <- <-]. rewrite encode_rune_ascii by lia. by rewrite chr_byte. }
  destruct s1 as [|c1 s2]; [done|]. destruct (lead2 (byte c) && cont c1) eqn:E2.
  { apply andb_true_iff in E2 as [E0 E1%cont_bounds]. unfold lead2 in E0.
    intros [= <- <-]. rewrite encode_rune2 by lia. cbn. by rewrite !chr_byte. }
  destruct s2 as [|c2 s3]; [done|]. destruct (lead3 (byte c) && accept (byte c) c1 && cont c2) eqn:E3.
  { apply andb_true_iff in E3 as [[E0 E1%accept_bounds]%andb_true_iff Ec%cont_bounds].
    unfold lead3 in E0. intros [= <- <-]. rewrite encode_rune3 by lia. cbn. by rewrite !chr_byte. }
  destruct s3 as [|c3 s4]; [done|]. destruct (_ && cont c3) eqn:E4; [|done].
  apply andb_true_iff in E4 as [[[E0 E1%accept_bounds]%andb_true_iff Ec%cont_bounds]%andb_true_iff
    Ed%cont_bounds].
  unfold lead4 in E0. intros [= <- <-]. rewrite encode_rune4 by lia. cbn. by rewrite !chr_byte.
Qed.

Lemma decode_shorter c s1 r ok rest :
  decode_rune c s1 = (r, ok, rest) → String.length rest ≤ String.length s1.
Proof.
  unfold decode_rune. intros H.
  repeat match goal with
  | H : context [if ?b then _ else _] |- _ => destruct b
  | H : context [match ?s with "" => _ | String _ _ => _ end] |- _ => destruct s
  end; simplify_eq; cbn; lia.
Qed.

(** Induction over a valid string along its runes. *)
Lemma decode_fuel_enough f g s :
  String.length s ≤ f → String.length s ≤ g → decode_fuel f s = decode_fuel g s.
Proof.
  revert g s. induction f as [|f IH]; intros [|g] [|c s1]; cbn; try lia; try done.
  intros. destruct (decode_rune c s1) as [[r ok] rest] eqn:E.
  apply decode_shorter in E. f_equal. apply IH; lia.
Qed.

Lemma decode_all_cons c s1 r ok rest :
  decode_rune c s1 = (r, ok, rest) → decode_all (String c s1) = (r, ok) :: decode_all rest.
Proof.
  intros E. unfold decode_all. cbn. rewrite E. f_equal.
  apply decode_shorter in E. by apply decode_fuel_enough.
Qed.

Lemma valid_string_ind (P : string → Prop) :
  P "" →
  (∀ c s1 r rest, decode_rune c s1 = (r, true, rest) → ValidString rest = true →
     P rest → P (String c s1)) →
  ∀ s, ValidString s = true → P s.
Proof.
  intros H0 Hs s. remember (String.length s) as n eqn:Hn.
  assert (String.length s ≤ n) as Hle by lia. clear Hn. revert s Hle.
  induction n as [|n IH]; intros [|c s1]; cbn [String.length]; try done; try lia.
  intros Hle Hv. destruct (decode_rune c s1) as [[r ok] rest] eqn:E.
  unfold ValidString in Hv. rewrite (decode_all_cons _ _ _ _ _ E) in Hv. cbn in Hv.
  apply andb_true_iff in Hv as [Hok Hv]. cbn in Hok. subst ok.
  eapply Hs; [done|done|]. apply IH; [|done]. apply decode_shorter in E. lia.
Qed.

Lemma range_runes_cons c s1 r ok rest :
  decode_rune c s1 = (r, ok, rest) → range_runes (String c s1) = r :: range_runes rest.
Proof. intros E. unfold range_runes. by rewrite (decode_all_cons _ _ _ _ _ E). Qed.
