(* ===== verification/HttpRoute.v ===== *)
(** * internal/httproute: route templates for metric labels and span names

    [Normalize] maps a request path to a route template.  The theorems give
    the exact shape of its range, its idempotence, the masking of server, zone
    and resource identifiers, and the one family of paths whose last segment
    is kept verbatim. *)

From S2P Require Import Prelude GoStrings.
From Stdlib Require Import Ascii.

Definition slash : ascii := "/".

Definition OtherPath : string := "/other".

Definition knownFixedPaths (p : string) : bool :=
  existsb (String.eqb p) ["healthz"; "readyz"; "metrics"].

Definition zoneTailActions (p : string) : bool :=
  existsb (String.eqb p) ["export"; "notify"; "axfr-retrieve"; "rectify"].

(** [for len(parts) > 0 && parts[len(parts)-1] == "" { parts = parts[:len(parts)-1] }] *)
Fixpoint dropTrailingEmpty (parts : list string) : list string :=
  match parts with
  | [] => []
  | p :: rest =>
      match dropTrailingEmpty rest with
      | [] => if String.eqb p "" then [] else [p]
      | rest' => p :: rest'
      end
  end.

(** [parts[i]], read only where the code has checked the length. *)
Definition part (parts : list string) (i : nat) : string := default "" (parts !! i).
Arguments part : simpl nomatch.

Definition rejoin (parts : list string) : string := "/" +:+ Join parts "/".

Definition Normalize (path : string) : string :=
  let parts := dropTrailingEmpty (Split (TrimPrefix path "/") slash) in
  let n := length parts in
  if Nat.eqb n 0 then "/"
  else if Nat.eqb n 1 && knownFixedPaths (part parts 0) then "/" +:+ part parts 0
  else if Nat.ltb n 3 || negb (String.eqb (part parts 0) "api")
          || negb (String.eqb (part parts 1) "v1")
          || negb (String.eqb (part parts 2) "servers") then OtherPath
  else if Nat.eqb n 3 then "/api/v1/servers"
  else
    let parts := <[3 := ":server_id"]> parts in
    if Nat.eqb n 4 then rejoin parts
    else if negb (String.eqb (part parts 4) "zones") then
      if Nat.eqb n 5 then rejoin parts else OtherPath
    else if Nat.eqb n 5 then rejoin parts
    else
      let parts := <[5 := ":zone_id"]> parts in
      if Nat.eqb n 6 then rejoin parts
      else
        let tail := part parts 6 in
        if zoneTailActions tail && Nat.eqb n 7 then rejoin parts
        else if String.eqb tail "cryptokeys" then
          if Nat.eqb n 7 then rejoin parts
          else if Nat.eqb n 8 then rejoin (<[7 := ":cryptokey_id"]> parts)
          else OtherPath
        else if String.eqb tail "metadata" then
          if Nat.eqb n 7 then rejoin parts
          else if Nat.eqb n 8 then rejoin (<[7 := ":kind"]> parts)
          else OtherPath
        else OtherPath.

(** ** Specification: a route table

    A route is a sequence of pieces; a literal piece must match its segment, a
    mask hides it, and [Keep] copies it into the template. *)

Inductive piece := Lit (s : string) | Mask (s : string) | Keep.
Abbreviation route := (list piece).

Definition piece_match (pc : piece) (seg : string) : bool :=
  match pc with Lit s => String.eqb seg s | _ => true end.
Definition piece_render (pc : piece) (seg : string) : string :=
  match pc with Lit s | Mask s => s | Keep => seg end.

Fixpoint route_match (r : route) (parts : list string) : bool :=
  match r, parts with
  | [], [] => true
  | pc :: r', p :: ps => piece_match pc p && route_match r' ps
  | _, _ => false
  end.
Fixpoint route_lookup (rs : list route) (parts : list string) : string :=
  match rs with
  | [] => OtherPath
  | r :: rs' =>
      if route_match r parts then rejoin (zip_with piece_render r parts)
      else route_lookup rs' parts
  end.

Definition server_route : route := [Lit "api"; Lit "v1"; Lit "servers"; Mask ":server_id"].
Definition zone_route : route := server_route ++ [Lit "zones"; Mask ":zone_id"].
Definition sub_route : route := server_route ++ [Keep].

Definition fixed_routes : list route :=
  [[]; [Lit "healthz"]; [Lit "readyz"]; [Lit "metrics"];
   [Lit "api"; Lit "v1"; Lit "servers"]; server_route; zone_route;
   zone_route ++ [Lit "export"]; zone_route ++ [Lit "notify"];
   zone_route ++ [Lit "axfr-retrieve"]; zone_route ++ [Lit "rectify"];
   zone_route ++ [Lit "cryptokeys"]; zone_route ++ [Lit "cryptokeys"; Mask ":cryptokey_id"];
   zone_route ++ [Lit "metadata"]; zone_route ++ [Lit "metadata"; Mask ":kind"]].
Definition routes : list route := sub_route :: fixed_routes.

(** The template of a route without [Keep], and the finite set of them. *)
Definition route_template (r : route) : string :=
  rejoin ((λ pc, piece_render pc "") <$> r).
Definition templates : list string := OtherPath :: (route_template <$> fixed_routes).

Definition serversPath : string := "/api/v1/servers".
Definition serverPath : string := "/api/v1/servers/:server_id".

(** A path segment a client can choose: not empty, no slash. *)
Definition segment (s : string) : Prop := s ≠ "" ∧ has_char slash s = false.

(** ** Lemmas on the parts *)

Lemma dropTrailingEmpty_last parts p :
  last (dropTrailingEmpty parts) = Some p → p ≠ "".
Proof.
  induction parts as [|q rest IH]; cbn; [done|].
  destruct (dropTrailingEmpty rest) as [|r rs] eqn:E.
  - destruct (String.eqb_spec q ""); cbn; congruence.
  - rewrite last_cons_cons. apply IH.
Qed.

Lemma dropTrailingEmpty_id parts p :
  last parts = Some p → p ≠ "" → dropTrailingEmpty parts = parts.
Proof.
  intros Hl Hp. induction parts as [|q rest IH]; [done|]. cbn.
  destruct rest as [|r rs].
  - cbn in *. simplify_eq. by rewrite (proj2 (String.eqb_neq p "")).
  - rewrite last_cons_cons in Hl. by rewrite IH.
Qed.

Lemma dropTrailingEmpty_Forall (P : string → Prop) parts :
  Forall P parts → Forall P (dropTrailingEmpty parts).
Proof.
  induction 1 as [|q rest Hq Hr IH]; [constructor|]. cbn.
  destruct (dropTrailingEmpty rest); [destruct (String.eqb q "")|]; auto.
Qed.

(** The parts [Normalize] works on. *)
Definition pathParts (path : string) : list string :=
  dropTrailingEmpty (Split (TrimPrefix path "/") slash).

Lemma pathParts_seg path : Forall (λ p, has_char slash p = false) (pathParts path).
Proof. apply dropTrailingEmpty_Forall, Split_parts. Qed.

Lemma pathParts_rejoin parts p :
  Forall (λ q, has_char slash q = false) parts → last parts = Some p → p ≠ "" →
  pathParts (rejoin parts) = parts.
Proof.
  intros Hf Hl Hp. unfold pathParts, rejoin.
  rewrite TrimPrefix_app. change "/" with (String slash "").
  rewrite Split_Join; [by eapply dropTrailingEmpty_id|by intros ->|done].
Qed.

(** ** [Normalize] is the route-table lookup *)

(** Decide the literal comparisons of the goal one after the other. *)
Ltac seg_split :=
  repeat match goal with
  | |- context [String.eqb ?p ?q] =>
      is_var p; destruct (String.eqb_spec p q); [subst p|]; cbn; try done
  end.

Lemma Normalize_lookup path : Normalize path = route_lookup routes (pathParts path).
Proof.
  unfold Normalize. fold (pathParts path). generalize (pathParts path) as parts. intros parts.
  destruct parts as [|p0 parts]; [done|].
  destruct parts as [|p1 parts]; [by cbn; seg_split|].
  destruct parts as [|p2 parts]; [by cbn; seg_split|].
  destruct parts as [|p3 parts]; [by cbn; seg_split|].
  destruct parts as [|p4 parts]; [by cbn; seg_split|].
  destruct parts as [|p5 parts]; [by cbn; seg_split|].
  destruct parts as [|p6 parts]; [by cbn; seg_split|].
  destruct parts as [|p7 parts]; [by cbn; seg_split|].
  destruct parts as [|p8 parts]; by cbn; seg_split.
Qed.

Lemma route_lookup_range rs parts :
  route_lookup rs parts = OtherPath ∨
  ∃ r, r ∈ rs ∧ route_match r parts = true ∧
       route_lookup rs parts = rejoin (zip_with piece_render r parts).
Proof.
  induction rs as [|r rs IH]; cbn; [by left|].
  destruct (route_match r parts) eqn:E; [right; exists r; set_solver|].
  destruct IH as [?|(r' & ? & ?)]; [by left|right; exists r'; set_solver].
Qed.

(** A matched route without [Keep] renders to its template. *)
Lemma route_render_fixed r parts :
  Forall (λ pc, pc ≠ Keep) r → route_match r parts = true →
  rejoin (zip_with piece_render r parts) = route_template r.
Proof.
  unfold route_template. intros Hr Hm. f_equal. revert parts Hm.
  induction Hr as [|pc r Hpc Hr IH]; intros [|p ps]; cbn; try done.
  intros [_ Hm]%andb_true_iff. f_equal; [by destruct pc|auto].
Qed.

Lemma fixed_routes_no_Keep : Forall (Forall (λ pc, pc ≠ Keep)) fixed_routes.
Proof. repeat constructor; discriminate. Qed.

Lemma sub_route_parts path seg server :
  segment seg → has_char slash server = false →
  path = serversPath +:+ "/" +:+ server +:+ "/" +:+ seg →
  pathParts path = ["api"; "v1"; "servers"; server; seg].
Proof.
  intros [Hne Hs] Hsrv ->.
  change (pathParts (rejoin ["api"; "v1"; "servers"; server; seg]) =
          ["api"; "v1"; "servers"; server; seg]).
  by eapply pathParts_rejoin; [repeat constructor| |].
Qed.

Lemma Normalize_shape path :
  Normalize path ∈ templates ∨
  ∃ seg, segment seg ∧ Normalize path = serverPath +:+ "/" +:+ seg.
Proof.
  rewrite Normalize_lookup.
  destruct (route_lookup_range routes (pathParts path)) as [->|(r & Hr & Hm & ->)];
    [left; left|].
  apply elem_of_cons in Hr as [->|Hr].
  - right. unfold pathParts in *.
    pose proof (pathParts_seg path) as Hseg.
    pose proof (dropTrailingEmpty_last (Split (TrimPrefix path "/") slash)) as Hlast.
    unfold pathParts in Hseg.
    destruct (dropTrailingEmpty _) as [|p0 [|p1 [|p2 [|p3 [|seg [|? ?]]]]]];
      cbn in Hm; rewrite ?andb_false_r in Hm; try done.
    exists seg. split; [split; [by apply Hlast|]|done].
    rewrite !Forall_cons in Hseg. tauto.
  - left. right. rewrite route_render_fixed; [|by eapply Forall_forall in Hr;
      [|apply fixed_routes_no_Keep]|done].
    by apply list_elem_of_fmap_2.
Qed.

(** ** Properties *)

(** The range of [Normalize] is the finite set of route templates, apart
    from one family: the templates [/api/v1/servers/:server_id/<seg>], whose
    last segment is the client's, unchanged. *)
Theorem Normalize_range path :
  Normalize path ∈ templates ∨
  ∃ seg, segment seg ∧ Normalize path = serverPath +:+ "/" +:+ seg.
Proof. apply Normalize_shape. Qed.

(** [Normalize] is idempotent: a template is its own template, so
    re-normalizing a label never creates a new series. *)
Theorem Normalize_idempotent path : Normalize (Normalize path) = Normalize path.
Proof.
  destruct (Normalize_shape path) as [Hin|(seg & Hseg & ->)].
  - revert Hin. generalize (Normalize path) as t. apply Forall_forall.
    repeat constructor.
  - rewrite Normalize_lookup.
    by rewrite (sub_route_parts _ seg ":server_id").
Qed.

(** Every path segment under a server is kept verbatim: distinct segments
    give distinct templates, whatever they are, so the set of labels clients
    can create is not finite. *)
Theorem Normalize_subresource_verbatim server seg :
  segment seg → has_char slash server = false →
  Normalize (serversPath +:+ "/" +:+ server +:+ "/" +:+ seg) = serverPath +:+ "/" +:+ seg.
Proof.
  intros Hseg Hs. rewrite Normalize_lookup.
  by rewrite (sub_route_parts _ seg server).
Qed.

Lemma Normalize_subresource_verbatim_witness :
  Normalize "/api/v1/servers/localhost/scan-4711" = "/api/v1/servers/:server_id/scan-4711".
Proof. apply (Normalize_subresource_verbatim "localhost" "scan-4711"); done. Defined.

(** Server and zone identifiers never reach a label: two zone paths that
    differ only in them have the same template. *)
Theorem Normalize_masks_ids server zone server' zone' tail :
  Forall (λ p, has_char slash p = false) [server; zone; server'; zone'] →
  Forall segment tail → zone ≠ "" → zone' ≠ "" →
  Normalize (rejoin (["api"; "v1"; "servers"; server; "zones"; zone] ++ tail)) =
  Normalize (rejoin (["api"; "v1"; "servers"; server'; "zones"; zone'] ++ tail)).
Proof.
  intros Hid Htail Hz Hz'. rewrite !Normalize_lookup.
  assert (∀ a b, has_char slash a = false → segment b →
    pathParts (rejoin (["api"; "v1"; "servers"; a; "zones"; b] ++ tail)) =
    ["api"; "v1"; "servers"; a; "zones"; b] ++ tail) as Hp.
  { intros a b Ha [Hb Hb'].
    assert (∃ p, last (b :: tail) = Some p ∧ p ≠ "") as (p & Hl & Hp).
    { destruct (last tail) as [p|] eqn:E.
      - exists p. rewrite last_cons, E. split; [done|].
        apply last_Some_elem_of in E. rewrite Forall_forall in Htail. by apply Htail.
      - exists b. by rewrite last_cons, E. }
    eapply (pathParts_rejoin _ p); [|by rewrite <- Hl; destruct tail|done].
    apply Forall_app. split; [by repeat constructor|].
    eapply Forall_impl; [done|]. by intros ? []. }
  rewrite !Forall_cons in Hid. destruct_and!.
  rewrite !Hp by (try split; done). clear.
  destruct tail as [|t0 [|t1 [|t2 tail]]]; done.
Qed.

Lemma Normalize_masks_ids_witness :
  Normalize "/api/v1/servers/a/zones/example.org/notify" =
  Normalize "/api/v1/servers/b/zones/example.net/notify".
Proof.
  apply (Normalize_masks_ids "a" "example.org" "b" "example.net" ["notify"]);
    repeat constructor; done.
Defined.
