(* ===== verification/Store.v ===== *)
(** * internal/store: key records and the key-manager interface

    [KeyRecord] is the stored API key.  [KeyManager] is the Go interface of the
    same name as a class over the state of the implementation, and
    [KeyManagerSpec] is what an implementation promises to its clients (the
    authn middleware and the admin API): an abstract map from key IDs to
    records, changed only as stated.  An operation that fails for reasons of
    its own (a database error) must leave the map unchanged. *)

From S2P Require Import Prelude GoStrings.

(** ** Records *)

Record KeyRecord := mkKeyRecord {
  ID : string;
  KeyHash : string;
  HmacKeyID : string;
  Principal : string;
  Roles : list string;
  AllowedCIDRs : list string;
  Enabled : bool;
  ExpiresAt : option Time;
  CreatedAt : Time;
  UpdatedAt : Time;
}.

#[global] Instance KeyRecord_eq_dec : EqDecision KeyRecord.
Proof. solve_decision. Defined.

Definition set_Enabled (b : bool) (now : Time) (r : KeyRecord) : KeyRecord :=
  mkKeyRecord (ID r) (KeyHash r) (HmacKeyID r) (Principal r) (Roles r) (AllowedCIDRs r)
    b (ExpiresAt r) (CreatedAt r) now.
Definition set_Roles (l : list string) (now : Time) (r : KeyRecord) : KeyRecord :=
  mkKeyRecord (ID r) (KeyHash r) (HmacKeyID r) (Principal r) l (AllowedCIDRs r)
    (Enabled r) (ExpiresAt r) (CreatedAt r) now.
Definition set_AllowedCIDRs (l : list string) (now : Time) (r : KeyRecord) : KeyRecord :=
  mkKeyRecord (ID r) (KeyHash r) (HmacKeyID r) (Principal r) (Roles r) l
    (Enabled r) (ExpiresAt r) (CreatedAt r) now.
Definition set_Hash (h k : string) (now : Time) (r : KeyRecord) : KeyRecord :=
  mkKeyRecord (ID r) h k (Principal r) (Roles r) (AllowedCIDRs r)
    (Enabled r) (ExpiresAt r) (CreatedAt r) now.
Definition set_ExpiresAt (e : option Time) (now : Time) (r : KeyRecord) : KeyRecord :=
  mkKeyRecord (ID r) (KeyHash r) (HmacKeyID r) (Principal r) (Roles r) (AllowedCIDRs r)
    (Enabled r) e (CreatedAt r) now.

(** [rec.ExpiresAt != nil && rec.ExpiresAt.Before(t)] *)
Definition expired (t : Time) (r : KeyRecord) : bool :=
  match ExpiresAt r with Some e => time_Before e t | None => false end.

(** The values handed to [AuditKeyEvent] as [map[string]any]; [None] is nil. *)
Inductive auditval :=
  | AStr (s : string) | AStrs (l : list string) | ABool (b : bool)
  | AInt (z : Z) | ATime (t : option Time).
Abbreviation AuditValues := (option (list (string * auditval))).

Record KeyEvent := mkKeyEvent {
  ke_keyID : string; ke_action : string; ke_changedBy : string;
  ke_old : AuditValues; ke_new : AuditValues;
}.

(** ** The interfaces

    The methods run on the implementation's state [S].  [now] is the time the
    implementation reads when it stamps a record.  The list methods take the
    choices the runtime makes (the iteration order of a Go map) as an argument
    [C].  A slice argument is an option: [None] is the nil slice, which the memory
    store and the database treat differently. *)

Class KeyStore (S : Type) := {
  GetByID : string → S → result (option KeyRecord) * S;
}.

Class KeyManager (S C : Type) `{KeyStore S} := {
  Create : Time → KeyRecord → S → result unit * S;
  List : C → S → result (list KeyRecord) * S;
  ListPaged : C → Z → Z → S → result (list KeyRecord) * S;
  ListFiltered : C → Z → Z → string → string → S → result (list KeyRecord) * S;
  SetEnabled : Time → string → bool → S → result unit * S;
  SetRoles : Time → string → option (list string) → S → result unit * S;
  SetAllowedCIDRs : Time → string → option (list string) → S → result unit * S;
  UpdateHash : Time → string → string → string → S → result unit * S;
  Delete : string → S → result unit * S;
  DeleteExpired : Time → S → result Z * S;
  SetExpiresAt : Time → string → option Time → S → result unit * S;
  AuditKeyEvent : KeyEvent → S → result unit * S;
}.

(** ** The contract

    [update_spec f id m r m'] is the contract of the five single-record
    mutators. *)

Definition update_spec (f : KeyRecord → KeyRecord) (id : string)
    (m : gmap string KeyRecord) (r : result unit) (m' : gmap string KeyRecord) : Prop :=
  match r with
  | Ok _ => is_Some (m !! id) ∧ m' = alter f id m
  | Err e => m' = m ∧ (errors_Is e ErrKeyNotFound = true → m !! id = None)
  end.

(** What becomes of a slice of texts: a store returns the texts it can hold. *)
Definition held (storable : string → Prop) (l l' : list string) : Prop :=
  Forall storable l → l' = l.

(** Stored records agree with a created one up to the timestamps the store sets
    itself and the precision [stamp] of the expiry it keeps. *)
Definition same_key (storable : string → Prop) (stamp : Time → Time) (r r' : KeyRecord) : Prop :=
  ID r' = ID r ∧ KeyHash r' = KeyHash r ∧ HmacKeyID r' = HmacKeyID r ∧
  Principal r' = Principal r ∧ held storable (Roles r) (Roles r') ∧
  held storable (AllowedCIDRs r) (AllowedCIDRs r') ∧
  Enabled r' = Enabled r ∧ ExpiresAt r' = stamp <$> ExpiresAt r.

(** A record as a store with precision [stamp] keeps it. *)
Lemma same_key_stored storable stamp rec :
  same_key storable stamp rec
    (mkKeyRecord (ID rec) (KeyHash rec) (HmacKeyID rec) (Principal rec) (Roles rec)
       (AllowedCIDRs rec) (Enabled rec) (stamp <$> ExpiresAt rec) (CreatedAt rec) (UpdatedAt rec)).
Proof. unfold same_key, held. by split_and!. Qed.

Class KeyManagerSpec (S C : Type) `{KeyManager S C} := {
  keys : S → gmap string KeyRecord;
  (** the texts an array column can hold, and the precision of a stored time *)
  storable : string → Prop;
  stamp : Time → Time;
  GetByID_spec id s o s' :
    GetByID id s = (o, s') → keys s' = keys s ∧ (∀ r, o = Ok r → r = keys s !! id);
  Create_spec now rec s o s' :
    Create now rec s = (o, s') →
    match o with
    | Ok _ => keys s !! ID rec = None ∧
              ∃ rec', same_key storable stamp rec rec' ∧ keys s' = <[ID rec := rec']> (keys s)
    | Err _ => keys s' = keys s
    end;
  List_spec c s o s' :
    List c s = (o, s') → keys s' = keys s ∧
    ∀ l, o = Ok l → Forall (λ k, ∃ id, keys s !! id = Some k) l;
  ListPaged_spec c limit offset s o s' :
    ListPaged c limit offset s = (o, s') → keys s' = keys s ∧
    ∀ l, o = Ok l → Forall (λ k, ∃ id, keys s !! id = Some k) l ∧
                (Z.of_nat (length l) ≤ Z.max 0 limit)%Z;
  ListFiltered_spec c limit offset p r s o s' :
    ListFiltered c limit offset p r s = (o, s') → keys s' = keys s ∧
    ∀ l, o = Ok l → Forall (λ k, ∃ id, keys s !! id = Some k) l ∧
                (Z.of_nat (length l) ≤ Z.max 0 limit)%Z;
  SetEnabled_spec now id b s o s' :
    SetEnabled now id b s = (o, s') →
    ∃ t, update_spec (set_Enabled b t) id (keys s) o (keys s');
  SetRoles_spec now id l s o s' :
    SetRoles now id l s = (o, s') →
    ∃ t l', held storable (default [] l) l' ∧ update_spec (set_Roles l' t) id (keys s) o (keys s');
  SetAllowedCIDRs_spec now id l s o s' :
    SetAllowedCIDRs now id l s = (o, s') →
    ∃ t l', held storable (default [] l) l' ∧ update_spec (set_AllowedCIDRs l' t) id (keys s) o (keys s');
  UpdateHash_spec now id h k s o s' :
    UpdateHash now id h k s = (o, s') →
    ∃ t, update_spec (set_Hash h k t) id (keys s) o (keys s');
  SetExpiresAt_spec now id e s o s' :
    SetExpiresAt now id e s = (o, s') →
    ∃ t, update_spec (set_ExpiresAt (stamp <$> e) t) id (keys s) o (keys s');
  Delete_spec id s o s' :
    Delete id s = (o, s') →
    match o with
    | Ok _ => is_Some (keys s !! id) ∧ keys s' = delete id (keys s)
    | Err e => keys s' = keys s ∧ (errors_Is e ErrKeyNotFound = true → keys s !! id = None)
    end;
  DeleteExpired_spec before s o s' :
    DeleteExpired before s = (o, s') →
    match o with
    | Ok n => keys s' = filter (λ kr, expired (stamp before) kr.2 = false) (keys s) ∧
              n = (Z.of_nat (size (keys s)) - Z.of_nat (size (keys s')))%Z
    | Err _ => keys s' = keys s
    end;
  AuditKeyEvent_spec ev s o s' :
    AuditKeyEvent ev s = (o, s') → keys s' = keys s;
}.

(** ** The contract as a machine

    The calls of a client, the answers, and the abstract machine on the map of
    keys: a call may fail and change nothing, or it has the effect the contract
    states. *)

Inductive key_call (C : Type) :=
  | CGetByID (id : string)
  | CCreate (now : Time) (rec : KeyRecord)
  | CList (c : C)
  | CListPaged (c : C) (limit offset : Z)
  | CListFiltered (c : C) (limit offset : Z) (principal role : string)
  | CSetEnabled (now : Time) (id : string) (b : bool)
  | CSetRoles (now : Time) (id : string) (l : option (list string))
  | CSetAllowedCIDRs (now : Time) (id : string) (l : option (list string))
  | CUpdateHash (now : Time) (id h k : string)
  | CDelete (id : string)
  | CDeleteExpired (before : Time)
  | CSetExpiresAt (now : Time) (id : string) (e : option Time)
  | CAuditKeyEvent (ev : KeyEvent).
Arguments CGetByID {C}. Arguments CCreate {C}. Arguments CSetEnabled {C}. Arguments CSetRoles {C}.
Arguments CSetAllowedCIDRs {C}. Arguments CUpdateHash {C}. Arguments CDelete {C}.
Arguments CDeleteExpired {C}. Arguments CSetExpiresAt {C}. Arguments CAuditKeyEvent {C}.
Arguments CList {C}. Arguments CListPaged {C}. Arguments CListFiltered {C}.

Inductive key_value :=
  | VDone | VKey (r : option KeyRecord) | VKeys (l : list KeyRecord) | VCount (n : Z).

Section Machine.
Context {S C : Type} `{KeyManager S C}.

Definition answer {A} (f : A → key_value) (p : result A * S) : result key_value * S :=
  (f <$> p.1, p.2).

Definition run_call (op : key_call C) (s : S) : result key_value * S :=
  match op with
  | CGetByID id => answer VKey (GetByID id s)
  | CCreate now rec => answer (λ _, VDone) (Create now rec s)
  | CList c => answer VKeys (List c s)
  | CListPaged c limit offset => answer VKeys (ListPaged c limit offset s)
  | CListFiltered c limit offset p r => answer VKeys (ListFiltered c limit offset p r s)
  | CSetEnabled now id b => answer (λ _, VDone) (SetEnabled now id b s)
  | CSetRoles now id l => answer (λ _, VDone) (SetRoles now id l s)
  | CSetAllowedCIDRs now id l => answer (λ _, VDone) (SetAllowedCIDRs now id l s)
  | CUpdateHash now id h k => answer (λ _, VDone) (UpdateHash now id h k s)
  | CDelete id => answer (λ _, VDone) (Delete id s)
  | CDeleteExpired before => answer VCount (DeleteExpired before s)
  | CSetExpiresAt now id e => answer (λ _, VDone) (SetExpiresAt now id e s)
  | CAuditKeyEvent ev => answer (λ _, VDone) (AuditKeyEvent ev s)
  end.

Fixpoint run_calls (ops : list (key_call C)) (s : S) : list (result key_value) * S :=
  match ops with
  | [] => ([], s)
  | op :: ops =>
      let '(v, s) := run_call op s in
      let '(vs, s) := run_calls ops s in (v :: vs, s)
  end.
End Machine.

Section AbstractMachine.
Context {C : Type} (storable : string → Prop) (stamp : Time → Time).
Abbreviation Keys := (gmap string KeyRecord).

(** The key a mutator changes, and the changes it may make to it. *)
Definition call_update (op : key_call C) : option (string * ((KeyRecord → KeyRecord) → Prop)) :=
  match op with
  | CSetEnabled _ id b => Some (id, λ f, ∃ t, f = set_Enabled b t)
  | CSetRoles _ id l => Some (id, λ f, ∃ t l', held storable (default [] l) l' ∧ f = set_Roles l' t)
  | CSetAllowedCIDRs _ id l =>
      Some (id, λ f, ∃ t l', held storable (default [] l) l' ∧ f = set_AllowedCIDRs l' t)
  | CUpdateHash _ id h k => Some (id, λ f, ∃ t, f = set_Hash h k t)
  | CSetExpiresAt _ id e => Some (id, λ f, ∃ t, f = set_ExpiresAt (stamp <$> e) t)
  | _ => None
  end.

(** The key a call answers "not found" for. *)
Definition call_target (op : key_call C) : option string :=
  match op with CDelete id => Some id | _ => fst <$> call_update op end.

Inductive key_step : key_call C → Keys → result key_value → Keys → Prop :=
  | step_fails op m e :
      (∀ id, call_target op = Some id → errors_Is e ErrKeyNotFound = true → m !! id = None) →
      key_step op m (Err e) m
  | step_gets id m : key_step (CGetByID id) m (Ok (VKey (m !! id))) m
  | step_creates now rec rec' m :
      m !! ID rec = None → same_key storable stamp rec rec' →
      key_step (CCreate now rec) m (Ok VDone) (<[ID rec := rec']> m)
  | step_lists op c l m limit :
      (op = CList c ∨ (∃ offset, op = CListPaged c limit offset) ∨
         ∃ offset p r, op = CListFiltered c limit offset p r) →
      Forall (λ k, ∃ id, m !! id = Some k) l →
      (op ≠ CList c → Z.of_nat (length l) ≤ Z.max 0 limit)%Z →
      key_step op m (Ok (VKeys l)) m
  | step_updates op id F f r m :
      call_update op = Some (id, F) → F f → m !! id = Some r →
      key_step op m (Ok VDone) (<[id := f r]> m)
  | step_deletes id r m :
      m !! id = Some r → key_step (CDelete id) m (Ok VDone) (delete id m)
  | step_purges before m :
      key_step (CDeleteExpired before) m
        (Ok (VCount (Z.of_nat (size m) -
           Z.of_nat (size (filter (λ kr, expired (stamp before) kr.2 = false) m)))))
        (filter (λ kr, expired (stamp before) kr.2 = false) m)
  | step_audits ev m : key_step (CAuditKeyEvent ev) m (Ok VDone) m.

Inductive key_run : list (key_call C) → Keys → list (result key_value) → Keys → Prop :=
  | run_nil m : key_run [] m [] m
  | run_cons op ops m v m1 vs m2 :
      key_step op m v m1 → key_run ops m1 vs m2 → key_run (op :: ops) m (v :: vs) m2.
End AbstractMachine.

(** ** Every implementation of the contract refines the machine *)

Section Refinement.
Context {S C : Type} `{KeyManagerSpec S C}.

Lemma update_spec_step (op : key_call C) id F f (m m' : gmap string KeyRecord) (o : result unit) :
  call_update storable stamp op = Some (id, F) → F f → call_target storable stamp op = Some id →
  update_spec f id m o m' → key_step storable stamp op m ((λ _, VDone) <$> o) m'.
Proof.
  intros Hop HF Ht. destruct o as [[]|e]; cbn.
  - intros [[r Hr] ->]. rewrite (alter_present _ _ _ r Hr). by eapply step_updates.
  - intros [-> Hnf]. apply step_fails. intros id' Hid. rewrite Ht in Hid. by injection Hid as <-.
Qed.

Lemma run_call_refines (op : key_call C) (s : S) v s' :
  run_call op s = (v, s') → key_step storable stamp op (keys s) v (keys s').
Proof.
  unfold run_call, answer. destruct op; intros [= <- <-];
    match goal with |- context [fst ?p] => destruct p as [o s1] eqn:E end; cbn [fst snd].
  - destruct (GetByID_spec _ _ _ _ E) as [-> Hr]. destruct o as [r|e]; [|by apply step_fails].
    rewrite (Hr r eq_refl). apply step_gets.
  - apply Create_spec in E. destruct o; [|rewrite E; by apply step_fails].
    destruct E as (? & rec' & ? & ->). by apply step_creates.
  - destruct (List_spec _ _ _ _ E) as [-> Hl]. destruct o as [l|e]; [|by apply step_fails].
    eapply (step_lists _ _ _ c _ _ 0); [by left|by apply Hl|done].
  - destruct (ListPaged_spec _ _ _ _ _ _ E) as [-> Hl]. destruct o as [l|e]; [|by apply step_fails].
    destruct (Hl l eq_refl). eapply (step_lists _ _ _ c _ _ limit); [by eauto|done|done].
  - destruct (ListFiltered_spec _ _ _ _ _ _ _ _ E) as [-> Hl]. destruct o as [l|e]; [|by apply step_fails].
    destruct (Hl l eq_refl). eapply (step_lists _ _ _ c _ _ limit); [by eauto 8|done|done].
  - apply SetEnabled_spec in E as [t Hu]. eapply update_spec_step; [done|cbn; by eauto|done|done].
  - apply SetRoles_spec in E as (t & l' & Hl & Hu). eapply update_spec_step; [done|cbn; by eauto|done|done].
  - apply SetAllowedCIDRs_spec in E as (t & l' & Hl & Hu). eapply update_spec_step; [done|cbn; by eauto|done|done].
  - apply UpdateHash_spec in E as [t Hu]. eapply update_spec_step; [done|cbn; by eauto|done|done].
  - apply Delete_spec in E. destruct o as [[]|e].
    + destruct E as [[r Hr] ->]. by eapply step_deletes.
    + destruct E as [-> Hnf]. apply step_fails. intros id' [= <-]. done.
  - apply DeleteExpired_spec in E. destruct o as [n|e]; [|rewrite E; by apply step_fails].
    destruct E as [E ->]. rewrite E. apply step_purges.
  - apply SetExpiresAt_spec in E as [t Hu]. eapply update_spec_step; [done|cbn; by eauto|done|done].
  - rewrite (AuditKeyEvent_spec _ _ _ _ E). destruct o as [[]|e]; [apply step_audits|by apply step_fails].
Qed.

Lemma run_calls_refine (ops : list (key_call C)) (s : S) vs s' :
  run_calls ops s = (vs, s') → key_run storable stamp ops (keys s) vs (keys s').
Proof.
  revert s vs. induction ops as [|op ops IH]; intros s vs; cbn [run_calls].
  { intros [= <- <-]. constructor. }
  destruct (run_call op s) as [v s1] eqn:E1. destruct (run_calls ops s1) as [vs1 s2] eqn:E2.
  intros [= <- <-]. econstructor; [by apply run_call_refines|by apply IH].
Qed.
End Refinement.
