(* ===== verification/MemoryStore.v ===== *)
(** * internal/store/memory: the in-memory key store

    The state is the Go map of records.  Every method holds the store's lock
    for its whole body, so a method is one atomic function on the map.  The
    iteration order of a Go map is not specified: [range m.keys] visits the
    keys in an order [ord] that the runtime picks anew for each call.
    [sort.Slice] is Go's unstable sort; only what its documentation promises is
    used. *)

From S2P Require Import Prelude GoStrings Store.
From Stdlib Require Import Sorting.Sorted.

(** ** sort.Slice *)

(** A [less] function [sort.Slice] accepts: a strict weak order. *)
Record weak_order {A} (less : A → A → bool) : Prop := {
  less_trans : ∀ a b c, less b a = false → less c b = false → less c a = false;
  less_total : ∀ a b, less a b = false ∨ less b a = false;
}.

Class SliceSort := {
  sort_Slice : ∀ {A}, (A → A → bool) → list A → list A;
  sort_Slice_perm A (less : A → A → bool) l : sort_Slice less l ≡ₚ l;
  sort_Slice_sorted A (less : A → A → bool) l :
    weak_order less → StronglySorted (λ a b, less b a = false) (sort_Slice less l);
}.

(** Merge sort satisfies the interface. *)
Definition merge_Slice {A} (less : A → A → bool) (l : list A) : list A :=
  @merge_sort A (λ a b, less b a = false) (λ a b, decide (less b a = false)) l.

#[export] Program Instance merge_SliceSort : SliceSort := {| sort_Slice := @merge_Slice |}.
Next Obligation. intros. apply merge_sort_Permutation. Qed.
Next Obligation.
  intros A less l [Htr Htot]. apply StronglySorted_merge_sort.
  - intros a b c. apply Htr.
  - intros a b. destruct (Htot b a); tauto.
Qed.

(** ** The store *)

Module Memory.

Abbreviation Store := (gmap string KeyRecord).

Definition NewStore : Store := ∅.

(** [for id, rec := range m.keys] in the order [ord]. *)
Definition rangeKeys (ord : list string) (m : Store) : list (string * KeyRecord) :=
  omap (λ id, (λ r, (id, r)) <$> m !! id) ord.
(** An order the runtime can pick: every key once. *)
Definition iterates (ord : list string) (m : Store) : Prop :=
  ord ≡ₚ elements (dom m).

Definition notFound (id : string) : gerror := ErrWrap ("key " +:+ id) ErrKeyNotFound.

Definition GetByID (id : string) (m : Store) : result (option KeyRecord) * Store :=
  match m !! id with
  | None => (Ok None, m)
  | Some rec => (Ok (Some rec), m)
  end.

Definition Create (now : Time) (rec : KeyRecord) (m : Store) : result unit * Store :=
  match m !! ID rec with
  | Some _ => (Err (ErrMsg ("key " +:+ ID rec +:+ " already exists")), m)
  | None =>
      let created := if time_IsZero (CreatedAt rec) then now else CreatedAt rec in
      let cp := mkKeyRecord (ID rec) (KeyHash rec) (HmacKeyID rec) (Principal rec) (Roles rec)
                  (AllowedCIDRs rec) (Enabled rec) (ExpiresAt rec) created now in
      (Ok (), <[ID rec := cp]> m)
  end.

Definition List (ord : list string) (m : Store) : result (list KeyRecord) * Store :=
  (Ok ((rangeKeys ord m).*2), m).

Definition clampPaging (limit offset : Z) : Z * Z :=
  (if (limit <? 0)%Z then 0%Z else limit, if (offset <? 0)%Z then 0%Z else offset).

Definition createdBefore (a b : KeyRecord) : bool := time_Before (CreatedAt a) (CreatedAt b).

(** The page of a sorted listing: [all[offset:]], then [all[:limit]]. *)
Definition page (limit offset : Z) (all : list KeyRecord) : list KeyRecord :=
  if (Z.of_nat (length all) <=? offset)%Z then []
  else
    let all := drop (Z.to_nat offset) all in
    if (limit <? Z.of_nat (length all))%Z then take (Z.to_nat limit) all else all.

Definition matches (principal role : string) (rec : KeyRecord) : bool :=
  if negb (principal =? "")%go && negb (Principal rec =? principal)%go then false
  else if negb (role =? "")%go then existsb (String.eqb role) (Roles rec)
  else true.

Section Listing.
Context `{SliceSort}.

Definition ListPaged (ord : list string) (limit offset : Z) (m : Store)
    : result (list KeyRecord) * Store :=
  let '(limit, offset) := clampPaging limit offset in
  let all := sort_Slice createdBefore ((rangeKeys ord m).*2) in
  (Ok (page limit offset all), m).

Definition ListFiltered (ord : list string) (limit offset : Z) (principal role : string)
    (m : Store) : result (list KeyRecord) * Store :=
  let '(limit, offset) := clampPaging limit offset in
  let all := sort_Slice createdBefore
               (filter (λ r, matches principal role r = true) ((rangeKeys ord m).*2)) in
  (Ok (page limit offset all), m).
End Listing.

(** The shape of the five single-record mutators: look up, fail with
    [ErrKeyNotFound], or update in place. *)
Definition update (f : KeyRecord → KeyRecord) (id : string) (m : Store) : result unit * Store :=
  match m !! id with
  | None => (Err (notFound id), m)
  | Some rec => (Ok (), <[id := f rec]> m)
  end.

Definition SetEnabled (now : Time) (id : string) (enabled : bool) : Store → result unit * Store :=
  update (set_Enabled enabled now) id.
Definition SetRoles (now : Time) (id : string) (roles : option (list string))
    : Store → result unit * Store :=
  update (set_Roles (default [] roles) now) id.
Definition SetAllowedCIDRs (now : Time) (id : string) (cidrs : option (list string))
    : Store → result unit * Store :=
  update (set_AllowedCIDRs (default [] cidrs) now) id.
Definition UpdateHash (now : Time) (id newHash newHmacKeyID : string)
    : Store → result unit * Store :=
  update (set_Hash newHash newHmacKeyID now) id.
Definition SetExpiresAt (now : Time) (id : string) (expiresAt : option Time)
    : Store → result unit * Store :=
  update (set_ExpiresAt expiresAt now) id.

Definition Delete (id : string) (m : Store) : result unit * Store :=
  match m !! id with
  | None => (Err (notFound id), m)
  | Some _ => (Ok (), delete id m)
  end.

(** The loop of [DeleteExpired] over the visited entries. *)
Fixpoint deleteExpiredLoop (before : Time) (visit : list (string * KeyRecord))
    (count : Z) (m : Store) : Z * Store :=
  match visit with
  | [] => (count, m)
  | (id, rec) :: rest =>
      if expired before rec then deleteExpiredLoop before rest (count + 1) (delete id m)
      else deleteExpiredLoop before rest count m
  end.
Definition DeleteExpired (ord : list string) (before : Time) (m : Store) : result Z * Store :=
  let '(count, m') := deleteExpiredLoop before (rangeKeys ord m) 0 m in (Ok count, m').

Definition AuditKeyEvent (ev : KeyEvent) (m : Store) : result unit * Store := (Ok (), m).

(** ** Lemmas *)

Lemma iterates_elements m : iterates (elements (dom m)) m.
Proof. by unfold iterates. Qed.

Lemma rangeKeys_perm ord m : iterates ord m → rangeKeys ord m ≡ₚ map_to_list m.
Proof.
  intros Ho. apply NoDup_Permutation.
  - assert (NoDup ord) as Hnd by (rewrite Ho; apply NoDup_elements).
    unfold rangeKeys. clear Ho. induction Hnd as [|id ord Hin Hnd IH]; cbn; [constructor|].
    destruct (m !! id) as [r|]; cbn; [|done]. constructor; [|done].
    rewrite list_elem_of_omap. intros (id' & Hid & E).
    destruct (m !! id'); cbn in *; simplify_eq. done.
  - apply NoDup_map_to_list.
  - intros [id r]. rewrite elem_of_map_to_list. unfold rangeKeys.
    rewrite list_elem_of_omap. split.
    + intros (id' & _ & E). destruct (m !! id') eqn:E'; cbn in E; simplify_eq. done.
    + intros E. exists id. rewrite E. split; [|done].
      rewrite Ho, elem_of_elements, elem_of_dom. by exists r.
Qed.

Lemma rangeKeys_elem ord m id r : (id, r) ∈ rangeKeys ord m → m !! id = Some r.
Proof.
  unfold rangeKeys. rewrite list_elem_of_omap. intros (id' & _ & E).
  destruct (m !! id') eqn:E'; cbn in E; by simplify_eq.
Qed.

Lemma update_refines f id m o m' :
  update f id m = (o, m') → update_spec f id m o m'.
Proof.
  unfold update. destruct (m !! id) as [rec|] eqn:E; intros [= <- <-]; cbn.
  - split; [by rewrite E|]. symmetry. by apply alter_present.
  - done.
Qed.

Lemma page_subset limit offset all : page limit offset all ⊆+ all.
Proof.
  unfold page. destruct (_ <=? _)%Z; [apply submseteq_nil_l|].
  assert (∀ l : list KeyRecord, l `suffix_of` all → l ⊆+ all) as Hs.
  { intros l [k ->]. by apply submseteq_inserts_l. }
  destruct (_ <? _)%Z.
  - etrans; [apply sublist_submseteq, sublist_take|]. apply Hs. apply suffix_drop.
  - apply Hs, suffix_drop.
Qed.

Lemma createdBefore_weak_order : weak_order createdBefore.
Proof.
  unfold createdBefore, time_Before. split.
  - intros a b c ?%Z.ltb_ge ?%Z.ltb_ge. apply Z.ltb_ge. lia.
  - intros a b. rewrite !Z.ltb_ge. lia.
Qed.

(** *** Deleting expired keys *)

Lemma deleteExpiredLoop_lookup before visit count m id :
  (deleteExpiredLoop before visit count m).2 !! id =
  if bool_decide (Exists (λ kr, kr.1 = id ∧ expired before kr.2 = true) visit)
  then None else m !! id.
Proof.
  revert count m. induction visit as [|[k r] rest IH]; intros count m; cbn; [done|].
  assert (bool_decide (Exists (λ kr, kr.1 = id ∧ expired before kr.2 = true) ((k, r) :: rest))
    = bool_decide (k = id ∧ expired before r = true) ||
      bool_decide (Exists (λ kr, kr.1 = id ∧ expired before kr.2 = true) rest)) as ->.
  { rewrite <- bool_decide_or. apply bool_decide_ext. by rewrite Exists_cons. }
  destruct (expired before r) eqn:Ex; rewrite IH.
  - destruct (bool_decide (Exists _ rest)); [by rewrite orb_true_r|]. rewrite orb_false_r.
    rewrite lookup_delete. case_decide as Hd; case_bool_decide; naive_solver.
  - case_bool_decide as Hd; [|by rewrite (bool_decide_eq_false_2 (k = id ∧ _)) by naive_solver].
    by rewrite orb_true_r.
Qed.

Lemma deleteExpiredLoop_count before visit count m :
  (deleteExpiredLoop before visit count m).1 =
  (count + Z.of_nat (length (filter (λ kr, expired before kr.2 = true) visit)))%Z.
Proof.
  revert count m. induction visit as [|[k r] rest IH]; intros count m; [cbn; lia|].
  cbn [deleteExpiredLoop]. rewrite filter_cons. cbn [snd].
  destruct (expired before r) eqn:Ex; rewrite IH; case_decide; cbn [length]; congruence || lia.
Qed.

Lemma DeleteExpired_result ord before m :
  iterates ord m →
  DeleteExpired ord before m =
    (Ok (Z.of_nat (size (filter (λ kr, expired before kr.2 = true) m))),
     filter (λ kr, expired before kr.2 = false) m).
Proof.
  intros Ho. pose proof (rangeKeys_perm ord m Ho) as Hp. unfold DeleteExpired.
  pose proof (deleteExpiredLoop_count before (rangeKeys ord m) 0 m) as Hc.
  pose proof (deleteExpiredLoop_lookup before (rangeKeys ord m) 0 m) as Hl.
  destruct (deleteExpiredLoop _ _ _ _) as [c m']. cbn in *. subst c. f_equal.
  - f_equal. rewrite map_filter_alt, map_size_list_to_map.
    2: { apply NoDup_fmap_filter, NoDup_fst_map_to_list. }
    by rewrite Hp.
  - apply map_eq. intros id. rewrite Hl, map_lookup_filter.
    case_bool_decide as Hex.
    + apply Exists_exists in Hex as ([k r] & Hin & [Hk Hr]). cbn in *. subst k.
      apply rangeKeys_elem in Hin. rewrite Hin. cbn.
      rewrite option_guard_False; [done|congruence].
    + destruct (m !! id) as [r|] eqn:E; [|done]. cbn.
      rewrite option_guard_True; [done|]. destruct (expired before r) eqn:Ex; [|done].
      contradict Hex. apply Exists_exists. exists (id, r). split; [|done].
      rewrite Hp. by apply elem_of_map_to_list.
Qed.

(** *** Listing *)

Lemma page_pages (all : list KeyRecord) (k i : nat) :
  page (Z.of_nat k) (Z.of_nat (i * k)) all = take k (drop (i * k) all).
Proof.
  unfold page. rewrite Nat2Z.id. destruct (Z.leb_spec (Z.of_nat (length all)) (Z.of_nat (i * k))).
  - rewrite drop_ge by lia. by rewrite take_nil.
  - destruct (Z.ltb_spec (Z.of_nat k) (Z.of_nat (length (drop (i * k) all)))).
    + by rewrite Nat2Z.id.
    + rewrite take_ge; [done|lia].
Qed.

(** The records a filtered listing selects, in the order of the ids. *)
Definition selected (principal role : string) (m : Store) : list KeyRecord :=
  filter (λ r, matches principal role r = true) (map_to_list m).*2.

Section ListingLemmas.
Context `{SliceSort}.

Definition listing (ord : list string) (principal role : string) (m : Store) : list KeyRecord :=
  sort_Slice createdBefore (filter (λ r, matches principal role r = true) ((rangeKeys ord m).*2)).

Lemma listing_perm ord principal role m :
  iterates ord m → listing ord principal role m ≡ₚ selected principal role m.
Proof.
  intros Ho. unfold listing, selected. rewrite sort_Slice_perm.
  by rewrite (rangeKeys_perm ord m Ho).
Qed.

Lemma listing_sorted ord principal role m :
  StronglySorted (λ a b, CreatedAt a ≤ CreatedAt b)%Z (listing ord principal role m).
Proof.
  pose proof (sort_Slice_sorted _ createdBefore
    (filter (λ r, matches principal role r = true) ((rangeKeys ord m).*2))
    createdBefore_weak_order) as Hs.
  fold (listing ord principal role m) in Hs.
  induction Hs as [|a l Hs IH Ha]; constructor; [done|].
  eapply Forall_impl; [done|]. intros b Hb. unfold createdBefore, time_Before in Hb.
  by apply Z.ltb_ge in Hb.
Qed.

(** With distinct creation times there is only one sorted listing. *)
Lemma listing_determined ord principal role m l :
  iterates ord m → NoDup (CreatedAt <$> selected principal role m) →
  l ≡ₚ selected principal role m → StronglySorted (λ a b, CreatedAt a ≤ CreatedAt b)%Z l →
  l = listing ord principal role m.
Proof.
  intros Ho Hnd Hl Hs.
  apply (StronglySorted_unique_strong (λ a b, CreatedAt a ≤ CreatedAt b)%Z);
    [|done|apply listing_sorted|].
  - intros a b Ha Hb Hab Hba. assert (CreatedAt a = CreatedAt b) as E by lia.
    rewrite Hl in Ha. rewrite listing_perm in Hb by done.
    apply list_elem_of_lookup in Ha as [i Hi]. apply list_elem_of_lookup in Hb as [j Hj].
    assert (i = j); [|by simplify_eq].
    apply (NoDup_lookup _ i j (CreatedAt a) Hnd); rewrite list_lookup_fmap, ?Hi, ?Hj; cbn;
      congruence.
  - by rewrite listing_perm.
Qed.

Lemma listing_unique ord ord' principal role m :
  iterates ord m → iterates ord' m → NoDup (CreatedAt <$> selected principal role m) →
  listing ord principal role m = listing ord' principal role m.
Proof.
  intros Ho Ho' Hnd. apply listing_determined; [done..|by apply listing_perm|apply listing_sorted].
Qed.

Lemma ListFiltered_listing ord limit offset principal role m :
  (0 ≤ limit)%Z → (0 ≤ offset)%Z →
  ListFiltered ord limit offset principal role m =
  (Ok (page limit offset (listing ord principal role m)), m).
Proof.
  intros Hl Hf. unfold ListFiltered, clampPaging.
  by rewrite (proj2 (Z.ltb_ge limit 0)), (proj2 (Z.ltb_ge offset 0)) by done.
Qed.
End ListingLemmas.
End Memory.

(** ** The store implements the key-manager contract *)

#[export] Instance Memory_KeyStore : KeyStore Memory.Store := {| GetByID := Memory.GetByID |}.

#[export] Instance Memory_KeyManager `{SliceSort} : KeyManager Memory.Store (list string) := {|
  Create := Memory.Create;
  List := Memory.List;
  ListPaged := Memory.ListPaged;
  ListFiltered := Memory.ListFiltered;
  SetEnabled := Memory.SetEnabled;
  SetRoles := Memory.SetRoles;
  SetAllowedCIDRs := Memory.SetAllowedCIDRs;
  UpdateHash := Memory.UpdateHash;
  Delete := Memory.Delete;
  DeleteExpired := λ before m, Memory.DeleteExpired (elements (dom m)) before m;
  SetExpiresAt := Memory.SetExpiresAt;
  AuditKeyEvent := Memory.AuditKeyEvent;
|}.

Lemma Memory_GetByID_spec id (s : Memory.Store) o s' :
  Memory.GetByID id s = (o, s') → s' = s ∧ (∀ r, o = Ok r → r = s !! id).
Proof. unfold Memory.GetByID. destruct (s !! id) eqn:E; naive_solver. Qed.

Lemma Memory_Create_spec now rec (s : Memory.Store) o s' :
  Memory.Create now rec s = (o, s') →
  match o with
  | Ok _ => s !! ID rec = None ∧ ∃ rec', same_key (λ _, True) id rec rec' ∧ s' = <[ID rec := rec']> s
  | Err _ => s' = s
  end.
Proof.
  unfold Memory.Create. destruct (s !! ID rec) eqn:E; intros [= <- <-]; [done|].
  split; [done|]. eexists. split; [|done]. unfold same_key, held.
  split_and!; try done. cbn. by rewrite option_fmap_id.
Qed.

Lemma Memory_ListFiltered_spec `{SliceSort} c limit offset p r (s : Memory.Store) o s' :
  Memory.ListFiltered c limit offset p r s = (o, s') → s' = s ∧
  ∀ l, o = Ok l → Forall (λ k, ∃ id, s !! id = Some k) l ∧
                  (Z.of_nat (length l) ≤ Z.max 0 limit)%Z.
Proof.
  unfold Memory.ListFiltered. destruct (Memory.clampPaging limit offset) as [lim off] eqn:Ec.
  intros [= <- <-]. split; [done|]. intros l [= <-]. split.
  - apply Forall_forall. intros k Hk.
    pose proof (elem_of_submseteq _ _ _ Hk (Memory.page_subset _ _ _)) as Hk'.
    rewrite sort_Slice_perm, list_elem_of_filter in Hk'. destruct Hk' as [_ Hk'].
    apply list_elem_of_fmap in Hk' as ([id r'] & -> & Hin).
    exists id. by eapply Memory.rangeKeys_elem.
  - unfold Memory.clampPaging in Ec. simplify_eq. unfold Memory.page.
    destruct (_ <=? _)%Z; cbn; [lia|].
    destruct (Z.ltb_spec (if (limit <? 0)%Z then 0%Z else limit)
      (Z.of_nat (length (drop (Z.to_nat (if (offset <? 0)%Z then 0%Z else offset))
        (sort_Slice Memory.createdBefore (filter (λ k, Memory.matches p r k = true)
          (Memory.rangeKeys c s).*2)))))); [rewrite length_take|];
      destruct (Z.ltb_spec limit 0); lia.
Qed.

Lemma rangeKeys_stored c (s : Memory.Store) :
  Forall (λ k, ∃ id, s !! id = Some k) (Memory.rangeKeys c s).*2.
Proof.
  apply Forall_forall. intros k ([id r] & -> & Hin)%list_elem_of_fmap.
  exists id. by eapply Memory.rangeKeys_elem.
Qed.

(** [ListPaged] is [ListFiltered] without a filter. *)
Lemma ListPaged_filtered `{SliceSort} c limit offset (s : Memory.Store) :
  Memory.ListPaged c limit offset s = Memory.ListFiltered c limit offset "" "" s.
Proof.
  unfold Memory.ListPaged, Memory.ListFiltered. destruct (Memory.clampPaging limit offset).
  by rewrite (filter_all (λ r, Memory.matches "" "" r = true)) by (by apply Forall_true).
Qed.

Lemma Memory_Delete_spec id (s : Memory.Store) o s' :
  Memory.Delete id s = (o, s') →
  match o with
  | Ok _ => is_Some (s !! id) ∧ s' = delete id s
  | Err e => s' = s ∧ (errors_Is e ErrKeyNotFound = true → s !! id = None)
  end.
Proof. unfold Memory.Delete. destruct (s !! id) eqn:E; intros [= <- <-]; naive_solver. Qed.

Lemma filter_size_split before (m : Memory.Store) :
  (Z.of_nat (size (filter (λ kr, expired before kr.2 = true) m)) =
   Z.of_nat (size m) - Z.of_nat (size (filter (λ kr, expired before kr.2 = false) m)))%Z.
Proof.
  rewrite <- (map_filter_union_complement (λ kr, expired before kr.2 = true) m) at 2.
  rewrite map_size_disj_union by apply map_disjoint_filter_complement.
  assert (filter (λ kr, ¬ expired before kr.2 = true) m =
          filter (λ kr, expired before kr.2 = false) m) as ->; [|lia].
  apply map_filter_ext. intros i x _. cbn. destruct (expired before x); naive_solver.
Qed.

#[local] Obligation Tactic := idtac.

#[export] Program Instance Memory_KeyManagerSpec `{SliceSort}
    : KeyManagerSpec Memory.Store (list string) :=
  {| keys := λ m, m; storable := λ _, True; stamp := id |}.
Next Obligation. intros ? id s o s'. apply Memory_GetByID_spec. Qed.
Next Obligation. intros; by eapply Memory_Create_spec. Qed.
Next Obligation.
  intros ? c s o s' [= <- <-]. split; [done|]. intros l [= <-]. apply rangeKeys_stored.
Qed.
Next Obligation.
  intros ? c limit offset s o s' Hq. change (ListPaged c limit offset s) with (Memory.ListPaged c limit offset s) in Hq.
  rewrite ListPaged_filtered in Hq.
  exact (Memory_ListFiltered_spec _ _ _ _ _ _ _ _ Hq).
Qed.
Next Obligation.
  intros ? c limit offset p r s o s' Hq. exact (Memory_ListFiltered_spec _ _ _ _ _ _ _ _ Hq).
Qed.
Next Obligation. intros ? now id b s o s' Hq. exists now. exact (Memory.update_refines _ _ _ _ _ Hq). Qed.
Next Obligation.
  intros ? now id l s o s' Hq. exists now, (default [] l). split; [done|].
  exact (Memory.update_refines _ _ _ _ _ Hq).
Qed.
Next Obligation.
  intros ? now id l s o s' Hq. exists now, (default [] l). split; [done|].
  exact (Memory.update_refines _ _ _ _ _ Hq).
Qed.
Next Obligation. intros ? now id h k s o s' Hq. exists now. exact (Memory.update_refines _ _ _ _ _ Hq). Qed.
Next Obligation.
  intros ? now id e s o s' Hq. exists now. rewrite option_fmap_id.
  exact (Memory.update_refines _ _ _ _ _ Hq).
Qed.
Next Obligation. intros ? id s o s'. apply Memory_Delete_spec. Qed.
Next Obligation.
  intros ? before s o s'. cbn.
  rewrite Memory.DeleteExpired_result by apply Memory.iterates_elements.
  intros [= <- <-]. split; [done|]. apply filter_size_split.
Qed.
Next Obligation. by intros ? ev s o s' [= <- <-]. Qed.

(** ** Reachable stores

    One step per mutating method; the state after any sequence of calls. *)

Inductive mem_step (m : Memory.Store) : Memory.Store → Prop :=
  | step_Create now rec : mem_step m (Memory.Create now rec m).2
  | step_SetEnabled now id b : mem_step m (Memory.SetEnabled now id b m).2
  | step_SetRoles now id l : mem_step m (Memory.SetRoles now id l m).2
  | step_SetAllowedCIDRs now id l : mem_step m (Memory.SetAllowedCIDRs now id l m).2
  | step_UpdateHash now id h k : mem_step m (Memory.UpdateHash now id h k m).2
  | step_SetExpiresAt now id e : mem_step m (Memory.SetExpiresAt now id e m).2
  | step_Delete id : mem_step m (Memory.Delete id m).2
  | step_DeleteExpired ord before :
      Memory.iterates ord m → mem_step m (Memory.DeleteExpired ord before m).2.

(** Every record sits under its own ID. *)
Definition indexed (m : Memory.Store) : Prop := map_Forall (λ id r, ID r = id) m.

(** The fields no method changes. *)
Definition same_identity (r r' : KeyRecord) : Prop :=
  ID r' = ID r ∧ Principal r' = Principal r ∧ CreatedAt r' = CreatedAt r.

Lemma update_lookup f id m j :
  (Memory.update f id m).2 !! j = if decide (id = j) then f <$> m !! j else m !! j.
Proof.
  unfold Memory.update. destruct (m !! id) eqn:E; cbn; [rewrite lookup_insert|];
    case_decide; subst; by rewrite ?E.
Qed.

Lemma update_indexed f id m :
  (∀ r, ID (f r) = ID r) → indexed m → indexed (Memory.update f id m).2.
Proof.
  intros Hf Hm j r. rewrite update_lookup. case_decide; [|by apply Hm].
  destruct (m !! j) as [r0|] eqn:E; cbn; [|done]. intros [= <-]. rewrite Hf. by apply Hm.
Qed.

Lemma update_identity f id m j r r' :
  (∀ x, same_identity x (f x)) → m !! j = Some r →
  (Memory.update f id m).2 !! j = Some r' → same_identity r r'.
Proof.
  intros Hf E. rewrite update_lookup, E. case_decide; cbn; intros [= <-]; [apply Hf|done].
Qed.

Lemma mem_step_indexed m m' : mem_step m m' → indexed m → indexed m'.
Proof.
  intros [now rec|now id b|now id l|now id l|now id h k|now id e|id|ord before Ho] Hm;
    try by apply update_indexed.
  - unfold Memory.Create. destruct (m !! ID rec); [done|]. by apply map_Forall_insert_2.
  - unfold Memory.Delete. destruct (m !! id); [|done]. by apply map_Forall_delete.
  - rewrite Memory.DeleteExpired_result by done.
    intros j r. cbn. rewrite map_lookup_filter_Some. intros [E _]. by apply Hm.
Qed.

Lemma mem_step_identity m m' id r r' :
  mem_step m m' → m !! id = Some r → m' !! id = Some r' → same_identity r r'.
Proof.
  intros Hs E. destruct Hs as [now rec|now i b|now i l|now i l|now i h k|now i e|i|ord before Ho];
    try by eapply update_identity.
  - unfold Memory.Create. destruct (m !! ID rec) eqn:E'; cbn; [rewrite E; by intros [= <-]|].
    rewrite lookup_insert_ne by congruence. rewrite E. by intros [= <-].
  - unfold Memory.Delete. destruct (m !! i); cbn; [|rewrite E; by intros [= <-]].
    rewrite lookup_delete. case_decide; [done|]. rewrite E. by intros [= <-].
  - rewrite Memory.DeleteExpired_result by done. cbn. rewrite map_lookup_filter, E. cbn.
    case_guard; [|done]. by intros [= <-].
Qed.

(** ** Properties *)

(** After any sequence of calls every record is stored under its own ID,
    and one more call never changes the ID, principal or creation time of a
    record that survives it. *)
Theorem memory_reachable_identity m m' id r r' :
  rtc mem_step Memory.NewStore m → mem_step m m' →
  m !! id = Some r → m' !! id = Some r' →
  ID r' = id ∧ same_identity r r'.
Proof.
  intros Hr Hs E E'.
  assert (indexed m) as Hi.
  { revert Hr. apply (rtc_ind_r indexed); [apply map_Forall_empty|].
    intros; by eapply mem_step_indexed. }
  split; [by apply (mem_step_indexed _ _ Hs Hi)|by eapply mem_step_identity].
Qed.

Definition ex_rec (id : string) (created : Time) : KeyRecord :=
  mkKeyRecord id "h" "hk" "alice" ["admin"] [] true None created created.
Definition ex_store : Memory.Store :=
  {[ "k1" := ex_rec "k1" 10; "k2" := ex_rec "k2" 10 ]}.

Lemma memory_reachable_identity_witness :
  ID (set_Enabled false 20 (ex_rec "k1" 10)) = "k1".
Proof.
  apply (memory_reachable_identity
    {["k1" := ex_rec "k1" 10]}
    (Memory.SetEnabled 20 "k1" false {["k1" := ex_rec "k1" 10]}).2 "k1"
    (ex_rec "k1" 10) (set_Enabled false 20 (ex_rec "k1" 10))).
  - eapply rtc_l; [|apply rtc_refl]. exact (step_Create ∅ 10 (ex_rec "k1" 10)).
  - apply step_SetEnabled.
  - vm_compute. reflexivity.
  - vm_compute. reflexivity.
Defined.

(** [DeleteExpired] removes exactly the keys whose expiry lies before the
    given time, keeps every other record unchanged and returns the number of
    keys it removed, whatever order the map is visited in. *)
Theorem memory_DeleteExpired_exact ord before m :
  Memory.iterates ord m →
  Memory.DeleteExpired ord before m =
    (Ok (Z.of_nat (size m) - Z.of_nat (size (filter (λ kr, expired before kr.2 = false) m)))%Z,
     filter (λ kr, expired before kr.2 = false) m).
Proof. intros Ho. by rewrite Memory.DeleteExpired_result, filter_size_split. Qed.

Definition ex_store_expired : Memory.Store :=
  <["k1" := set_ExpiresAt (Some 40%Z) 20 (ex_rec "k1" 10)]> ex_store.

Lemma memory_DeleteExpired_exact_witness :
  Memory.DeleteExpired ["k2"; "k1"] 50 ex_store_expired = (Ok 1%Z, {["k2" := ex_rec "k2" 10]}).
Proof.
  rewrite (memory_DeleteExpired_exact ["k2"; "k1"] 50 ex_store_expired).
  - vm_compute. reflexivity.
  - vm_compute. apply Permutation_swap || reflexivity.
Defined.

(** Listing in pages of [k] keys returns every selected key exactly once
    and in creation order, even though every page visits the map in an order of
    its own, provided no two selected keys have the same creation time. *)
Theorem memory_ListFiltered_pages `{SliceSort} (ords : nat → list string) (k n : nat)
    principal role m :
  (∀ i, Memory.iterates (ords i) m) →
  NoDup (CreatedAt <$> Memory.selected principal role m) →
  length (Memory.selected principal role m) ≤ n * k →
  ∃ all, all ≡ₚ Memory.selected principal role m ∧
    StronglySorted (λ a b, CreatedAt a ≤ CreatedAt b)%Z all ∧
    (∀ i, Memory.ListFiltered (ords i) (Z.of_nat k) (Z.of_nat (i * k)) principal role m =
          (Ok (take k (drop (i * k) all)), m)) ∧
    concat ((λ i, take k (drop (i * k) all)) <$> seq 0 n) = all.
Proof.
  intros Ho Hnd Hn. exists (Memory.listing (ords 0) principal role m).
  split; [by apply Memory.listing_perm|]. split; [apply Memory.listing_sorted|]. split.
  - intros i. rewrite Memory.ListFiltered_listing by lia.
    by rewrite (Memory.listing_unique (ords i) (ords 0)), Memory.page_pages.
  - rewrite concat_pages. apply take_ge. by rewrite Memory.listing_perm.
Qed.

Definition ex_store2 : Memory.Store :=
  {[ "k1" := ex_rec "k1" 10; "k2" := ex_rec "k2" 20 ]}.

Lemma memory_ListFiltered_pages_witness :
  ∃ all, all ≡ₚ Memory.selected "" "" ex_store2 ∧ length all = 2.
Proof.
  destruct (memory_ListFiltered_pages (λ i, if Nat.even i then ["k1"; "k2"] else ["k2"; "k1"])
    1 2 "" "" ex_store2) as (all & Hp & _).
  - intros i. destruct (Nat.even i); vm_compute; apply Permutation_swap || reflexivity.
  - vm_compute. repeat constructor; rewrite list_elem_of_In; cbn; intuition discriminate.
  - vm_compute. lia.
  - exists all. split; [exact Hp|]. rewrite Hp. reflexivity.
Defined.

(** Two keys created at the same time can make pages repeat one key and
    skip the other: the first page of one key and the second page of one key
    both show [k1], and [k2] is on neither. *)
Theorem memory_ListFiltered_ties_skip :
  ∃ ord ord', Memory.iterates ord ex_store ∧ Memory.iterates ord' ex_store ∧
    Memory.ListFiltered ord 1 0 "" "" ex_store = (Ok [ex_rec "k1" 10], ex_store) ∧
    Memory.ListFiltered ord' 1 1 "" "" ex_store = (Ok [ex_rec "k1" 10], ex_store).
Proof.
  exists ["k1"; "k2"], ["k2"; "k1"].
  split; [vm_compute; apply Permutation_swap || reflexivity|].
  split; [vm_compute; apply Permutation_swap || reflexivity|].
  split; reflexivity.
Qed.
