(* ===== verification/PgArray.v ===== *)
(** * internal/store/postgres/pgarray.go: text[] literals

    [TextArray] is a [[]string]; [None] is the nil slice.  [Value] prints an
    array literal, [Scan] parses one.  The parser is the byte loop of the code
    with its five variables as a record.  The theorems give the elements for
    which the two are inverse to each other, and one for which they are not. *)

From S2P Require Import Prelude GoStrings Utf8.
From Stdlib Require Import Ascii.

Abbreviation TextArray := (option (list string)).

(** The driver values [Scan] receives. *)
Inductive dbvalue :=
  | DBNil | DBString (s : string) | DBBytes (s : string) | DBOther.

Definition quote_char : ascii := chr 34.
Definition backslash : ascii := chr 92.
Definition comma : ascii := chr 44.
Definition lbrace : ascii := chr 123.
Definition rbrace : ascii := chr 125.

(** ** Printing *)

Definition needsQuote (s : string) : bool :=
  (s =? "")%go || ContainsAny s (bytes [123; 125; 44; 34; 92]%Z)
  || ContainsAny s (bytes [32; 9; 10]%Z).

(** The body of the quoting loop for one rune. *)
Definition quoteRune (c : Z) : string :=
  (if (c =? 34)%Z || (c =? 92)%Z then String backslash "" else "") +:+ encode_rune c.

Definition quoteArrayElement (s : string) : string :=
  if needsQuote s then
    String quote_char (foldr (λ c acc, quoteRune c +:+ acc) (String quote_char "") (range_runes s))
  else s.

Definition Value (a : TextArray) : option string :=
  match a with
  | None => None
  | Some l => Some ("{" +:+ Join (quoteArrayElement <$> l) "," +:+ "}")
  end.

(** ** Parsing *)

Record pstate := mkPstate {
  p_result : list string;
  current : string;
  inQuote : bool;
  escaped : bool;
  quoted : bool;
}.

Definition pinit : pstate := mkPstate [] "" false false false.

Definition flush (st : pstate) : result pstate :=
  if quoted st then Ok (mkPstate (p_result st ++ [current st]) "" (inQuote st) (escaped st) false)
  else
    let val := TrimSpace (current st) in
    if EqualFold val "NULL" then
      Err (ErrMsg "pgarray: NULL array elements are not supported")
    else Ok (mkPstate (p_result st ++ [val]) "" (inQuote st) (escaped st) false).

Definition addByte (c : ascii) (st : pstate) : pstate :=
  mkPstate (p_result st) (current st +:+ String c "") (inQuote st) false (quoted st).

(** One iteration of the loop. *)
Definition pstep (c : ascii) (st : pstate) : result pstate :=
  if escaped st then Ok (addByte c st)
  else if Ascii.eqb c backslash then
    Ok (mkPstate (p_result st) (current st) (inQuote st) true (quoted st))
  else if Ascii.eqb c quote_char then
    Ok (mkPstate (p_result st) (current st) (negb (inQuote st)) (escaped st) true)
  else if Ascii.eqb c comma && negb (inQuote st) then flush st
  else Ok (addByte c st).

Fixpoint ploop (s : string) (st : pstate) : result pstate :=
  match s with
  | "" => Ok st
  | String c s' => st' ← pstep c st; ploop s' st'
  end.

Definition parseArrayElements (s : string) : result (list string) :=
  st ← ploop s pinit; st' ← flush st; mret (p_result st').

(** [s[len(s)-1]] and [s[:len(s)-1]] *)
Fixpoint slast (s : string) : option ascii :=
  match s with "" => None | String c "" => Some c | String _ s' => slast s' end.
Fixpoint sinit (s : string) : string :=
  match s with "" => "" | String c "" => "" | String c s' => String c (sinit s') end.

Definition shead (s : string) : option ascii :=
  match s with "" => None | String c _ => Some c end.
Definition stail (s : string) : string :=
  match s with "" => "" | String _ s' => s' end.

Definition Scan_text (s0 : string) : result TextArray :=
  let s := TrimSpace s0 in
  if (s =? "{}")%go then Ok (Some [])
  else if (slen s <? 2)%Z || negb (bool_decide (shead s = Some lbrace))
          || negb (bool_decide (slast s = Some rbrace)) then
    Err (ErrMsg ("pgarray: invalid array literal: " +:+ s))
  else elems ← parseArrayElements (sinit (stail s)); mret (Some elems).

Definition Scan (src : dbvalue) : result TextArray :=
  match src with
  | DBNil => Ok None
  | DBString s | DBBytes s => Scan_text s
  | DBOther => Err (ErrMsg "pgarray: cannot scan")
  end.

(** The driver value of [Value]'s result. *)
Definition driverValue (v : option string) : dbvalue :=
  match v with None => DBNil | Some s => DBString s end.

(** The elements that survive a round trip: a quoted element must be valid
    UTF-8, an unquoted one must not be trimmed or read as NULL. *)
Definition storable (e : string) : bool :=
  if needsQuote e then ValidString e
  else (TrimSpace e =? e)%go && negb (EqualFold e "NULL").

(** ** Lemmas: the parser on one printed element *)

Lemma srev_app_app s t acc : srev_app (s +:+ t) acc = srev_app t (srev_app s acc).
Proof. revert acc. induction s; intros; cbn; auto. Qed.

Lemma srev_app_srev_app s acc acc' : srev_app (srev_app s acc) acc' = srev_app acc (s +:+ acc').
Proof. revert acc. induction s as [|c s IH]; intros acc; [done|]. cbn. by rewrite IH. Qed.

Lemma srev_involutive s : srev (srev s) = s.
Proof. unfold srev. rewrite srev_app_srev_app. apply sapp_nil_r. Qed.

(** A braced text has no white space around it. *)
Lemma TrimSpace_braced s : TrimSpace (String lbrace (s +:+ String rbrace "")) =
  String lbrace (s +:+ String rbrace "").
Proof.
  unfold TrimSpace.
  assert (trim_left space_encodings (String lbrace (s +:+ String rbrace "")) =
    String lbrace (s +:+ String rbrace "")) as -> by reflexivity.
  change (String lbrace (s +:+ String rbrace "")) with (String lbrace s +:+ String rbrace "").
  set (t := String lbrace s). unfold srev at 3. rewrite srev_app_app. cbn [srev_app].
  assert (∀ r, trim_left (srev <$> space_encodings) (String rbrace r) = String rbrace r) as ->
    by reflexivity.
  change (String rbrace (srev_app t "")) with (srev_app (String rbrace "") (srev_app t "")).
  rewrite <- srev_app_app. apply srev_involutive.
Qed.

Lemma sinit_snoc s c : sinit (s +:+ String c "") = s.
Proof.
  induction s as [|d s IH]; [done|]. cbn. rewrite IH. by destruct s.
Qed.
Lemma slast_snoc s c : slast (s +:+ String c "") = Some c.
Proof. induction s as [|d s IH]; [done|]. cbn. rewrite IH. by destruct s. Qed.

Lemma ploop_app s t st : ploop (s +:+ t) st = (st' ← ploop s st; ploop t st').
Proof.
  revert st. induction s as [|c s IH]; intros st; [done|]. cbn.
  destruct (pstep c st); cbn; [apply IH|done].
Qed.

(** Bytes without a meaning to the parser are copied. *)
Definition plain (q : bool) (c : ascii) : bool :=
  negb (Ascii.eqb c backslash) && negb (Ascii.eqb c quote_char) && (q || negb (Ascii.eqb c comma)).

Fixpoint all_plain (q : bool) (s : string) : bool :=
  match s with "" => true | String c s' => plain q c && all_plain q s' end.

Lemma ploop_plain q s st :
  inQuote st = q → escaped st = false → all_plain q s = true →
  ploop s st = Ok (mkPstate (p_result st) (current st +:+ s) q false (quoted st)).
Proof.
  revert st. induction s as [|c s IH]; intros st Hq He; cbn.
  - intros _. rewrite sapp_nil_r. destruct st; cbn in *; by subst.
  - intros [Hc Hs]%andb_true_iff. unfold plain in Hc. unfold pstep. rewrite He, Hq.
    apply andb_true_iff in Hc as [[H1 H2]%andb_true_iff H3].
    apply negb_true_iff in H1, H2. rewrite H1, H2.
    assert (Ascii.eqb c comma && negb q = false) as ->.
    { destruct q; cbn in H3; [by rewrite andb_false_r|]. by apply negb_true_iff in H3 as ->. }
    cbn. rewrite IH by done. cbn. by rewrite sapp_assoc.
Qed.

Lemma plain_chr z : (128 ≤ z < 256)%Z → plain true (chr z) = true.
Proof.
  intros Hz. unfold plain, backslash, quote_char.
  by rewrite !chr_eqb_neq by lia.
Qed.

Lemma plain_bytes l : Forall (λ z, 128 ≤ z < 256)%Z l → all_plain true (bytes l) = true.
Proof.
  induction 1 as [|z l Hz Hl IH]; [done|].
  change (bytes (z :: l)) with (String (chr z) (bytes l)). cbn [all_plain].
  by rewrite plain_chr, IH.
Qed.

(** Apart from the quote and the backslash, an encoded rune is plain text. *)
Lemma encode_rune_plain r :
  (0 ≤ r)%Z → r ≠ 34%Z → r ≠ 92%Z → all_plain true (encode_rune r) = true.
Proof.
  intros H0 H1 H2. unfold encode_rune.
  destruct (Z.ltb_spec r 128).
  { cbn. unfold plain, backslash, quote_char.
    by rewrite !chr_eqb_neq by lia. }
  pose proof (Z.mod_pos_bound r 64). pose proof (Z.mod_pos_bound (r `div` 64) 64).
  pose proof (Z.mod_pos_bound (r `div` 4096) 64).
  destruct (Z.ltb_spec r 2048).
  { apply plain_bytes. pose proof (Z.div_lt_upper_bound r 64 32). pose proof (Z.div_pos r 64).
    repeat constructor; lia. }
  destruct (_ && _); [by apply plain_bytes; repeat constructor|].
  destruct (Z.ltb_spec r 65536).
  { apply plain_bytes. pose proof (Z.div_lt_upper_bound r 4096 16). pose proof (Z.div_pos r 4096).
    repeat constructor; lia. }
  destruct (Z.leb_spec r 1114111); [|by apply plain_bytes; repeat constructor].
  apply plain_bytes. pose proof (Z.div_lt_upper_bound r 262144 16).
  pose proof (Z.div_pos r 262144). repeat constructor; lia.
Qed.

Lemma decode_nonneg c s1 r rest : decode_rune c s1 = (r, true, rest) → (0 ≤ r)%Z.
Proof.
  unfold decode_rune, lead2, lead3, lead4. pose proof (byte_range c).
  destruct (Z.ltb_spec (byte c) 128); [by intros [= <- <-]; lia|].
  destruct s1 as [|c1 s2]; [done|]. destruct (_ && cont c1) eqn:E2.
  { intros [= <- <-]. apply andb_true_iff in E2 as [? ?%cont_bounds]. unfold rune2. lia. }
  destruct s2 as [|c2 s3]; [done|]. destruct (_ && cont c2) eqn:E3.
  { intros [= <- <-]. apply andb_true_iff in E3 as [[? ?%accept_bounds]%andb_true_iff ?%cont_bounds].
    unfold rune3. lia. }
  destruct s3 as [|c3 s4]; [done|]. destruct (_ && cont c3) eqn:E4; [|done].
  intros [= <- <-]. apply andb_true_iff in E4 as [[[? ?%accept_bounds]%andb_true_iff
    ?%cont_bounds]%andb_true_iff ?%cont_bounds]. unfold rune4. lia.
Qed.

(** Inside quotes the parser undoes [quoteRune], rune after rune. *)
Lemma ploop_quoteRune r st :
  (0 ≤ r)%Z → inQuote st = true → escaped st = false →
  ploop (quoteRune r) st =
  Ok (mkPstate (p_result st) (current st +:+ encode_rune r) true false (quoted st)).
Proof.
  intros Hr Hq He. unfold quoteRune.
  destruct (Z.eqb_spec r 34) as [->|H1]; [destruct st; cbn in *; by subst|].
  destruct (Z.eqb_spec r 92) as [->|H2]; [destruct st; cbn in *; by subst|].
  apply ploop_plain; [done|done|]. by apply encode_rune_plain.
Qed.

Lemma ploop_quoted s : ValidString s = true → ∀ tail st,
  inQuote st = true → escaped st = false →
  ploop (foldr (λ c acc, quoteRune c +:+ acc) tail (range_runes s)) st =
  ploop tail (mkPstate (p_result st) (current st +:+ s) true false (quoted st)).
Proof.
  intros Hs. pattern s. apply valid_string_ind; [| |exact Hs]; clear s Hs.
  - intros tail st Hq He. cbn. rewrite sapp_nil_r. destruct st; cbn in *; by subst.
  - intros c s1 r rest Hd Hv IH tail st Hq He.
    rewrite (range_runes_cons _ _ _ _ _ Hd). cbn [foldr].
    rewrite ploop_app, ploop_quoteRune by (done || by eapply decode_nonneg). cbn [mbind result_bind].
    rewrite IH by done. cbn. by rewrite sapp_assoc, (decode_encode _ _ _ _ Hd).
Qed.

Lemma needsQuote_plain s : needsQuote s = false → all_plain false s = true.
Proof.
  unfold needsQuote. intros H. apply orb_false_iff in H as [H _].
  apply orb_false_iff in H as [_ H]. revert H.
  induction s as [|c s IH]; [done|]. cbn [ContainsAny all_plain].
  intros [H1 H2]%orb_false_iff. rewrite (IH H2), andb_true_r.
  change (Ascii.eqb c lbrace || (Ascii.eqb c rbrace || (Ascii.eqb c comma ||
    (Ascii.eqb c quote_char || (Ascii.eqb c backslash || false)))) = false) in H1.
  apply orb_false_iff in H1 as [_ [_ [Hc [Hq [Hb _]%orb_false_iff]%orb_false_iff]%orb_false_iff
    ]%orb_false_iff].
  unfold plain. by rewrite Hc, Hq, Hb.
Qed.

(** The state after one printed element, and what [flush] makes of it. *)
Lemma ploop_element e l :
  storable e = true →
  (st ← ploop (quoteArrayElement e) (mkPstate l "" false false false); flush st) =
  Ok (mkPstate (l ++ [e]) "" false false false).
Proof.
  unfold storable, quoteArrayElement. destruct (needsQuote e) eqn:Hq.
  - intros Hv. cbn [ploop]. change (pstep quote_char (mkPstate l "" false false false))
      with (Ok (mkPstate l "" true false true)). cbn [mbind result_bind].
    rewrite ploop_quoted by done. done.
  - intros [Ht%String.eqb_eq Hn%negb_true_iff]%andb_true_iff.
    rewrite (ploop_plain false) by (done || by apply needsQuote_plain).
    cbn [mbind result_bind]. unfold flush. cbn [quoted current p_result inQuote escaped String.append].
    by rewrite Ht, Hn.
Qed.

Lemma flush_flags st st' :
  flush st = Ok st' → inQuote st' = inQuote st ∧ escaped st' = escaped st.
Proof. unfold flush. intros H. repeat split_if; by simplify_eq. Qed.

(** A comma outside quotes ends the element. *)
Lemma ploop_comma s st :
  inQuote st = false → escaped st = false → ploop ("," +:+ s) st = (st' ← flush st; ploop s st').
Proof. destruct st; cbn. by intros -> ->. Qed.

(** A printed element [p] that the parser reads as [e]. *)
Definition reads_as (p e : string) : Prop :=
  p ≠ "" ∧ ∀ acc, (st ← ploop p (mkPstate acc "" false false false); flush st) =
                  Ok (mkPstate (acc ++ [e]) "" false false false).

Lemma ploop_parts p ps es acc :
  Forall2 reads_as (p :: ps) es →
  (st ← ploop (Join (p :: ps) ",") (mkPstate acc "" false false false); flush st) =
  Ok (mkPstate (acc ++ es) "" false false false).
Proof.
  revert p es acc. induction ps as [|p' ps IH]; intros p es acc Hf;
    inversion Hf as [|? e ? es' [_ H1] Hl]; subst.
  - inversion Hl. apply H1.
  - rewrite Join_cons2, ploop_app. specialize (H1 acc).
    destruct (ploop p _) as [st|] eqn:E; cbn [mbind result_bind] in H1 |- *; [|done].
    destruct (flush_flags _ _ H1) as [Hq Hx].
    rewrite ploop_comma, H1 by done. cbn [mbind result_bind].
    pose proof (IH p' es' (acc ++ [e]) Hl) as IH'. by rewrite <- app_assoc in IH'.
Qed.

Lemma encode_rune_not_nil r : encode_rune r ≠ "".
Proof. unfold encode_rune. by repeat split_if. Qed.

Lemma quoteArrayElement_not_nil e : quoteArrayElement e ≠ "".
Proof. unfold quoteArrayElement. destruct (needsQuote e) eqn:H; [done|]. by intros ->. Qed.

Lemma Join_not_nil p ps : p ≠ "" → Join (p :: ps) "," ≠ "".
Proof. destruct ps; [done|]. rewrite Join_cons2. by destruct p. Qed.

Lemma String_length_snoc s c : String.length (s +:+ String c "") = S (String.length s).
Proof. induction s as [|d s IH]; cbn in *; lia. Qed.

(** [Scan] parses what is between the braces. *)
Lemma Scan_parse inner :
  inner ≠ "" →
  Scan_text ("{" +:+ inner +:+ "}") = (elems ← parseArrayElements inner; mret (Some elems)).
Proof.
  intros Hne. unfold Scan_text.
  change ("{" +:+ inner +:+ "}") with (String lbrace (inner +:+ String rbrace "")).
  rewrite TrimSpace_braced. set (s := String lbrace (inner +:+ String rbrace "")).
  assert (Hs : (slen s <? 2)%Z = false).
  { apply Z.ltb_ge. unfold s, slen. cbn [String.length]. rewrite String_length_snoc. lia. }
  assert (slast s = Some rbrace) as Hlast.
  { apply (slast_snoc (String lbrace inner)). }
  destruct (String.eqb_spec s "{}") as [Hi|_].
  { exfalso. unfold s in Hi. injection Hi as Hi. destruct inner as [|? [|]]; by simplify_eq/=. }
  rewrite Hs, Hlast, !bool_decide_true by done. cbn [orb negb].
  unfold s; cbn [stail]. by rewrite sinit_snoc.
Qed.

Lemma Scan_parts ps es :
  Forall2 reads_as ps es → Scan_text ("{" +:+ Join ps "," +:+ "}") = Ok (Some es).
Proof.
  destruct ps as [|p ps]; intros Hf; [by inversion Hf|].
  rewrite Scan_parse by (inversion Hf as [|???? [? _]]; by apply Join_not_nil).
  pose proof (ploop_parts p ps es [] Hf) as Hp. unfold parseArrayElements, pinit.
  destruct (ploop _ _) as [st|]; cbn [mbind result_bind] in *; [|done]. by rewrite Hp.
Qed.

Lemma reads_as_quoted e : storable e = true → reads_as (quoteArrayElement e) e.
Proof. intros He. split; [apply quoteArrayElement_not_nil|]. intros acc. by apply ploop_element. Qed.

Lemma Scan_literal l :
  Forall (λ e, storable e = true) l →
  Scan_text ("{" +:+ Join (quoteArrayElement <$> l) "," +:+ "}") = Ok (Some l).
Proof.
  intros Hl. apply Scan_parts. rewrite Forall2_fmap_l. induction Hl; constructor; [|done].
  by apply reads_as_quoted.
Qed.

(** C40: [Scan] undoes [Value] on every array whose quoted elements are valid
    UTF-8 and whose unquoted elements are neither trimmed nor the word NULL;
    the nil array survives as well. *)
Theorem TextArray_roundtrip (a : TextArray) :
  Forall (λ e, storable e = true) (default [] a) →
  Scan (driverValue (Value a)) = Ok a.
Proof. destruct a as [l|]; [|done]. intros Hl. by apply Scan_literal. Qed.

Lemma TextArray_roundtrip_witness :
  Scan (driverValue (Value (Some ["a b"; ""; "x,{y}"; "c\d"; "plain"]))) =
  Ok (Some ["a b"; ""; "x,{y}"; "c\d"; "plain"]).
Proof. apply (TextArray_roundtrip (Some _)). repeat constructor. Defined.

(** [Scan] refuses a literal one of whose elements is the bare word NULL. *)
Lemma ploop_null e l1 l2 acc :
  Forall (λ x, storable x = true) l1 → EqualFold (TrimSpace e) "NULL" = true → needsQuote e = false →
  is_Ok (st ← ploop (Join (quoteArrayElement <$> l1 ++ e :: l2) ",") (mkPstate acc "" false false false);
   flush st) = false.
Proof.
  intros Hl1 He Hq. assert (Hn : ∀ acc, ∃ st, ploop (quoteArrayElement e) (mkPstate acc "" false false false)
    = Ok st ∧ is_Ok (flush st) = false ∧ escaped st = false ∧ inQuote st = false).
  { intros acc'. unfold quoteArrayElement. rewrite Hq. eexists. split_and!.
    - apply (ploop_plain false); [done..|by apply needsQuote_plain].
    - unfold flush. cbn [quoted current p_result inQuote escaped String.append]. by rewrite He.
    - done.
    - done. }
  revert acc. induction Hl1 as [|x l1 Hx Hl1 IH]; intros acc.
  - destruct (Hn acc) as (st & E & Hf & Hx & Hi). destruct l2 as [|y l2].
    { change (Join (quoteArrayElement <$> [] ++ [e]) ",") with (quoteArrayElement e). by rewrite E. }
    cbn [app fmap list_fmap]. rewrite Join_cons2, ploop_app, E. cbn [mbind result_bind].
    rewrite ploop_comma by done. by destruct (flush st).
  - pose proof (ploop_element x acc Hx) as H1.
    destruct (l1 ++ e :: l2) as [|y l'] eqn:El; [by destruct l1|].
    cbn [app]. rewrite El. cbn [fmap list_fmap]. rewrite Join_cons2, ploop_app.
    destruct (ploop (quoteArrayElement x) _) as [st|] eqn:E; cbn [mbind result_bind] in H1 |- *; [|done].
    destruct (flush_flags _ _ H1) as [Hq' Hx'].
    rewrite ploop_comma, H1 by done. cbn [mbind result_bind]. apply IH.
Qed.

Lemma lower_NULL c d :
  d ∈ ["n"; "u"; "l"]%char → ascii_lower c = d → c = d ∨ c = ascii_upper d.
Proof.
  intros Hd <-. revert Hd.
  destruct c as [[] [] [] [] [] [] [] []]; vm_compute; intros Hd; first [by left | by right | exfalso];
    by repeat (apply elem_of_cons in Hd as [Hd|Hd]; [congruence|]); inversion Hd.
Qed.

(** The sixteen spellings of NULL are written unquoted and not trimmed. *)
Lemma EqualFold_NULL e :
  EqualFold e "NULL" = true → needsQuote e = false ∧ TrimSpace e = e.
Proof.
  intros He%String.eqb_eq. destruct e as [|a [|b [|c [|d [|]]]]]; try done.
  change (smap ascii_lower "NULL") with "null" in He. cbn [smap] in He. injection He as Ha Hb Hc Hd.
  apply lower_NULL in Ha as [->| ->], Hb as [->| ->], Hc as [->| ->], Hd as [->| ->];
    try (by repeat constructor); by split.
Qed.

(** An array with an element spelled NULL, in any case, is written as a
    literal that [Scan] then refuses: a key with the role "null" can be stored
    but not read back. *)
Theorem TextArray_null_element l1 e l2 :
  Forall (λ x, storable x = true) l1 → EqualFold e "NULL" = true →
  is_Ok (Scan (driverValue (Value (Some (l1 ++ e :: l2))))) = false.
Proof.
  intros Hl1 He. destruct (EqualFold_NULL e He) as [Hq Ht].
  destruct (l1 ++ e :: l2) as [|y l'] eqn:El; [by destruct l1|]. cbn [driverValue Value Scan].
  rewrite Scan_parse by apply Join_not_nil, quoteArrayElement_not_nil. cbn [fmap] in *.
  change (Join (quoteArrayElement y :: list_fmap _ _ quoteArrayElement l') ",") with (Join (quoteArrayElement <$> y :: l') ",").
  rewrite <- El. pose proof (ploop_null e l1 l2 [] Hl1) as Hp. rewrite Ht in Hp.
  specialize (Hp He Hq). unfold parseArrayElements, pinit.
  destruct (ploop _ _) as [st|]; [|done]. cbn [mbind result_bind] in *.
  by destruct (flush st).
Qed.

Lemma TextArray_null_element_witness :
  is_Ok (Scan (driverValue (Value (Some (["admin"] ++ "Null" :: []))))) = false.
Proof. apply TextArray_null_element; [by repeat constructor|reflexivity]. Defined.
