(* ===== verification/GoNet.v ===== *)
(** * The parts of Go's net package the gateway uses

    Addresses are byte lists, as [net.IP] is: [ParseIP] yields the 16-byte
    form, also for IPv4.  [ParseCIDR] yields a network with a 4-byte or 16-byte
    address and mask; [Contains], [SplitHostPort] and [IP.String] follow the
    library's algorithms. *)

From S2P Require Import Prelude GoStrings.
From Stdlib Require Import Ascii.

Abbreviation IP := (list Z) (only parsing).

(** ** Strings by position *)

Fixpoint IndexByte (s : string) (c : ascii) : option nat :=
  match s with
  | "" => None
  | String d s' => if Ascii.eqb d c then Some 0 else S <$> IndexByte s' c
  end.

Fixpoint LastIndexByte (s : string) (c : ascii) : option nat :=
  match s with
  | "" => None
  | String d s' =>
      match LastIndexByte s' c with
      | Some i => Some (S i)
      | None => if Ascii.eqb d c then Some 0 else None
      end
  end.

Fixpoint str_take (n : nat) (s : string) : string :=
  match n, s with
  | S n', String c s' => String c (str_take n' s')
  | _, _ => ""
  end.
Fixpoint str_drop (n : nat) (s : string) : string :=
  match n, s with
  | S n', String _ s' => str_drop n' s'
  | _, _ => s
  end.

Definition digit (c : ascii) : option Z :=
  if (48 <=? byte c)%Z && (byte c <=? 57)%Z then Some (byte c - 48)%Z else None.

(** ** Addresses: netip.ParseAddr *)

(** One octet of a dotted quad: digits without a leading zero, at most 255. *)
Fixpoint parseOctet (val : Z) (digLen : nat) (s : string) : option Z :=
  match s with
  | "" => if bool_decide (digLen = 0) then None else Some val
  | String c s' =>
      d ← digit c;
      if bool_decide (digLen = 1) && (val =? 0)%Z then None
      else let val := (val * 10 + d)%Z in
           if (255 <? val)%Z then None else parseOctet val (S digLen) s'
  end.

Definition parseIPv4Fields (s : string) : option (list Z) :=
  match Split s "." with
  | [a; b; c; d] => mapM (parseOctet 0 0) [a; b; c; d]
  | _ => None
  end.

(** The digits of one group of an IPv6 address: their value and the rest.
    [None] for more than four digits. *)
Fixpoint parseGroup (off : nat) (acc : Z) (s : string) : option (nat * Z * string) :=
  match s with
  | "" => Some (off, acc, s)
  | String c s' =>
      match hex_val c with
      | None => Some (off, acc, s)
      | Some d =>
          if bool_decide (3 < off) then None else parseGroup (S off) (acc * 16 + d)%Z s'
      end
  end.

(** The loop over the groups: the bytes parsed, the position of the ellipsis
    and the unparsed rest.  Eight groups fill the address. *)
Fixpoint parseGroups (fuel : nat) (ip : list Z) (ellipsis : option nat) (s : string)
    : option (list Z * option nat * string) :=
  match fuel with
  | 0 => Some (ip, ellipsis, s)
  | S fuel' =>
      '(off, acc, rest) ← parseGroup 0 0 s;
      if bool_decide (off = 0) then None
      else match rest with
      | String "." _ =>
          if (bool_decide (ellipsis = None) && negb (bool_decide (length ip = 12)))
             || bool_decide (16 < length ip + 4) then None
          else v4 ← parseIPv4Fields s; Some (ip ++ v4, ellipsis, "")
      | _ =>
          let ip := ip ++ [(acc / 256)%Z; (acc `mod` 256)%Z] in
          match rest with
          | "" => Some (ip, ellipsis, "")
          | String ":" "" => None
          | String ":" (String ":" rest') =>
              match ellipsis with
              | Some _ => None
              | None =>
                  if (rest' =? "")%go then Some (ip, Some (length ip), "")
                  else parseGroups fuel' ip (Some (length ip)) rest'
              end
          | String ":" rest' => parseGroups fuel' ip ellipsis rest'
          | _ => None
          end
      end
  end.

Definition expandEllipsis (ip : list Z) (ellipsis : option nat) : option (list Z) :=
  if bool_decide (length ip < 16) then
    e ← ellipsis; Some (take e ip ++ replicate (16 - length ip) 0%Z ++ drop e ip)
  else match ellipsis with Some _ => None | None => Some ip end.

(** The address and its zone. *)
Definition parseIPv6 (s0 : string) : option (list Z * string) :=
  '(s, zone) ← match IndexByte s0 "%" with
               | None => Some (s0, "")
               | Some i => let zone := str_drop (S i) s0 in
                           if (zone =? "")%go then None else Some (str_take i s0, zone)
               end;
  match s with
  | String ":" (String ":" "") => Some (replicate 16 0%Z, zone)
  | _ =>
      '(ip, ellipsis, rest) ← match s with
                              | String ":" (String ":" s') => parseGroups 8 [] (Some 0) s'
                              | _ => parseGroups 8 [] None s
                              end;
      if negb (rest =? "")%go then None
      else ip' ← expandEllipsis ip ellipsis; Some (ip', zone)
  end.

(** The address bytes (4 for IPv4) and the zone. *)
Definition ParseAddr (s : string) : option (list Z * string) :=
  let fix scan (t : string) :=
    match t with
    | "" => None
    | String c t' =>
        if Ascii.eqb c "." then ip ← parseIPv4Fields s; Some (ip, "")
        else if Ascii.eqb c ":" then parseIPv6 s
        else if Ascii.eqb c "%" then None
        else scan t'
    end in
  scan s.

Definition v4InV6Prefix : list Z := [0;0;0;0;0;0;0;0;0;0;255;255]%Z.

Definition As16 (ip : list Z) : list Z :=
  if bool_decide (length ip = 4) then v4InV6Prefix ++ ip else ip.

(** [net.ParseIP]: the 16-byte form; zones are refused. *)
Definition ParseIP (s : string) : option IP :=
  '(ip, zone) ← ParseAddr s;
  if negb (zone =? "")%go then None else Some (As16 ip).

Definition To4 (ip : IP) : option IP :=
  if bool_decide (length ip = 4) then Some ip
  else if bool_decide (length ip = 16) && bool_decide (take 12 ip = v4InV6Prefix) then Some (drop 12 ip)
  else None.

(** ** Networks *)

Record IPNet := mkIPNet { net_IP : IP; net_Mask : list Z }.

(** [dtoi]: the value of the leading decimal digits; [None] without digits or
    for a value of [0xFFFFFF] or more. *)
Fixpoint dtoi (n : Z) (i : nat) (s : string) : option (Z * nat) :=
  let stop := if bool_decide (i = 0) then None else Some (n, i) in
  match s with
  | "" => stop
  | String c s' =>
      match digit c with
      | None => stop
      | Some d => let n := (n * 10 + d)%Z in
                  if (16777215 <=? n)%Z then None else dtoi n (S i) s'
      end
  end.

(** Byte [i] of a mask of [n] one bits. *)
Definition mask_byte (n : Z) (i : nat) : Z :=
  (256 - 2 ^ (8 - Z.max 0 (Z.min 8 (n - 8 * Z.of_nat i))))%Z.
Definition CIDRMask (n : Z) (len : nat) : list Z := mask_byte n <$> seq 0 len.

Definition ParseCIDR (s : string) : option IPNet :=
  '(addr, mask) ← Cut s "/";
  '(ip, zone) ← ParseAddr addr;
  '(n, i) ← dtoi 0 0 mask;
  if negb (zone =? "")%go || negb (bool_decide (i = String.length mask))
     || (8 * Z.of_nat (length ip) <? n)%Z then None
  else let m := CIDRMask n (length ip) in Some (mkIPNet (zip_with Z.land ip m) m).

(** The network address and the mask, of one length. *)
Definition networkNumberAndMask (n : IPNet) : option (IP * list Z) :=
  let ip := default (net_IP n) (To4 (net_IP n)) in
  let m := net_Mask n in
  if bool_decide (length m = length ip) then Some (ip, m)
  else if bool_decide (length m = 16) && bool_decide (length ip = 4) then Some (ip, drop 12 m)
  else None.

Definition Contains (n : IPNet) (ip : IP) : bool :=
  match networkNumberAndMask n with
  | None => false
  | Some (nn, m) =>
      let x := default ip (To4 ip) in
      bool_decide (length x = length nn) &&
      bool_decide (zip_with Z.land nn m = zip_with Z.land x m)
  end.

(** ** host:port *)

Definition SplitHostPort (hostport : string) : option (string * string) :=
  i ← LastIndexByte hostport ":";
  '(host, j, k) ←
    match hostport with
    | String "[" _ =>
        e ← IndexByte hostport "]";
        if bool_decide (e + 1 = i) then Some (str_drop 1 (str_take e hostport), 1, e + 1) else None
    | _ =>
        let host := str_take i hostport in
        if has_char ":" host then None else Some (host, 0, 0)
    end;
  if has_char "[" (str_drop j hostport) || has_char "]" (str_drop k hostport) then None
  else Some (host, str_drop (i + 1) hostport).

(** ** Printing an address: [net.IP.String] *)

Definition hex_text (z : Z) : string :=
  let digits := [z / 4096; (z / 256) `mod` 16; (z / 16) `mod` 16; z `mod` 16]%Z in
  let fix strip (l : list Z) : list Z :=
    match l with d :: ((_ :: _) as l') => if (d =? 0)%Z then strip l' else l | _ => l end in
  String.string_of_list_ascii (hex_digit <$> strip digits).

Fixpoint groups16 (ip : list Z) : list Z :=
  match ip with a :: b :: r => (a * 256 + b)%Z :: groups16 r | _ => [] end.

(** The number of zero groups at the front. *)
Fixpoint zero_run (g : list Z) : nat :=
  match g with z :: g' => if (z =? 0)%Z then S (zero_run g') else 0 | [] => 0 end.

(** The first longest run of at least two zero groups: its start and end. *)
Definition longest_zeros (g : list Z) : nat * nat :=
  foldl (λ best i, let l := zero_run (drop i g) in
           if bool_decide (2 ≤ l ∧ best.2 - best.1 < l) then (i, i + l) else best) (255, 255) (seq 0 8).

Definition ip_String (ip : IP) : string :=
  match To4 ip with
  | Some v4 => Join (pretty <$> v4) "."
  | None =>
      let g := groups16 ip in
      let '(zs, ze) := longest_zeros g in
      if bool_decide (zs = 255) then Join (hex_text <$> g) ":"
      else Join (hex_text <$> take zs g) ":" +:+ "::" +:+ Join (hex_text <$> drop ze g) ":"
  end.
