(* ===== verification/GoUrl.v ===== *)
(** * Paths of URLs: net/url, and net/http's cleaning of paths

    A URL keeps its path decoded ([Path]) and, when the usual encoding of that path is
    not what was written, as written ([RawPath]).  [EscapedPath] is what goes on the
    wire, and what [http.ServeMux] routes on after [cleanPath].  The lemmas relate the
    two: decoding the encoded path gives the path, and a clean path starts with a
    slash. *)

From S2P Require Import Prelude GoStrings GoNet.
From Stdlib Require Import Ascii.

(** ** Escapes *)

Definition upperhex (z : Z) : ascii := if (z <? 10)%Z then chr (48 + z) else chr (55 + z).

(** [shouldEscape(c, encodePath)]: of the reserved characters only the question mark. *)
Definition shouldEscape (c : ascii) : bool :=
  let b := byte c in
  negb (((48 <=? b)%Z && (b <=? 57)%Z) || ((65 <=? b)%Z && (b <=? 90)%Z) || ((97 <=? b)%Z && (b <=? 122)%Z) ||
        has_char c "-_.~$&+,/:;=@").

Fixpoint url_escape (s : string) : string :=
  match s with
  | "" => ""
  | String c s' =>
      if shouldEscape c
      then String "%" (String (upperhex (byte c `div` 16)) (String (upperhex (byte c `mod` 16)) (url_escape s')))
      else String c (url_escape s')
  end.

(** [unescape(s, encodePath)]; [url.PathUnescape] is the same function. *)
Fixpoint url_unescape (s : string) : option string :=
  match s with
  | "" => Some ""
  | String c s' =>
      if Ascii.eqb c "%" then
        match s' with
        | String a (String b s'') =>
            x ← hex_val a; y ← hex_val b; String (chr (16 * x + y)) <$> url_unescape s''
        | _ => None
        end
      else String c <$> url_unescape s'
  end.

(** [validEncoded(s, encodePath)] *)
Fixpoint validEncoded (s : string) : bool :=
  match s with
  | "" => true
  | String c s' => (has_char c "!$&'()*+,;=:@[]%" || negb (shouldEscape c)) && validEncoded s'
  end.

(** [URL.EscapedPath] *)
Definition EscapedPath (path rawPath : string) : string :=
  if negb (rawPath =? "")%go && validEncoded rawPath && bool_decide (url_unescape rawPath = Some path) then rawPath
  else if (path =? "*")%go then "*"
  else url_escape path.

(** ** Cleaning: [cleanPath] of net/http and [path.Clean] on a rooted path *)

Fixpoint clean_segments (kept segs : list string) : list string :=
  match segs with
  | [] => reverse kept
  | seg :: segs' =>
      if (seg =? "")%go || (seg =? ".")%go then clean_segments kept segs'
      else if (seg =? "..")%go then clean_segments (tail kept) segs'
      else clean_segments (seg :: kept) segs'
  end.

Definition path_Clean (p : string) : string :=
  "/" +:+ Join (clean_segments [] (Split (TrimPrefix p "/") "/")) "/".

Definition cleanPath (p : string) : string :=
  let p := if HasPrefix p "/" then p else "/" +:+ p in
  let np := path_Clean p in
  if HasSuffix p "/" && negb (np =? "/")%go then np +:+ "/" else np.

(** ** Joining paths: [joinURLPath] of net/http/httputil *)

Definition singleJoiningSlash (a b : string) : string :=
  match HasSuffix a "/", HasPrefix b "/" with
  | true, true => a +:+ TrimPrefix b "/"
  | false, false => a +:+ "/" +:+ b
  | _, _ => a +:+ b
  end.

(** Paths and raw paths of the two URLs. *)
Definition joinURLPath (aPath aRaw bPath bRaw : string) : string * string :=
  if (aRaw =? "")%go && (bRaw =? "")%go then (singleJoiningSlash aPath bPath, "")
  else
    let apath := EscapedPath aPath aRaw in
    let bpath := EscapedPath bPath bRaw in
    match HasSuffix apath "/", HasPrefix bpath "/" with
    | true, true => (aPath +:+ str_drop 1 bPath, apath +:+ str_drop 1 bpath)
    | false, false => (aPath +:+ "/" +:+ bPath, apath +:+ "/" +:+ bpath)
    | _, _ => (aPath +:+ bPath, apath +:+ bpath)
    end.

(** ** Lemmas *)

Lemma upperhex_val z : (0 ≤ z < 16)%Z → hex_val (upperhex z) = Some z.
Proof.
  intros Hz. assert (z ∈ [0;1;2;3;4;5;6;7;8;9;10;11;12;13;14;15]%Z) as Hin.
  { assert (z = 0 ∨ z = 1 ∨ z = 2 ∨ z = 3 ∨ z = 4 ∨ z = 5 ∨ z = 6 ∨ z = 7 ∨ z = 8 ∨ z = 9 ∨ z = 10 ∨ z = 11 ∨
      z = 12 ∨ z = 13 ∨ z = 14 ∨ z = 15)%Z by lia. set_solver. }
  clear Hz. revert z Hin. apply Forall_forall. repeat constructor.
Qed.

Lemma unescape_escape_path s : url_unescape (url_escape s) = Some s.
Proof.
  induction s as [|c s IH]; [done|]. cbn [url_escape]. destruct (shouldEscape c) eqn:E.
  - pose proof (byte_range c). cbn [url_unescape]. change (Ascii.eqb "%" "%") with true. cbn iota.
    assert (0 ≤ byte c `div` 16 < 16)%Z by (split; [apply Z.div_pos|apply Z.div_lt_upper_bound]; lia).
    rewrite !upperhex_val by (done || by apply Z.mod_pos_bound). cbn. rewrite IH. cbn.
    rewrite <- Z.div_mod, chr_byte by lia. done.
  - cbn [url_unescape]. destruct (Ascii.eqb_spec c "%") as [->|]; [by vm_compute in E|]. by rewrite IH.
Qed.

(** What goes on the wire decodes to the path. *)
Lemma EscapedPath_decodes path rawPath : url_unescape (EscapedPath path rawPath) = Some path.
Proof.
  unfold EscapedPath. destruct (_ && bool_decide _) eqn:E.
  - apply andb_true_iff in E as [_ E]. by apply bool_decide_eq_true in E.
  - destruct (String.eqb_spec path "*") as [->|]; [done|]. apply unescape_escape_path.
Qed.

Lemma unescape_slash s p : url_unescape (String "/" s) = Some p → ∃ p', p = String "/" p'.
Proof. cbn [url_unescape]. intros (p' & _ & ->)%fmap_Some. by eexists. Qed.

(** A path that is clean as it is written starts with a slash. *)
Lemma clean_rooted path rawPath :
  cleanPath (EscapedPath path rawPath) = EscapedPath path rawPath → HasPrefix path "/" = true.
Proof.
  intros Hc. pose proof (EscapedPath_decodes path rawPath) as Hd. revert Hd. rewrite <- Hc.
  assert (∀ p, ∃ p', cleanPath p = String "/" p') as Hs.
  { intros p. unfold cleanPath, path_Clean. destruct (_ && _); cbn; by eexists. }
  destruct (Hs (EscapedPath path rawPath)) as [p' ->].
  intros (q & ->)%unescape_slash. apply HasPrefix_true. by exists q.
Qed.

Lemma url_escape_app a b : url_escape (a +:+ b) = url_escape a +:+ url_escape b.
Proof. induction a as [|c a IH]; [done|]. cbn [url_escape String.append]. destruct (shouldEscape c); cbn; by rewrite IH. Qed.

(** A segment that is written as it is and that cleaning keeps. *)
Definition plain_segment (s : string) : Prop :=
  s ≠ "" ∧ s ≠ "." ∧ s ≠ ".." ∧ has_char "/" s = false ∧ url_escape s = s.

#[export] Instance plain_segment_dec s : base.Decision (plain_segment s).
Proof. unfold plain_segment. apply _. Defined.

Lemma clean_segments_plain kept segs : Forall plain_segment segs → clean_segments kept segs = reverse kept ++ segs.
Proof.
  intros Hf. revert kept. induction Hf as [|s segs (H0 & H1 & H2 & _) Hf IH]; intros kept; cbn [clean_segments].
  { by rewrite app_nil_r. }
  rewrite (proj2 (String.eqb_neq _ _) H0), (proj2 (String.eqb_neq _ _) H1), (proj2 (String.eqb_neq _ _) H2). cbn [orb].
  by rewrite IH, reverse_cons, <- app_assoc.
Qed.

Lemma Join_escape segs : Forall plain_segment segs → url_escape (Join segs "/") = Join segs "/".
Proof.
  induction 1 as [|s segs (_ & _ & _ & _ & E) Hf IH]; [done|]. destruct segs as [|t segs]; [done|].
  rewrite Join_cons2, !url_escape_app, IH, E. done.
Qed.

Lemma plain_no_suffix segs : segs ≠ [] → Forall plain_segment segs → HasSuffix ("/" +:+ Join segs "/") "/" = false.
Proof.
  intros Hne Hf. destruct (HasSuffix _ _) eqn:E; [|done]. exfalso. apply HasSuffix_iff in E as [p E].
  assert ("" ∉ segs) as Hno. { rewrite Forall_forall in Hf. intros Hin. by destruct (Hf "" Hin). }
  assert (Split (Join segs "/") "/" = segs) as Hs.
  { apply Split_Join; [done|]. eapply Forall_impl; [done|]. by intros s (_ & _ & _ & ? & _). }
  destruct p as [|c p]; cbn in E; [injection E as E|injection E as _ E].
  - rewrite E in Hs. apply Hno. rewrite <- Hs. constructor.
  - rewrite E, (Split_sep_app p "" "/") in Hs. apply Hno. rewrite <- Hs. apply elem_of_app. right. constructor.
Qed.

(** A path of plain segments is clean as it is written. *)
Lemma plain_clean segs :
  segs ≠ [] → Forall plain_segment segs →
  let p := "/" +:+ Join segs "/" in EscapedPath p "" = p ∧ cleanPath p = p ∧ Split (str_drop 1 p) "/" = segs.
Proof.
  intros Hne Hf p. assert (Split (Join segs "/") "/" = segs) as Hs.
  { apply Split_Join; [done|]. eapply Forall_impl; [done|]. by intros s (_ & _ & _ & ? & _). }
  split_and!; [| |exact Hs].
  - unfold EscapedPath. change ("" =? "")%go with true. cbn [negb andb].
    change (p =? "*")%go with false. cbn iota. unfold p. by rewrite url_escape_app, Join_escape.
  - unfold cleanPath. change (HasPrefix p "/") with (HasPrefix ("/" +:+ Join segs "/") "/").
    rewrite (proj2 (HasPrefix_true _ _)) by by eexists. unfold p. rewrite plain_no_suffix by done. cbn [andb].
    unfold path_Clean. by rewrite TrimPrefix_app, Hs, clean_segments_plain.
Qed.
