(* ===== verification/GoCrypto.v ===== *)
(** * crypto/sha256 and crypto/hmac

    The digest and the keyed hash the program uses, as functions on byte lists
    (FIPS 180-4 and RFC 2104), so that keys can be generated and verified in the
    model.  [to_bytes] is the conversion of a Go string to its bytes. *)

From S2P Require Import Prelude GoStrings.
From Stdlib Require Import Ascii.

Definition to_bytes (s : string) : list Z := byte <$> String.list_ascii_of_string s.

(** ** 32-bit words *)

Definition w32 (z : Z) : Z := z `mod` 2 ^ 32.
Definition add32 (l : list Z) : Z := w32 (foldr Z.add 0%Z l).
Definition rotr (n x : Z) : Z := Z.lor (Z.shiftr x n) (w32 (Z.shiftl x (32 - n))).
Definition xor3 (a b c : Z) : Z := Z.lxor a (Z.lxor b c).

Definition bigSigma0 (x : Z) : Z := xor3 (rotr 2 x) (rotr 13 x) (rotr 22 x).
Definition bigSigma1 (x : Z) : Z := xor3 (rotr 6 x) (rotr 11 x) (rotr 25 x).
Definition smallSigma0 (x : Z) : Z := xor3 (rotr 7 x) (rotr 18 x) (Z.shiftr x 3).
Definition smallSigma1 (x : Z) : Z := xor3 (rotr 17 x) (rotr 19 x) (Z.shiftr x 10).
Definition choose (e f g : Z) : Z := Z.lxor (Z.land e f) (Z.land (Z.lxor e 0xffffffff) g).
Definition majority (a b c : Z) : Z := xor3 (Z.land a b) (Z.land a c) (Z.land b c).

(** The constants are the first 32 bits of the fractional parts of the cube roots of
    the first 64 primes and of the square roots of the first 8. *)
Definition is_prime (p : nat) : bool :=
  forallb (λ d, negb (p mod d =? 0)%nat) (seq 2 (p - 2)).
Definition primes (bound : nat) : list Z :=
  Z.of_nat <$> filter (λ p, is_prime p = true) (seq 2 (bound - 1)).

(** The largest [x] below [acc + 2 ^ bits] with [pow x <= n], bit by bit. *)
Fixpoint int_root (pow : Z → Z) (n : Z) (bits : nat) (acc : Z) : Z :=
  match bits with
  | 0 => acc
  | S b => let x := (acc + 2 ^ Z.of_nat b)%Z in int_root pow n b (if (pow x <=? n)%Z then x else acc)
  end.

Definition roundConstants : list Z := Eval vm_compute in
  (λ p, w32 (int_root (λ x, x * x * x)%Z (p * 2 ^ 96) 36 0)) <$> primes 311.
Definition initialHash : list Z := Eval vm_compute in
  (λ p, w32 (int_root (λ x, x * x)%Z (p * 2 ^ 64) 36 0)) <$> primes 19.

(** ** The compression function *)

Fixpoint words (b : list Z) : list Z :=
  match b with
  | x0 :: x1 :: x2 :: x3 :: r => (x0 * 2 ^ 24 + x1 * 2 ^ 16 + x2 * 2 ^ 8 + x3)%Z :: words r
  | _ => []
  end.

(** The message schedule; [prev] holds the last sixteen words, newest first. *)
Fixpoint schedule (n : nat) (prev : list Z) : list Z :=
  match n with
  | 0 => []
  | S n' =>
      let at_ i := default 0%Z (prev !! i) in
      let w := add32 [smallSigma1 (at_ 1); at_ 6; smallSigma0 (at_ 14); at_ 15] in
      w :: schedule n' (w :: take 15 prev)
  end.

Definition sha_round (st : list Z) (kw : Z * Z) : list Z :=
  match st with
  | [a; b; c; d; e; f; g; h] =>
      let t1 := add32 [h; bigSigma1 e; choose e f g; kw.1; kw.2] in
      let t2 := add32 [bigSigma0 a; majority a b c] in
      [add32 [t1; t2]; a; b; c; add32 [d; t1]; e; f; g]
  | _ => st
  end.

Definition compress (st : list Z) (block : list Z) : list Z :=
  let w := words block in
  let ws := w ++ schedule 48 (reverse w) in
  zip_with (λ x y, add32 [x; y]) st (foldl sha_round st (zip roundConstants ws)).

(** ** SHA-256 *)

Definition be_bytes (n : nat) (x : Z) : list Z :=
  (λ i, (x / 2 ^ (8 * Z.of_nat (n - 1 - i))) `mod` 256)%Z <$> seq 0 n.

Definition pad (m : list Z) : list Z :=
  let l := length m in
  m ++ [128%Z] ++ replicate ((119 - l `mod` 64) `mod` 64) 0%Z ++ be_bytes 8 (8 * Z.of_nat l).

Fixpoint blocks (n : nat) (m : list Z) : list (list Z) :=
  match n with 0 => [] | S n' => take 64 m :: blocks n' (drop 64 m) end.

Definition sha256 (m : list Z) : list Z :=
  let p := pad m in
  foldl compress initialHash (blocks (length p `div` 64) p) ≫= be_bytes 4.

(** The one-block and the two-block examples of the standard. *)
Example sha256_abc :
  hex_EncodeToString (sha256 (to_bytes "abc")) =
  "ba7816bf8f01cfea414140de5dae2223b00361a396177a9cb410ff61f20015ad".
Proof. vm_compute. reflexivity. Qed.
Example sha256_two_blocks :
  hex_EncodeToString (sha256 (to_bytes "abcdbcdecdefdefgefghfghighijhijkijkljklmklmnlmnomnopnopq")) =
  "248d6a61d20638b8e5c026930c3e6039a33ce45964ff2167f6ecedd419db06c1".
Proof. vm_compute. reflexivity. Qed.

(** ** HMAC *)

Definition hmac_key (key : list Z) : list Z :=
  let k := if bool_decide (64 < length key) then sha256 key else key in
  k ++ replicate (64 - length k) 0%Z.

Definition hmac_sha256 (key msg : list Z) : list Z :=
  let k := hmac_key key in
  sha256 ((Z.lxor 0x5c <$> k) ++ sha256 ((Z.lxor 0x36 <$> k) ++ msg)).

(** [hmac.New(sha256.New, key); Write(msg); Sum(nil)] on strings. *)
Definition hmac_Sum (key msg : string) : list Z := hmac_sha256 (to_bytes key) (to_bytes msg).

(** [sha256.Size] *)
Definition sha256_Size : nat := 32.

(** The blocks a digest compresses, the measure of its work. *)
Definition sha256_blocks (m : list Z) : nat := length (blocks (length (pad m) `div` 64) (pad m)).
Definition hmac_blocks (key msg : string) : nat :=
  let k := hmac_key (to_bytes key) in
  let inner := (Z.lxor 0x36 <$> k) ++ to_bytes msg in
  (if bool_decide (64 < length (to_bytes key)) then sha256_blocks (to_bytes key) else 0) +
  sha256_blocks inner + sha256_blocks ((Z.lxor 0x5c <$> k) ++ sha256 inner).

(** ** Lemmas *)

Lemma sha_round_length st kw : length st = 8 → length (sha_round st kw) = 8.
Proof. intros H. do 9 (destruct st as [|? st]; try done). Qed.

Lemma compress_length st block : length st = 8 → length (compress st block) = 8.
Proof.
  intros H. unfold compress. rewrite length_zip_with.
  generalize (zip roundConstants (words block ++ schedule 48 (reverse (words block)))) as l.
  intros l. assert (length (foldl sha_round st l) = 8) as ->; [|lia].
  revert st H. induction l as [|kw l IH]; intros st H; [done|]. apply IH. by apply sha_round_length.
Qed.

Lemma sha256_bytes m : length (sha256 m) = sha256_Size ∧ Forall (λ x, 0 ≤ x < 256)%Z (sha256 m).
Proof.
  unfold sha256. set (st := foldl _ _ _).
  assert (length st = 8) as Hst.
  { unfold st. generalize (blocks (length (pad m) `div` 64) (pad m)) as l. intros l.
    assert (length initialHash = 8) as H by done. revert H. generalize initialHash as h.
    induction l as [|b l IH]; intros h Hh; [done|]. apply IH. by apply compress_length. }
  clearbody st. split.
  - do 9 (destruct st as [|? st]; try done).
  - apply Forall_bind. apply Forall_true. intros x. unfold be_bytes.
    apply Forall_fmap, Forall_true. intros i. apply Z.mod_pos_bound. lia.
Qed.

Lemma hmac_Sum_bytes key msg :
  length (hmac_Sum key msg) = sha256_Size ∧ Forall (λ x, 0 ≤ x < 256)%Z (hmac_Sum key msg).
Proof. apply sha256_bytes. Qed.

Lemma to_bytes_length s : length (to_bytes s) = String.length s.
Proof. unfold to_bytes. rewrite length_fmap. induction s as [|c s IH]; cbn; [done|]. by rewrite IH. Qed.

Lemma blocks_length n m : length (blocks n m) = n.
Proof. revert m. induction n as [|n IH]; intros m; cbn; [done|]. by rewrite IH. Qed.

(** The work depends on the length of the input only. *)
Lemma sha256_blocks_length m m' : length m = length m' → sha256_blocks m = sha256_blocks m'.
Proof.
  intros E. unfold sha256_blocks. rewrite !blocks_length. unfold pad.
  rewrite !length_app, !length_replicate, E. done.
Qed.

Lemma hmac_key_length key : length (hmac_key key) = 64.
Proof.
  unfold hmac_key. rewrite length_app, length_replicate. case_bool_decide; [|lia].
  by rewrite (proj1 (sha256_bytes _)).
Qed.

(** The blocks a key costs on its own: one longer than a block is hashed first. *)
Definition key_blocks (k : string) : nat :=
  if (64 <? slen k)%Z then sha256_blocks (to_bytes k) else 0.

(** Apart from that all keys cost the same. *)
Lemma hmac_blocks_key k k' msg :
  (slen k' ≤ 64)%Z → hmac_blocks k msg = key_blocks k + hmac_blocks k' msg.
Proof.
  intros Hk'. unfold hmac_blocks, key_blocks. rewrite (bool_decide_false (64 < length (to_bytes k')))
    by (rewrite to_bytes_length; unfold slen in Hk'; lia).
  assert ((if (64 <? slen k)%Z then sha256_blocks (to_bytes k) else 0) =
          (if bool_decide (64 < length (to_bytes k)) then sha256_blocks (to_bytes k) else 0)) as ->.
  { unfold slen. rewrite to_bytes_length. case_bool_decide; destruct (Z.ltb_spec 64 (Z.of_nat (String.length k))); lia. }
  rewrite <- !Nat.add_assoc. f_equal. cbn [Nat.add]. f_equal; apply sha256_blocks_length;
    rewrite !length_app, !length_fmap, !hmac_key_length; [done|].
  by rewrite (proj1 (sha256_bytes _)), (proj1 (sha256_bytes _)).
Qed.

(** Proofs about clients never look inside the hash. *)
#[global] Opaque sha256 hmac_Sum.
