(* ===== verification/Http.v ===== *)
(** * net/http and internal/middleware

    A handler runs on a [World]: the response writer it answers through, the
    memory cells the middlewares share by pointer, the metric counters, the
    clock, the supply of random UUIDs and the state [S] of the components
    behind the handlers.  It returns or panics.  The request context is a record
    of the typed keys of context.go; a pointer in the context is a flag that
    says whether the cell was published, since a request allocates each cell at
    most once. *)

From S2P Require Import Prelude GoStrings HttpRoute.
From Stdlib Require Import Ascii.

(** ** Headers *)

Abbreviation headers := (gmap string (list string)).

(** The token bytes of RFC 7230. *)
Definition validHeaderFieldByte (c : ascii) : bool :=
  let b := byte c in
  ((48 <=? b) && (b <=? 57) || (65 <=? b) && (b <=? 90) || (97 <=? b) && (b <=? 122))%Z
  || has_char c "!#$%&'*+-.^_`|~".

Fixpoint all_bytes (f : ascii → bool) (s : string) : bool :=
  match s with "" => true | String c s' => f c && all_bytes f s' end.

(** The first letter and letters after a dash in upper case, the rest in lower
    case. *)
Fixpoint canonicalBytes (upper : bool) (s : string) : string :=
  match s with
  | "" => ""
  | String c s' =>
      String (if upper then ascii_upper c else ascii_lower c) (canonicalBytes (Ascii.eqb c "-") s')
  end.

(** [http.CanonicalHeaderKey]: a key with a byte outside the token set is kept. *)
Definition CanonicalHeaderKey (s : string) : string :=
  if all_bytes validHeaderFieldByte s then canonicalBytes true s else s.

Definition Header_Get (h : headers) (k : string) : string :=
  default "" (head (default [] (h !! CanonicalHeaderKey k))).
Definition Header_Set (k v : string) (h : headers) : headers := <[CanonicalHeaderKey k := [v]]> h.
Definition Header_Del (k : string) (h : headers) : headers := delete (CanonicalHeaderKey k) h.

Definition sanitizeValues (key : string) (values : list string) : list string :=
  if (CanonicalHeaderKey key =? "X-Api-Key")%go then (λ _, "REDACTED") <$> values else values.
Definition SanitizeHeaders (h : headers) : headers :=
  map_imap (λ key values, Some (sanitizeValues key values)) h.

(** ** Requests *)

(** [http.NoBody] or nil, or a stream that yields the bytes and then ends, with
    an error or at EOF. *)
Inductive body := NoBody | BodyStream (content : string) (err : bool).

Record Request := mkRequest {
  Method : string;
  URL_Scheme : string;
  URL_Path : string;
  URL_RawPath : string;   (** the path as it was written, when that is not its usual encoding *)
  RawQuery : string;
  Host : string;
  Header : headers;
  Body : body;
  ContentLength : Z;
  RemoteAddr : string;
}.

Definition set_Body (b : body) (len : Z) (r : Request) : Request :=
  mkRequest (Method r) (URL_Scheme r) (URL_Path r) (URL_RawPath r) (RawQuery r) (Host r) (Header r) b len
    (RemoteAddr r).

Record AuthzResult := mkAuthzResult { Decision : string; Plugin : string; Reason : string }.

Record Context := mkContext {
  requestIDKey : option string;
  principalKey : option string;
  keyIDKey : option string;
  rolesKey : option (list string);
  bodyBytesKey : option string;     (** a nil slice is the empty string *)
  bodySizePtrKey : bool;
  bodyBytesPtrKey : bool;
  authzResultKey : bool;
  statusCodeKey : bool;
}.

Definition Background : Context := mkContext None None None None None false false false false.

Definition WithRequestID (id : string) (c : Context) : Context :=
  mkContext (Some id) (principalKey c) (keyIDKey c) (rolesKey c) (bodyBytesKey c)
    (bodySizePtrKey c) (bodyBytesPtrKey c) (authzResultKey c) (statusCodeKey c).
Definition WithPrincipal (p : string) (c : Context) : Context :=
  mkContext (requestIDKey c) (Some p) (keyIDKey c) (rolesKey c) (bodyBytesKey c)
    (bodySizePtrKey c) (bodyBytesPtrKey c) (authzResultKey c) (statusCodeKey c).
Definition WithKeyID (k : string) (c : Context) : Context :=
  mkContext (requestIDKey c) (principalKey c) (Some k) (rolesKey c) (bodyBytesKey c)
    (bodySizePtrKey c) (bodyBytesPtrKey c) (authzResultKey c) (statusCodeKey c).
Definition WithRoles (l : list string) (c : Context) : Context :=
  mkContext (requestIDKey c) (principalKey c) (keyIDKey c) (Some l) (bodyBytesKey c)
    (bodySizePtrKey c) (bodyBytesPtrKey c) (authzResultKey c) (statusCodeKey c).
Definition WithBodyBytes (b : string) (c : Context) : Context :=
  mkContext (requestIDKey c) (principalKey c) (keyIDKey c) (rolesKey c) (Some b)
    (bodySizePtrKey c) (bodyBytesPtrKey c) (authzResultKey c) (statusCodeKey c).
Definition WithBodySizePtr (c : Context) : Context :=
  mkContext (requestIDKey c) (principalKey c) (keyIDKey c) (rolesKey c) (bodyBytesKey c)
    true (bodyBytesPtrKey c) (authzResultKey c) (statusCodeKey c).
Definition WithBodyBytesPtr (c : Context) : Context :=
  mkContext (requestIDKey c) (principalKey c) (keyIDKey c) (rolesKey c) (bodyBytesKey c)
    (bodySizePtrKey c) true (authzResultKey c) (statusCodeKey c).
Definition WithAuthzResultPtr (c : Context) : Context :=
  mkContext (requestIDKey c) (principalKey c) (keyIDKey c) (rolesKey c) (bodyBytesKey c)
    (bodySizePtrKey c) (bodyBytesPtrKey c) true (statusCodeKey c).
Definition WithStatusCodePtr (c : Context) : Context :=
  mkContext (requestIDKey c) (principalKey c) (keyIDKey c) (rolesKey c) (bodyBytesKey c)
    (bodySizePtrKey c) (bodyBytesPtrKey c) (authzResultKey c) true.

Definition GetRequestID (c : Context) : string := default "" (requestIDKey c).
Definition GetPrincipal (c : Context) : string := default "" (principalKey c).
Definition GetKeyID (c : Context) : string := default "" (keyIDKey c).
Definition GetRoles (c : Context) : list string := default [] (rolesKey c).
Definition GetBodyBytes (c : Context) : string := default "" (bodyBytesKey c).

(** ** The world of a handler *)

Record ResponseWriter := mkRW {
  rw_header : headers;
  rw_sent : option (Z * headers);   (** status line and headers, once written *)
  rw_body : string;
}.

Record Cells := mkCells {
  bodySize : Z;
  bodyBytes : string;
  authzResult : AuthzResult;
  StatusCode : Z;
}.

(** The pointers in a context, by what they point to; [None] is nil. *)
Definition GetBodySizePtr (ctx : Context) (c : Cells) : option Z :=
  if bodySizePtrKey ctx then Some (bodySize c) else None.
Definition GetBodyBytesPtr (ctx : Context) (c : Cells) : option string :=
  if bodyBytesPtrKey ctx then Some (bodyBytes c) else None.
Definition GetAuthzResultPtr (ctx : Context) (c : Cells) : option AuthzResult :=
  if authzResultKey ctx then Some (authzResult c) else None.
Definition GetStatusCodePtr (ctx : Context) (c : Cells) : option Z :=
  if statusCodeKey ctx then Some (StatusCode c) else None.

Definition GetAuthzResult (ctx : Context) (c : Cells) : AuthzResult * bool :=
  match GetAuthzResultPtr ctx c with
  | Some r => (r, true)
  | None => (mkAuthzResult "" "" "", false)
  end.

Abbreviation counter := (string * list string)%type.

(** The key and the message of an HMAC. *)
Abbreviation hmac_call := (string * string)%type.

Record World (S : Type) := mkWorld {
  w_rw : ResponseWriter;
  w_recorder : bool;              (** a [StatusRecorder] wraps the writer *)
  w_cells : Cells;
  w_metrics : list counter;       (** the counters incremented, in order *)
  w_active : Z;                   (** the gauge [HTTPActiveRequests] *)
  w_clock : nat → Time;           (** what the n-th [time.Now] returns *)
  w_tick : nat;
  w_uuid : nat → string;
  w_nuuid : nat;
  w_work : list hmac_call;        (** the HMACs computed on the way to an answer *)
  w_state : S;
}.
Arguments mkWorld {S} _ _ _ _ _ _ _ _ _ _ _.
Arguments w_rw {S} _.
Arguments w_recorder {S} _.
Arguments w_cells {S} _.
Arguments w_metrics {S} _.
Arguments w_active {S} _.
Arguments w_clock {S} _ _.
Arguments w_tick {S} _.
Arguments w_uuid {S} _ _.
Arguments w_nuuid {S} _.
Arguments w_work {S} _.
Arguments w_state {S} _.

Inductive outcome := Returned | Panicked.

Abbreviation Handler S := (Context → Request → World S → outcome * World S).

Section World.

Context {S : Type}.
Implicit Types w : World S.

Definition set_rw (rw : ResponseWriter) w : World S :=
  mkWorld rw (w_recorder w) (w_cells w) (w_metrics w) (w_active w) (w_clock w) (w_tick w)
    (w_uuid w) (w_nuuid w) (w_work w) (w_state w).
Definition set_recorder (b : bool) w : World S :=
  mkWorld (w_rw w) b (w_cells w) (w_metrics w) (w_active w) (w_clock w) (w_tick w)
    (w_uuid w) (w_nuuid w) (w_work w) (w_state w).
Definition set_cells (c : Cells) w : World S :=
  mkWorld (w_rw w) (w_recorder w) c (w_metrics w) (w_active w) (w_clock w) (w_tick w)
    (w_uuid w) (w_nuuid w) (w_work w) (w_state w).
Definition set_active (z : Z) w : World S :=
  mkWorld (w_rw w) (w_recorder w) (w_cells w) (w_metrics w) z (w_clock w) (w_tick w)
    (w_uuid w) (w_nuuid w) (w_work w) (w_state w).
Definition set_state (s : S) w : World S :=
  mkWorld (w_rw w) (w_recorder w) (w_cells w) (w_metrics w) (w_active w) (w_clock w) (w_tick w)
    (w_uuid w) (w_nuuid w) (w_work w) s.

(** Work done before the next step. *)
Definition spend (l : list hmac_call) w : World S :=
  mkWorld (w_rw w) (w_recorder w) (w_cells w) (w_metrics w) (w_active w) (w_clock w) (w_tick w)
    (w_uuid w) (w_nuuid w) (w_work w ++ l) (w_state w).

(** [Counter.WithLabelValues(labels...).Inc()] *)
Definition Inc (name : string) (labels : list string) w : World S :=
  mkWorld (w_rw w) (w_recorder w) (w_cells w) (w_metrics w ++ [(name, labels)]) (w_active w)
    (w_clock w) (w_tick w) (w_uuid w) (w_nuuid w) (w_work w) (w_state w).

(** [time.Now()] *)
Definition time_Now w : Time * World S :=
  (w_clock w (w_tick w),
   mkWorld (w_rw w) (w_recorder w) (w_cells w) (w_metrics w) (w_active w) (w_clock w)
     (Datatypes.S (w_tick w)) (w_uuid w) (w_nuuid w) (w_work w) (w_state w)).

(** [uuid.New().String()] *)
Definition uuid_New w : string * World S :=
  (w_uuid w (w_nuuid w),
   mkWorld (w_rw w) (w_recorder w) (w_cells w) (w_metrics w) (w_active w) (w_clock w) (w_tick w)
     (w_uuid w) (Datatypes.S (w_nuuid w)) (w_work w) (w_state w)).

(** [w.Header().Set(k, v)] and [Del] *)
Definition rw_Set (k v : string) w : World S :=
  set_rw (mkRW (Header_Set k v (rw_header (w_rw w))) (rw_sent (w_rw w)) (rw_body (w_rw w))) w.
Definition rw_Del (k : string) w : World S :=
  set_rw (mkRW (Header_Del k (rw_header (w_rw w))) (rw_sent (w_rw w)) (rw_body (w_rw w))) w.

(** The server's [WriteHeader]: later calls have no effect. *)
Definition rw_WriteHeader (code : Z) (rw : ResponseWriter) : ResponseWriter :=
  match rw_sent rw with
  | Some _ => rw
  | None => mkRW (rw_header rw) (Some (code, rw_header rw)) (rw_body rw)
  end.

(** [StatusRecorder.WriteHeader] when the writer is wrapped. *)
Definition WriteHeader (code : Z) w : World S :=
  let w := if w_recorder w
           then set_cells (mkCells (bodySize (w_cells w)) (bodyBytes (w_cells w))
                             (authzResult (w_cells w)) code) w
           else w in
  set_rw (rw_WriteHeader code (w_rw w)) w.

(** [w.Write]: a first write sends status 200; the recorder does not see it. *)
Definition Write (s : string) w : World S :=
  let rw := rw_WriteHeader 200 (w_rw w) in
  set_rw (mkRW (rw_header rw) (rw_sent rw) (rw_body rw +:+ s)) w.

Definition newline : string := String (chr 10) "".

Definition http_Error (error : string) (code : Z) w : World S :=
  let w := rw_Del "Content-Length" w in
  let w := rw_Set "Content-Type" "text/plain; charset=utf-8" w in
  let w := rw_Set "X-Content-Type-Options" "nosniff" w in
  let w := WriteHeader code w in
  Write (error +:+ newline) w.

(** Refusing a request: [http.Error] and return. *)
Definition reject (error : string) (code : Z) w : outcome * World S :=
  (Returned, http_Error error code w).

(** ** internal/middleware *)

(** [Chain]: the loop from the last middleware to the first. *)
Fixpoint Chain_loop (rev_middlewares : list (Handler S → Handler S)) (final : Handler S) : Handler S :=
  match rev_middlewares with
  | [] => final
  | m :: ms => Chain_loop ms (m final)
  end.
Definition Chain (middlewares : list (Handler S → Handler S)) (final : Handler S) : Handler S :=
  Chain_loop (reverse middlewares) final.

Definition RequestID (next : Handler S) : Handler S := λ ctx r w,
  let '(id, w) := uuid_New w in
  let ctx := WithRequestID id ctx in
  next ctx r (rw_Set "X-Request-ID" id w).

Fixpoint str_firstn (n : nat) (s : string) : string :=
  match n, s with
  | Datatypes.S n', String c s' => String c (str_firstn n' s')
  | _, _ => ""
  end.

(** [io.ReadAll(io.LimitReader(stream, n))]: the stream's error is met only when
    the limit lies beyond its content. *)
Definition ReadAll_limited (content : string) (err : bool) (n : Z) : option string :=
  if (n <=? slen content)%Z then Some (str_firstn (Z.to_nat n) content)
  else if err then None else Some content.

Definition BodyBuffer (maxBytes : Z) (next : Handler S) : Handler S := λ ctx r w,
  match Body r with
  | NoBody => next (WithBodyBytes "" ctx) r w
  | BodyStream content err =>
      if (0 <? maxBytes)%Z && (maxBytes <? ContentLength r)%Z then
        reject "request body too large" 413 w
      else match ReadAll_limited content err (wrap64 (maxBytes + 1)) with
      | None => reject "failed to read request body" 500 w
      | Some body =>
          if (maxBytes <? slen body)%Z then reject "request body too large" 413 w
          else
            let ctx := WithBodyBytes body ctx in
            let c := w_cells w in
            let c := if bodySizePtrKey ctx
                     then mkCells (slen body) (bodyBytes c) (authzResult c) (StatusCode c) else c in
            let c := if bodyBytesPtrKey ctx
                     then mkCells (bodySize c) body (authzResult c) (StatusCode c) else c in
            let r := set_Body (BodyStream body false) (slen body) r in
            next ctx r (set_cells c w)
      end
  end.

(** ** internal/metrics/middleware.go: histogram observations are not kept *)

Definition status_text (code : Z) : string := pretty code.

Definition metrics_Middleware (next : Handler S) : Handler S := λ ctx r w,
  let w := set_active (w_active w + 1) w in
  let '(start, w) := time_Now w in
  let w := set_recorder true w in
  let c := w_cells w in
  let w := set_cells (mkCells 0 (bodyBytes c) (authzResult c) 200) w in
  let ctx := WithStatusCodePtr (WithBodySizePtr ctx) in
  match next ctx r w with
  | (Panicked, w) => (Panicked, set_active (w_active w - 1) w)
  | (Returned, w) =>
      let '(now, w) := time_Now w in
      let status := status_text (StatusCode (w_cells w)) in
      let pattern := Normalize (URL_Path r) in
      let w := Inc "HTTPRequestsTotal" [Method r; pattern; status] w in
      (Returned, set_active (w_active w - 1) w)
  end.

End World.

(** ** Lemmas *)

Lemma str_firstn_all n s : String.length s ≤ n → str_firstn n s = s.
Proof.
  revert n. induction s as [|c s IH]; intros [|n] H; cbn in *; try done; [lia|].
  rewrite IH by lia. done.
Qed.

Lemma str_firstn_length n s : n ≤ String.length s → String.length (str_firstn n s) = n.
Proof.
  revert n. induction s as [|c s IH]; intros [|n] H; cbn in *; try done; [lia|].
  rewrite IH by lia. done.
Qed.

Lemma Chain_cons {S} (m : Handler S → Handler S) ms (final : Handler S) :
  Chain (m :: ms) final = m (Chain ms final).
Proof.
  unfold Chain. rewrite reverse_cons. generalize (reverse ms) as l. intros l.
  revert final. induction l as [|m' l IH]; intros final; [done|]. apply IH.
Qed.

(** The declared or the actual length of a body exceeds the limit. *)
Definition oversized (maxBytes : Z) (r : Request) (content : string) : bool :=
  (0 <? maxBytes)%Z && (maxBytes <? ContentLength r)%Z || (maxBytes <? slen content)%Z.

(** The memory cells after a body was buffered. *)
Definition buffered_cells (ctx : Context) (body : string) (c : Cells) : Cells :=
  mkCells (if bodySizePtrKey ctx then slen body else bodySize c)
    (if bodyBytesPtrKey ctx then body else bodyBytes c) (authzResult c) (StatusCode c).

(** What the buffer leaves for the middlewares that handed it a pointer. *)
Lemma buffered_visible ctx body c :
  GetBodySizePtr ctx (buffered_cells ctx body c) = (if bodySizePtrKey ctx then Some (slen body) else None) ∧
  GetBodyBytesPtr ctx (buffered_cells ctx body c) = (if bodyBytesPtrKey ctx then Some body else None).
Proof.
  unfold GetBodySizePtr, GetBodyBytesPtr, buffered_cells. by destruct (bodySizePtrKey ctx), (bodyBytesPtrKey ctx).
Qed.

Lemma BodyBuffer_eq {S} maxBytes (next : Handler S) ctx r (w : World S) :
  (0 ≤ maxBytes < 2 ^ 63 - 1)%Z →
  BodyBuffer maxBytes next ctx r w =
  match Body r with
  | NoBody => next (WithBodyBytes "" ctx) r w
  | BodyStream content err =>
      if oversized maxBytes r content then reject "request body too large" 413 w
      else if err then reject "failed to read request body" 500 w
      else next (WithBodyBytes content ctx) (set_Body (BodyStream content false) (slen content) r)
             (set_cells (buffered_cells ctx content (w_cells w)) w)
  end.
Proof.
  intros Hm. unfold BodyBuffer, oversized. destruct (Body r) as [|content err]; [done|].
  destruct (_ && _); [done|]. cbn [orb]. rewrite wrap64_id by (unfold int64; lia).
  unfold ReadAll_limited. pose proof (Zle_0_nat (String.length content)).
  destruct (Z.leb_spec (maxBytes + 1) (slen content)) as [Hle|Hgt].
  - assert ((maxBytes <? slen content)%Z = true) as -> by lia.
    cbv iota beta.
    assert ((maxBytes <? slen (str_firstn (Z.to_nat (maxBytes + 1)) content))%Z = true) as Ht.
    { unfold slen in *. rewrite str_firstn_length by lia. lia. }
    by rewrite Ht.
  - assert ((maxBytes <? slen content)%Z = false) as Hf by lia. rewrite Hf. destruct err; [done|].
    cbv iota beta. rewrite Hf.
    unfold buffered_cells. cbn. by destruct (bodySizePtrKey ctx), (bodyBytesPtrKey ctx), (w_cells w).
Qed.

(** ** Properties *)

(** With a limit below the largest int64, [BodyBuffer] forwards a request
    exactly when its body is readable and neither declared nor found to be
    longer than the limit; the handler behind it then sees the complete body, in
    the context and as the request's body, with the matching length.  All other
    requests are answered with 413 or 500 and not forwarded. *)
Theorem BodyBuffer_complete_or_rejected {S} maxBytes (next : Handler S) ctx r (w : World S) :
  (0 ≤ maxBytes < 2 ^ 63 - 1)%Z →
  (∃ content, Body r = BodyStream content false ∧ (slen content ≤ maxBytes)%Z ∧
     BodyBuffer maxBytes next ctx r w =
     next (WithBodyBytes content ctx) (set_Body (BodyStream content false) (slen content) r)
       (set_cells (buffered_cells ctx content (w_cells w)) w)) ∨
  (Body r = NoBody ∧ BodyBuffer maxBytes next ctx r w = next (WithBodyBytes "" ctx) r w) ∨
  (∃ content err, Body r = BodyStream content err ∧
     (oversized maxBytes r content = true ∧
        BodyBuffer maxBytes next ctx r w = reject "request body too large" 413 w ∨
      oversized maxBytes r content = false ∧ err = true ∧
        BodyBuffer maxBytes next ctx r w = reject "failed to read request body" 500 w)).
Proof.
  intros Hm. rewrite (BodyBuffer_eq maxBytes) by done.
  destruct (Body r) as [|content err]; [by right; left|].
  destruct (oversized maxBytes r content) eqn:Eo.
  - right; right. exists content, err. split; [done|]. by left.
  - destruct err.
    + right; right. exists content, true. split; [done|]. by right.
    + left. exists content. split; [done|]. split; [|done].
      unfold oversized in Eo. apply orb_false_iff in Eo as [_ Eo]. lia.
Qed.

Definition ex_request (content : string) : Request :=
  mkRequest "PUT" "" "/api/v1/servers/localhost/zones/z" "" "" "h" ∅ (BodyStream content false) (-1) "".
Definition ex_world : World unit :=
  mkWorld (mkRW ∅ None "") false (mkCells 0 "" (mkAuthzResult "" "" "") 200) [] 0
    (λ n, Z.of_nat n) 0 (λ _, "u") 0 [] ().
Definition ex_final : Handler unit := λ ctx r w, (Returned, Write (GetBodyBytes ctx) w).

Lemma BodyBuffer_complete_or_rejected_witness :
  BodyBuffer 3 ex_final Background (ex_request "abcd") ex_world =
  reject "request body too large" 413 ex_world.
Proof.
  destruct (BodyBuffer_complete_or_rejected 3 ex_final Background (ex_request "abcd") ex_world)
    as [(c & E & Hl & _)|[[E _]|(c & err & E & [[_ H]|[Ho _]])]].
  - lia.
  - injection E as <-. vm_compute in Hl. congruence.
  - discriminate.
  - exact H.
  - injection E as <- _. vm_compute in Ho. discriminate.
Defined.

(** With the largest int64 as limit, the limit plus one wraps around and
    every body is silently replaced by the empty one before the request is
    forwarded. *)
Theorem BodyBuffer_max_limit_empties {S} (next : Handler S) ctx r (w : World S) content err :
  Body r = BodyStream content err → int64 (ContentLength r) →
  BodyBuffer (2 ^ 63 - 1) next ctx r w =
  next (WithBodyBytes "" ctx) (set_Body (BodyStream "" false) 0 r)
    (set_cells (buffered_cells ctx "" (w_cells w)) w).
Proof.
  intros Hb Hcl. unfold int64 in Hcl. unfold BodyBuffer. rewrite Hb.
  assert ((2 ^ 63 - 1 <? ContentLength r)%Z = false) as -> by lia. rewrite andb_false_r.
  unfold ReadAll_limited. change (wrap64 (2 ^ 63 - 1 + 1)) with (- 2 ^ 63)%Z.
  assert ((- 2 ^ 63 <=? slen content)%Z = true) as -> by (unfold slen; lia).
  change (Z.to_nat (- 2 ^ 63)) with 0. unfold buffered_cells.
  destruct content; cbn; by destruct (bodySizePtrKey ctx), (bodyBytesPtrKey ctx), (w_cells w).
Qed.

Lemma BodyBuffer_max_limit_empties_witness :
  w_rw (BodyBuffer (2 ^ 63 - 1) ex_final Background (ex_request "abcd") ex_world).2 =
  mkRW ∅ (Some (200%Z, ∅)) "".
Proof.
  rewrite (BodyBuffer_max_limit_empties ex_final Background (ex_request "abcd") ex_world "abcd" false).
  - reflexivity.
  - reflexivity.
  - split; vm_compute; [discriminate|reflexivity].
Defined.
