(* ===== verification/ServeMux.v ===== *)
(** * net/http's ServeMux, in front of the handlers of the two servers

    Both servers of the program route with [http.ServeMux].  Before it looks for a
    pattern it answers a request for [*] itself, and it redirects a request whose path,
    as it is written, is not clean; [mux_ServeHTTP] is that part, and it hands the
    segments of the path, decoded one by one as the patterns match them, to the
    routing of the server.  The lemmas say that the mux itself touches nothing but the
    response. *)

From S2P Require Import Prelude GoStrings GoNet GoUrl Http.
From Stdlib Require Import Ascii.

(** ** Redirects *)

(** [URL.String] of a URL with a path and a query only. *)
Definition url_String (path rawQuery : string) : string :=
  EscapedPath path "" +:+ if (rawQuery =? "")%go then "" else "?" +:+ rawQuery.

Fixpoint hexEscapeNonASCII (s : string) : string :=
  match s with
  | "" => ""
  | String c s' =>
      if (128 <=? byte c)%Z
      then String "%" (String (hex_digit (byte c `div` 16)) (String (hex_digit (byte c `mod` 16)) (hexEscapeNonASCII s')))
      else String c (hexEscapeNonASCII s')
  end.

Fixpoint htmlEscape (s : string) : string :=
  match s with
  | "" => ""
  | String c s' =>
      (if Ascii.eqb c "&" then "&amp;" else if Ascii.eqb c "<" then "&lt;" else if Ascii.eqb c ">" then "&gt;"
       else if Ascii.eqb c (chr 34) then "&#34;" else if Ascii.eqb c "'" then "&#39;" else String c "")
      +:+ htmlEscape s'
  end.

Section Mux.
Context {S : Type}.
Implicit Types w : World S.

(** [http.Redirect] to a clean absolute path with status 307, the one the mux uses
    since Go 1.26. *)
Definition http_Redirect (url : string) (r : Request) w : World S :=
  let hadCT := bool_decide (is_Some (rw_header (w_rw w) !! "Content-Type")) in
  let get := (Method r =? "GET")%go in
  let w := rw_Set "Location" (hexEscapeNonASCII url) w in
  let w := if negb hadCT && (get || (Method r =? "HEAD")%go)
           then rw_Set "Content-Type" "text/html; charset=utf-8" w else w in
  let w := WriteHeader 307 w in
  let dquote := String (chr 34) "" in
  if negb hadCT && get
  then Write ("<a href=" +:+ dquote +:+ htmlEscape url +:+ dquote +:+ ">Temporary Redirect</a>." +:+ newline +:+ newline) w
  else w.

(** ** Routing *)

Definition request_path (r : Request) : string := EscapedPath (URL_Path r) (URL_RawPath r).

(** Where [findHandler] redirects to; a CONNECT request is not canonicalized. *)
Definition mux_redirect (r : Request) : option string :=
  let clean := cleanPath (request_path r) in
  if (Method r =? "CONNECT")%go || (clean =? request_path r)%go then None
  else Some (url_String clean (RawQuery r)).

(** The segments [firstSegment] cuts off one by one: each is decoded if it can be, and
    the slash at the end of a path is a segment of its own. *)
Fixpoint firstSegments (l : list string) : list string :=
  match l with
  | [] => []
  | [""] => ["/"]
  | seg :: l' => default seg (url_unescape seg) :: firstSegments l'
  end.
Definition mux_segments (r : Request) : list string :=
  if (request_path r =? "")%go then [] else firstSegments (Split (str_drop 1 (request_path r)) "/").

Definition mux_ServeHTTP (routes : list string → Handler S) : Handler S := λ ctx r w,
  if (URL_Path r =? "*")%go then (Returned, WriteHeader 400 (rw_Set "Connection" "close" w))
  else match mux_redirect r with
       | Some url => (Returned, http_Redirect url r w)
       | None => routes (mux_segments r) ctx r w
       end.

(** The mux hands the request to a route of the server. *)
Definition mux_routes (r : Request) : Prop := URL_Path r ≠ "*" ∧ mux_redirect r = None.

(** ** Lemmas *)

Lemma state_WriteHeader code w : w_state (WriteHeader code w) = w_state w.
Proof. unfold WriteHeader. cbn. by destruct (w_recorder w). Qed.

Lemma status_WriteHeader code w :
  rw_sent (w_rw w) = None → fst <$> rw_sent (w_rw (WriteHeader code w)) = Some code.
Proof.
  intros Hn. unfold WriteHeader. cbn.
  destruct (w_recorder w); cbn; unfold rw_WriteHeader; cbn; by rewrite Hn.
Qed.

(** Either the server's routing gets the request, or the mux answers it: with 400 or a
    redirect, and without touching anything but the response. *)
Lemma mux_cases routes ctx r w :
  (mux_routes r ∧ mux_ServeHTTP routes ctx r w = routes (mux_segments r) ctx r w) ∨
  (¬ mux_routes r ∧ ∀ routes', ∃ w', mux_ServeHTTP routes' ctx r w = (Returned, w') ∧
     mux_ServeHTTP routes ctx r w = (Returned, w') ∧ w_state w' = w_state w ∧ w_metrics w' = w_metrics w ∧
     (rw_sent (w_rw w) = None → ∃ code, fst <$> rw_sent (w_rw w') = Some code ∧ (code = 307 ∨ code = 400)%Z)).
Proof.
  unfold mux_ServeHTTP, mux_routes. destruct (String.eqb_spec (URL_Path r) "*").
  { right. split; [naive_solver|]. intros _. eexists. split; [done|]. split; [done|]. rewrite state_WriteHeader.
    split; [done|]. split; [unfold WriteHeader; cbn; by destruct (w_recorder w)|].
    intros Hn. exists 400%Z. split; [by apply status_WriteHeader|by right]. }
  destruct (mux_redirect r) as [url|]; [|by left]. right. split; [naive_solver|]. intros _.
  eexists. split; [done|]. split; [done|]. unfold http_Redirect.
  set (get := (Method r =? "GET")%go). set (head := (Method r =? "HEAD")%go).
  destruct (bool_decide _), get, head; cbn [negb andb orb]; unfold WriteHeader; cbn;
    (destruct (w_recorder w); cbn; (split; [done|]); (split; [done|]); intros Hn; exists 307%Z;
     (split; [|by left]); unfold rw_WriteHeader; cbn; by rewrite Hn).
Qed.

(** A path of plain segments is routed by them. *)
Lemma plain_routed segs r :
  segs ≠ [] → Forall plain_segment segs → URL_Path r = "/" +:+ Join segs "/" → URL_RawPath r = "" →
  mux_routes r ∧ mux_segments r = segs.
Proof.
  intros Hne Hf Hp Hr. destruct (plain_clean segs Hne Hf) as (He & Hc & Hs). unfold mux_routes, mux_redirect, mux_segments.
  unfold request_path. rewrite Hp, Hr, He, Hc, Hs, String.eqb_refl, orb_true_r. split; [done|]. cbn [String.append].
  clear -Hf. change ((String "/" (Join segs "/") =? "")%go) with false. cbn iota.
  induction Hf as [|s segs (H0 & _ & _ & _ & E) Hf IH]; [done|]. cbn [firstSegments].
  assert (url_unescape s = Some s) as Hu by (rewrite <- E at 1; apply unescape_escape_path).
  destruct s as [|ch s]; [done|]. by rewrite Hu, IH.
Qed.
End Mux.

(** Whether the mux of the goal answers itself. *)
Ltac mux_split Hmux Hown :=
  match goal with |- context [mux_ServeHTTP ?F ?c ?r ?w] =>
    destruct (mux_cases F c r w) as [[Hmux ->]|[Hmux Hown]] end.
