(* ===== verification/Metrics.v ===== *)
(** * internal/metrics: definitions, pool collector and server

    The metric definitions of metrics.go and dbpool.go as data, and what the
    Prometheus client documents of registering them: a constructor panics on a bad
    name, a repeated name, a bad or repeated label, or illegal buckets, and since the
    definitions are package variables such a panic would stop the program before
    [main].  The metrics server is a handler behind the mux of ServeMux. *)

From S2P Require Import Prelude GoStrings Http ServeMux.
From Stdlib Require Import Ascii.

(** ** Definitions *)

Inductive buckets := DefBuckets | ExponentialBuckets (start factor : Z) (count : nat).
Inductive kind := Counter | Gauge | Histogram (b : buckets).

Record metric := mkMetric { m_var : string; m_namespace : string; m_name : string; m_kind : kind; m_labels : list string }.

Definition pdag (var name : string) (k : kind) (labels : list string) : metric := mkMetric var "pdag" name k labels.

(** metrics.go, in the order of the file. *)
Definition metrics : list metric := [
  pdag "HTTPRequestsTotal" "http_requests_total" Counter ["method"; "path_pattern"; "status_code"];
  pdag "HTTPRequestDuration" "http_request_duration_seconds" (Histogram DefBuckets) ["method"; "path_pattern"; "status_code"];
  pdag "HTTPRequestBodyBytes" "http_request_body_bytes" (Histogram (ExponentialBuckets 64 4 8)) ["method"];
  pdag "HTTPActiveRequests" "http_active_requests" Gauge [];
  pdag "AuthnTotal" "authn_total" Counter ["result"];
  pdag "KeyStoreQueryDuration" "keystore_query_duration_seconds" (Histogram DefBuckets) [];
  pdag "KeyStoreErrorsTotal" "keystore_errors_total" Counter [];
  pdag "AuthzDecisionTotal" "authz_decision_total" Counter ["plugin"; "decision"];
  pdag "AuthzPluginDuration" "authz_plugin_duration_seconds" (Histogram DefBuckets) ["plugin"];
  pdag "AuthzCircuitBreakerState" "authz_circuit_breaker_state" Gauge ["plugin"];
  pdag "AuthzCircuitBreakerTransitions" "authz_circuit_breaker_transitions_total" Counter ["plugin"; "from"; "to"];
  pdag "RateLimitedTotal" "rate_limited_total" Counter [];
  pdag "AuditWriteErrorsTotal" "audit_write_errors_total" Counter [];
  pdag "AuditQueueDepth" "audit_queue_depth" Gauge [];
  pdag "AuditDroppedTotal" "audit_dropped_total" Counter [];
  pdag "AuditReopenFailuresTotal" "audit_reopen_failures_total" Counter [];
  pdag "AuditInconsistencyTotal" "audit_inconsistency_total" Counter [];
  pdag "SighupTotal" "sighup_total" Counter [];
  pdag "UpstreamBackendHealthy" "upstream_backend_healthy" Gauge ["backend"];
  pdag "UpstreamRequestDuration" "upstream_request_duration_seconds" (Histogram DefBuckets) ["method"; "status_code"];
  pdag "UpstreamErrorsTotal" "upstream_errors_total" Counter ["reason"]
].

Definition fqName (m : metric) : string :=
  if (m_namespace m =? "")%go then m_name m else m_namespace m +:+ "_" +:+ m_name m.

(** *** dbpool.go *)

Record DBStats := mkDBStats { OpenConnections : Z; Idle : Z; InUse : Z; WaitCount : Z }.

(** The names of the collector's descriptors, as [Describe] sends them. *)
Definition Describe : list string :=
  ["pdag_db_pool_open_connections"; "pdag_db_pool_idle_connections"; "pdag_db_pool_in_use_connections";
   "pdag_db_pool_wait_count_total"].

Definition Collect (stats : DBStats) : list (string * kind * Z) :=
  [("pdag_db_pool_open_connections", Gauge, OpenConnections stats);
   ("pdag_db_pool_idle_connections", Gauge, Idle stats);
   ("pdag_db_pool_in_use_connections", Gauge, InUse stats);
   ("pdag_db_pool_wait_count_total", Counter, WaitCount stats)].

(** [NewDBPoolCollector] registers the collector as metrics without labels. *)
Definition poolMetrics : list metric := (λ '(name, k, _), mkMetric "" "" name k []) <$> Collect (mkDBStats 0 0 0 0).

(** ** Registering *)

Definition letter (c : ascii) : bool :=
  let b := byte c in ((97 <=? b)%Z && (b <=? 122)%Z) || ((65 <=? b)%Z && (b <=? 90)%Z) || Ascii.eqb c "_".
Definition digit_char (c : ascii) : bool := let b := byte c in (48 <=? b)%Z && (b <=? 57)%Z.

Fixpoint name_rest (colon : bool) (s : string) : bool :=
  match s with
  | "" => true
  | String c s' => (letter c || digit_char c || (colon && Ascii.eqb c ":")) && name_rest colon s'
  end.
Definition valid_name (colon : bool) (s : string) : bool :=
  match s with
  | "" => false
  | String c s' => (letter c || (colon && Ascii.eqb c ":")) && name_rest colon s'
  end.

Definition valid_label (k : kind) (l : string) : bool :=
  valid_name false l && negb (HasPrefix l "__") &&
  match k with Histogram _ => negb (l =? "le")%go | _ => true end.

Definition valid_buckets (k : kind) : bool :=
  match k with
  | Histogram (ExponentialBuckets start factor count) =>
      (0 <? start)%Z && (1 <? factor)%Z && (1 <=? Z.of_nat count)%Z
  | _ => true
  end.

(** [MustRegister]: the registry's names, or a panic. *)
Definition register (seen : gset string) (m : metric) : option (gset string) :=
  if valid_name true (fqName m) && forallb (valid_label (m_kind m)) (m_labels m) &&
     bool_decide (NoDup (m_labels m)) && valid_buckets (m_kind m) && bool_decide (fqName m ∉ seen)
  then Some ({[fqName m]} ∪ seen) else None.

Fixpoint registerAll (seen : gset string) (l : list metric) : option (gset string) :=
  match l with [] => Some seen | m :: l => seen ← register seen m; registerAll seen l end.

(** ** The metrics server *)

Section Server.
Context {S : Type} (promhttp : Handler S).

Definition metrics_NewServer : Handler S := mux_ServeHTTP (λ segs ctx r w,
  if bool_decide (segs = ["metrics"]) then promhttp ctx r w
  else if bool_decide (segs = ["healthz"]) then
    if (Method r =? "GET")%go || (Method r =? "HEAD")%go then (Returned, Write "ok" (WriteHeader 200 w))
    else reject "Method Not Allowed" 405 (rw_Set "Allow" "GET, HEAD" w)
  else reject "404 page not found" 404 w).
End Server.

(** ** Properties *)

Definition acceptable (m : metric) : Prop :=
  valid_name true (fqName m) = true ∧ forallb (valid_label (m_kind m)) (m_labels m) = true ∧
  NoDup (m_labels m) ∧ valid_buckets (m_kind m) = true.

#[global] Instance acceptable_dec m : base.Decision (acceptable m).
Proof. unfold acceptable. apply _. Defined.

Lemma registerAll_ok seen l :
  Forall acceptable l → NoDup (fqName <$> l) → (∀ m, m ∈ l → fqName m ∉ seen) →
  is_Some (registerAll seen l).
Proof.
  intros Hf. revert seen. induction Hf as [|m l (Hn & Hl & Hd & Hb) Hf IH]; intros seen; [by eexists|].
  rewrite fmap_cons, NoDup_cons. intros [Hm Hnd] Hs. cbn [registerAll]. unfold register.
  rewrite Hn, Hl, Hb, !bool_decide_true by (done || apply Hs; constructor). cbn [andb mbind option_bind].
  apply IH; [done|]. intros m' Hm'. rewrite not_elem_of_union, not_elem_of_singleton.
  split; [|apply Hs; by constructor]. intros E. apply Hm. rewrite <- E. by apply list_elem_of_fmap_2.
Qed.

(** The metrics of the program and of the connection pool can be registered
    together in any order without a panic: every name and label is legal, labels and
    names do not repeat, and the buckets are proper.  The pool collector delivers one
    value for each of its descriptors, in their order. *)
Theorem metrics_register_without_panic l stats :
  l ≡ₚ metrics ++ poolMetrics →
  is_Some (registerAll ∅ l) ∧ (λ x, x.1.1) <$> Collect stats = Describe.
Proof.
  intros Hl. split; [|done]. apply registerAll_ok.
  - rewrite Hl. apply (bool_decide_unpack _). vm_compute. exact I.
  - rewrite Hl. apply (bool_decide_unpack _). vm_compute. exact I.
  - intros. apply not_elem_of_empty.
Qed.

Lemma metrics_register_without_panic_witness :
  is_Some (registerAll ∅ (poolMetrics ++ metrics)).
Proof.
  apply (metrics_register_without_panic (poolMetrics ++ metrics) (mkDBStats 1 2 3 4)). apply Permutation_app_comm.
Defined.

(** The metrics server answers every request without a token, and only the scrape
    reaches anything behind it. *)
Lemma metrics_server_open {S} (promhttp : Handler S) ctx r (w : World S) :
  mux_segments r ≠ ["metrics"] → w_state (metrics_NewServer promhttp ctx r w).2 = w_state w.
Proof.
  intros Hp. unfold metrics_NewServer. mux_split Hm Hown.
  2:{ by destruct (Hown (λ _ _ _ w, (Returned, w))) as (w' & _ & -> & Hs & _). }
  rewrite bool_decide_false by done. destruct (bool_decide _); [destruct (_ || _)|]; unfold reject, http_Error, Write, WriteHeader, rw_Set, rw_Del; cbn;
    by destruct (w_recorder w).
Qed.
