(* ===== verification/Spans.v ===== *)
(** * internal/tracing/middleware.go: one span per request

    The tracer is a state that collects ended spans.  The trace context extracted
    from the headers lives in the request's context and is read by the tracer only, so
    the handler behind the middleware sees the request unchanged; the deferred function
    ends the span also when the handler panics. *)

From S2P Require Import Prelude GoStrings HttpRoute Http.

Record span := mkSpan {
  sp_name : string;
  sp_attributes : list (string * string);
  sp_status_code : option Z;
  sp_error : bool;
}.

Class Tracer (S : Type) := { End : span → S → S }.

Section Middleware.
Context {S : Type} `{Tracer S}.

(** [tracer.Start] with the attributes of the request. *)
Definition span_start (r : Request) : string * list (string * string) :=
  let route := Normalize (URL_Path r) in
  (Method r +:+ " " +:+ route,
   [("http.request.method", Method r); ("http.route", route); ("url.path", URL_Path r);
    ("client.address", RemoteAddr r)]).

(** The deferred function. *)
Definition span_end (ctx : Context) (start : string * list (string * string)) (w : World S) : World S :=
  let code := GetStatusCodePtr ctx (w_cells w) in
  let failed := match code with Some c => (500 <=? c)%Z | None => false end in
  set_state (End (mkSpan start.1 start.2 code failed) (w_state w)) w.

Definition Middleware (next : Handler S) : Handler S := λ ctx r w,
  let start := span_start r in
  let '(o, w) := next ctx r w in (o, span_end ctx start w).

(** The middleware answers as the handler behind it and ends exactly one span, named
    by the method and the route template, whether the handler returned or panicked. *)
Lemma tracing_transparent (next : Handler S) ctx r (w : World S) :
  let '(o, w1) := next ctx r w in
  ∃ sp, Middleware next ctx r w = (o, set_state (End sp (w_state w1)) w1) ∧
    sp_name sp = Method r +:+ " " +:+ Normalize (URL_Path r) ∧
    (sp_error sp = true ↔ statusCodeKey ctx = true ∧ (500 ≤ StatusCode (w_cells w1))%Z).
Proof.
  unfold Middleware. destruct (next ctx r w) as [o w1]. eexists. split; [done|]. split; [done|]. cbn.
  unfold GetStatusCodePtr. destruct (statusCodeKey ctx); [rewrite Z.leb_le|]; naive_solver.
Qed.
End Middleware.
