(* ===== verification/ClientIP.v ===== *)
(** * internal/clientip: the client address of a request

    [Resolver] is the list of trusted networks.  The theorems say when the
    X-Forwarded-For header matters at all, which hop is chosen, that whatever a
    client wrote in front of the entries its proxies appended is ignored, and
    what happens when the header comes in several lines. *)

From S2P Require Import Prelude GoStrings GoNet Http.
From Stdlib Require Import Ascii.

Abbreviation Resolver := (list IPNet).

Fixpoint New (trustedCIDRs : list string) : result Resolver :=
  match trustedCIDRs with
  | [] => Ok []
  | c :: cs =>
      match ParseCIDR (TrimSpace c) with
      | None => Err (ErrMsg ("trusted_proxies: invalid CIDR " +:+ c))
      | Some ipNet => rest ← New cs; mret (ipNet :: rest)
      end
  end.

Definition isTrusted (r : Resolver) (ip : IP) : bool := existsb (λ n, Contains n ip) r.

Definition peerIP (remoteAddr : string) : option IP :=
  let host := match SplitHostPort remoteAddr with Some (h, _) => h | None => remoteAddr end in
  ParseIP host.

(** The loop over the hops, from the last one; [rev_hops] is reversed. *)
Fixpoint walk (r : Resolver) (peer : IP) (rev_hops : list string) : IP :=
  match rev_hops with
  | [] => peer
  | hop :: hops =>
      match ParseIP (TrimSpace hop) with
      | None => peer
      | Some ip => if isTrusted r ip then walk r peer hops else ip
      end
  end.

Definition ClientIP (r : Resolver) (req : Request) : option IP :=
  peer ← peerIP (RemoteAddr req);
  if bool_decide (length r = 0) || negb (isTrusted r peer) then Some peer
  else
    let xff := Header_Get (Header req) "X-Forwarded-For" in
    if (xff =? "")%go then Some peer
    else Some (walk r peer (reverse (Split xff ","))).

(** ** Lemmas *)

(** A hop that ends the walk: it is malformed or not a trusted proxy. *)
Definition stops (r : Resolver) (hop : string) : bool :=
  match ParseIP (TrimSpace hop) with None => true | Some ip => negb (isTrusted r ip) end.

Lemma walk_stops r peer hops hop rest :
  stops r hop = true → walk r peer (hops ++ hop :: rest) = walk r peer (hops ++ [hop]).
Proof.
  intros Hs. induction hops as [|h hops IH]; cbn.
  - unfold stops in Hs. destruct (ParseIP (TrimSpace hop)) as [ip|]; [|done].
    by destruct (isTrusted r ip).
  - rewrite IH. done.
Qed.

(** The walk over trusted hops goes on. *)
Lemma walk_trusted r peer hops rest :
  Forall (λ h, stops r h = false) hops → walk r peer (hops ++ rest) = walk r peer rest.
Proof.
  induction 1 as [|h hops Hh _ IH]; [done|]. cbn. unfold stops in Hh.
  destruct (ParseIP (TrimSpace h)) as [ip|]; [|done].
  destruct (isTrusted r ip); [apply IH|done].
Qed.

Lemma isTrusted_nonempty r ip : isTrusted r ip = true → bool_decide (length r = 0) = false.
Proof. destruct r; [done|]. intros _. by apply bool_decide_false. Qed.

Definition with_header (h : headers) (req : Request) : Request :=
  mkRequest (Method req) (URL_Scheme req) (URL_Path req) (URL_RawPath req) (RawQuery req) (Host req) h (Body req)
    (ContentLength req) (RemoteAddr req).

(** The requests the theorems vary: the same but for the forwarding header's
    lines. *)
Definition with_xff (lines : list string) (req : Request) : Request :=
  with_header (<[CanonicalHeaderKey "X-Forwarded-For" := lines]> (Header req)) req.

Lemma with_xff_get lines req :
  Header_Get (Header (with_xff lines req)) "X-Forwarded-For" = default "" (head lines).
Proof. unfold Header_Get, with_xff. cbn [Header with_header]. by rewrite lookup_insert_eq. Qed.

Lemma Split_app_comma a b : Split (a +:+ "," +:+ b) "," = Split a "," ++ Split b ",".
Proof.
  change ("," +:+ b) with (String "," b).
  induction a as [|c a IH]; cbn -[Ascii.eqb]; [by rewrite Ascii.eqb_refl|].
  rewrite IH. destruct (Ascii.eqb c ","); [done|].
  pose proof (Split_not_nil a ",") as Hn. by destruct (Split a ",").
Qed.

(** With a trusted peer the first header line decides. *)
Lemma ClientIP_trusted r req peer line lines :
  peerIP (RemoteAddr req) = Some peer → isTrusted r peer = true → line ≠ "" →
  ClientIP r (with_xff (line :: lines) req) = Some (walk r peer (reverse (Split line ","))).
Proof.
  intros Hp Ht Hl. unfold ClientIP. change (RemoteAddr (with_xff _ req)) with (RemoteAddr req).
  rewrite Hp. cbn [mbind option_bind]. rewrite (isTrusted_nonempty r peer Ht), Ht.
  rewrite with_xff_get. cbn [head default negb orb option_map from_option id].
  by apply String.eqb_neq in Hl as ->.
Qed.

(** ** Properties *)

(** A peer that is not a trusted proxy cannot influence the resolved
    address by any header: the answer is the peer's own address. *)
Theorem ClientIP_untrusted_peer r req h peer :
  peerIP (RemoteAddr req) = Some peer → isTrusted r peer = false →
  ClientIP r (with_header h req) = Some peer.
Proof.
  intros Hp Ht. unfold ClientIP. cbn [RemoteAddr with_header]. rewrite Hp. cbn [mbind option_bind].
  by rewrite Ht, orb_true_r.
Qed.

Definition ex_trusted : Resolver := default [] (mapM ParseCIDR ["10.0.0.0/8"; "fd00::/8"]).
Definition ex_req (remote : string) : Request :=
  mkRequest "GET" "" "/" "" "" "h" ∅ NoBody 0 remote.

Lemma ClientIP_untrusted_peer_witness :
  ClientIP ex_trusted (with_header {["X-Forwarded-For" := ["1.2.3.4"]]} (ex_req "203.0.113.9:443")) =
  ParseIP "203.0.113.9".
Proof.
  change (ParseIP "203.0.113.9") with (Some (As16 [203; 0; 113; 9]%Z)).
  apply (ClientIP_untrusted_peer ex_trusted (ex_req "203.0.113.9:443")); vm_compute; reflexivity.
Defined.

(** An entry of the header that is a trusted proxy's address. *)
Definition proxy_entry (r : Resolver) (entry : string) : Prop :=
  ∃ ip, ParseIP (TrimSpace entry) = Some ip ∧ isTrusted r ip = true.

(** The address the entries of the header stand for: the last one that is not a trusted
    proxy's, the peer's if that one does not parse, and the peer's if there is none. *)
Definition chosen (r : Resolver) (peer : IP) (entries : list string) (a : IP) : Prop :=
  (∃ left hop ps, entries = left ++ hop :: ps ∧ Forall (proxy_entry r) ps ∧
     (ParseIP (TrimSpace hop) = Some a ∧ isTrusted r a = false ∨
      ParseIP (TrimSpace hop) = None ∧ a = peer)) ∨
  (Forall (proxy_entry r) entries ∧ a = peer).

Lemma walk_chosen r peer entries : chosen r peer entries (walk r peer (reverse entries)).
Proof.
  induction entries as [|hop entries IH] using rev_ind; [right; by split; [constructor|]|].
  rewrite reverse_snoc. cbn [walk]. destruct (ParseIP (TrimSpace hop)) as [ip|] eqn:Ep.
  2: { left. exists entries, hop, []. split_and!; [done|constructor|by right]. }
  destruct (isTrusted r ip) eqn:Et.
  2: { left. exists entries, hop, []. split_and!; [done|constructor|by left]. }
  assert (proxy_entry r hop) as Hh by by exists ip.
  destruct IH as [(left & hop' & ps & -> & Hps & Hc)|[Hall ->]].
  - left. exists left, hop', (ps ++ [hop]). split_and!; [by rewrite <- app_assoc| |done].
    apply Forall_app. split; [done|by constructor].
  - right. split; [|done]. apply Forall_app. split; [done|by constructor].
Qed.

(** C31: which address a request is taken to come from, for a peer that parses.  A peer
    that is not a trusted proxy is the answer, whatever the headers say.  Behind a trusted
    one the first line of X-Forwarded-For decides: without it, or with an empty one, the
    answer is the peer; else it is the last of its entries (one or more) that is not a
    trusted proxy's address, whatever stands before it, and the peer if that entry does
    not parse or all entries are trusted proxies'. *)
Theorem ClientIP_rightmost_untrusted r req peer :
  peerIP (RemoteAddr req) = Some peer →
  (isTrusted r peer = false → ∀ h, ClientIP r (with_header h req) = Some peer) ∧
  (isTrusted r peer = true → ∀ h, Header_Get h "X-Forwarded-For" = "" →
     ClientIP r (with_header h req) = Some peer) ∧
  (isTrusted r peer = true → ∀ entries lines,
     entries ≠ [] → Join entries "," ≠ "" → Forall (λ e, has_char "," e = false) entries →
     ∃ a, ClientIP r (with_xff (Join entries "," :: lines) req) = Some a ∧ chosen r peer entries a).
Proof.
  intros Hp. split_and!.
  - intros Ht h. unfold ClientIP. cbn [RemoteAddr with_header]. rewrite Hp. cbn [mbind option_bind].
    by rewrite Ht, orb_true_r.
  - intros Ht h Hh. unfold ClientIP. cbn [RemoteAddr with_header Header]. rewrite Hp. cbn [mbind option_bind].
    by rewrite (isTrusted_nonempty r peer Ht), Ht, Hh.
  - intros Ht entries lines Hne Hj Hc. rewrite (ClientIP_trusted r req peer) by done.
    eexists. split; [done|]. destruct entries as [|e es]; [done|]. rewrite Split_Join by done. apply walk_chosen.
Qed.

(** One entry that is not a proxy's. *)
Lemma ClientIP_rightmost_untrusted_witness :
  ∃ a, ClientIP ex_trusted (with_xff [Join ["198.51.100.7"] ","] (ex_req "10.1.1.1:443")) = Some a ∧
    chosen ex_trusted (As16 [10; 1; 1; 1]%Z) ["198.51.100.7"] a.
Proof.
  destruct (ClientIP_rightmost_untrusted ex_trusted (ex_req "10.1.1.1:443") (As16 [10; 1; 1; 1]%Z)) as (_ & _ & H3).
  - vm_compute. reflexivity.
  - apply H3; [vm_compute; reflexivity|discriminate|discriminate|repeat constructor].
Defined.

Example ClientIP_examples :
  (λ l, ClientIP ex_trusted (with_xff [l] (ex_req "10.1.1.1:443"))) <$>
    ["198.51.100.7"; "6.6.6.6, 7.7.7.7,198.51.100.7,10.9.9.9"; "10.2.2.2"; "6.6.6.6, oops"] =
  ParseIP <$> ["198.51.100.7"; "198.51.100.7"; "10.1.1.1"; "10.1.1.1"].
Proof. vm_compute. reflexivity. Qed.

(** Only the first line of the header is read.  When a client sends a line
    of its own and the trusted proxy appends the real address as a second line,
    the client's choice of address is believed. *)
Theorem ClientIP_first_line_spoofs r req peer spoof lines ip :
  peerIP (RemoteAddr req) = Some peer → isTrusted r peer = true →
  has_char "," spoof = false → ParseIP (TrimSpace spoof) = Some ip → isTrusted r ip = false →
  ClientIP r (with_xff (spoof :: lines) req) = Some ip.
Proof.
  intros Hp Ht Hc Hs Hip. rewrite (ClientIP_trusted r req peer); try done.
  - rewrite Split_no_sep by done. cbn. by rewrite Hs, Hip.
  - intros ->. vm_compute in Hs. done.
Qed.

Lemma ClientIP_first_line_spoofs_witness :
  ClientIP ex_trusted (with_xff ["192.0.2.1"; "198.51.100.7"] (ex_req "10.1.1.1:443")) =
  ParseIP "192.0.2.1".
Proof.
  change (ParseIP "192.0.2.1") with (Some (As16 [192; 0; 2; 1]%Z)).
  apply (ClientIP_first_line_spoofs ex_trusted (ex_req "10.1.1.1:443") (As16 [10; 1; 1; 1]%Z));
    vm_compute; reflexivity.
Defined.
