(* ===== verification/Authn.v ===== *)
(** * internal/authn and internal/admin/hmac: API keys

    [HmacService] verifies a secret against a stored hash, [Generator] makes
    keys and hashes.  The middleware runs on a world whose state implements
    [KeyStore], with an authentication service given as the record [Service].
    Spans and log lines are left out.  The theorems: a request is forwarded if
    and only if its credentials are valid, with the key's identity in the
    context; every credential failure has one response; generated keys verify. *)

From S2P Require Import Prelude GoStrings GoNet GoCrypto Http Store MemoryStore ClientIP.
From Stdlib Require Import Ascii.

(** ** authn.Service and the HMAC service *)

(** The methods of a service with the HMACs they compute; [DummyVerify] discards the
    result of its work. *)
Record Service := mkService {
  Authenticate_run : string → KeyRecord → result unit * list hmac_call;
  DummyVerify : string → list hmac_call;
}.
Definition Authenticate (svc : Service) (secret : string) (rec : KeyRecord) : result unit :=
  (Authenticate_run svc secret rec).1.

Abbreviation HmacService := (gmap string string).

Definition verify (providedApiKey storedHash hmacSecret : string) : result bool * list hmac_call :=
  match hex_DecodeString storedHash with
  | Err e => (Err (ErrWrap "decode stored hash" e), [])
  | Ok expected =>
      if negb (bool_decide (length expected = sha256_Size)) then (Ok false, [])
      else (Ok (bool_decide (hmac_Sum hmacSecret providedApiKey = expected)),
            [(hmacSecret, providedApiKey)])
  end.

Definition HmacService_run (h : HmacService) (secret : string) (rec : KeyRecord)
    : result unit * list hmac_call :=
  match h !! HmacKeyID rec with
  | None => (Err (ErrMsg ("hmac secret " +:+ HmacKeyID rec +:+ " not found")), [])
  | Some hmacSecret =>
      if (hmacSecret =? "")%go then
        (Err (ErrMsg ("hmac secret " +:+ HmacKeyID rec +:+ " is empty")), [])
      else match verify secret (KeyHash rec) hmacSecret with
      | (Err e, work) => (Err (ErrWrap "verify key hash" e), work)
      | (Ok match_, work) => (if negb match_ then Err ErrInvalidCredentials else Ok (), work)
      end
  end.
Definition HmacService_Authenticate (h : HmacService) (secret : string) (rec : KeyRecord)
    : result unit := (HmacService_run h secret rec).1.

Definition decoySecret : string := "pdag-decoy-hmac-secret".
Definition HmacService_DummyVerify (secret : string) : list hmac_call := [(decoySecret, secret)].

Definition NewHmacService (secrets : gmap string string) : Service :=
  mkService (HmacService_run secrets) HmacService_DummyVerify.

Lemma Authenticate_Hmac h secret rec :
  Authenticate (NewHmacService h) secret rec = HmacService_Authenticate h secret rec.
Proof. done. Qed.

(** ** Key generation *)

Record Generator := mkGenerator { hmacKeyID : string; hmacSecret : string }.

(** [random] is what [rand.Read] delivers. *)
Definition GenerateKeyID (random : result (list Z)) : result string :=
  match random with
  | Err e => Err (ErrWrap "generate key ID" e)
  | Ok b => Ok ("k_" +:+ hex_EncodeToString b)
  end.
Definition GenerateSecret (random : result (list Z)) : result string :=
  match random with
  | Err e => Err (ErrWrap "generate secret" e)
  | Ok b => Ok ("pdg_" +:+ hex_EncodeToString b)
  end.
Definition Hash (g : Generator) (plaintext : string) : string :=
  hex_EncodeToString (hmac_Sum (hmacSecret g) plaintext).

(** ** The middleware *)

(** The allow-list loop: entries that do not parse are skipped. *)
Fixpoint cidrAllowed (cidrs : list string) (clientIP : IP) : bool :=
  match cidrs with
  | [] => false
  | cidr :: rest =>
      match ParseCIDR cidr with
      | None => cidrAllowed rest clientIP
      | Some ipNet => if Contains ipNet clientIP then true else cidrAllowed rest clientIP
      end
  end.

Section Middleware.

Context {S : Type} `{KeyStore S}.
Context (authnService : Service) (resolver : Resolver).

(** [deny]: the same answer for every authentication failure. *)
Definition deny (label : string) (w : World S) : outcome * World S :=
  reject "invalid credentials" 401 (Inc "AuthnTotal" [label] w).

(** The checks after the secret was verified: the label of the first failure. *)
Definition keyState (rec : KeyRecord) (r : Request) (now : Time) : option string :=
  if negb (Enabled rec) then Some "disabled"
  else if expired now rec then Some "expired"
  else if bool_decide (0 < length (AllowedCIDRs rec)) then
    match ClientIP resolver r with
    | None => Some "invalid_source_ip"
    | Some clientIP =>
        if negb (cidrAllowed (AllowedCIDRs rec) clientIP) then Some "ip_not_allowed" else None
    end
  else None.

(** [time.Now()] is read only when the key is enabled and has an expiry. *)
Definition readsClock (rec : KeyRecord) : bool := Enabled rec && bool_decide (is_Some (ExpiresAt rec)).

(** From the stored record on. *)
Definition authn_record (secret : string) (rec : KeyRecord) (next : Handler S) : Handler S := λ ctx r w,
  let '(res, work) := Authenticate_run authnService secret rec in
  let w := spend work w in
  match res with
  | Err err =>
      if errors_Is err ErrInvalidCredentials then deny "invalid_credentials" w
      else reject "internal error" 500 (Inc "AuthnTotal" ["authn_error"] w)
  | Ok _ =>
      let '(now, w) := if readsClock rec then time_Now w else (0%Z, w) in
      match keyState rec r now with
      | Some label => deny label w
      | None =>
          let w := Inc "AuthnTotal" ["success"] w in
          let ctx := WithPrincipal (Principal rec) ctx in
          let ctx := WithKeyID (ID rec) ctx in
          let ctx := WithRoles (Roles rec) ctx in
          next ctx r w
      end
  end.

Definition authn_Middleware (next : Handler S) : Handler S := λ ctx r w,
  let apiKey := Header_Get (Header r) "X-API-Key" in
  if (apiKey =? "")%go then
    reject "missing X-API-Key header" 401 (Inc "AuthnTotal" ["missing_header"] w)
  else
    match Cut apiKey ":" with
    | Some (keyID, secret) =>
        if (keyID =? "")%go || (secret =? "")%go then
          reject "malformed X-API-Key header" 401 (Inc "AuthnTotal" ["malformed_header"] w)
        else
          let '(start, w) := time_Now w in
          let '(res, s) := GetByID keyID (w_state w) in
          let w := set_state s w in
          let '(stop, w) := time_Now w in
          match res with
          | Err err =>
              let w := Inc "AuthnTotal" ["store_error"] (Inc "KeyStoreErrorsTotal" [] w) in
              reject "internal error" 500 w
          | Ok None => deny "unknown_key" (spend (DummyVerify authnService secret) w)
          | Ok (Some rec) => authn_record secret rec next ctx r w
          end
    | None => reject "malformed X-API-Key header" 401 (Inc "AuthnTotal" ["malformed_header"] w)
    end.

End Middleware.

(** ** Lemmas *)

Lemma cidrAllowed_iff cidrs ip :
  cidrAllowed cidrs ip = true ↔
  ∃ cidr n, cidr ∈ cidrs ∧ ParseCIDR cidr = Some n ∧ Contains n ip = true.
Proof.
  induction cidrs as [|c cidrs IH]; cbn; [split; [done|]; by intros (? & ? & ?%not_elem_of_nil & _)|].
  assert ((∃ cidr n, cidr ∈ c :: cidrs ∧ ParseCIDR cidr = Some n ∧ Contains n ip = true) ↔
    (∃ n, ParseCIDR c = Some n ∧ Contains n ip = true) ∨ cidrAllowed cidrs ip = true) as Hc.
  { rewrite IH. split.
    - intros (cidr & n & [->|?]%elem_of_cons & ?); [left; eauto|right; eauto].
    - intros [(n & ?)|(cidr & n & ? & ?)].
      + exists c, n. split; [apply list_elem_of_here|done].
      + exists cidr, n. split; [by apply list_elem_of_further|done]. }
  rewrite Hc. destruct (ParseCIDR c) as [n|].
  - destruct (Contains n ip) eqn:E; [split; [left; eauto|done]|].
    split; [by right|]. intros [(n' & ? & ?)|?]; [congruence|done].
  - split; [by right|]. by intros [(n' & ? & _)|?].
Qed.

(** A secret is accepted exactly when the stored hash is the hex encoding of its
    HMAC under the configured, non-empty secret of the key's HMAC key ID. *)
Lemma HmacService_Authenticate_ok h secret rec :
  HmacService_Authenticate h secret rec = Ok () ↔
  ∃ k, h !! HmacKeyID rec = Some k ∧ k ≠ "" ∧
       hex_DecodeString (KeyHash rec) = Ok (hmac_Sum k secret).
Proof.
  unfold HmacService_Authenticate, HmacService_run, verify. destruct (h !! HmacKeyID rec) as [k|]; [|naive_solver].
  destruct (String.eqb_spec k "") as [->|Hk]; [naive_solver|].
  destruct (hex_DecodeString (KeyHash rec)) as [expected|]; [|naive_solver].
  pose proof (proj1 (hmac_Sum_bytes k secret)) as Hlen.
  case_bool_decide as Hl; cbn.
  - case_bool_decide as He; cbn; naive_solver.
  - split; [done|]. intros (k' & ? & ? & ?). by simplify_eq.
Qed.

Lemma HmacService_Authenticate_verified h secret rec k expected :
  h !! HmacKeyID rec = Some k → k ≠ "" → hex_DecodeString (KeyHash rec) = Ok expected →
  HmacService_Authenticate h secret rec = Ok () ∨
  HmacService_Authenticate h secret rec = Err ErrInvalidCredentials.
Proof.
  intros Hk Hne Hd. unfold HmacService_Authenticate, HmacService_run, verify. rewrite Hk, Hd.
  apply String.eqb_neq in Hne as ->. repeat case_bool_decide; cbn; auto.
Qed.

Section MiddlewareLemmas.

Context {S : Type} `{KeyStore S}.
Context (secrets : HmacService) (resolver : Resolver).

(** The key ID and the secret of a well-formed header. *)
Definition credentials (r : Request) (keyID secret : string) : Prop :=
  Cut (Header_Get (Header r) "X-API-Key") ":" = Some (keyID, secret) ∧ keyID ≠ "" ∧ secret ≠ "".

Definition source_allowed (rec : KeyRecord) (r : Request) : Prop :=
  AllowedCIDRs rec = [] ∨
  ∃ ip cidr n, ClientIP resolver r = Some ip ∧ cidr ∈ AllowedCIDRs rec ∧
    ParseCIDR cidr = Some n ∧ Contains n ip = true.

(** The key is enabled, not expired and used from an allowed address. *)
Definition key_usable (rec : KeyRecord) (r : Request) (now : Time) : Prop :=
  Enabled rec = true ∧ expired now rec = false ∧ source_allowed rec r.

Definition verifies (rec : KeyRecord) (secret : string) : Prop :=
  ∃ k, secrets !! HmacKeyID rec = Some k ∧ k ≠ "" ∧
       hex_DecodeString (KeyHash rec) = Ok (hmac_Sum k secret).

(** The request carries the secret of a usable stored key [rec]. *)
Definition authenticated (r : Request) (w : World S) (rec : KeyRecord) : Prop :=
  ∃ keyID secret, credentials r keyID secret ∧
    (GetByID keyID (w_state w)).1 = Ok (Some rec) ∧ verifies rec secret ∧
    key_usable rec r (w_clock w (2 + w_tick w)).

Lemma keyState_None rec r now :
  keyState resolver rec r now = None ↔ key_usable rec r now.
Proof.
  unfold keyState, key_usable, source_allowed. destruct (Enabled rec); cbn; [|naive_solver].
  destruct (expired now rec); [naive_solver|].
  destruct (AllowedCIDRs rec) as [|c cs] eqn:Ec; [rewrite bool_decide_false by (cbn; lia); naive_solver|].
  rewrite bool_decide_true by (cbn; lia).
  destruct (ClientIP resolver r) as [ip|]; [|naive_solver].
  pose proof (cidrAllowed_iff (c :: cs) ip) as Hc.
  destruct (cidrAllowed (c :: cs) ip); cbn; split; try done.
  - intros _. split_and!; [done|done|]. right. destruct (proj1 Hc eq_refl) as (? & ? & ?). naive_solver.
  - intros (_ & _ & [?|(ip' & cidr & n & [= <-] & ?)]); [done|].
    assert (false = true) by (apply Hc; naive_solver). done.
Qed.

(** A key without expiry or that is disabled does not depend on the clock. *)
Lemma keyState_clock rec r now now' :
  readsClock rec = false → keyState resolver rec r now = keyState resolver rec r now'.
Proof.
  unfold readsClock, keyState, expired. destruct (Enabled rec); cbn; [|done].
  intros E%bool_decide_eq_false. destruct (ExpiresAt rec); [|done]. destruct E. by eexists.
Qed.

(** What the middleware adds to the context. *)
Definition identify (rec : KeyRecord) (ctx : Context) : Context :=
  WithRoles (Roles rec) (WithKeyID (ID rec) (WithPrincipal (Principal rec) ctx)).

(** Everything but the state, the clock and the counters is left alone. *)
Definition same_io (w w' : World S) : Prop :=
  w_rw w' = w_rw w ∧ w_cells w' = w_cells w ∧ w_recorder w' = w_recorder w.

(** The state changed only by looking the request's key up. *)
Definition looked_up (r : Request) (w w' : World S) : Prop :=
  ∃ keyID secret, credentials r keyID secret ∧ w_state w' = (GetByID keyID (w_state w)).2.

(** The key [keyID] is unknown, or its hash can be checked with a configured
    secret: no internal error is in the way of a verification. *)
Definition checkable (keyID : string) (w : World S) : Prop :=
  (∀ e, (GetByID keyID (w_state w)).1 ≠ Err e) ∧
  ∀ rec, (GetByID keyID (w_state w)).1 = Ok (Some rec) →
    ∃ k b, secrets !! HmacKeyID rec = Some k ∧ k ≠ "" ∧ hex_DecodeString (KeyHash rec) = Ok b.

(** A request is forwarded, or refused without reaching the next handler. *)
Inductive authn_outcome (r : Request) (w : World S) (ctx : Context)
    (k : Handler S → outcome * World S) : Prop :=
  | authn_forwarded rec w' :
      authenticated r w rec → same_io w w' → looked_up r w w' →
      (∀ next, k next = next (identify rec ctx) r w') → authn_outcome r w ctx k
  | authn_refused w0 msg code :
      (∀ rec, ¬ authenticated r w rec) → code ∈ [401; 500]%Z → same_io w w0 →
      w_state w0 = w_state w ∨ looked_up r w w0 →
      (∀ next, k next = reject msg code w0) →
      (∀ keyID secret, credentials r keyID secret → checkable keyID w →
         msg = "invalid credentials" ∧ code = 401%Z) →
      authn_outcome r w ctx k.

(** The second half, for a record that was found. *)
Lemma authn_record_cases secret rec ctx r w :
  (∃ w', verifies rec secret ∧ key_usable rec r (w_clock w (w_tick w)) ∧ same_io w w' ∧
     w_state w' = w_state w ∧
     ∀ next, authn_record (NewHmacService secrets) resolver secret rec next ctx r w =
             next (identify rec ctx) r w') ∨
  (∃ w0 msg code, ¬ (verifies rec secret ∧ key_usable rec r (w_clock w (w_tick w))) ∧
     code ∈ [401; 500]%Z ∧ same_io w w0 ∧ w_state w0 = w_state w ∧
     (∀ next, authn_record (NewHmacService secrets) resolver secret rec next ctx r w =
              reject msg code w0) ∧
     ((∃ k b, secrets !! HmacKeyID rec = Some k ∧ k ≠ "" ∧ hex_DecodeString (KeyHash rec) = Ok b) →
        msg = "invalid credentials" ∧ code = 401%Z)).
Proof.
  unfold authn_record. cbn [Authenticate_run NewHmacService].
  destruct (HmacService_run secrets secret rec) as [res work] eqn:Erun.
  assert (HmacService_Authenticate secrets secret rec = res) as Ea
    by (unfold HmacService_Authenticate; by rewrite Erun).
  set (w1 := spend work w). change (w_clock w) with (w_clock w1). change (w_tick w) with (w_tick w1).
  change (w_state w) with (w_state w1).
  assert (∀ w', same_io w1 w' → same_io w w') as Hspend by done.
  clearbody w1. destruct res as [[]|err].
  - apply HmacService_Authenticate_ok in Ea.
    destruct (if readsClock rec then time_Now w1 else (0%Z, w1)) as [now w3] eqn:Ew.
    assert (same_io w1 w3 ∧ w_state w3 = w_state w1) as [Hio Hst].
    { unfold time_Now in Ew. destruct (readsClock rec); by simplify_eq. }
    assert (keyState resolver rec r now = keyState resolver rec r (w_clock w1 (w_tick w1))) as ->.
    { unfold time_Now in Ew.
      destruct (readsClock rec) eqn:Er; [by simplify_eq|by apply keyState_clock]. }
    pose proof (keyState_None rec r (w_clock w1 (w_tick w1))) as Hks.
    destruct (keyState resolver rec r (w_clock w1 (w_tick w1))) as [label|].
    + right. exists (Inc "AuthnTotal" [label] w3), "invalid credentials", 401%Z.
      split; [by intros [_ ?%Hks]|]. split; [left|]. split; [by apply Hspend|]. by split_and!.
    + left. exists (Inc "AuthnTotal" ["success"] w3). split; [done|].
      split; [by apply Hks|]. split; [by apply Hspend|]. by split.
  - right. assert (¬ verifies rec secret) as Hno.
    { intros Hv%HmacService_Authenticate_ok. congruence. }
    destruct (errors_Is err ErrInvalidCredentials) eqn:Ei.
    + exists (Inc "AuthnTotal" ["invalid_credentials"] w1), "invalid credentials", 401%Z.
      split; [by intros []|]. split; [left|]. split; [by apply Hspend|]. by split_and!.
    + exists (Inc "AuthnTotal" ["authn_error"] w1), "internal error", 500%Z.
      split; [by intros []|]. split; [right; left|]. split; [by apply Hspend|]. split; [done|]. split; [done|]. intros (hk & b & H1 & H2 & H3).
      destruct (HmacService_Authenticate_verified _ secret _ _ _ H1 H2 H3) as [E|E];
        rewrite Ea in E; by simplify_eq.
Qed.

(** A malformed header: no credentials at all. *)
Lemma authn_malformed ctx r w w0 msg k :
  (∀ keyID secret, ¬ credentials r keyID secret) → same_io w w0 ∧ w_state w0 = w_state w →
  (∀ next, k next = reject msg 401 w0) → authn_outcome r w ctx k.
Proof.
  intros Hno [Hio Hs] Hk. eapply authn_refused; [|left|exact Hio|by left|exact Hk|].
  - intros rec (i & s & Hc & _). by eapply Hno.
  - intros i s Hc. by destruct (Hno i s).
Qed.

Lemma authn_cases ctx r w :
  authn_outcome r w ctx
    (λ next, authn_Middleware (NewHmacService secrets) resolver next ctx r w).
Proof.
  unfold authn_Middleware.
  destruct (String.eqb_spec (Header_Get (Header r) "X-API-Key") "") as [Ek|Ek].
  { eapply authn_malformed; [| |done]; [|by split]. intros i s (Hc & _). by rewrite Ek in Hc. }
  destruct (Cut _ ":") as [[keyID secret]|] eqn:Ec.
  2: { eapply authn_malformed; [| |done]; [|by split]. intros i s (Hc & _). by rewrite Ec in Hc. }
  destruct ((keyID =? "") || (secret =? ""))%go eqn:Ee.
  { eapply authn_malformed; [| |done]; [|by split]. intros i s (Hc & Hi & Hs). rewrite Ec in Hc. simplify_eq.
    apply String.eqb_neq in Hi, Hs. by rewrite Hi, Hs in Ee. }
  unfold time_Now. cbn [w_state].
  assert (∀ i s, credentials r i s → i = keyID ∧ s = secret) as Hcred.
  { intros i s (Hc & _). by rewrite Ec in Hc; simplify_eq. }
  assert (credentials r keyID secret) as Hok.
  { apply orb_false_iff in Ee as [?%String.eqb_neq ?%String.eqb_neq]. by split. }
  destruct (GetByID keyID (w_state w)) as [res s] eqn:Eg.
  cbn [set_state w_rw w_recorder w_cells w_metrics w_active w_clock w_tick w_uuid w_nuuid w_work w_state].
  set (w2 := mkWorld _ _ _ _ _ _ _ _ _ _ _).
  assert (∀ rec, authenticated r w rec → res = Ok (Some rec) ∧ verifies rec secret ∧
    key_usable rec r (w_clock w (2 + w_tick w))) as Hauth.
  { intros rec (i & k & Hc & Hg & ? & ?). destruct (Hcred _ _ Hc) as [-> ->].
    by rewrite Eg in Hg. }
  destruct res as [[rec|]|err].
  - destruct (authn_record_cases secret rec ctx r w2) as [(w' & Hv & Hu & Hio & Hst & Hk)|
      (w0 & msg & code & Hn & Hcode & Hio & Hst & Hk & Hmsg)].
    + eapply authn_forwarded; [|exact Hio| |exact Hk]; exists keyID, secret; by rewrite Eg.
    + eapply authn_refused; [|exact Hcode|exact Hio|right; exists keyID, secret; by rewrite Eg|exact Hk|].
      * intros rec' Ha. destruct (Hauth rec' Ha) as ([= <-] & ? & ?). by apply Hn.
      * intros i k Hc [_ Hch]. destruct (Hcred _ _ Hc) as [-> ->]. apply Hmsg, Hch. by rewrite Eg.
  - eapply authn_refused; [|left| |right|done|done]; [|by split|exists keyID, secret; by rewrite Eg].
    intros rec Ha. by destruct (Hauth rec Ha).
  - eapply authn_refused; [|right; left| |right|done|]; [|by split|exists keyID, secret; by rewrite Eg|].
    + intros rec Ha. by destruct (Hauth rec Ha).
    + intros i k Hc [He _]. destruct (Hcred _ _ Hc) as [-> ->]. destruct (He err). by rewrite Eg.
Qed.

(** ** Lemmas: the work of an answer *)

Lemma work_reject msg code (w : World S) : w_work (reject msg code w).2 = w_work w.
Proof. unfold reject, http_Error, WriteHeader. cbn. by destruct (w_recorder w). Qed.

(** What looking up a key and verifying a secret computes. *)
Definition lookup_work (secret : string) (res : result (option KeyRecord)) : list hmac_call :=
  match res with
  | Ok (Some rec) => (HmacService_run secrets secret rec).2
  | Ok None => HmacService_DummyVerify secret
  | Err _ => []
  end.

Lemma authn_work_added ctx r w keyID secret next :
  credentials r keyID secret → (∀ ctx' r' w', w_work (next ctx' r' w').2 = w_work w') →
  w_work (authn_Middleware (NewHmacService secrets) resolver next ctx r w).2 =
  w_work w ++ lookup_work secret (GetByID keyID (w_state w)).1.
Proof.
  intros (Hc & Hi%String.eqb_neq & Hs%String.eqb_neq) Hn. unfold authn_Middleware.
  destruct (String.eqb_spec (Header_Get (Header r) "X-API-Key") "") as [Ek|_]; [by rewrite Ek in Hc|].
  rewrite Hc, Hi, Hs. cbn [orb]. unfold time_Now. cbn [w_state].
  destruct (GetByID keyID (w_state w)) as [[[rec|]|err] s]; cbn [fst lookup_work].
  - unfold authn_record, deny, time_Now. cbn [Authenticate_run NewHmacService].
    destruct (HmacService_run secrets secret rec) as [[[]|err] work]; cbn [snd].
    + destruct (readsClock rec); (destruct (keyState _ _ _ _); [by rewrite work_reject|by rewrite Hn]).
    + destruct (errors_Is _ _); by rewrite work_reject.
  - unfold deny. by rewrite work_reject.
  - rewrite work_reject. by rewrite app_nil_r.
Qed.

(** The key's HMAC secret is configured, and the stored hash is a digest. *)
Definition regular (rec : KeyRecord) : Prop :=
  ∃ k b, secrets !! HmacKeyID rec = Some k ∧ k ≠ "" ∧
    hex_DecodeString (KeyHash rec) = Ok b ∧ length b = sha256_Size.

Lemma regular_work secret rec :
  regular rec → ∃ k, secrets !! HmacKeyID rec = Some k ∧ (HmacService_run secrets secret rec).2 = [(k, secret)].
Proof.
  intros (k & b & Hk & Hne & Hd & Hb). exists k. split; [done|].
  unfold HmacService_run, verify. apply String.eqb_neq in Hne. by rewrite Hk, Hne, Hd, bool_decide_true.
Qed.

End MiddlewareLemmas.

(** What [http.Error] writes depends on the writer alone. *)
Lemma http_Error_io {S : Type} msg code (w w0 : World S) :
  same_io w w0 → w_rw (http_Error msg code w0) = w_rw (http_Error msg code w).
Proof.
  intros (Hrw & Hcells & Hrec). unfold http_Error, Write, WriteHeader, rw_Set, rw_Del. cbn. rewrite Hrec.
  destruct (w_recorder w); cbn; by rewrite Hrw.
Qed.

(** ** Properties *)

(** C10: a request reaches the handler behind the authentication if and only if
    it carries, as keyID:secret, the ID of a stored key and a secret whose
    HMAC-SHA256 under the key's configured HMAC secret is the stored hash, and the
    key is enabled, not expired and used from an address its allow-list admits;
    the context then names the key's principal, ID and roles.  Every other
    request is answered with 401 or 500 without reaching the handler. *)
Theorem authn_forwards_iff {S : Type} `{KeyStore S} secrets resolver ctx r (w : World S) :
  (∃ rec w', authenticated secrets resolver r w rec ∧ w_rw w' = w_rw w ∧ looked_up r w w' ∧
     ∀ next, authn_Middleware (NewHmacService secrets) resolver next ctx r w =
             next (identify rec ctx) r w') ∨
  ((∀ rec, ¬ authenticated secrets resolver r w rec) ∧
   ∃ w0 msg code, code ∈ [401; 500]%Z ∧ w_rw w0 = w_rw w ∧
     ∀ next, authn_Middleware (NewHmacService secrets) resolver next ctx r w = reject msg code w0).
Proof.
  destruct (authn_cases secrets resolver ctx r w) as [rec w' Ha (Hio & _) Hl Hk|
    w0 msg code Hno Hcode (Hio & _) _ Hk _].
  - left. by exists rec, w'.
  - right. split; [done|]. by exists w0, msg, code.
Qed.

(** C17: what a refused client is told.  A request without the header, and one whose
    header is not of the form keyID:secret, each get a 401 of their own that depends on
    nothing stored.  A well-formed header that is refused gets one and the same 401,
    whether its key is unknown, its secret wrong, or the key disabled, expired or used
    from elsewhere: the response is a function of the writer alone.  (For the last, no
    internal error is in the way: the store answers, the key's HMAC secret is configured
    and its stored hash is hex.) *)
Theorem authn_uniform_refusal {S : Type} `{KeyStore S} secrets resolver ctx r (w : World S) next :
  let told msg :=
    ∃ w', authn_Middleware (NewHmacService secrets) resolver next ctx r w = (Returned, w') ∧
      w_rw w' = w_rw (http_Error msg 401 w) in
  (Header_Get (Header r) "X-API-Key" = "" → told "missing X-API-Key header") ∧
  (Header_Get (Header r) "X-API-Key" ≠ "" → (∀ keyID secret, ¬ credentials r keyID secret) →
     told "malformed X-API-Key header") ∧
  (∀ keyID secret, credentials r keyID secret → checkable secrets keyID w →
     (∀ rec, ¬ authenticated secrets resolver r w rec) → told "invalid credentials").
Proof.
  intros told. split_and!.
  - intros Eh. unfold told, authn_Middleware. rewrite Eh. eexists. split; [done|]. by apply http_Error_io.
  - intros Hne%String.eqb_neq Hno. unfold told, authn_Middleware. rewrite Hne.
    destruct (Cut _ ":") as [[keyID secret]|] eqn:Ec; [|eexists; split; [done|]; by apply http_Error_io].
    destruct ((keyID =? "") || (secret =? ""))%go eqn:Ee; [eexists; split; [done|]; by apply http_Error_io|].
    apply orb_false_iff in Ee as [Hi%String.eqb_neq Hs%String.eqb_neq]. by destruct (Hno keyID secret).
  - intros keyID secret Hc Hch Hno. destruct (authn_cases secrets resolver ctx r w) as [rec w' Ha _ _ _|
      w0 msg code _ _ Hio _ Hk Hmsg]; [by destruct (Hno rec)|].
    destruct (Hmsg keyID secret Hc Hch) as [-> ->]. eexists. split; [apply Hk|]. by apply http_Error_io.
Qed.

Definition ex_gen : Generator := mkGenerator "h1" "topsecret".
Definition ex_key : KeyRecord :=
  mkKeyRecord "k1" (Hash ex_gen "pdg_1") "h1" "alice" ["admin"] [] false None 0 0.
Definition ex_authn_world : World Memory.Store :=
  mkWorld (mkRW ∅ None "") true (mkCells 0 "" (mkAuthzResult "" "" "") 200) [] 0
    (λ n, Z.of_nat n) 0 (λ _, "u") 0 [] {["k1" := ex_key]}.
Definition ex_authn_req (key : string) : Request :=
  mkRequest "GET" "" "/" "" "" "h" {["X-Api-Key" := [key]]} NoBody 0 "127.0.0.1:1".

(** The right secret of a disabled key. *)
Lemma authn_uniform_refusal_witness :
  w_rw (authn_Middleware (NewHmacService {["h1" := "topsecret"]}) [] (λ _ _ w, (Returned, w))
          Background (ex_authn_req "k1:pdg_1") ex_authn_world).2 =
  w_rw (http_Error "invalid credentials" 401 ex_authn_world).
Proof.
  destruct (authn_uniform_refusal (S := Memory.Store) {["h1" := "topsecret"]} [] Background
    (ex_authn_req "k1:pdg_1") ex_authn_world (λ _ _ w, (Returned, w))) as (_ & _ & H3).
  destruct (H3 "k1" "pdg_1") as (w' & E & Hw).
  - split; [reflexivity|]. split; discriminate.
  - split; [intros e; vm_compute; discriminate|]. intros rec E. vm_compute in E. injection E as <-.
    exists "topsecret", (hmac_Sum "topsecret" "pdg_1"). split; [reflexivity|]. split; [discriminate|].
    vm_compute. reflexivity.
  - intros rec (i & s & (Hc & _) & Hg & _ & He & _). vm_compute in Hc. injection Hc as <- <-.
    vm_compute in Hg. injection Hg as <-. vm_compute in He. discriminate.
  - rewrite E. exact Hw.
Defined.

(** A key made by the generator verifies: the hash the generator stores for
    a secret is accepted by the service configured with the generator's HMAC
    secret under its ID, and for no other secret unless the two have the same
    HMAC. *)
Theorem generated_key_verifies g secrets rec secret secret' :
  secrets !! hmacKeyID g = Some (hmacSecret g) → hmacSecret g ≠ "" →
  KeyHash rec = Hash g secret → HmacKeyID rec = hmacKeyID g →
  Authenticate (NewHmacService secrets) secret rec = Ok () ∧
  (Authenticate (NewHmacService secrets) secret' rec = Ok () ↔
     hmac_Sum (hmacSecret g) secret' = hmac_Sum (hmacSecret g) secret).
Proof.
  intros Hs Hne Hh Hid. rewrite !Authenticate_Hmac.
  rewrite !HmacService_Authenticate_ok, Hid, Hh. unfold Hash.
  rewrite hex_Decode_Encode by apply hmac_Sum_bytes. split.
  - by exists (hmacSecret g).
  - split; [intros (k & ? & ? & ?); by simplify_eq|].
    intros E. exists (hmacSecret g). by rewrite E.
Qed.

Lemma generated_key_verifies_witness :
  Authenticate (NewHmacService {["h1" := "topsecret"]}) "pdg_1" ex_key = Ok ().
Proof.
  refine (proj1 (generated_key_verifies ex_gen {["h1" := "topsecret"]} ex_key "pdg_1" "" _ _ _ _)).
  - vm_compute. reflexivity.
  - discriminate.
  - unfold ex_key. cbn [KeyHash]. reflexivity.
  - reflexivity.
Defined.

(** C25: what looking a key up costs.  For a well-formed header the middleware computes
    exactly one HMAC, of the presented secret, whether the key is unknown, the secret right
    or wrong, and the key enabled, disabled, expired or used from elsewhere; and it
    compresses as many SHA-256 blocks as for a key that does not exist, and on top of them
    those of the key's HMAC secret itself when that is longer than 64 bytes, so the work
    tells nothing as long as the configured secrets have at most 64 bytes.  (The store
    answers; the key that is found has a configured HMAC secret and a digest as its
    hash.) *)
Theorem authn_constant_work {S : Type} `{KeyStore S} secrets resolver ctx r (w : World S) keyID secret next :
  credentials r keyID secret → (∀ ctx' r' w', w_work (next ctx' r' w').2 = w_work w') →
  is_Ok (GetByID keyID (w_state w)).1 = true →
  (∀ rec, (GetByID keyID (w_state w)).1 = Ok (Some rec) → regular secrets rec) →
  ∃ k, w_work (authn_Middleware (NewHmacService secrets) resolver next ctx r w).2 =
         w_work w ++ [(k, secret)] ∧
       hmac_blocks k secret = key_blocks k + hmac_blocks decoySecret secret ∧
       (k = decoySecret ∨ ∃ rec, (GetByID keyID (w_state w)).1 = Ok (Some rec) ∧ secrets !! HmacKeyID rec = Some k).
Proof.
  intros Hc Hn Hok Hreg. rewrite (authn_work_added secrets resolver ctx r w keyID secret next Hc Hn).
  destruct (GetByID keyID (w_state w)) as [[[rec|]|err] s]; cbn [fst lookup_work] in *; [| |done].
  - destruct (regular_work secrets secret rec (Hreg rec eq_refl)) as (k & Hk & ->). exists k.
    split_and!; [done|by apply hmac_blocks_key|]. right. by exists rec.
  - exists decoySecret. split_and!; [done|by apply hmac_blocks_key|by left].
Qed.

Lemma authn_constant_work_witness :
  ∃ k, w_work (authn_Middleware (NewHmacService {["h1" := "topsecret"]}) [] (λ _ _ w, (Returned, w))
          Background (ex_authn_req "k1:wrong") ex_authn_world).2 = [(k, "wrong")] ∧
    hmac_blocks k "wrong" = key_blocks k + hmac_blocks decoySecret "wrong" ∧
    (k = decoySecret ∨ ∃ rec, (GetByID "k1" (w_state ex_authn_world)).1 = Ok (Some rec) ∧
       ({["h1" := "topsecret"]} : HmacService) !! HmacKeyID rec = Some k).
Proof.
  apply (authn_constant_work (S := Memory.Store) {["h1" := "topsecret"]} [] Background
    (ex_authn_req "k1:wrong") ex_authn_world "k1" "wrong" (λ _ _ w, (Returned, w))).
  - split; [reflexivity|]. split; discriminate.
  - reflexivity.
  - reflexivity.
  - intros rec E. vm_compute in E. injection E as <-.
    exists "topsecret", (hmac_Sum "topsecret" "pdg_1"). split; [reflexivity|]. split; [discriminate|].
    split; vm_compute; reflexivity.
Defined.

(** A longer HMAC secret is hashed first, which a key that does not exist never
    pays for: then the two differ by the blocks of the secret. *)
Example long_secret_costs :
  hmac_blocks (String.concat "" (replicate 65 "s")) "x" = 2 + hmac_blocks decoySecret "x".
Proof. vm_compute. reflexivity. Qed.
