(* ===== verification/RateLimit.v ===== *)
(** * internal/ratelimit: token buckets per principal

    The limiter is written over the class [Arith] of the float64 operations the
    code uses.  Two instances: IEEE binary64 with round-to-nearest-even (the
    machine's arithmetic, executable) and the rationals (the arithmetic the code
    approximates).  A history of a limiter is a sequence of calls in the order
    the bucket locks are taken; each call carries the time it read before, so
    the times need not be ordered.  The bound on the requests let through is
    proved in exact arithmetic; isolation holds for every arithmetic. *)

From S2P Require Import Prelude GoStrings Http.
From Stdlib Require Import QArith Lqa SpecFloat.

(** ** Arithmetic *)

Class Arith (F : Type) := {
  of_int : Z → F;
  seconds : Duration → F;
  fadd : F → F → F;
  fsub : F → F → F;
  fmul : F → F → F;
  fltb : F → F → bool;
}.

Module Float64.

Definition t : Type := spec_float.

(** [float64(z)] *)
Definition of_Z (z : Z) : t := binary_normalize 53 1024 z 0 false.

(** [Duration.Seconds]: whole seconds plus the nanoseconds divided by 1e9. *)
Definition Seconds (d : Duration) : t :=
  SFadd 53 1024 (of_Z (Z.quot d Second))
    (SFdiv 53 1024 (of_Z (Z.rem d Second)) (of_Z Second)).

#[global] Instance Float64_Arith : Arith t := {|
  of_int := of_Z;
  seconds := Seconds;
  fadd := SFadd 53 1024;
  fsub := SFsub 53 1024;
  fmul := SFmul 53 1024;
  fltb := SFltb;
|}.

End Float64.

#[export] Instance Q_Arith : Arith Q := {|
  of_int := inject_Z;
  seconds := λ d, (inject_Z d / inject_Z Second)%Q;
  fadd := Qplus;
  fsub := Qminus;
  fmul := Qmult;
  fltb := λ a b, negb (Qle_bool b a);
|}.

(** ** The limiter *)

Definition staleThreshold : Duration := (5 * Minute)%Z.

Record Config (F : Type) := mkConfig { Rate : F; Burst : Z }.
Arguments mkConfig {F} _ _.
Arguments Rate {F} _.
Arguments Burst {F} _.

Record bucket (F : Type) := mkBucket { tokens : F; lastCheck : Time }.
Arguments mkBucket {F} _ _.
Arguments tokens {F} _.
Arguments lastCheck {F} _.

Record Limiter (F : Type) := mkLimiter {
  buckets : gmap string (bucket F);
  rate : F;
  burst : Z;
}.
Arguments mkLimiter {F} _ _ _.
Arguments buckets {F} _.
Arguments rate {F} _.
Arguments burst {F} _.

Section Limiter.

Context {F : Type} `{Arith F}.

Definition New (cfg : Config F) : Limiter F := mkLimiter ∅ (Rate cfg) (Burst cfg).

(** [Allow] under the bucket's lock. *)
Definition take_token (rt : F) (bst : Z) (now : Time) (b : bucket F) : bool * bucket F :=
  let elapsed := seconds (time_Sub now (lastCheck b)) in
  let t := fadd (tokens b) (fmul elapsed rt) in
  let t := if fltb (of_int bst) t then of_int bst else t in
  if fltb t (of_int 1) then (false, mkBucket t now)
  else (true, mkBucket (fsub t (of_int 1)) now).

Definition Allow (now : Time) (principal : string) (l : Limiter F) : bool * Limiter F :=
  let b := default (mkBucket (of_int (burst l)) now) (buckets l !! principal) in
  let '(ok, b') := take_token (rate l) (burst l) now b in
  (ok, mkLimiter (<[principal := b']> (buckets l)) (rate l) (burst l)).

(** Idle buckets are dropped. *)
Definition stale (now : Time) (b : bucket F) : bool :=
  (staleThreshold <? time_Sub now (lastCheck b))%Z.
Definition cleanup (now : Time) (l : Limiter F) : Limiter F :=
  mkLimiter (filter (λ kb, stale now kb.2 = false) (buckets l)) (rate l) (burst l).

(** What the cleanup goroutine receives; once [stop] is closed the loop ends. *)
Inductive loopEvent := Tick (now : Time) | Stop.

Fixpoint cleanupLoop (evs : list loopEvent) (l : Limiter F) : Limiter F :=
  match evs with
  | Tick now :: evs' => cleanupLoop evs' (cleanup now l)
  | Stop :: _ | [] => l
  end.

(** [Close] under its [sync.Once], on whether [stop] is closed. *)
Definition Close (stopped : bool) : list loopEvent * bool :=
  if stopped then ([], true) else ([Stop], true).

(** A bucket that is not idle at any tick before the stop survives the loop unchanged. *)
Lemma cleanupLoop_keeps evs (l : Limiter F) p b :
  buckets l !! p = Some b → Forall (λ ev, ∀ now, ev = Tick now → stale now b = false) evs →
  buckets (cleanupLoop evs l) !! p = Some b.
Proof.
  intros Hb Hf. revert l Hb. induction Hf as [|[now|] evs Hev _ IH]; intros l Hb; [done| |done].
  apply IH. cbn. apply map_lookup_filter_Some. split; [done|]. by apply Hev.
Qed.

End Limiter.

(** ** The interface and the middleware *)

Class RateLimiter (S : Type) := { limiter_Allow : Time → string → S → bool * S }.

#[export] Instance Limiter_RateLimiter {F} `{Arith F} : RateLimiter (Limiter F) :=
  {| limiter_Allow := Allow |}.

(** [Noop()] *)
#[export] Instance noop_RateLimiter : RateLimiter unit := {| limiter_Allow := λ _ _ s, (true, s) |}.

Definition ratelimit_Middleware {S} `{RateLimiter S} (next : Handler S) : Handler S := λ ctx r w,
  let principal := GetPrincipal ctx in
  if (principal =? "")%go then next ctx r w
  else
    let '(now, w) := time_Now w in
    let '(ok, s) := limiter_Allow now principal (w_state w) in
    let w := set_state s w in
    if negb ok then
      let w := Inc "RateLimitedTotal" [] w in
      reject "rate limit exceeded" 429 (rw_Set "Retry-After" "1" w)
    else next ctx r w.

(** ** Histories *)

Section Histories.

Context {F : Type} `{Arith F}.

(** The calls of a history, each with its time and principal, and the answers. *)
Fixpoint run_calls (h : list (Time * string)) (l : Limiter F) : list bool * Limiter F :=
  match h with
  | [] => ([], l)
  | (t, p) :: h' =>
      let '(ok, l1) := Allow t p l in
      let '(oks, l2) := run_calls h' l1 in (ok :: oks, l2)
  end.

(** The answers given to [p]. *)
Fixpoint answers_of (p : string) (h : list (Time * string)) (oks : list bool) : list bool :=
  match h, oks with
  | (_, q) :: h', ok :: oks' => (if (q =? p)%go then [ok] else []) ++ answers_of p h' oks'
  | _, _ => []
  end.

Definition times_of (p : string) (h : list (Time * string)) : list Time :=
  (filter (λ c, c.2 = p) h).*1.

(** One bucket on its own. *)
Fixpoint run_bucket (rt : F) (bst : Z) (ts : list Time) (b : bucket F) : list bool * bucket F :=
  match ts with
  | [] => ([], b)
  | t :: ts' =>
      let '(ok, b1) := take_token rt bst t b in
      let '(oks, b2) := run_bucket rt bst ts' b1 in (ok :: oks, b2)
  end.

(** The answers to [p] are those of its own bucket, whatever others do. *)
Lemma run_calls_bucket p h l b :
  buckets l !! p = Some b →
  answers_of p h (run_calls h l).1 = (run_bucket (rate l) (burst l) (times_of p h) b).1.
Proof.
  revert l b. induction h as [|[t q] h IH]; intros l b Hb; [done|]. cbn [run_calls].
  unfold Allow. destruct (take_token (rate l) (burst l) t _) as [ok b1] eqn:Et.
  set (l1 := mkLimiter (<[q := b1]> (buckets l)) (rate l) (burst l)).
  destruct (run_calls h l1) as [oks l2] eqn:Er. cbn [fst answers_of].
  assert (oks = (run_calls h l1).1) as -> by (by rewrite Er). unfold times_of in *.
  destruct (String.eqb_spec q p) as [->|Hne].
  - rewrite filter_cons_True by done. rewrite fmap_cons. cbn [fst run_bucket].
    rewrite Hb in Et. cbn in Et. rewrite Et.
    rewrite (IH l1 b1) by apply lookup_insert_eq. cbn. by destruct (run_bucket _ _ _ b1).
  - rewrite filter_cons_False by done. cbn [app]. rewrite (IH l1 b); [done|].
    cbn. by rewrite lookup_insert_ne.
Qed.

Lemma run_calls_new p h l :
  buckets l !! p = None →
  answers_of p h (run_calls h l).1 =
  match times_of p h with
  | [] => []
  | t :: _ => (run_bucket (rate l) (burst l) (times_of p h) (mkBucket (of_int (burst l)) t)).1
  end.
Proof.
  revert l. induction h as [|[t q] h IH]; intros l Hb; [done|].
  destruct (String.eqb_spec q p) as [->|Hne].
  - cbn [run_calls]. unfold Allow. rewrite Hb. cbn [default from_option id].
    destruct (take_token (rate l) (burst l) t _) as [ok b1] eqn:Et.
    set (l1 := mkLimiter (<[p := b1]> (buckets l)) (rate l) (burst l)).
    pose proof (run_calls_bucket p h l1 b1 (lookup_insert_eq _ _ _)) as Hr.
    destruct (run_calls h l1) as [oks l2]. cbn [fst answers_of]. rewrite String.eqb_refl.
    unfold times_of in *. rewrite filter_cons_True by done. rewrite fmap_cons. cbn [fst run_bucket app].
    rewrite Et. cbn in Hr |- *. rewrite Hr. by destruct (run_bucket _ _ _ b1).
  - cbn [run_calls]. unfold Allow.
    destruct (take_token (rate l) (burst l) t _) as [ok b1].
    set (l1 := mkLimiter (<[q := b1]> (buckets l)) (rate l) (burst l)).
    specialize (IH l1). cbn in IH. rewrite lookup_insert_ne in IH by done.
    destruct (run_calls h l1) as [oks l2]. cbn [fst answers_of].
    apply String.eqb_neq in Hne as Hq. rewrite Hq. cbn [app fst] in *. rewrite IH by done.
    unfold times_of. by rewrite filter_cons_False by done.
Qed.

End Histories.

Definition admitted (oks : list bool) : Z := Z.of_nat (length (filter (λ b, b = true) oks)).

(** ** The bound in exact arithmetic *)

Definition secs (d : Z) : Q := (inject_Z d / inject_Z Second)%Q.

(** Tokens a bucket would have had at time zero. *)
Definition potential (rt : Q) (b : bucket Q) : Q := (tokens b - rt * secs (lastCheck b))%Q.

Definition in_range (t : Time) : Prop := (0 ≤ t < 2 ^ 63)%Z.

Lemma secs_sub t u : (secs (t - u) == secs t - secs u)%Q.
Proof.
  unfold secs. unfold Z.sub. rewrite inject_Z_plus, inject_Z_opp. unfold Qdiv. ring.
Qed.

Lemma take_token_potential rt bst now b ok b' :
  (0 <= rt)%Q → in_range now → in_range (lastCheck b) →
  take_token rt bst now b = (ok, b') →
  (potential rt b' + inject_Z (if ok then 1 else 0) <= potential rt b)%Q ∧
  (ok = true → (0 <= tokens b')%Q) ∧ lastCheck b' = now.
Proof.
  intros Hrt Hn Hl. unfold in_range in *. unfold take_token. cbn [seconds fadd fmul fltb of_int fsub Q_Arith].
  rewrite time_Sub_exact by (unfold int64; lia). fold (secs (now - lastCheck b)).
  pose proof (secs_sub now (lastCheck b)) as Hsub.
  set (t0 := (tokens b + secs (now - lastCheck b) * rt)%Q).
  set (t1 := if negb (Qle_bool t0 (inject_Z bst)) then inject_Z bst else t0).
  assert (t1 <= t0)%Q as Hcap.
  { unfold t1. destruct (Qle_bool t0 (inject_Z bst)) eqn:E; cbn [negb]; [apply Qle_refl|].
    apply Qlt_le_weak, Qnot_le_lt. intros Hle. apply Qle_bool_iff in Hle. congruence. }
  assert (t0 == tokens b + (secs now - secs (lastCheck b)) * rt)%Q as Ht0.
  { unfold t0. rewrite Hsub. reflexivity. }
  unfold potential.
  destruct (Qle_bool (inject_Z 1) t1) eqn:E1; cbn [negb]; intros [= <- <-]; cbn [tokens lastCheck].
  - apply Qle_bool_iff in E1. split_and!; [|intros _|done]; change (inject_Z 1) with 1%Q in *; nra.
  - split_and!; [|done|done]. change (inject_Z 0) with 0%Q. nra.
Qed.

Lemma admitted_cons ok oks : admitted (ok :: oks) = ((if ok then 1 else 0) + admitted oks)%Z.
Proof. unfold admitted. rewrite filter_cons. destruct ok; case_decide; cbn; done || lia. Qed.

Lemma run_bucket_potential rt bst ts b :
  (0 <= rt)%Q → Forall in_range ts → in_range (lastCheck b) →
  let '(oks, b') := run_bucket rt bst ts b in
  (potential rt b' + inject_Z (admitted oks) <= potential rt b)%Q ∧
  lastCheck b' = default (lastCheck b) (last ts) ∧
  (last oks = Some true → (0 <= tokens b')%Q).
Proof.
  intros Hrt Hts. revert b. induction Hts as [|t ts Ht Hts IH]; intros b Hb; cbn [run_bucket].
  { change (inject_Z (admitted [])) with 0%Q. split_and!; [lra|done|done]. }
  destruct (take_token rt bst t b) as [ok b1] eqn:E.
  destruct (take_token_potential rt bst t b ok b1 Hrt Ht Hb E) as (Hp & Hok & Hl).
  specialize (IH b1). rewrite Hl in IH. specialize (IH Ht).
  destruct (run_bucket rt bst ts b1) as [oks b2] eqn:Er. destruct IH as (Hp2 & Hl2 & Hok2).
  rewrite admitted_cons, inject_Z_plus. split_and!.
  - lra.
  - rewrite Hl2, last_cons. by destruct (last ts).
  - rewrite last_cons. destruct (last oks) eqn:Elast; [done|].
    intros [= ->]. destruct ts as [|t' ts]; cbn in Er.
    + injection Er as <- <-. by apply Hok.
    + destruct (take_token rt bst t' b1), (run_bucket rt bst ts _). injection Er as <- _.
      rewrite last_cons in Elast. by case_match.
Qed.

(** ** Properties *)

(** The limiter isolates principals: the answers a principal gets depend on
    its own calls alone; they are those it would get if no other principal had
    called. *)
Theorem ratelimit_isolation {F} `{Arith F} (l : Limiter F) p h :
  answers_of p h (run_calls h l).1 =
  (run_calls (filter (λ c, c.2 = p) h) l).1.
Proof.
  assert (∀ h' (l' : Limiter F), Forall (λ c, c.2 = p) h' →
    answers_of p h' (run_calls h' l').1 = (run_calls h' l').1) as Hown.
  { induction h' as [|[t q] h' IH]; intros l' Hf; [done|].
    apply Forall_cons in Hf as [Hq Hf']. cbn in Hq. subst q. cbn [run_calls].
    destruct (Allow t p l') as [ok l1]. specialize (IH l1 Hf').
    destruct (run_calls h' l1) as [oks l2]. cbn in *. by rewrite String.eqb_refl, IH. }
  transitivity (answers_of p (filter (λ c, c.2 = p) h) (run_calls (filter (λ c, c.2 = p) h) l).1).
  2: { apply Hown. apply Forall_forall. by intros c [? _]%list_elem_of_filter. }
  assert (times_of p (filter (λ c, c.2 = p) h) = times_of p h) as Ht.
  { unfold times_of. by rewrite list_filter_filter_l by done. }
  destruct (buckets l !! p) as [b|] eqn:Eb.
  - by rewrite !(run_calls_bucket p _ l b), Ht.
  - by rewrite !(run_calls_new p _ l), Ht.
Qed.

(** In exact arithmetic, whenever the limiter lets a call of a principal
    through at time [t], the number of its calls let through since its first call
    at [t0] is at most [burst + rate * (t - t0)], even if the clock readings of
    concurrent calls are not in the order of the calls. *)
Theorem ratelimit_bound (cfg : Config Q) p h t0 t :
  (0 <= Rate cfg)%Q → Forall (λ c, in_range c.1) h →
  head (times_of p h) = Some t0 → last (times_of p h) = Some t →
  last (answers_of p h (run_calls h (New cfg)).1) = Some true →
  (inject_Z (admitted (answers_of p h (run_calls h (New cfg)).1)) <=
   inject_Z (Burst cfg) + Rate cfg * secs (t - t0))%Q.
Proof.
  intros Hrt Hr H0 Hl. rewrite run_calls_new by apply lookup_empty.
  assert (Forall in_range (times_of p h)) as Hts.
  { unfold times_of. apply Forall_fmap, Forall_forall. intros c [_ Hc]%list_elem_of_filter.
    rewrite Forall_forall in Hr. by apply Hr. }
  destruct (times_of p h) as [|t1 ts] eqn:Et; [done|]. injection H0 as ->. cbn [rate burst New].
  pose proof (run_bucket_potential (Rate cfg) (Burst cfg) (t0 :: ts)
    (mkBucket (of_int (Burst cfg)) t0) Hrt Hts) as Hb.
  destruct (run_bucket _ _ _ _) as [oks b']. cbn [fst] in *. intros Hok.
  destruct Hb as (Hp & Hlast & Htok); [by inversion Hts|].
  specialize (Htok Hok). rewrite Hl in Hlast. cbn in Hlast.
  unfold potential in Hp. rewrite Hlast in Hp. cbn [tokens lastCheck of_int Q_Arith] in Hp.
  rewrite secs_sub. lra.
Qed.

Definition ex_cfg : Config Q := mkConfig (1 # 2)%Q 2.
Definition ex_calls : list (Time * string) :=
  [(0, "a"); (5, "b"); (10, "a"); (20, "a"); (3 * Second, "a")]%Z.

Lemma ratelimit_bound_witness :
  (inject_Z (admitted (answers_of "a" ex_calls (run_calls ex_calls (New ex_cfg)).1)) <=
   2 + (1 # 2) * secs (3 * Second - 0))%Q.
Proof.
  apply (ratelimit_bound ex_cfg "a" ex_calls 0 (3 * Second)).
  - vm_compute. discriminate.
  - repeat constructor; vm_compute; discriminate || reflexivity.
  - reflexivity.
  - reflexivity.
  - vm_compute. reflexivity.
Defined.

(** Evicting an idle bucket forgets its debt.  With one token per hundred
    seconds and a burst of ten, binary64 arithmetic, ten calls at time zero and
    ten more after five minutes of silence and a clean-up are all let through,
    although only three tokens had accrued. *)
Theorem ratelimit_eviction_refills :
  let l0 := New (F := Float64.t) (mkConfig (SFdiv 53 1024 (Float64.of_Z 1) (Float64.of_Z 100)) 10) in
  let later := (staleThreshold + Second)%Z in
  let '(oks, l1) := run_calls (replicate 10 (0%Z, "a")) l0 in
  let '(oks', _) := run_calls (replicate 10 (later, "a")) (cleanup later l1) in
  let '(oks'', _) := run_calls (replicate 10 (later, "a")) l1 in
  admitted (oks ++ oks') = 20%Z ∧ admitted (oks ++ oks'') = 13%Z.
Proof. vm_compute. done. Qed.
