(* ===== verification/TokenBuckets.v ===== *)
(** * The rate limiter under concurrent calls

    internal/ratelimit/token/limiter.go at the grain of its locks.  [Allow] reads the
    clock and loads a pointer to the principal's bucket from the map, storing a new
    bucket when there is none; only then it locks the bucket it holds and takes a token.
    The clean-up locks a bucket, looks whether it is idle, and deletes it from the map in
    a later step if the map still holds the same pointer.  In between other goroutines
    run: a call may take its token from a bucket that has left the map meanwhile, and a
    bucket that was used after it was found idle is still deleted.

    [Allow] and [cleanup] of RateLimit are what these steps do one after the other.  The
    theorem bounds what a principal gets in every order of the steps. *)

From S2P Require Import Prelude GoStrings GoNet Http RateLimit.
From Stdlib Require Import QArith Lqa Sorting.Sorted.
#[local] Open Scope nat_scope.

Section Buckets.
Context {F : Type} `{Arith F}.

(** The map holds pointers to the buckets, which live on when they leave it; the call of
    a goroutine between its two steps holds one, with its principal and clock reading. *)
Record Buckets := mkBuckets {
  bk_map : gmap string nat;
  bk_heap : list (bucket F);
  bk_rate : F;
  bk_burst : Z;
  bk_calls : gmap nat (string * nat * Time);
  bk_stale : option (string * nat);    (** what the clean-up is about to delete *)
}.

Definition NewBuckets (cfg : Config F) : Buckets := mkBuckets ∅ [] (Rate cfg) (Burst cfg) ∅ None.

Inductive laction :=
  | ALoad (t : nat) (now : Time) (p : string)
  | ALock (t : nat) (now : Time) (p : string) (ok : bool)
  | AInspect (now : Time) (p : string)
  | AEvict.

(** [Load] and [LoadOrStore]: the pointer is the one the map holds at the moment of the
    call that finds or stores it. *)
Definition load_bucket (t : nat) (now : Time) (p : string) (l : Buckets) : Buckets :=
  match bk_map l !! p with
  | Some i => mkBuckets (bk_map l) (bk_heap l) (bk_rate l) (bk_burst l)
                (<[t := (p, i, now)]> (bk_calls l)) (bk_stale l)
  | None =>
      let i := length (bk_heap l) in
      mkBuckets (<[p := i]> (bk_map l)) (bk_heap l ++ [mkBucket (of_int (bk_burst l)) now])
        (bk_rate l) (bk_burst l) (<[t := (p, i, now)]> (bk_calls l)) (bk_stale l)
  end.

(** The rest of [Allow], under the lock of the bucket the call holds. *)
Definition lock_bucket (t : nat) (l : Buckets) : option (string * Time * bool * Buckets) :=
  '(p, i, now) ← bk_calls l !! t;
  b ← bk_heap l !! i;
  let '(ok, b') := take_token (bk_rate l) (bk_burst l) now b in
  Some (p, now, ok, mkBuckets (bk_map l) (<[i := b']> (bk_heap l)) (bk_rate l) (bk_burst l)
                      (delete t (bk_calls l)) (bk_stale l)).

(** One bucket of [Range], under its lock. *)
Definition inspect_bucket (now : Time) (p : string) (l : Buckets) : Buckets :=
  let found := i ← bk_map l !! p; b ← bk_heap l !! i; if stale now b then Some (p, i) else None in
  mkBuckets (bk_map l) (bk_heap l) (bk_rate l) (bk_burst l) (bk_calls l) found.

(** Whether [CompareAndDelete] finds the pointer it was given. *)
Definition evicted (l : Buckets) : option string :=
  '(p, i) ← bk_stale l; if decide (bk_map l !! p = Some i) then Some p else None.

Definition evict_bucket (l : Buckets) : Buckets :=
  mkBuckets (if evicted l is Some p then delete p (bk_map l) else bk_map l)
    (bk_heap l) (bk_rate l) (bk_burst l) (bk_calls l) None.

(** A goroutine makes one call at a time, and the answer is the bucket's. *)
Definition lim_step (a : laction) (l : Buckets) : option Buckets :=
  match a with
  | ALoad t now p => if bk_calls l !! t is Some _ then None else Some (load_bucket t now p l)
  | ALock t now p ok =>
      '(p', now', ok', l') ← lock_bucket t l;
      if bool_decide (p' = p ∧ now' = now ∧ ok' = ok) then Some l' else None
  | AInspect now p => Some (inspect_bucket now p l)
  | AEvict => Some (evict_bucket l)
  end.

Fixpoint lim_run (acts : list laction) (l : Buckets) : option Buckets :=
  match acts with
  | [] => Some l
  | a :: acts => l ← lim_step a l; lim_run acts l
  end.

Lemma lim_run_app acts1 acts2 l : lim_run (acts1 ++ acts2) l = lim_run acts1 l ≫= lim_run acts2.
Proof.
  revert l. induction acts1 as [|a acts1 IH]; intros l; [done|]. cbn [lim_run app]. destruct (lim_step a l); [apply IH|done].
Qed.

(** ** One after the other, the steps are [Allow] and [cleanup] *)

(** The limiter of RateLimit: the buckets the map points to. *)
Definition as_limiter (l : Buckets) : Limiter F :=
  mkLimiter (omap (λ i, bk_heap l !! i) (bk_map l)) (bk_rate l) (bk_burst l).

(** The map points to buckets, and different principals have different ones. *)
Definition proper (l : Buckets) : Prop :=
  (∀ p i, bk_map l !! p = Some i → is_Some (bk_heap l !! i)) ∧
  (∀ p q i, bk_map l !! p = Some i → bk_map l !! q = Some i → p = q).

Lemma as_limiter_lookup l p : buckets (as_limiter l) !! p = i ← bk_map l !! p; bk_heap l !! i.
Proof. unfold as_limiter. cbn. apply lookup_omap. Qed.

Lemma Allow_steps t now p l :
  proper l → bk_calls l !! t = None →
  ∃ l', lim_run [ALoad t now p; ALock t now p (RateLimit.Allow now p (as_limiter l)).1] l = Some l' ∧
    as_limiter l' = (RateLimit.Allow now p (as_limiter l)).2 ∧ bk_calls l' = bk_calls l.
Proof.
  intros [Hp Hd] Hc. cbn [lim_run lim_step]. rewrite Hc. cbn [mbind option_bind].
  unfold RateLimit.Allow. rewrite as_limiter_lookup. change (rate (as_limiter l)) with (bk_rate l).
  change (burst (as_limiter l)) with (bk_burst l). unfold load_bucket, lock_bucket.
  destruct (bk_map l !! p) as [i|] eqn:Ei; cbn [bk_calls bk_heap bk_map bk_rate bk_burst bk_stale mbind option_bind];
    rewrite lookup_insert_eq; cbn [mbind option_bind].
  - destruct (Hp p i Ei) as [b Eb]. rewrite Eb. cbn [default from_option id mbind option_bind].
    destruct (take_token (bk_rate l) (bk_burst l) now b) as [ok b'] eqn:Et. cbn [fst snd].
    cbn [mbind option_bind]. rewrite bool_decide_eq_true_2 by done. cbn [mbind option_bind]. eexists.
    split_and!; [done| |cbn; by rewrite delete_insert_eq, delete_id].
    unfold as_limiter. cbn. f_equal. apply map_eq. intros q. rewrite lookup_omap.
    destruct (decide (q = p)) as [->|Hq].
    + rewrite Ei, lookup_insert_eq. cbn. apply list_lookup_insert_eq. by eapply lookup_lt_Some.
    + rewrite lookup_insert_ne by done. rewrite lookup_omap. destruct (bk_map l !! q) as [j|] eqn:Ej; [|done]. cbn.
      rewrite list_lookup_insert_ne; [done|]. intros ->. by destruct Hq; eapply Hd.
  - cbn [default from_option id mbind option_bind]. rewrite list_lookup_middle by done. cbn [mbind option_bind].
    destruct (take_token (bk_rate l) (bk_burst l) now _) as [ok b'] eqn:Et. cbn [fst snd].
    cbn [mbind option_bind]. rewrite bool_decide_eq_true_2 by done. cbn [mbind option_bind]. eexists.
    split_and!; [done| |cbn; by rewrite delete_insert_eq, delete_id].
    unfold as_limiter. cbn. f_equal. rewrite insert_app_r_alt by lia. rewrite Nat.sub_diag. cbn.
    apply map_eq. intros q. rewrite lookup_omap. destruct (decide (q = p)) as [->|Hq].
    + rewrite !lookup_insert_eq. cbn. by rewrite list_lookup_middle.
    + rewrite !lookup_insert_ne by done. rewrite lookup_omap. destruct (bk_map l !! q) as [j|] eqn:Ej; [|done]. cbn.
      apply lookup_app_l. destruct (Hp q j Ej). by eapply lookup_lt_Some.
Qed.

(** Inspected and deleted at once, an idle bucket leaves the map as [cleanup] has it. *)
Lemma evict_steps now p l :
  buckets (as_limiter (evict_bucket (inspect_bucket now p l))) !! p =
  buckets (cleanup now (as_limiter l)) !! p.
Proof.
  unfold evict_bucket, inspect_bucket, evicted, as_limiter, cleanup. cbn. apply option_eq. intros b.
  rewrite map_lookup_filter_Some, !lookup_omap. cbn.
  destruct (bk_map l !! p) as [i|] eqn:Ei; cbn; [|rewrite Ei; naive_solver].
  destruct (bk_heap l !! i) as [b0|] eqn:Eb; cbn; [|rewrite Ei; cbn; rewrite Eb; naive_solver].
  destruct (stale now b0) eqn:Es; cbn.
  - rewrite decide_True by done. rewrite lookup_delete_eq. cbn. split; [done|]. intros [[= ->] E]. congruence.
  - rewrite Ei. cbn. rewrite Eb. split; [intros [= ->]; done|by intros []].
Qed.
End Buckets.
Arguments Buckets : clear implicits.
Arguments bk_map {F}. Arguments bk_heap {F}. Arguments bk_rate {F}.
Arguments bk_burst {F}. Arguments bk_calls {F}. Arguments bk_stale {F}.

(** ** The bound in exact arithmetic *)

(** The clock readings that concern [p]: of its calls when they load the bucket, and of
    the clean-up when it inspects it. *)
Definition reading (p : string) (a : laction) : option Time :=
  match a with
  | ALoad _ now q | AInspect now q => if (q =? p)%go then Some now else None
  | _ => None
  end.
Definition readings (p : string) (acts : list laction) : list Time := omap (reading p) acts.

(** The calls of [p] that get a token. *)
Definition lets (p : string) (a : laction) : nat :=
  match a with ALock _ _ q ok => if (q =? p)%go && ok then 1 else 0 | _ => 0 end.
Definition granted (p : string) (acts : list laction) : nat := sum_list (lets p <$> acts).

(** How often the bucket of [p] is deleted. *)
Definition drops {F} (p : string) (a : laction) (l : Buckets F) : nat :=
  match a with AEvict => if decide (evicted l = Some p) then 1 else 0 | _ => 0 end.
Fixpoint evictions {F} `{Arith F} (p : string) (acts : list laction) (l : Buckets F) : nat :=
  match acts with
  | [] => 0
  | a :: acts => drops p a l + (if lim_step a l is Some l' then evictions p acts l' else 0)
  end.

Lemma readings_app p acts1 acts2 : readings p (acts1 ++ acts2) = readings p acts1 ++ readings p acts2.
Proof. apply omap_app. Qed.

Lemma granted_cons p a acts : granted p (a :: acts) = lets p a + granted p acts.
Proof. done. Qed.

Lemma granted_snoc p acts a : granted p (acts ++ [a]) = granted p acts + lets p a.
Proof. unfold granted. induction acts as [|b acts IH]; cbn in *; lia. Qed.

Lemma evictions_snoc {F} `{Arith F} p acts a (l l1 : Buckets F) :
  lim_run acts l = Some l1 → evictions p (acts ++ [a]) l = evictions p acts l + drops p a l1.
Proof.
  revert l. induction acts as [|b acts IH]; intros l; cbn [lim_run evictions app].
  - intros [= ->]. destruct (lim_step a l1); lia.
  - intros (l2 & -> & Hr)%bind_Some. rewrite (IH l2 Hr). lia.
Qed.

Section Bound.
Context (p : string) (cfg : Config Q) (delta t0 t1 : Z).
Hypothesis rate_nonneg : (0 <= Rate cfg)%Q.
Hypothesis burst_nonneg : (0 ≤ Burst cfg)%Z.
Hypothesis delta_nonneg : (0 ≤ delta)%Z.
Hypothesis t0_range : (0 ≤ t0)%Z.
Hypothesis t1_range : (t1 < 2 ^ 63)%Z.
Abbreviation rt := (Rate cfg).
Abbreviation bst := (Burst cfg).

(** A bucket [p] has had: where it is, when it was stored, a time by which its last
    token was taken, and how many were. *)
Record life := mkLife { loc : nat; born : Time; cap : Time; count : nat }.

Implicit Types G : list life.

Definition past (R : list Time) (m : Time) : Prop := m ∈ R ∧ (t0 ≤ m ≤ t1)%Z.

(** The account of one bucket. *)
Definition accounted (R : list Time) (h : list (bucket Q)) (g : life) : Prop :=
  past R (born g) ∧
  (∃ b, h !! loc g = Some b ∧ (born g ≤ lastCheck b + delta)%Z ∧ (t0 ≤ lastCheck b ≤ t1)%Z ∧
     (potential rt b + inject_Z (Z.of_nat (count g)) <= inject_Z bst - rt * secs (born g))%Q) ∧
  ∃ m, past R m ∧ (m ≤ cap g)%Z ∧
     (inject_Z (Z.of_nat (count g)) <= inject_Z bst + rt * (secs m - secs (born g)))%Q.

(** A call in progress holds one of them and came before its cap. *)
Definition holds (R : list Time) (G : list life) (i : nat) (m : Time) : Prop :=
  past R m ∧ ∃ g, g ∈ G ∧ loc g = i ∧ (m ≤ cap g)%Z ∧ (born g ≤ m + delta)%Z.

(** How the lives follow each other, the newest first: each was stored at least the
    threshold after the one before, up to the lag, and ended by the time the next
    was stored, up to the lag. *)
Fixpoint follow (U : Time) (G : list life) : Prop :=
  match G with
  | [] => True
  | g :: G' => cap g = U ∧ (t0 + Z.of_nat (length G') * (staleThreshold - 2 * delta) ≤ born g)%Z ∧
               follow (born g + delta)%Z G'
  end.

(** The bucket in the map is the newest; when it was deleted or is about to be, the
    clean-up has read the clock late enough. *)
Definition idle_after (R : list Time) (G : list life) : Prop :=
  match G with
  | g :: _ => ∃ c, past R c ∧ (born g + staleThreshold - delta ≤ c)%Z
  | [] => True
  end.

Record account (R : list Time) (granted evictions : nat) (l : Buckets Q) (G : list life) : Prop := {
  acc_cfg : bk_rate l = rt ∧ bk_burst l = bst;
  acc_granted : granted = sum_list (count <$> G);
  acc_lives : Forall (accounted R (bk_heap l)) G;
  acc_follow : follow t1 G;
  acc_distinct : NoDup (loc <$> G);
  acc_map : match bk_map l !! p with
            | Some i => ∃ g G', G = g :: G' ∧ loc g = i ∧ length G = S evictions
            | None => length G = evictions ∧ idle_after R G
            end;
  acc_calls : ∀ t i m, bk_calls l !! t = Some (p, i, m) → holds R G i m;
  acc_stale : ∀ i, bk_stale l = Some (p, i) →
                i < length (bk_heap l) ∧ (bk_map l !! p = Some i → idle_after R G);
  acc_others : ∀ q i, q ≠ p → bk_map l !! q = Some i ∨ (∃ t m, bk_calls l !! t = Some (q, i, m)) →
                 i < length (bk_heap l) ∧ i ∉ loc <$> G;
}.

(** *** More readings *)

Lemma past_mono R R' m : past R m → past (R ++ R') m.
Proof. intros [? ?]. split; [|done]. apply elem_of_app. by left. Qed.

Lemma accounted_mono R R' h g : accounted R h g → accounted (R ++ R') h g.
Proof.
  intros (H1 & H2 & m & H3 & H4). split; [by apply past_mono|]. split; [done|]. exists m. split; [by apply past_mono|done].
Qed.

Lemma holds_mono R R' G i m : holds R G i m → holds (R ++ R') G i m.
Proof. intros [? ?]. split; [by apply past_mono|done]. Qed.

Lemma idle_mono R R' G : idle_after R G → idle_after (R ++ R') G.
Proof. destruct G; [done|]. intros (c & ? & ?). exists c. split; [by apply past_mono|done]. Qed.

Lemma account_mono R R' n e l G : account R n e l G → account (R ++ R') n e l G.
Proof.
  intros [? ? Hl ? ? Hm Hc Hs ?]. split; try done.
  - eapply Forall_impl; [exact Hl|]. intros g. apply accounted_mono.
  - destruct (bk_map l !! p); [done|]. destruct Hm. split; [done|by apply idle_mono].
  - intros t i m Hi. by eapply holds_mono, Hc.
  - intros i Hi. destruct (Hs i Hi) as [? Hid]. split; [done|]. intros Hi'. by apply idle_mono, Hid.
Qed.

Lemma accounted_heap R h h' g : accounted R h g → (∀ b, h !! loc g = Some b → h' !! loc g = Some b) → accounted R h' g.
Proof. intros (H1 & (b & Hb & H2) & H3) Hh. split_and!; [done| |done]. exists b. split; [by apply Hh|done]. Qed.

Lemma lives_bound R h G g : Forall (accounted R h) G → g ∈ G → loc g < length h.
Proof. rewrite Forall_forall. intros HG (_ & (b & Hb & _) & _)%HG. by eapply lookup_lt_Some. Qed.

(** *** A call of another principal, a bucket it already has *)

Lemma others_calls (calls : gmap nat (string * nat * Time)) t q i m t' i' m' :
  q ≠ p → <[t := (q, i, m)]> calls !! t' = Some (p, i', m') → calls !! t' = Some (p, i', m').
Proof. intros Hq [[_ ?]|[_ ?]]%lookup_insert_Some; [congruence|done]. Qed.

Lemma account_load_other R n e l G t now q :
  account R n e l G → q ≠ p → account R n e (load_bucket t now q l) G.
Proof.
  intros [Hcfg Hg Hl Hf Hd Hm Hc Hs Ho] Hq. unfold load_bucket. destruct (bk_map l !! q) as [i|] eqn:Ei.
  - split; cbn; try done.
    + intros t' i' m' ?%others_calls; [by eapply Hc|done].
    + intros q' i' Hq' [Hi|(t' & m' & [(_ & [= -> -> ->])|[_ Hi]]%lookup_insert_Some)]; eapply Ho; eauto.
  - split; cbn; try done.
    + eapply Forall_impl; [exact Hl|]. intros g Hag. eapply accounted_heap; [done|]. intros b. by apply lookup_app_l_Some.
    + by rewrite lookup_insert_ne.
    + intros t' i' m' ?%others_calls; [by eapply Hc|done].
    + intros i' Hi. rewrite lookup_insert_ne, length_app by done. destruct (Hs i' Hi). split; [lia|done].
    + assert (length (bk_heap l) ∉ loc <$> G) as Hfresh.
      { intros (g & Eg & Hin)%list_elem_of_fmap. pose proof (lives_bound _ _ _ _ Hl Hin). lia. }
      rewrite length_app. cbn.
      assert (∀ q' i', q' ≠ p → bk_map l !! q' = Some i' ∨ (∃ t m, bk_calls l !! t = Some (q', i', m)) →
        i' < length (bk_heap l) + 1 ∧ i' ∉ loc <$> G) as Ho' by (intros q' i' Hn Hi; destruct (Ho q' i' Hn Hi); split; [lia|done]).
      intros q' i' Hq' [[[_ <-]|[_ Hi]]%lookup_insert_Some|(t' & m' & [(_ & [= -> <- ->])|[_ Hi]]%lookup_insert_Some)];
        try (split; [lia|done]); eapply Ho'; eauto.
Qed.

(** *** A call of [p] loads its bucket *)

(** The readings are in order up to the lag. *)
Definition lagged (R : list Time) (v : Time) : Prop := Forall (λ u, (u ≤ v + delta)%Z) R ∧ (t0 ≤ v ≤ t1)%Z.

Lemma lagged_past R v m : lagged R v → past R m → (m ≤ v + delta)%Z.
Proof. intros [HR _] [Hm _]. rewrite Forall_forall in HR. by apply HR. Qed.

Lemma past_last R v : lagged R v → past (R ++ [v]) v.
Proof. intros [_ Hv]. split; [|done]. apply elem_of_app. right. by apply list_elem_of_singleton. Qed.

Lemma account_load_found R n e l G t now i :
  account R n e l G → lagged R now → bk_map l !! p = Some i → account (R ++ [now]) n e (load_bucket t now p l) G.
Proof.
  intros Ha Hnow Ei. pose proof (account_mono R [now] n e l G Ha) as [Hcfg Hg Hl Hf Hd Hm Hc Hs Ho].
  unfold load_bucket. rewrite Ei. split; cbn; try done.
  - intros t' i' m' [[_ [= <- <-]]|[_ Hi]]%lookup_insert_Some; [|by eapply Hc]. split; [by apply past_last|].
    rewrite Ei in Hm. destruct Hm as (g & G' & -> & Hgi & _). exists g. destruct Hf as (Hcap & _). split_and!.
    + apply list_elem_of_here.
    + done.
    + rewrite Hcap. apply Hnow.
    + pose proof (acc_lives _ _ _ _ _ Ha) as [[Hb _] _]%Forall_cons. by apply (lagged_past R).
  - intros q' i' Hq' [Hi|(t' & m' & [(_ & [= -> -> ->])|[_ Hi]]%lookup_insert_Some)]; [eapply Ho; eauto|done|eapply Ho; eauto].
Qed.

(** *** A new bucket for [p] *)

(** The newest life ends by [U]. *)
Definition recap (U : Time) (G : list life) : list life :=
  match G with g :: G' => mkLife (loc g) (born g) U (count g) :: G' | [] => [] end.

Lemma recap_loc U G : loc <$> recap U G = loc <$> G.
Proof. by destruct G. Qed.
Lemma recap_count U G : count <$> recap U G = count <$> G.
Proof. by destruct G. Qed.
Lemma recap_length U G : length (recap U G) = length G.
Proof. by destruct G. Qed.

Lemma follow_recap U U' G : follow U G → follow U' (recap U' G).
Proof. destruct G as [|g G]; [done|]. by intros (_ & ? & ?). Qed.

Lemma lives_recap R h v G : lagged R v → Forall (accounted R h) G → Forall (accounted R h) (recap (v + delta) G).
Proof.
  intros Hv. destruct 1 as [|g G (H1 & H2 & m & Hm & _ & Hle) HG]; [done|]. constructor; [|done].
  split_and!; [done|done|]. exists m. split_and!; [done| |done]. by apply (lagged_past R).
Qed.

Lemma holds_recap R v G i m : lagged R v → holds R G i m → holds R (recap (v + delta) G) i m.
Proof.
  intros Hv [Hm (g & Hin & Hi & Hcap & Hb)]. split; [done|]. destruct G as [|g0 G]; [by apply not_elem_of_nil in Hin|].
  apply elem_of_cons in Hin as [->|Hin].
  - eexists. split; [apply list_elem_of_here|]. cbn. split_and!; [done|by apply (lagged_past R)|done].
  - exists g. split; [by apply list_elem_of_further|done].
Qed.

(** The next bucket comes at least the threshold later, up to twice the lag. *)
Lemma follow_born R U G v :
  follow U G → idle_after R G → lagged R v →
  (t0 + Z.of_nat (length G) * (staleThreshold - 2 * delta) ≤ v)%Z.
Proof.
  intros Hf Hi Hv. destruct G as [|g G]; [cbn; destruct Hv; lia|]. destruct Hf as (_ & Hb & _).
  destruct Hi as (c & Hc%(lagged_past R v) & Hle); [|done]. cbn [length]. lia.
Qed.

Lemma accounted_new R v h :
  past R v → h !! length h = None → accounted R (h ++ [mkBucket (of_int bst) v]) (mkLife (length h) v t1 0).
Proof.
  intros Hv _. pose proof (proj2 Hv). unfold accounted. cbn. split_and!; [done| |].
  - eexists. split; [by apply list_lookup_middle|]. unfold potential. cbn. change (inject_Z (Z.of_nat 0)) with 0%Q.
    split_and!; [lia|lia|lia|lra].
  - exists v. change (inject_Z (Z.of_nat 0)) with 0%Q. split_and!; [done|lia|].
    assert (0 <= inject_Z bst)%Q by (change 0%Q with (inject_Z 0); by rewrite <- Zle_Qle). lra.
Qed.

Lemma account_load_new R n e l G t now :
  account R n e l G → lagged R now → bk_map l !! p = None →
  account (R ++ [now]) n e (load_bucket t now p l) (mkLife (length (bk_heap l)) now t1 0 :: recap (now + delta) G).
Proof.
  intros [Hcfg Hg Hl Hf Hd Hm Hc Hs Ho] Hnow Ei. rewrite Ei in Hm. destruct Hm as [He Hidle].
  assert (length (bk_heap l) ∉ loc <$> G) as Hfresh.
  { intros (g & Eg & Hin)%list_elem_of_fmap. pose proof (lives_bound _ _ _ _ Hl Hin). lia. }
  unfold load_bucket. rewrite Ei. split; cbn [bk_rate bk_burst bk_map bk_heap bk_calls bk_stale]; try done.
  - by rewrite fmap_cons, recap_count.
  - constructor.
    + destruct Hcfg as [_ ->]. apply accounted_new; [by apply past_last|]. by apply lookup_ge_None_2.
    + eapply Forall_impl; [by apply lives_recap|]. intros g Hag. apply accounted_mono.
      eapply accounted_heap; [done|]. intros b. by apply lookup_app_l_Some.
  - split; [done|]. rewrite recap_length. split; [by eapply follow_born|by eapply follow_recap].
  - rewrite fmap_cons, recap_loc. by constructor.
  - rewrite lookup_insert_eq. do 2 eexists. split_and!; [done|done|]. cbn. by rewrite recap_length, He.
  - intros t' i' m' [[_ [= <- <-]]|[_ Hi]]%lookup_insert_Some.
    + split; [by apply past_last|]. eexists. split; [apply list_elem_of_here|]. cbn. destruct Hnow. split_and!; [done|lia|lia].
    + destruct (holds_mono _ [now] _ _ _ (holds_recap R now G i' m' Hnow (Hc t' i' m' Hi))) as [Hp' (g & Hin & Hrest)].
      split; [done|]. exists g. split; [by apply list_elem_of_further|done].
  - intros i' Hi. rewrite lookup_insert_eq, length_app. destruct (Hs i' Hi) as [Hlt _]. split; [lia|]. intros [= <-]. lia.
  - rewrite fmap_cons, recap_loc, length_app. cbn [length loc]. intros q' i' Hq' Hi.
    assert (bk_map l !! q' = Some i' ∨ ∃ t m, bk_calls l !! t = Some (q', i', m)) as Hi'.
    { destruct Hi as [Hi|(t' & m' & [(_ & [= ? _ _])|[_ Hi]]%lookup_insert_Some)]; [|congruence|eauto].
      rewrite lookup_insert_ne in Hi by done. by left. }
    destruct (Ho q' i' Hq' Hi') as [Hlt Hn]. split; [lia|]. rewrite elem_of_cons. intros [->|?]; [lia|done].
Qed.

(** *** A token taken *)

(** The bucket at [i] has given [k] more. *)
Definition charge (i k : nat) (g : life) : life :=
  if decide (loc g = i) then mkLife (loc g) (born g) (cap g) (k + count g) else g.

Lemma charge_same i k g : loc (charge i k g) = loc g ∧ born (charge i k g) = born g ∧ cap (charge i k g) = cap g.
Proof. unfold charge. by case_decide. Qed.

Lemma charge_loc i k G : loc <$> (charge i k <$> G) = loc <$> G.
Proof. induction G as [|g G IH]; [done|]. rewrite !fmap_cons, IH. f_equal. apply charge_same. Qed.

Lemma charge_count i k G :
  NoDup (loc <$> G) → i ∈ loc <$> G → sum_list (count <$> (charge i k <$> G)) = sum_list (count <$> G) + k.
Proof.
  assert (∀ G', i ∉ loc <$> G' → charge i k <$> G' = G') as Hid.
  { induction G' as [|g G' IH]; [done|]. rewrite fmap_cons, not_elem_of_cons. intros [Hn Hi]. rewrite fmap_cons, IH by done.
    f_equal. unfold charge. by rewrite decide_False. }
  induction G as [|g G IH]; [by intros _ ?%not_elem_of_nil|]. rewrite !fmap_cons. intros [Hn Hd]%NoDup_cons Hi. cbn.
  destruct (decide (loc g = i)) as [E|E].
  - rewrite Hid by by rewrite <- E. unfold charge. rewrite decide_True by done. cbn. lia.
  - rewrite elem_of_cons in Hi. destruct Hi as [->|Hi]; [done|]. specialize (IH Hd Hi). cbn in IH. rewrite IH.
    unfold charge. rewrite decide_False by done. lia.
Qed.

Lemma follow_charge i k U G : follow U G → follow U (charge i k <$> G).
Proof.
  revert U. induction G as [|g G IH]; intros U; [done|]. rewrite fmap_cons. cbn [follow].
  destruct (charge_same i k g) as (_ & -> & ->). rewrite length_fmap. intros (? & ? & ?). split_and!; [done|done|by apply IH].
Qed.

Lemma in_range_of v : (t0 ≤ v ≤ t1)%Z → in_range v.
Proof. unfold in_range. lia. Qed.

Lemma accounted_charge R h i m b b' ok g :
  accounted R h g → h !! i = Some b → take_token rt bst m b = (ok, b') → past R m →
  (loc g = i → (m ≤ cap g)%Z ∧ (born g ≤ m + delta)%Z) →
  accounted R (<[i := b']> h) (charge i (if ok then 1 else 0) g).
Proof.
  intros (H1 & (b0 & Hb0 & Hlast & Hrange & Hpot) & m0 & Hm0 & Hcap0 & Hle0) Hb Ht Hm Hg. unfold charge.
  case_decide as E.
  2: { split_and!; [done| |by exists m0]. exists b0. by rewrite list_lookup_insert_ne. }
  destruct (Hg E) as [Hcap Hborn]. rewrite E, Hb in Hb0. injection Hb0 as <-.
  destruct (take_token_potential rt bst m b ok b' rate_nonneg (in_range_of _ (proj2 Hm)) (in_range_of _ Hrange) Ht)
    as (Hp' & Htok & Hl'). unfold accounted. cbn [loc born cap count].
  assert (inject_Z (Z.of_nat ((if ok then 1 else 0) + count g)) ==
          inject_Z (if ok then 1 else 0) + inject_Z (Z.of_nat (count g)))%Q as Hz
    by (rewrite Nat2Z.inj_add, inject_Z_plus; by destruct ok).
  split_and!; [done| |].
  - exists b'. rewrite E, list_lookup_insert_eq by by eapply lookup_lt_Some. rewrite Hl'. destruct Hm.
    split_and!; [done|lia|lia|lia|lra].
  - destruct ok; [|by exists m0]. exists m. split_and!; [done|done|]. specialize (Htok eq_refl).
    unfold potential in *. rewrite Hl' in Hp'. lra.
Qed.

Lemma charge_bound R G i k i' m : holds R G i' m → holds R (charge i k <$> G) i' m.
Proof.
  intros [Hm (g & Hin & Hi & Hcap & Hb)]. split; [done|]. exists (charge i k g).
  destruct (charge_same i k g) as (-> & -> & ->). split; [by apply list_elem_of_fmap_2|done].
Qed.

Lemma idle_charge R i k G : idle_after R G → idle_after R (charge i k <$> G).
Proof. destruct G as [|g G]; [done|]. rewrite fmap_cons. cbn. by destruct (charge_same i k g) as (_ & -> & _). Qed.

Lemma unique_loc G g g' : NoDup (loc <$> G) → g ∈ G → g' ∈ G → loc g = loc g' → g = g'.
Proof.
  induction G as [|h G IH]; [by intros _ ?%not_elem_of_nil|]. rewrite fmap_cons. intros [Hn Hd]%NoDup_cons.
  intros [->|Hg]%elem_of_cons [->|Hg']%elem_of_cons E; [done| | |by apply IH].
  - destruct Hn. rewrite E. by apply list_elem_of_fmap_2.
  - destruct Hn. rewrite <- E. by apply list_elem_of_fmap_2.
Qed.

Lemma account_lock R n e l G t q now ok l' :
  account R n e l G → lock_bucket t l = Some (q, now, ok, l') →
  ∃ G', account R (n + lets p (ALock t now q ok)) e l' G'.
Proof.
  intros [Hcfg Hg Hl Hf Hd Hm Hc Hs Ho]. unfold lock_bucket.
  intros ([[q' i] m] & Et & (b & Hb & Hrest)%bind_Some)%bind_Some. rewrite (proj1 Hcfg), (proj2 Hcfg) in Hrest.
  destruct (take_token rt bst m b) as [ok' b'] eqn:Ht. injection Hrest as -> -> -> <-. cbn [lets].
  destruct (String.eqb_spec q p) as [->|Hq]; cbn [andb].
  - destruct (Hc t i now Et) as [Hpast (g0 & Hin0 & Hi0 & Hcap0 & Hb0)]. exists (charge i (if ok then 1 else 0) <$> G).
    split; cbn [bk_rate bk_burst bk_map bk_heap bk_calls bk_stale]; rewrite ?charge_loc, ?length_insert; try done.
    + rewrite charge_count; [by rewrite Hg|done|]. rewrite <- Hi0. by apply list_elem_of_fmap_2.
    + rewrite Forall_forall in Hl |- *. intros g' (g & -> & Hin)%list_elem_of_fmap.
      eapply accounted_charge; [by apply Hl|done|done|done|]. intros E.
      by rewrite (unique_loc G g g0 Hd Hin Hin0) by congruence.
    + by apply follow_charge.
    + destruct (bk_map l !! p).
      * destruct Hm as (g & G' & -> & Eg & He). rewrite fmap_cons. do 2 eexists.
        split_and!; [done|by rewrite (proj1 (charge_same _ _ g))|]. cbn in *. by rewrite length_fmap.
      * rewrite length_fmap. destruct Hm. split; [done|by apply idle_charge].
    + intros t' i' m' [_ ?]%lookup_delete_Some. eapply charge_bound. by eapply Hc.
    + intros i' Hi'. destruct (Hs i' Hi') as [? Hid]. split; [done|]. intros ?. by apply idle_charge, Hid.
    + intros q' i' Hq' [Hi|(t' & m' & [_ Hi]%lookup_delete_Some)]; eapply Ho; eauto.
  - exists G. rewrite Nat.add_0_r. destruct (Ho q i Hq) as [Hlt Hn]; [eauto|].
    split; cbn [bk_rate bk_burst bk_map bk_heap bk_calls bk_stale]; rewrite ?length_insert; try done.
    + rewrite Forall_forall in Hl |- *. intros g Hin. eapply accounted_heap; [by apply Hl|]. intros b0 E.
      rewrite list_lookup_insert_ne; [done|]. intros ->. apply Hn. by apply list_elem_of_fmap_2.
    + intros t' i' m' [_ ?]%lookup_delete_Some. by eapply Hc.
    + intros q' i' Hq' [Hi|(t' & m' & [_ Hi]%lookup_delete_Some)]; eapply Ho; eauto.
Qed.

(** *** The clean-up *)

Lemma account_inspect_other R n e l G now q :
  account R n e l G → q ≠ p → account R n e (inspect_bucket now q l) G.
Proof.
  intros [Hcfg Hg Hl Hf Hd Hm Hc Hs Ho] Hq. unfold inspect_bucket. split; cbn; try done.
  intros i (j & _ & (b & _ & Hb)%bind_Some)%bind_Some. destruct (stale now b); congruence.
Qed.

Lemma account_inspect R n e l G now :
  account R n e l G → lagged R now → account (R ++ [now]) n e (inspect_bucket now p l) G.
Proof.
  intros Ha Hnow. pose proof (account_mono R [now] n e l G Ha) as [Hcfg Hg Hl Hf Hd Hm Hc Hs Ho].
  unfold inspect_bucket. split; cbn; try done.
  intros i (j & Ej & (b & Hb & Hst)%bind_Some)%bind_Some. destruct (stale now b) eqn:Es; [|done]. injection Hst as <-.
  split; [by eapply lookup_lt_Some|]. intros _. rewrite Ej in Hm. destruct Hm as (g & G' & -> & Hgi & _).
  apply Forall_cons in Hl as [(_ & (b0 & Hb0 & Hborn & Hr & _) & _) _]. rewrite Hgi, Hb in Hb0. injection Hb0 as <-.
  exists now. split; [by apply past_last|]. unfold stale in Es. apply Z.ltb_lt in Es.
  rewrite time_Sub_exact in Es by (destruct Hnow; unfold int64; lia). lia.
Qed.

Lemma account_evict R n e l G :
  account R n e l G → account R n (e + drops p AEvict l) (evict_bucket l) G.
Proof.
  intros [Hcfg Hg Hl Hf Hd Hm Hc Hs Ho]. unfold evict_bucket, drops, evicted.
  destruct (bk_stale l) as [[q i]|]; cbn [mbind option_bind];
    [|rewrite decide_False by done; rewrite Nat.add_0_r; by split].
  destruct (decide (bk_map l !! q = Some i)) as [Ei|Ei]; [|rewrite decide_False by done; rewrite Nat.add_0_r; by split].
  destruct (decide (q = p)) as [->|Hq].
  - rewrite decide_True by done. split; cbn; try done.
    + rewrite lookup_delete_eq. rewrite Ei in Hm. destruct Hm as (g & G' & -> & Hgi & He). rewrite He.
      split; [lia|]. destruct (Hs i eq_refl) as [_ Hid]. by apply Hid.
    + intros q' i' Hq' [[_ Hi]%lookup_delete_Some|Hi]; eapply Ho; eauto.
  - rewrite decide_False by congruence. rewrite Nat.add_0_r. split; cbn; try done.
    + by rewrite lookup_delete_ne.
    + intros q' i' Hq' [[_ Hi]%lookup_delete_Some|Hi]; eapply Ho; eauto.
Qed.

(** *** Every run *)

Lemma account_step R n e l G a l' :
  account R n e l G → lim_step a l = Some l' → (∀ v, reading p a = Some v → lagged R v) →
  ∃ G', account (R ++ option_list (reading p a)) (n + lets p a) (e + drops p a l) l' G'.
Proof.
  intros Ha Hs Hv. destruct a as [t now q|t now q ok|now q|]; cbn [lim_step reading lets drops option_list] in *;
    rewrite ?Nat.add_0_r, ?app_nil_r.
  - destruct (bk_calls l !! t); [done|]. injection Hs as <-. destruct (String.eqb_spec q p) as [->|Hq]; cbn [option_list].
    + destruct (bk_map l !! p) as [i|] eqn:Ei; eexists; [by eapply account_load_found; [|apply Hv|]|].
      by apply account_load_new; [|apply Hv|].
    + rewrite app_nil_r. eexists. by apply account_load_other.
  - apply bind_Some in Hs as ([[[q' now'] ok'] l1] & Hl & Hb). case_bool_decide as Hd; [|done].
    destruct Hd as (-> & -> & ->). injection Hb as <-. by eapply account_lock.
  - injection Hs as <-. destruct (String.eqb_spec q p) as [->|Hq]; cbn [option_list]; rewrite ?app_nil_r; eexists.
    + by apply account_inspect; [|apply Hv].
    + by apply account_inspect_other.
  - injection Hs as <-. eexists. by apply account_evict.
Qed.

(** The readings come in order, up to the lag, and within the period. *)
Definition timely (R : list Time) : Prop :=
  StronglySorted (λ u v, u ≤ v + delta)%Z R ∧ Forall (λ v, t0 ≤ v ≤ t1)%Z R.

Lemma timely_app R R' : timely (R ++ R') → timely R ∧ Forall (lagged R) R'.
Proof.
  intros [(H1 & H2 & _)%StronglySorted_app [H3 H4]%Forall_app]. split; [by split|].
  rewrite Forall_forall in H4. apply Forall_forall. intros v Hv. split; [|by apply H4].
  apply Forall_forall. intros u Hu. by apply H1.
Qed.

Lemma account_run acts l :
  lim_run acts (NewBuckets cfg) = Some l → timely (readings p acts) →
  ∃ G, account (readings p acts) (granted p acts) (evictions p acts (NewBuckets cfg)) l G.
Proof.
  revert l. induction acts as [|a acts IH] using rev_ind; intros l Hr Ht.
  { injection Hr as <-. exists []. split; cbn; try done; [apply NoDup_nil_2|].
    intros q i _ [Hi|(t & m & Hi)]; by rewrite lookup_empty in Hi. }
  rewrite lim_run_app in Hr. apply bind_Some in Hr as (l1 & Hr1 & (l2 & Hs & [= <-])%bind_Some).
  assert (readings p (acts ++ [a]) = readings p acts ++ option_list (reading p a)) as Er
    by (rewrite readings_app; f_equal; cbn; by destruct (reading p a)).
  rewrite Er in Ht |- *. apply timely_app in Ht as [Ht Hv]. destruct (IH l1 Hr1 Ht) as [G Ha].
  rewrite granted_snoc, (evictions_snoc p acts a _ l1 Hr1). apply (account_step _ _ _ l1 G a l2 Ha Hs).
  intros v Ev. rewrite Ev in Hv. by inversion Hv.
Qed.

Lemma secs_le u v : (u ≤ v)%Z → (secs u <= secs v)%Q.
Proof.
  intros Huv. unfold secs, Qdiv. apply Qmult_le_compat_r; [by rewrite <- Zle_Qle|]. vm_compute. discriminate.
Qed.

(** What all the buckets of [p] have given. *)
Lemma follow_total R h U G :
  follow U G → Forall (accounted R h) G → G ≠ [] →
  (inject_Z (Z.of_nat (sum_list (count <$> G))) <=
   inject_Z (Z.of_nat (length G)) * inject_Z bst +
   rt * secs (U - t0 + (Z.of_nat (length G) - 1) * delta))%Q.
Proof.
  intros Hf HG. revert U Hf. induction HG as [|g G (Hb & _ & m & _ & Hcap & Hc) HG IH]; intros U Hf Hne; [done|].
  destruct Hf as (Eg & _ & Hf). destruct Hb as [_ Hb]. rewrite Eg in Hcap. apply secs_le in Hcap.
  assert (rt * secs m <= rt * secs U)%Q as Hm by nra. cbn [fmap list_fmap sum_list length].
  rewrite Nat2Z.inj_add, inject_Z_plus. change (id (count g)) with (count g). destruct G as [|g' G].
  - change (sum_list (count <$> [])) with 0. cbn [length]. change (inject_Z (Z.of_nat 0)) with 0%Q. change (inject_Z (Z.of_nat 1)) with 1%Q.
    replace (U - t0 + (Z.of_nat 1 - 1) * delta)%Z with (U - t0)%Z by lia. rewrite secs_sub.
    assert (secs t0 <= secs (born g))%Q as H0 by (apply secs_le; lia).
    assert (rt * secs t0 <= rt * secs (born g))%Q by nra. lra.
  - specialize (IH _ Hf ltac:(done)). rewrite Nat2Z.inj_succ. unfold Z.succ. rewrite inject_Z_plus.
    change (inject_Z 1) with 1%Q. set (k := Z.of_nat (length (g' :: G))) in *.
    replace (born g + delta - t0 + (k - 1) * delta)%Z with (born g - (t0 - k * delta))%Z in IH by lia.
    replace (U - t0 + (k + 1 - 1) * delta)%Z with (U - (t0 - k * delta))%Z by lia.
    rewrite secs_sub in IH |- *. lra.
Qed.

(** What [p] gets, with [E] deletions of its bucket: a burst for each bucket, and the
    rate over the period and the lags. *)
Lemma granted_bound acts l :
  lim_run acts (NewBuckets cfg) = Some l → timely (readings p acts) → (t0 ≤ t1)%Z →
  let E := Z.of_nat (evictions p acts (NewBuckets cfg)) in
  (inject_Z (Z.of_nat (granted p acts)) <=
   inject_Z (1 + E) * inject_Z bst + rt * secs (t1 - t0 + E * delta))%Q ∧
  (E * (staleThreshold - 2 * delta) ≤ t1 - t0)%Z.
Proof.
  intros Hr Ht Hle E. destruct (account_run acts l Hr Ht) as [G [Hcfg Hg Hl Hf Hd Hm Hc Hs Ho]].
  assert (0 <= inject_Z bst)%Q as Hbq by (change 0%Q with (inject_Z 0); by rewrite <- Zle_Qle).
  assert (Z.of_nat (length G) ≤ 1 + E ∧ E * (staleThreshold - 2 * delta) ≤ t1 - t0)%Z as [Hlen Htime].
  { destruct (bk_map l !! p).
    - destruct Hm as (g & G' & -> & _ & He). destruct Hf as (_ & Hb & _).
      apply Forall_cons in Hl as [[[_ Hr'] _] _]. cbn [length] in *. split; [lia|].
      replace E with (Z.of_nat (length G')) by lia. lia.
    - destruct Hm as [He Hid]. split; [lia|]. destruct G as [|g G']; [replace E with 0%Z by (cbn in He; lia); lia|].
      destruct Hf as (_ & Hb & _). destruct Hid as (c & [_ Hc'] & Hc2). cbn [length] in He.
      replace E with (Z.of_nat (length G') + 1)%Z by lia. lia. }
  split; [|done]. rewrite Hg. destruct (decide (G = [])) as [->|HG].
  - change (inject_Z (Z.of_nat (sum_list (count <$> [])))) with 0%Q.
    assert (secs 0 <= secs (t1 - t0 + E * delta))%Q as H0 by (apply secs_le; nia). change (secs 0) with (0 / inject_Z Second)%Q in H0.
    assert (0 <= inject_Z (1 + E))%Q by (change 0%Q with (inject_Z 0); rewrite <- Zle_Qle; lia).
    assert (0 / inject_Z Second == 0)%Q as Hz by reflexivity. rewrite Hz in H0. nra.
  - eapply Qle_trans; [by apply (follow_total (readings p acts) (bk_heap l) t1)|].
    assert (inject_Z (Z.of_nat (length G)) <= inject_Z (1 + E))%Q as Hq by by rewrite <- Zle_Qle.
    assert (secs (t1 - t0 + (Z.of_nat (length G) - 1) * delta) <= secs (t1 - t0 + E * delta))%Q by (apply secs_le; nia).
    apply Qplus_le_compat; [by apply Qmult_le_compat_r|nra].
Qed.
End Bound.

(** A bucket that is used between the moment the clean-up finds it idle and the deletion
    is deleted all the same: the pointer in the map is still the one the clean-up has.
    With a burst of one the principal then gets two tokens in the same instant. *)
Theorem cleanup_clobbers_refreshed :
  let later := (staleThreshold + Second)%Z in
  let cfg : Config Q := mkConfig (1 # 100)%Q 1 in
  let acts := [ALoad 0 0 "a"; ALock 0 0 "a" true; AInspect later "a";
               ALoad 0 later "a"; ALock 0 later "a" true; AEvict;
               ALoad 0 later "a"; ALock 0 later "a" true] in
  is_Some (lim_run acts (NewBuckets cfg)) ∧ evictions "a" acts (NewBuckets cfg) = 1 ∧
  lim_run (take 5 acts ++ drop 6 acts) (NewBuckets cfg) = None.
Proof. vm_compute. split_and!; [by eexists|done|done]. Qed.
