(* ===== verification/Tracing.v ===== *)
(** * internal/tracing/tracing.go: the tracer provider

    [Init] on the process-wide state of OpenTelemetry.  The exporter's constructor, the
    default resource and the merging of resources are the class [Otel]; its laws are what
    the documentation of [resource.Merge] says of attributes and schema URLs.  The
    theorems say what a successful [Init] installs, that a failed one installs nothing,
    and that [Init] cannot succeed when the SDK's default resource carries a schema URL
    of another version than the one written in the code. *)

From S2P Require Import Prelude GoStrings RateLimit.

Record TracingOptions := mkTracingOptions { Endpoint : string; Insecure : bool; SampleRate : Float64.t }.

Inductive ExporterOption := WithEndpoint (endpoint : string) | WithInsecure.

Record otelResource := mkOtelResource { attributes : gmap string string; schemaURL : string }.

(** [ParentBased(TraceIDRatioBased(rate))] *)
Inductive Sampler := TraceIDRatioBased (rate : Float64.t) | ParentBased (root : Sampler).
Inductive Propagator := TraceContext | Baggage.

Record TracerProvider := mkTracerProvider {
  tp_exporter : list ExporterOption; tp_resource : otelResource; tp_sampler : Sampler;
}.

(** The globals, and the exporters that were started and not shut down, each by the
    options it was made with. *)
Record otelGlobals := mkGlobals {
  g_provider : option TracerProvider;
  g_propagators : list Propagator;
  g_exporters : list (list ExporterOption);
}.

Definition schemas_conflict (a b : otelResource) : bool :=
  negb (schemaURL a =? "")%go && negb (schemaURL b =? "")%go && negb (schemaURL a =? schemaURL b)%go.

Class Otel := {
  otlptracegrpc_New : list ExporterOption → result unit;
  resource_Default : otelResource;
  resource_Merge : otelResource → otelResource → result otelResource;
  (** The attributes of the second resource win. *)
  Merge_attributes a b r : resource_Merge a b = Ok r → attributes r = attributes b ∪ attributes a;
  Merge_Ok a b : is_Ok (resource_Merge a b) = negb (schemas_conflict a b);
}.

Section Init.
Context `{Otel}.

Definition exporterOptions (cfg : TracingOptions) : list ExporterOption :=
  [WithEndpoint (Endpoint cfg)] ++ (if Insecure cfg then [WithInsecure] else []).

(** [resource.NewWithAttributes(...)] *)
Definition serviceResource : otelResource :=
  mkOtelResource {["service.name" := "pdag"]} "https://opentelemetry.io/schemas/1.26.0".

(** On success the provider whose [Shutdown] method is returned. *)
Definition Init (cfg : TracingOptions) (g : otelGlobals) : result TracerProvider * otelGlobals :=
  let opts := exporterOptions cfg in
  match otlptracegrpc_New opts with
  | Err e => (Err (ErrWrap "create OTLP trace exporter" e), g)
  | Ok _ =>
      let g := mkGlobals (g_provider g) (g_propagators g) (g_exporters g ++ [opts]) in
      match resource_Merge resource_Default serviceResource with
      | Err e => (Err (ErrWrap "create otel resource" e), g)
      | Ok res =>
          let tp := mkTracerProvider opts res (ParentBased (TraceIDRatioBased (SampleRate cfg))) in
          (Ok tp, mkGlobals (Some tp) [TraceContext; Baggage] (g_exporters g))
      end
  end.

Lemma Init_fails cfg g :
  schemas_conflict resource_Default serviceResource = true → is_Ok (Init cfg g).1 = false.
Proof.
  intros Hc. pose proof (Merge_Ok resource_Default serviceResource) as Hm. rewrite Hc in Hm. unfold Init.
  destruct (otlptracegrpc_New _); [|done]. by destruct (resource_Merge resource_Default serviceResource).
Qed.

(** [Init] succeeds exactly when the exporter is created and the schema URLs agree; then
    the installed provider exports to the configured endpoint, in the clear only when
    so configured, names the service and samples roots at the configured rate.  A failure
    leaves the provider and the propagators alone. *)
Theorem Init_installs cfg g :
  let '(r, g') := Init cfg g in
  is_Ok r = is_Ok (otlptracegrpc_New (exporterOptions cfg)) &&
            negb (schemas_conflict resource_Default serviceResource) ∧
  match r with
  | Ok tp =>
      g_provider g' = Some tp ∧ g_propagators g' = [TraceContext; Baggage] ∧
      g_exporters g' = g_exporters g ++ [tp_exporter tp] ∧
      WithEndpoint (Endpoint cfg) ∈ tp_exporter tp ∧
      (WithInsecure ∈ tp_exporter tp ↔ Insecure cfg = true) ∧
      attributes (tp_resource tp) !! "service.name" = Some "pdag" ∧
      tp_sampler tp = ParentBased (TraceIDRatioBased (SampleRate cfg))
  | Err _ => g_provider g' = g_provider g ∧ g_propagators g' = g_propagators g
  end.
Proof.
  unfold Init. destruct (otlptracegrpc_New _); cbn [is_Ok andb]; [|done].
  rewrite <- Merge_Ok. destruct (resource_Merge resource_Default serviceResource) as [res|e] eqn:Em; [|done].
  split; [done|]. apply Merge_attributes in Em. cbn [tp_exporter tp_resource tp_sampler]. split_and!; try done.
  - apply list_elem_of_here.
  - unfold exporterOptions. destruct (Insecure cfg); cbn [app]; rewrite !elem_of_cons; [tauto|].
    split; [by intros [|?%not_elem_of_nil]|done].
  - rewrite Em. apply lookup_union_Some_raw. left. apply lookup_singleton_eq.
Qed.

(** With a default resource of another schema version every [Init] fails, and the
    exporter it has started is never shut down. *)
Theorem Init_schema_conflict cfg g :
  schemas_conflict resource_Default serviceResource = true →
  is_Ok (Init cfg g).1 = false ∧
  (is_Ok (otlptracegrpc_New (exporterOptions cfg)) = true →
   g_exporters (Init cfg g).2 = g_exporters g ++ [exporterOptions cfg]).
Proof.
  intros Hc. split; [by apply Init_fails|]. pose proof (Init_fails cfg g Hc) as Hi. unfold Init in *.
  destruct (otlptracegrpc_New _); [|done]. by destruct (resource_Merge resource_Default serviceResource).
Qed.
End Init.

(** ** An SDK whose default resource has a schema URL *)

Definition merged (a b : otelResource) : result otelResource :=
  if schemas_conflict a b then Err (ErrMsg "conflicting Schema URL")
  else Ok (mkOtelResource (attributes b ∪ attributes a) (if (schemaURL b =? "")%go then schemaURL a else schemaURL b)).

#[refine] Definition sdk_with (schema : string) : Otel := {|
  otlptracegrpc_New opts := Ok ();
  resource_Default := mkOtelResource {["service.name" := "unknown_service"]} schema;
  resource_Merge := merged;
|}.
Proof.
  - intros a b r. unfold merged. destruct (schemas_conflict a b); [done|]. by intros [= <-].
  - intros a b. unfold merged. by destruct (schemas_conflict a b).
Defined.

Lemma Init_schema_conflict_witness :
  is_Ok (@Init (sdk_with "https://opentelemetry.io/schemas/1.39.0")
    (mkTracingOptions "localhost:4317" true (Float64.of_Z 1)) (mkGlobals None [] [])).1 = false.
Proof.
  apply (@Init_schema_conflict (sdk_with "https://opentelemetry.io/schemas/1.39.0")
    (mkTracingOptions "localhost:4317" true (Float64.of_Z 1)) (mkGlobals None [] [])).
  reflexivity.
Defined.

Example Init_same_schema :
  is_Ok (@Init (sdk_with "https://opentelemetry.io/schemas/1.26.0")
    (mkTracingOptions "localhost:4317" true (Float64.of_Z 1)) (mkGlobals None [] [])).1 = true.
Proof. reflexivity. Qed.
