(* ===== verification/Authz.v ===== *)
(** * internal/authz/middleware.go and sdk/convert.go

    The request handed to the plugins is the protobuf message [HttpRequest].
    The middleware runs on a world whose state implements [Authorizer].  The
    theorems: only an ALLOW decision reaches the next handler, the plugins see
    no credentials and everything else, and the conversions of the SDK are
    inverse to each other. *)

From S2P Require Import Prelude GoStrings Http.

(** ** proto/authz and sdk/convert.go *)

Record pbHeader := mkPbHeader { Key : string; Values : list string }.

Record HttpRequest := mkHttpRequest {
  pb_Method : string;
  pb_Scheme : string;
  pb_Host : string;
  pb_Path : string;
  pb_RawQuery : string;
  pb_Headers : list pbHeader;
  pb_Body : string;
  pb_ContentLength : Z;
  pb_RemoteAddr : string;
  pb_RequestId : string;
  pb_Principal : string;
}.

(** [order] is the iteration order of the header map. *)
Definition StdlibToHttpRequest (order : list (string * list string)) (r : Request)
    (body requestID principal : string) : HttpRequest :=
  mkHttpRequest (Method r) (URL_Scheme r) (Host r) (URL_Path r) (RawQuery r)
    ((λ kv, mkPbHeader kv.1 kv.2) <$> order) body (ContentLength r) (RemoteAddr r)
    requestID principal.

(** The loop that fills the header map. *)
Definition headerMap (hs : list pbHeader) : headers :=
  foldl (λ m h, <[Key h := Values h]> m) ∅ hs.

Definition HttpRequestToStdlib (req : HttpRequest) : Request :=
  mkRequest (pb_Method req) (pb_Scheme req) (pb_Path req) "" (pb_RawQuery req) (pb_Host req)
    (headerMap (pb_Headers req))
    (if (0 <? slen (pb_Body req))%Z then BodyStream (pb_Body req) false else NoBody)
    (pb_ContentLength req) (pb_RemoteAddr req).

(** ** The middleware *)

Class Authorizer (S : Type) := {
  Authorize : list string → HttpRequest → S → (string * string * string) * S;
}.

Definition sensitiveHeaders (k : string) : bool :=
  bool_decide (k ∈ ["X-Api-Key"; "Authorization"; "Cookie"; "Proxy-Authorization"]).

(** The redaction loop and its body. *)
Definition redactHeader (h : pbHeader) : pbHeader :=
  if sensitiveHeaders (CanonicalHeaderKey (Key h)) then mkPbHeader (Key h) ["REDACTED"] else h.
Definition redactHeaders (hs : list pbHeader) : list pbHeader := redactHeader <$> hs.

Definition with_Headers (hs : list pbHeader) (q : HttpRequest) : HttpRequest :=
  mkHttpRequest (pb_Method q) (pb_Scheme q) (pb_Host q) (pb_Path q) (pb_RawQuery q) hs (pb_Body q)
    (pb_ContentLength q) (pb_RemoteAddr q) (pb_RequestId q) (pb_Principal q).

Section Middleware.

Context {S : Type} `{Authorizer S}.

(** [writeResult] *)
Definition writeResult (ctx : Context) (decision plugin reason : string) (w : World S) : World S :=
  if authzResultKey ctx then
    let c := w_cells w in
    set_cells (mkCells (bodySize c) (bodyBytes c) (mkAuthzResult decision plugin reason) (StatusCode c)) w
  else w.

(** The request the plugins are asked about. *)
Definition pluginRequest (ctx : Context) (r : Request) : HttpRequest :=
  let pbReq := StdlibToHttpRequest (map_to_list (Header r)) r (GetBodyBytes ctx) (GetRequestID ctx)
                 (GetPrincipal ctx) in
  with_Headers (redactHeaders (pb_Headers pbReq)) pbReq.

Definition authz_Middleware (next : Handler S) : Handler S := λ ctx r w,
  let roles := GetRoles ctx in
  if bool_decide (length roles = 0) then
    reject "Forbidden: no roles assigned" 403 (writeResult ctx "deny" "" "no roles assigned" w)
  else
    let '((decision, pluginName, reason), s) := Authorize roles (pluginRequest ctx r) (w_state w) in
    let w := writeResult ctx decision pluginName reason (set_state s w) in
    if negb (decision =? "allow")%go then reject "Forbidden" 403 w
    else next ctx r w.

(** What a middleware with the pointer reads after the decision. *)
Lemma writeResult_visible ctx decision plugin reason (w : World S) :
  authzResultKey ctx = true →
  GetAuthzResult ctx (w_cells (writeResult ctx decision plugin reason w)) = (mkAuthzResult decision plugin reason, true).
Proof. intros Hk. unfold writeResult, GetAuthzResult, GetAuthzResultPtr. by rewrite Hk. Qed.

End Middleware.

(** ** Lemmas *)

Lemma headerMap_list (hs : list (string * list string)) :
  headerMap ((λ kv, mkPbHeader kv.1 kv.2) <$> hs) = list_to_map (reverse hs).
Proof.
  unfold headerMap. rewrite foldl_fmap. cbn [Key Values].
  induction hs as [|[k v] hs IH] using rev_ind; [done|].
  rewrite foldl_snoc, IH, reverse_snoc. done.
Qed.

Lemma headerMap_order (order : list (string * list string)) (h : headers) :
  order ≡ₚ map_to_list h → headerMap ((λ kv, mkPbHeader kv.1 kv.2) <$> order) = h.
Proof.
  intros Ho. rewrite headerMap_list. rewrite <- (list_to_map_to_list h).
  apply list_to_map_proper.
  - rewrite reverse_Permutation, Ho. apply NoDup_fst_map_to_list.
  - by rewrite reverse_Permutation.
Qed.

Lemma redactHeader_eq k v :
  redactHeader (mkPbHeader k v) =
  mkPbHeader k (if decide (CanonicalHeaderKey k ∈ ["X-Api-Key"; "Authorization"; "Cookie"; "Proxy-Authorization"])
                then ["REDACTED"] else v).
Proof. unfold redactHeader, sensitiveHeaders. cbn [Key]. case_bool_decide; by case_decide. Qed.

(** ** Properties *)

(** The handler behind the authorization runs exactly when the key has a
    role and the authorizer's decision on the redacted request is ALLOW; every
    other request is answered with 403, and the decision is recorded for the
    audit entry in both cases. *)
Theorem authz_forwards_iff {S} `{Authorizer S} ctx r (w : World S) :
  let '((decision, plugin, reason), s) := Authorize (GetRoles ctx) (pluginRequest ctx r) (w_state w) in
  (GetRoles ctx ≠ [] ∧ decision = "allow" ∧
     ∀ next, authz_Middleware next ctx r w =
             next ctx r (writeResult ctx decision plugin reason (set_state s w))) ∨
  (GetRoles ctx ≠ [] ∧ decision ≠ "allow" ∧
     ∀ next, authz_Middleware next ctx r w =
             reject "Forbidden" 403 (writeResult ctx decision plugin reason (set_state s w))) ∨
  (GetRoles ctx = [] ∧
     ∀ next, authz_Middleware next ctx r w =
             reject "Forbidden: no roles assigned" 403 (writeResult ctx "deny" "" "no roles assigned" w)).
Proof.
  unfold authz_Middleware.
  destruct (Authorize (GetRoles ctx) (pluginRequest ctx r) (w_state w)) as [[[d p] rs] s].
  destruct (GetRoles ctx) as [|role roles] eqn:Er; [by right; right|].
  rewrite bool_decide_false by done.
  destruct (String.eqb_spec d "allow") as [->|Hd]; [by left|by right; left].
Qed.

(** C18: no credential reaches a plugin.  The headers of the plugins' request are those
    of the client's request, one for one, with the redaction marker as the only value of
    X-Api-Key, Authorization, Cookie and Proxy-Authorization (by canonical name) and the
    client's values for every other; method, path, query, host, body, length, address,
    request ID and principal are handed over as they are. *)
Theorem authz_redacts ctx r :
  let q := pluginRequest ctx r in
  (∀ k values, mkPbHeader k values ∈ pb_Headers q ↔
     ∃ v, Header r !! k = Some v ∧
       values = if decide (CanonicalHeaderKey k ∈ ["X-Api-Key"; "Authorization"; "Cookie"; "Proxy-Authorization"])
                then ["REDACTED"] else v) ∧
  length (pb_Headers q) = size (Header r) ∧
  pb_Method q = Method r ∧ pb_Scheme q = URL_Scheme r ∧ pb_Host q = Host r ∧ pb_Path q = URL_Path r ∧
  pb_RawQuery q = RawQuery r ∧ pb_Body q = GetBodyBytes ctx ∧ pb_ContentLength q = ContentLength r ∧
  pb_RemoteAddr q = RemoteAddr r ∧ pb_RequestId q = GetRequestID ctx ∧ pb_Principal q = GetPrincipal ctx.
Proof.
  intros q. split_and!; try done.
  - intros k values. cbn [q pluginRequest pb_Headers with_Headers StdlibToHttpRequest]. unfold redactHeaders.
    rewrite list_elem_of_fmap. setoid_rewrite <- elem_of_map_to_list. split.
    + intros (h & Eh & ([k' v'] & -> & Hin)%list_elem_of_fmap). rewrite redactHeader_eq in Eh.
      injection Eh as -> ->. by exists v'.
    + intros (v & Hin & ->). exists (mkPbHeader k v). rewrite redactHeader_eq. split; [done|].
      apply list_elem_of_fmap. by exists (k, v).
  - cbn [q pluginRequest pb_Headers with_Headers StdlibToHttpRequest]. unfold redactHeaders.
    by rewrite !length_fmap, length_map_to_list.
Qed.

(** The SDK's conversions are inverse to each other: whatever order the
    header map is visited in, converting a request to protobuf and back gives the
    same request with the buffered body; how its path was written is not kept. *)
Theorem HttpRequest_roundtrip order r body requestID principal :
  order ≡ₚ map_to_list (Header r) →
  HttpRequestToStdlib (StdlibToHttpRequest order r body requestID principal) =
  set_Body (if (0 <? slen body)%Z then BodyStream body false else NoBody) (ContentLength r)
    (mkRequest (Method r) (URL_Scheme r) (URL_Path r) "" (RawQuery r) (Host r) (Header r) (Body r)
       (ContentLength r) (RemoteAddr r)).
Proof.
  intros Ho. unfold HttpRequestToStdlib, StdlibToHttpRequest, set_Body.
  cbn [pb_Method pb_Scheme pb_Host pb_Path pb_RawQuery pb_Headers pb_Body pb_ContentLength pb_RemoteAddr
    Method URL_Scheme URL_Path URL_RawPath RawQuery Host Header Body ContentLength RemoteAddr].
  by rewrite (headerMap_order order (Header r)).
Qed.

Definition ex_hdr : headers := {[ "A" := ["1"; "2"]; "B" := ["3"] ]}.

Lemma HttpRequest_roundtrip_witness :
  HttpRequestToStdlib (StdlibToHttpRequest [("B", ["3"]); ("A", ["1"; "2"])]
    (mkRequest "GET" "" "/" "" "" "h" ex_hdr NoBody 0 "") "" "id" "alice") =
  mkRequest "GET" "" "/" "" "" "h" ex_hdr NoBody 0 "".
Proof.
  apply (HttpRequest_roundtrip [("B", ["3"]); ("A", ["1"; "2"])]
    (mkRequest "GET" "" "/" "" "" "h" ex_hdr NoBody 0 "") "" "id" "alice").
  vm_compute. apply Permutation_swap || reflexivity.
Defined.
