(* ===== verification/AuditTrail.v ===== *)
(** * internal/audit: entries, publishers and the audit middleware

    [Publisher] and [Reserver] are classes over the state; the log file's
    implementation is in AuditFile.  The body sanitizer of body.go runs on a
    JSON tree; Go's JSON codec and [strconv.Quote] are the operations of the class
    [JsonLib].  The theorems: in fail-closed mode a request is only forwarded with
    a reserved slot, which is then committed whatever happens; redaction removes
    every value under a sensitive field; and in fail-open mode a panic leaves no
    entry. *)

From S2P Require Import Prelude GoStrings GoNet Http ClientIP.

(** ** audit.go *)

Record Entry := mkEntry {
  e_Timestamp : Time;
  e_RequestID : string;
  e_Principal : string;
  e_KeyID : string;
  e_Method : string;
  e_Path : string;
  e_Query : string;
  e_SourceIP : string;
  e_UserAgent : string;
  e_StatusCode : Z;
  e_LatencyMs : Z;
  e_AuthzDecision : string;
  e_AuthzPlugin : string;
  e_AuthzReason : string;
  e_RequestBody : option string;    (** the raw JSON; [None] is nil *)
}.

Class Publisher (S : Type) := { Publish : Entry → S → result unit * S }.

(** [Reserve] answers whether a slot was acquired; the commit function it
    returns is [commit]. *)
Class Reserver (S : Type) := {
  Reserve : S → bool * S;
  commit : Entry → S → S;
}.

(** [Noop()] *)
#[export] Instance noop_Publisher : Publisher unit := {| Publish := λ _ s, (Ok (), s) |}.
#[export] Instance noop_Reserver : Reserver unit :=
  {| Reserve := λ s, (true, s); commit := λ _ s, s |}.

(** ** body.go *)

Inductive json :=
  | JNull | JBool (b : bool) | JNum (text : string) | JStr (s : string)
  | JArr (l : list json) | JObj (l : list (string * json)).

Class JsonLib := {
  json_Valid : string → bool;
  json_Unmarshal : string → option json;
  json_Marshal : json → option string;
  strconv_Quote : string → string;
  ToLower : string → string;
}.

Section Body.

Context `{JsonLib}.

(** [redact] is the set of lower-cased field names. *)
Fixpoint redactValue (redact : gset string) (v : json) : json :=
  match v with
  | JObj l =>
      JObj ((λ kv, (kv.1, if bool_decide (ToLower kv.1 ∈ redact) then JStr "[REDACTED]"
                          else redactValue redact kv.2)) <$> l)
  | JArr l => JArr (redactValue redact <$> l)
  | _ => v
  end.

Definition sanitizeBody (raw : string) (maxBytes : Z) (redact : gset string) : option string :=
  if (slen raw =? 0)%Z then None
  else
    let valid := json_Valid raw in
    let out :=
      if valid && bool_decide (0 < size redact) then
        match json_Unmarshal raw with
        | Some v => match json_Marshal (redactValue redact v) with Some b => b | None => raw end
        | None => raw
        end
      else raw in
    if (0 <? maxBytes)%Z && (maxBytes <? slen out)%Z then
      Some (strconv_Quote (str_firstn (Z.to_nat maxBytes) out +:+ "...(truncated)"))
    else if valid then Some out
    else Some (strconv_Quote out).

End Body.

(** ** middleware.go *)

Record Options := mkOptions {
  LogBody : bool;
  FailClosed : bool;
  BodyMaxBytes : Z;
  RedactFields : gset string;
}.

Section Middleware.

Context {S : Type} `{Publisher S} `{Reserver S} `{JsonLib}.
Context (opts : Options) (resolver : Resolver).

(** [buildEntry]: [ctx] is the context of this middleware's own request. *)
Definition buildEntry (start : Time) (ctx : Context) (r : Request) (w : World S) : Entry * World S :=
  let statusCode := if statusCodeKey ctx then StatusCode (w_cells w) else 200%Z in
  let sourceIP := match ClientIP resolver r with Some ip => ip_String ip | None => "" end in
  let '(ts, w) := time_Now w in
  let '(now, w) := time_Now w in
  let az := authzResult (w_cells w) in
  let body := bodyBytes (w_cells w) in
  (mkEntry ts (GetRequestID ctx) (GetPrincipal ctx) (GetKeyID ctx) (Method r) (URL_Path r)
     (RawQuery r) sourceIP (Header_Get (Header r) "User-Agent") statusCode
     (Z.quot (time_Sub now start) 1000000) (Decision az) (Plugin az) (Reason az)
     (if LogBody opts && (0 <? slen body)%Z
      then sanitizeBody body (BodyMaxBytes opts) (RedactFields opts) else None), w).

(** The context and the fresh cells handed downstream. *)
Definition audit_enter (ctx : Context) (w : World S) : Context * World S :=
  let ctx := WithAuthzResultPtr ctx in
  let c := w_cells w in
  let w := set_cells (mkCells (bodySize c) "" (mkAuthzResult "" "" "") (StatusCode c)) w in
  (if LogBody opts then WithBodyBytesPtr ctx else ctx, w).

Definition audit_Middleware (next : Handler S) : Handler S := λ ctx r w,
  let '(start, w) := time_Now w in
  let '(ctx, w) := audit_enter ctx w in
  if FailClosed opts then
    let '(ok, s) := Reserve (w_state w) in
    let w := set_state s w in
    if negb ok then reject "audit unavailable" 503 (Inc "AuditDroppedTotal" [] w)
    else
      let '(o, w) := next ctx r w in
      let '(e, w) := buildEntry start ctx r w in
      (o, set_state (commit e (w_state w)) w)
  else
    match next ctx r w with
    | (Panicked, w) => (Panicked, w)
    | (Returned, w) =>
        let '(e, w) := buildEntry start ctx r w in
        let '(_, s) := Publish e (w_state w) in
        (Returned, set_state s w)
    end.

End Middleware.

(** ** Lemmas *)

Section JsonInd.

Context (P : json → Prop).
Hypothesis (HNull : P JNull) (HBool : ∀ b, P (JBool b)) (HNum : ∀ t, P (JNum t)) (HStr : ∀ s, P (JStr s)).
Hypothesis (HArr : ∀ l, Forall P l → P (JArr l)) (HObj : ∀ l, Forall (λ kv, P kv.2) l → P (JObj l)).

(** Induction through the lists of arrays and objects. *)
Fixpoint json_ind_nested (v : json) : P v :=
  match v with
  | JNull => HNull
  | JBool b => HBool b
  | JNum t => HNum t
  | JStr s => HStr s
  | JArr l => HArr l
      ((fix go (l : list json) : Forall P l :=
          match l with [] => Forall_nil_2 P | x :: l' => Forall_cons_2 P x l' (json_ind_nested x) (go l') end) l)
  | JObj l => HObj l
      ((fix go (l : list (string * json)) : Forall (λ kv, P kv.2) l :=
          match l with
          | [] => Forall_nil_2 _
          | x :: l' => Forall_cons_2 (λ kv, P kv.2) x l' (json_ind_nested x.2) (go l')
          end) l)
  end.

End JsonInd.

(** A path into a tree: field names and array positions. *)
Inductive step := Field (k : string) | Item (i : nat).

(** The values found under a path (an object may repeat a field). *)
Inductive reaches : json → list step → json → Prop :=
  | reaches_here v : reaches v [] v
  | reaches_field l k v p u : (k, v) ∈ l → reaches v p u → reaches (JObj l) (Field k :: p) u
  | reaches_item l i v p u : l !! i = Some v → reaches v p u → reaches (JArr l) (Item i :: p) u.

Section BodyLemmas.

Context `{JsonLib} (redact : gset string).

Definition sensitive_step (s : step) : bool :=
  match s with Field k => bool_decide (ToLower k ∈ redact) | Item _ => false end.

(** What is reached in the redacted tree: the marker, at the first sensitive
    field of the path, or the redacted value of what was reached before. *)
Lemma redactValue_reaches v p u :
  reaches (redactValue redact v) p u →
  (u = JStr "[REDACTED]" ∧ ∃ q s, p = q ++ [s] ∧ sensitive_step s = true ∧
     Forall (λ s, sensitive_step s = false) q) ∨
  (Forall (λ s, sensitive_step s = false) p ∧ ∃ u0, reaches v p u0 ∧ u = redactValue redact u0).
Proof.
  revert p u. induction v as [| | | |l IH|l IH] using json_ind_nested; intros p u Hr.
  1-4: inversion Hr; subst; right; split; [constructor|]; eexists; split; [constructor|done].
  - inversion Hr as [|?????|? i v' p' u' Hi Hp]; subst.
    { right. split; [constructor|]. eexists. split; [constructor|done]. }
    cbn in Hi. rewrite list_lookup_fmap in Hi. apply fmap_Some in Hi as (x & Hx & ->).
    rewrite Forall_lookup in IH. destruct (IH i x Hx p' u Hp) as [(-> & q & s & -> & Hs & Hq)|(Hf & u0 & Hu & ->)].
    + left. split; [done|]. exists (Item i :: q), s. split_and!; [done|done|]. by constructor.
    + right. split; [by constructor|]. exists u0. split; [|done]. by econstructor.
  - inversion Hr as [|? k v' p' u' Hi Hp|]; subst.
    { right. split; [constructor|]. eexists. split; [constructor|done]. }
    cbn in Hi. apply list_elem_of_fmap in Hi as ([k0 x] & [= -> ->] & Hx). cbn in Hp.
    case_bool_decide as Hk.
    + left. inversion Hp; subst. split; [done|]. exists [], (Field k0). split_and!; [done| |done].
      cbn. by rewrite bool_decide_true.
    + rewrite Forall_forall in IH. destruct (IH _ Hx p' u Hp) as [(-> & q & s & -> & Hs & Hq)|(Hf & u0 & Hu & ->)].
      * left. split; [done|]. exists (Field k0 :: q), s. split_and!; [done|done|].
        constructor; [|done]. cbn. by rewrite bool_decide_false.
      * right. split; [constructor; [cbn; by rewrite bool_decide_false|done]|].
        exists u0. split; [|done]. by econstructor.
Qed.

End BodyLemmas.

(** ** Properties *)

(** C32: after redaction nothing is found below a sensitive field but the marker:
    a path into the redacted tree that passes through a sensitive field name ends
    there, at the marker; every other path leads to what it led to before. *)
Theorem redactValue_removes `{JsonLib} redact v p u :
  reaches (redactValue redact v) p u →
  (existsb (sensitive_step redact) p = true → u = JStr "[REDACTED]") ∧
  (existsb (sensitive_step redact) p = false →
     ∃ u0, reaches v p u0 ∧ u = redactValue redact u0).
Proof.
  intros Hr. destruct (redactValue_reaches redact v p u Hr) as [(-> & q & s & -> & Hs & Hq)|(Hf & Hu)].
  - split; [done|]. rewrite existsb_app. cbn. by rewrite Hs, orb_true_r.
  - split; [|done]. intros (s & Hin & Hs)%existsb_exists. apply list_elem_of_In in Hin.
    rewrite Forall_forall in Hf. specialize (Hf s Hin). congruence.
Qed.

(** A codec for the witness: field names are lower-cased byte by byte. *)
Definition ex_lib : JsonLib :=
  {| json_Valid := λ _, true; json_Unmarshal := λ _, None; json_Marshal := λ _, None;
     strconv_Quote := id; ToLower := smap ascii_lower |}.

Definition ex_doc : json := JObj [("a", JObj [("Secret", JStr "x"); ("b", JStr "y")])].

Lemma redactValue_removes_witness :
  ∃ u0, reaches ex_doc [Field "a"; Field "b"] u0 ∧ JStr "y" = @redactValue ex_lib {["secret"]} u0.
Proof.
  apply (proj2 (@redactValue_removes ex_lib {["secret"]} ex_doc [Field "a"; Field "b"] (JStr "y")
    ltac:(eapply reaches_field; [vm_compute; left|]; eapply reaches_field;
          [vm_compute; right; left|]; apply reaches_here))).
  vm_compute. reflexivity.
Defined.

(** C12: in fail-closed mode a request is forwarded if and only if a slot was
    reserved before; a forwarded request's entry is committed to that slot exactly
    once after the handler behind has returned or panicked, carrying the status
    and the decision recorded by then.  A request without a slot gets 503 and is
    not forwarded. *)
Theorem audit_fail_closed {S} `{Publisher S} `{Reserver S} `{JsonLib} opts resolver ctx r (w : World S) :
  FailClosed opts = true →
  let '(ok, s) := Reserve (w_state w) in
  if ok then
    ∃ ctx' w0, w_state w0 = s ∧ w_rw w0 = w_rw w ∧ GetPrincipal ctx' = GetPrincipal ctx ∧
      ∀ next, ∃ e w2,
        audit_Middleware opts resolver next ctx r w = ((next ctx' r w0).1, w2) ∧
        w_state w2 = commit e (w_state (next ctx' r w0).2) ∧
        w_rw w2 = w_rw (next ctx' r w0).2 ∧
        (e_Method e, e_Path e, e_Query e) = (Method r, URL_Path r, RawQuery r) ∧
        e_StatusCode e = (if statusCodeKey ctx then StatusCode (w_cells (next ctx' r w0).2) else 200%Z) ∧
        e_AuthzDecision e = Decision (authzResult (w_cells (next ctx' r w0).2))
  else
    ∃ w0, w_rw w0 = w_rw w ∧ w_state w0 = s ∧
      ∀ next, audit_Middleware opts resolver next ctx r w = reject "audit unavailable" 503 w0.
Proof.
  intros Hfc. destruct (Reserve (w_state w)) as [ok s] eqn:Er. unfold audit_Middleware, time_Now, audit_enter.
  rewrite Hfc. cbn [w_state set_cells]. rewrite Er.
  set (w1 := set_state s _). set (ctx' := if LogBody opts then _ else _).
  destruct ok; cbn [negb].
  - exists ctx', w1. split_and!; [done|done|by unfold ctx'; destruct (LogBody opts)|].
    intros next. destruct (next ctx' r w1) as [o w2]. unfold buildEntry, time_Now. cbn.
    eexists _, _. split_and!; try done. cbn. unfold ctx'. by destruct (LogBody opts).
  - exists (Inc "AuditDroppedTotal" [] w1). done.
Qed.

(** A sink with one slot, for the witnesses. *)
Record ex_sink := mkSink { free : bool; stored : list Entry }.
#[local] Instance ex_Publisher : Publisher ex_sink :=
  {| Publish := λ e s, (Ok (), mkSink (free s) (stored s ++ [e])) |}.
#[local] Instance ex_Reserver : Reserver ex_sink :=
  {| Reserve := λ s, (free s, mkSink false (stored s)); commit := λ e s, mkSink true (stored s ++ [e]) |}.
#[local] Instance ex_json : JsonLib := ex_lib.
Definition ex_audit_world (b : bool) : World ex_sink :=
  mkWorld (mkRW ∅ None "") true (mkCells 0 "" (mkAuthzResult "" "" "") 200) [] 0
    (λ n, Z.of_nat n) 0 (λ _, "u") 0 [] (mkSink b []).
Definition ex_audit_req : Request := mkRequest "PUT" "" "/p" "" "" "h" ∅ NoBody 0 "1.2.3.4:5".

Lemma audit_fail_closed_witness :
  ∃ w0, audit_Middleware (mkOptions false true 0 ∅) [] (λ _ _ w, (Panicked, w)) Background
    ex_audit_req (ex_audit_world false) = reject "audit unavailable" 503 w0.
Proof.
  destruct (audit_fail_closed (mkOptions false true 0 ∅) [] Background ex_audit_req
    (ex_audit_world false) eq_refl) as (w0 & _ & _ & Hk).
  exists w0. apply Hk.
Defined.

(** In fail-open mode a request whose handler panics leaves no entry at all:
    the audit state is what the handler left, and no drop is counted.  (A reverse
    proxy panics when the copy of the response to the client breaks off.) *)
Theorem audit_fail_open_panic_unaudited {S} `{Publisher S} `{Reserver S} `{JsonLib}
    opts resolver ctx r (w : World S) :
  FailClosed opts = false →
  ∃ ctx' w0, w_state w0 = w_state w ∧
    ∀ next, (next ctx' r w0).1 = Panicked →
      audit_Middleware opts resolver next ctx r w = next ctx' r w0.
Proof.
  intros Hfo. unfold audit_Middleware, time_Now, audit_enter. rewrite Hfo.
  set (ctx' := if LogBody opts then _ else _). set (w0 := set_cells _ _).
  exists ctx', w0. split; [done|]. intros next Hp. by destruct (next ctx' r w0) as [[] w2].
Qed.

Lemma audit_fail_open_panic_unaudited_witness :
  stored (w_state (audit_Middleware (mkOptions false false 0 ∅) [] (λ _ _ w, (Panicked, w)) Background
    ex_audit_req (ex_audit_world true)).2) = [].
Proof.
  destruct (audit_fail_open_panic_unaudited (mkOptions false false 0 ∅) [] Background ex_audit_req
    (ex_audit_world true) eq_refl) as (ctx' & w0 & Hs & Hk).
  rewrite (Hk (λ _ _ w, (Panicked, w)) eq_refl). cbn. rewrite Hs. reflexivity.
Defined.
