(* ===== verification/AuditFile.v ===== *)
(** * internal/audit/file/logger.go: the audit log file

    The logger's channel, its reservation semaphore and the flush goroutine as a
    transition system.  A step is one method call, or the flush loop's receiving an
    entry, writing it, releasing its permit, reopening the file or ending; [Publish] and
    [Reserve] hold the read lock for their whole body and [Close] takes the write lock,
    so calls are atomic with respect to [closed].
    Whether a waiting call times out, whether the encoder accepts an entry and
    whether the file can be opened again are choices of the environment.  The
    outputs of a step say what became of an entry. *)

From S2P Require Import Prelude GoStrings Http AuditTrail.

Definition defaultBufferSize : Z := 4096.

(** Where the flush loop is: at its select, or between receiving an entry and being
    back there. *)
Inductive flushState := Receiving | Holding (e : Entry) | Releasing.

Record Logger := mkLogger {
  ch : list Entry;
  capacity : nat;            (** of [ch] and of [sem] *)
  sem : nat;                 (** permits taken *)
  reserved : nat;            (** reservations not yet committed *)
  reopen : bool;             (** a reopen request is pending *)
  stop : bool;
  done : bool;               (** the flush loop has ended *)
  enqueueTimeout : Duration;
  closed : bool;
  dropped : nat;             (** [AuditDroppedTotal] *)
  writeErrors : nat;         (** [AuditWriteErrorsTotal] *)
  reopenFailures : nat;      (** [AuditReopenFailuresTotal] *)
  flush : flushState;
}.

Definition NewLogger (bufSize : Z) (timeout : Duration) : Logger :=
  let bufSize := if (bufSize <=? 0)%Z then defaultBufferSize else bufSize in
  mkLogger [] (Z.to_nat bufSize) 0 0 false false false timeout false 0 0 0 Receiving.

(** What a step did with an entry. *)
Inductive lout := Accepted (e : Entry) | Dropped (e : Entry) | Written (e : Entry) | Failed (e : Entry).

Definition with_queue (q : list Entry) (s r : nat) (l : Logger) : Logger :=
  mkLogger q (capacity l) s r (reopen l) (stop l) (done l) (enqueueTimeout l) (closed l)
    (dropped l) (writeErrors l) (reopenFailures l) (flush l).
Definition with_flush (f : flushState) (l : Logger) : Logger :=
  mkLogger (ch l) (capacity l) (sem l) (reserved l) (reopen l) (stop l) (done l) (enqueueTimeout l)
    (closed l) (dropped l) (writeErrors l) (reopenFailures l) f.
Definition with_counts (d w f : nat) (l : Logger) : Logger :=
  mkLogger (ch l) (capacity l) (sem l) (reserved l) (reopen l) (stop l) (done l) (enqueueTimeout l)
    (closed l) d w f (flush l).
Definition with_flags (ro st dn cl : bool) (l : Logger) : Logger :=
  mkLogger (ch l) (capacity l) (sem l) (reserved l) ro st dn (enqueueTimeout l) cl
    (dropped l) (writeErrors l) (reopenFailures l) (flush l).

(** The channel can take an entry, unless a timed wait ends first. *)
Definition has_room (n cap : nat) (timedOut : bool) (l : Logger) : bool :=
  bool_decide (n < cap) && negb (timedOut && (0 <? enqueueTimeout l)%Z).

Definition dropFull (l : Logger) : Logger :=
  with_counts (S (dropped l)) (S (writeErrors l)) (reopenFailures l) l.

Definition Logger_Publish (timedOut : bool) (e : Entry) (l : Logger) : result unit * Logger :=
  if closed l then (Err (ErrMsg "audit log closed, entry dropped"), dropFull l)
  else if has_room (length (ch l)) (capacity l) timedOut l then
    (Ok (), with_queue (ch l ++ [e]) (sem l) (reserved l) l)
  else (Err (ErrMsg "audit log buffer full, entry dropped"), dropFull l).

Definition Logger_Reserve (timedOut : bool) (l : Logger) : bool * Logger :=
  if closed l then (false, with_counts (S (dropped l)) (writeErrors l) (reopenFailures l) l)
  else if has_room (sem l) (capacity l) timedOut l then
    (true, with_queue (ch l) (S (sem l)) (S (reserved l)) l)
  else (false, with_counts (S (dropped l)) (writeErrors l) (reopenFailures l) l).

(** The returned commit function: a plain send, which blocks on a full channel. *)
Definition Logger_commit (e : Entry) (l : Logger) : option Logger :=
  match reserved l with
  | 0 => None
  | S n => if bool_decide (length (ch l) < capacity l)
           then Some (with_queue (ch l ++ [e]) (sem l) n l) else None
  end.

(** [writeEntry]: the encoder may fail. *)
Definition writeEntry (ok : bool) (l : Logger) : Logger :=
  if ok then l else with_counts (dropped l) (S (writeErrors l)) (reopenFailures l) l.

(** [writeAndRelease]: the entry is written, and then a permit is given back, if one is
    taken. *)
Definition writeAndRelease_write (ok : bool) (l : Logger) : Logger := with_flush Releasing (writeEntry ok l).
Definition writeAndRelease_release (l : Logger) : Logger :=
  with_flush Receiving (with_queue (ch l) (pred (sem l)) (reserved l) l).

Definition Reopen (l : Logger) : Logger := with_flags true (stop l) (done l) (closed l) l.

(** The reopen case of the loop: the old file is kept when opening fails. *)
Definition doReopen (ok : bool) (l : Logger) : Logger :=
  let l := with_flags false (stop l) (done l) (closed l) l in
  if ok then l else with_counts (dropped l) (writeErrors l) (S (reopenFailures l)) l.

(** [Close] up to the wait for the flush loop. *)
Definition Close (l : Logger) : Logger := with_flags (reopen l) true (done l) true l.

Inductive levent :=
  | LPublish (timedOut : bool) (e : Entry)
  | LReserve (timedOut : bool)
  | LCommit (e : Entry)
  | LReceive
  | LWrite (ok : bool)
  | LRelease
  | LReopen
  | LDoReopen (ok : bool)
  | LClose
  | LExit.

Definition lstep (ev : levent) (l : Logger) : option (list lout * Logger) :=
  match ev with
  | LPublish timedOut e =>
      let '(r, l') := Logger_Publish timedOut e l in
      Some ([if is_Ok r then Accepted e else Dropped e], l')
  | LReserve timedOut => Some ([], (Logger_Reserve timedOut l).2)
  | LCommit e => l' ← Logger_commit e l; Some ([Accepted e], l')
  | LReceive =>
      match done l, flush l, ch l with
      | false, Receiving, e :: rest => Some ([], with_flush (Holding e) (with_queue rest (sem l) (reserved l) l))
      | _, _, _ => None
      end
  | LWrite ok =>
      match flush l with
      | Holding e => Some ([if ok then Written e else Failed e], writeAndRelease_write ok l)
      | _ => None
      end
  | LRelease => match flush l with Releasing => Some ([], writeAndRelease_release l) | _ => None end
  | LReopen => Some ([], Reopen l)
  | LDoReopen ok =>
      match reopen l, done l, flush l with
      | true, false, Receiving => Some ([], doReopen ok l)
      | _, _, _ => None
      end
  | LClose => if closed l then None else Some ([], Close l)
  | LExit =>
      match stop l, done l, flush l, ch l with
      | true, false, Receiving, [] => Some ([], with_flags (reopen l) true true (closed l) l)
      | _, _, _, _ => None
      end
  end.

Fixpoint lrun (evs : list levent) (l : Logger) : option (list lout * Logger) :=
  match evs with
  | [] => Some ([], l)
  | ev :: evs' =>
      '(o, l1) ← lstep ev l; '(os, l2) ← lrun evs' l1; Some (o ++ os, l2)
  end.

(** ** The interfaces of the audit middleware *)

#[export] Instance Logger_Publisher : Publisher Logger := {| Publish := Logger_Publish false |}.
#[export] Instance Logger_Reserver : Reserver Logger :=
  {| Reserve := Logger_Reserve false; commit := λ e l, default l (Logger_commit e l) |}.

(** ** Lemmas *)

Definition accepted (os : list lout) : list Entry :=
  os ≫= λ o, match o with Accepted e => [e] | _ => [] end.
(** The entries the flush loop has handed to the encoder, also those it refused. *)
Definition processed (os : list lout) : list Entry :=
  os ≫= λ o, match o with Written e | Failed e => [e] | _ => [] end.

(** The entries on the way to the encoder: received, or in the channel. *)
Definition in_hand (l : Logger) : list Entry := match flush l with Holding e => [e] | _ => [] end.
Definition pending (l : Logger) : list Entry := in_hand l ++ ch l.

Lemma accepted_app os os' : accepted (os ++ os') = accepted os ++ accepted os'.
Proof. apply bind_app. Qed.
Lemma processed_app os os' : processed (os ++ os') = processed os ++ processed os'.
Proof. apply bind_app. Qed.

Lemma lstep_fifo ev l os l' :
  lstep ev l = Some (os, l') → pending l ++ accepted os = processed os ++ pending l'.
Proof.
  unfold pending. destruct ev as [t e|t|e| |ok| | |ok| |]; cbn; intros H.
  - unfold Logger_Publish in H. destruct (closed l); [by simplify_eq/=; rewrite app_nil_r|].
    destruct (has_room _ _ _ _); simplify_eq/=; [by rewrite <- app_assoc|by rewrite app_nil_r].
  - simplify_eq. unfold Logger_Reserve. cbn. rewrite app_nil_r.
    destruct (closed l); [done|]. by destruct (has_room _ _ _ _).
  - apply bind_Some in H as (l1 & H1 & [= <- <-]). unfold Logger_commit in H1.
    destruct (reserved l); [done|]. case_bool_decide; simplify_eq. by rewrite <- app_assoc.
  - unfold in_hand. destruct (done l); [done|]. destruct (flush l), (ch l); simplify_eq. cbn. by rewrite app_nil_r.
  - unfold in_hand. destruct (flush l) as [|e|]; simplify_eq. destruct ok; cbn; by rewrite app_nil_r.
  - unfold in_hand. destruct (flush l); simplify_eq. cbn. by rewrite app_nil_r.
  - simplify_eq. cbn. by rewrite app_nil_r.
  - destruct (reopen l), (done l), (flush l) eqn:Ef; simplify_eq. cbn. rewrite app_nil_r. unfold in_hand. by destruct ok.
  - destruct (closed l); simplify_eq. cbn. by rewrite app_nil_r.
  - unfold in_hand. destruct (stop l), (done l), (flush l) eqn:Ef, (ch l) eqn:E; simplify_eq. cbn. by rewrite Ef, E.
Qed.

Lemma lrun_fifo evs l os l' :
  lrun evs l = Some (os, l') → pending l ++ accepted os = processed os ++ pending l'.
Proof.
  revert l os. induction evs as [|ev evs IH]; intros l os; cbn.
  - intros [= <- <-]. by rewrite app_nil_r.
  - intros ([o l1] & H1 & ([os2 l2] & H2 & [= <- <-])%bind_Some)%bind_Some.
    rewrite accepted_app, processed_app, app_assoc, (lstep_fifo _ _ _ _ H1), <- app_assoc.
    by rewrite (IH _ _ H2), app_assoc.
Qed.

(** When the flush loop can end, nothing is on the way. *)
Lemma exit_idle l : is_Some (lstep LExit l) → pending l = [].
Proof. intros [x Hx]. cbn in Hx. unfold pending, in_hand. by destruct (stop l), (done l), (flush l), (ch l). Qed.

(** Reservations account for every permit as long as nothing is published
    without one: a permit is held by a caller, or goes with an entry from the channel
    until the flush loop has written it. *)
Definition busy (l : Logger) : nat := match flush l with Receiving => 0 | _ => 1 end.
Definition reservation_inv (l : Logger) : Prop :=
  sem l = reserved l + length (ch l) + busy l ∧ sem l ≤ capacity l.

Definition is_publish (ev : levent) : bool := match ev with LPublish _ _ => true | _ => false end.

Lemma lstep_reservation ev l os l' :
  lstep ev l = Some (os, l') → is_publish ev = false → reservation_inv l → reservation_inv l'.
Proof.
  unfold reservation_inv, busy. destruct ev as [t e|t|e| |ok| | |ok| |]; cbn; intros H Hp [H1 H2]; [done|..].
  - simplify_eq. unfold Logger_Reserve, has_room. destruct (closed l); [done|].
    case_bool_decide; cbn; [|done]. destruct (negb _); cbn; [lia|done].
  - apply bind_Some in H as (l1 & Hc & [= <- <-]). unfold Logger_commit in Hc.
    destruct (reserved l) eqn:Er; [done|]. case_bool_decide; simplify_eq. cbn. rewrite length_app. cbn. lia.
  - destruct (done l); [done|]. destruct (flush l), (ch l) eqn:E; simplify_eq. cbn in *. lia.
  - destruct (flush l) eqn:Ef; simplify_eq. by destruct ok; cbn; lia.
  - destruct (flush l) eqn:Ef; simplify_eq. cbn in *. lia.
  - by simplify_eq.
  - destruct (reopen l), (done l), (flush l) eqn:Ef; simplify_eq. by destruct ok; cbn; rewrite ?Ef.
  - destruct (closed l); by simplify_eq.
  - destruct (stop l), (done l), (flush l) eqn:Ef, (ch l) eqn:E; simplify_eq. cbn. rewrite E, Ef. done.
Qed.

Lemma lrun_reservation evs l os l' :
  lrun evs l = Some (os, l') → Forall (λ ev, is_publish ev = false) evs →
  reservation_inv l → reservation_inv l'.
Proof.
  revert l os. induction evs as [|ev evs IH]; intros l os; cbn.
  - by intros [= <- <-].
  - intros ([o l1] & H1 & ([os2 l2] & H2 & [= <- <-])%bind_Some)%bind_Some [Hp Hf]%Forall_cons Hinv.
    eapply IH; [done|done|]. by eapply lstep_reservation.
Qed.

(** After the flush loop has ended nothing more is written. *)
Definition ended (l : Logger) : Prop := done l = true ∧ flush l = Receiving.

Lemma lrun_done evs l os l' :
  lrun evs l = Some (os, l') → ended l → processed os = [] ∧ ended l'.
Proof.
  revert l os. induction evs as [|ev evs IH]; intros l os; cbn.
  - by intros [= <- <-].
  - intros ([o l1] & H1 & ([os2 l2] & H2 & [= <- <-])%bind_Some)%bind_Some [Hd Hw].
    assert (processed o = [] ∧ ended l1) as [Ho Hd1].
    { unfold ended. destruct ev as [t e|t|e| |ok| | |ok| |]; cbn in H1.
      - unfold Logger_Publish in H1. destruct (closed l); [by simplify_eq|].
        by destruct (has_room _ _ _ _); simplify_eq.
      - simplify_eq. unfold Logger_Reserve. destruct (closed l); [done|]. by destruct (has_room _ _ _ _).
      - apply bind_Some in H1 as (l3 & Hc & [= <- <-]). unfold Logger_commit in Hc.
        destruct (reserved l); [done|]. case_bool_decide; by simplify_eq.
      - by rewrite Hd in H1.
      - by rewrite Hw in H1.
      - by rewrite Hw in H1.
      - by simplify_eq.
      - rewrite Hd in H1. by destruct (reopen l).
      - destruct (closed l); by simplify_eq.
      - rewrite Hd in H1. by destruct (stop l). }
    destruct (IH _ _ H2 Hd1) as [Ho2 ?]. rewrite processed_app, Ho, Ho2. done.
Qed.

(** ** Properties *)

(** Every accepted entry is handed to the encoder exactly once and in the
    order of acceptance, or is still on the way to it, whatever the interleaving
    of publishers, reservations, rotations and closing; when the flush loop ends,
    everything accepted so far has been handed over. *)
Theorem audit_file_fifo bufSize timeout evs os l :
  lrun evs (NewLogger bufSize timeout) = Some (os, l) →
  accepted os = processed os ++ pending l ∧
  (is_Some (lstep LExit l) → accepted os = processed os).
Proof.
  intros Hr. pose proof (lrun_fifo _ _ _ _ Hr) as Hf. cbn in Hf. split; [done|].
  intros Hx. by rewrite Hf, (exit_idle l Hx), app_nil_r.
Qed.

Definition ex_entry (id : string) : Entry :=
  mkEntry 0 id "" "" "PUT" "/p" "" "" "" 200 0 "allow" "admin" "" None.

Lemma audit_file_fifo_witness :
  accepted [Accepted (ex_entry "1"); Dropped (ex_entry "2"); Written (ex_entry "1")] =
  processed [Accepted (ex_entry "1"); Dropped (ex_entry "2"); Written (ex_entry "1")].
Proof.
  destruct (lrun [LPublish false (ex_entry "1"); LPublish false (ex_entry "2"); LReceive; LWrite true; LRelease; LClose]
    (NewLogger 1 0)) as [[os l]|] eqn:E; [|vm_compute in E; discriminate].
  destruct (audit_file_fifo 1 0 [LPublish false (ex_entry "1"); LPublish false (ex_entry "2");
    LReceive; LWrite true; LRelease; LClose] os l E) as [_ H].
  vm_compute in E. injection E as <- <-. apply H. vm_compute. eexists. reflexivity.
Defined.

(** C37: in fail-closed operation, where entries only enter through reservations,
    a commit never blocks: as long as a reservation is open the channel has room. *)
Theorem audit_commit_never_blocks bufSize timeout evs os l e :
  lrun evs (NewLogger bufSize timeout) = Some (os, l) →
  Forall (λ ev, is_publish ev = false) evs → 0 < reserved l →
  is_Some (Logger_commit e l).
Proof.
  intros Hr Hf Hres.
  destruct (lrun_reservation _ _ _ _ Hr Hf) as [H1 H2]; [split; [done|apply Nat.le_0_l]|].
  unfold Logger_commit. destruct (reserved l) as [|n] eqn:E; [lia|].
  rewrite bool_decide_true by lia. by eexists.
Qed.

Lemma audit_commit_never_blocks_witness :
  is_Some (Logger_commit (ex_entry "3") (mkLogger [] 2 2 1 false false false 0 false 1 0 0 (Holding (ex_entry "1")))).
Proof.
  apply (audit_commit_never_blocks 2 0
    [LReserve false; LReserve false; LReserve false; LCommit (ex_entry "1"); LReceive]
    [Accepted (ex_entry "1")]); [reflexivity|repeat constructor|cbn; lia].
Defined.

(** An entry whose slot was reserved before [Close] but which is committed
    after the flush loop has ended is accepted and then lost: it is never written,
    and neither a drop nor a write error is counted. *)
Theorem audit_commit_after_close_lost e :
  ∃ evs os l, lrun evs (NewLogger 1 0) = Some (os, l) ∧ accepted os = [e] ∧
    dropped l = 0 ∧ writeErrors l = 0 ∧
    ∀ evs' os' l', lrun evs' l = Some (os', l') → processed (os ++ os') = [].
Proof.
  exists [LReserve false; LClose; LExit; LCommit e]. eexists _, _. split; [reflexivity|].
  split_and!; [done|done|done|]. intros evs' os' l' Hr.
  rewrite processed_app. by rewrite (proj1 (lrun_done _ _ _ _ Hr (conj eq_refl eq_refl))).
Qed.
