(* ===== verification/Rotation.v ===== *)
(** * The files of the audit log and their rotation

    The file system under the logger of AuditFile: the files in the order in which they
    were created, what the log's path names, and the file the logger has open.  Log
    rotation moves the file away (and may create an empty one in its place) at any time;
    the flush loop goes on writing to the file it has open until it has served a reopen
    request.  An entry the encoder refuses adds nothing to a file. *)

From S2P Require Import Prelude GoStrings Http AuditTrail AuditFile.

(** ** Files *)

Record Files := mkFiles {
  f_content : list (list Entry);   (** by age *)
  f_path : option nat;             (** the file the path names *)
  f_open : nat;                    (** the logger's file *)
}.

(** [os.OpenFile] with O_APPEND and O_CREATE, when it succeeds. *)
Definition openFile (fs : Files) : nat * Files :=
  match f_path fs with
  | Some i => (i, fs)
  | None =>
      let i := length (f_content fs) in
      (i, mkFiles (f_content fs ++ [[]]) (Some i) (f_open fs))
  end.

Definition setFile (i : nat) (fs : Files) : Files := mkFiles (f_content fs) (f_path fs) i.

(** [Logger.open]; the caller says whether the system call succeeds. *)
Definition open (ok : bool) (fs : Files) : result Files :=
  if ok then let '(i, fs) := openFile fs in Ok (setFile i fs)
  else Err (ErrMsg "open audit log").

(** An entry written through the encoder. *)
Definition write (e : Entry) (fs : Files) : Files :=
  mkFiles (alter (λ c, c ++ [e]) (f_open fs) (f_content fs)) (f_path fs) (f_open fs).

(** ** Steps *)

Inductive fileEvent :=
  | FLog (ev : levent)
  | FRename                (** the file is moved away *)
  | FCreate.               (** a new one is put in its place *)

(** What a step of the logger does to its files. *)
Definition file_effect (ev : levent) (os : list lout) (fs : Files) : Files :=
  match ev with
  | LWrite _ => foldl (λ fs o, match o with Written e => write e fs | _ => fs end) fs os
  | LDoReopen ok => match open ok fs with Ok fs => fs | Err _ => fs end
  | _ => fs
  end.

Definition file_step (ev : fileEvent) (l : Logger) (fs : Files) : option (list lout * Logger * Files) :=
  match ev with
  | FLog ev => '(os, l) ← lstep ev l; Some (os, l, file_effect ev os fs)
  | FRename => Some ([], l, mkFiles (f_content fs) None (f_open fs))
  | FCreate =>
      match f_path fs with
      | Some _ => None
      | None => Some ([], l, (openFile fs).2)
      end
  end.

Fixpoint file_run (evs : list fileEvent) (l : Logger) (fs : Files) : option (list lout * Logger * Files) :=
  match evs with
  | [] => Some ([], l, fs)
  | ev :: evs => '(o, l, fs) ← file_step ev l fs; '(os, l, fs) ← file_run evs l fs; Some (o ++ os, l, fs)
  end.

(** The files when the logger starts: those of earlier runs, and then its own. *)
Definition start_files (old : list (list Entry)) (path : option nat) : Files :=
  let '(i, fs) := openFile (mkFiles old path 0) in setFile i fs.

(** ** Lemmas *)

(** The entries the encoder has taken. *)
Definition written (os : list lout) : list Entry :=
  os ≫= λ o, match o with Written e => [e] | _ => [] end.

Lemma written_app os os' : written (os ++ os') = written os ++ written os'.
Proof. apply bind_app. Qed.

(** The open file exists, newer ones are empty, and the path names none that is older. *)
Definition files_inv (fs : Files) : Prop :=
  f_open fs < length (f_content fs) ∧
  (∀ i c, f_open fs < i → f_content fs !! i = Some c → c = []) ∧
  (∀ i, f_path fs = Some i → f_open fs ≤ i < length (f_content fs)).

(** Writing to the last file that is not empty adds at the end. *)
Lemma concat_alter (e : Entry) (l : list (list Entry)) i :
  i < length l → (∀ j c, i < j → l !! j = Some c → c = []) →
  concat (alter (λ c, c ++ [e]) i l) = concat l ++ [e].
Proof.
  revert i. induction l as [|c l IH]; intros i Hi He; [cbn in Hi; lia|]. destruct i as [|i].
  - assert (concat l = []) as Hn.
    { clear IH Hi. assert (Forall (λ c, c = []) l) as Hf.
      { apply Forall_lookup. intros j c' Hj. apply (He (S j) c'); [lia|done]. }
      induction Hf as [|? ? -> _ IH]; [done|]. apply IH. intros [|j] c' Hj Hl; [lia|].
      apply (He (S (S j)) c'); [lia|done]. }
    cbn. by rewrite Hn, !app_nil_r.
  - cbn. rewrite <- app_assoc. f_equal. apply IH; [cbn in Hi; lia|].
    intros j c' Hj Hl. apply (He (S j) c'); [lia|done].
Qed.

Lemma write_inv e fs : files_inv fs → files_inv (write e fs) ∧ concat (f_content (write e fs)) = concat (f_content fs) ++ [e].
Proof.
  intros (Ho & He & Hp). split; [|by apply concat_alter]. unfold files_inv, write. cbn. rewrite length_alter.
  split_and!; [done| |done]. intros i c Hi. rewrite list_lookup_alter_ne by lia. by apply He.
Qed.

Lemma openFile_inv fs :
  files_inv fs →
  files_inv (openFile fs).2 ∧ files_inv (setFile (openFile fs).1 (openFile fs).2) ∧
  concat (f_content (openFile fs).2) = concat (f_content fs).
Proof.
  intros Hfs. pose proof Hfs as (Ho & He & Hp). unfold openFile. destruct (f_path fs) as [i|] eqn:Ep; cbn [fst snd].
  - specialize (Hp i eq_refl). split; [done|]. split; [|done]. unfold files_inv, setFile. cbn. split; [lia|].
    split; [intros j c Hj; apply He; lia|]. rewrite Ep. intros i' [= <-]. lia.
  - unfold files_inv, setFile. cbn. rewrite length_app, concat_app. cbn. rewrite app_nil_r. split_and!; try lia; [|intros i [= <-]; lia| |intros i [= <-]; lia|done].
    + intros i c Hi [Hl|[Hge Hl]]%lookup_app_Some; [by apply (He i)|]. by apply list_lookup_singleton_Some in Hl as [_ <-].
    + intros i c Hi [Hl%lookup_lt_Some|[Hge Hl]]%lookup_app_Some; [lia|]. by apply list_lookup_singleton_Some in Hl as [_ <-].
Qed.

Lemma file_effect_inv ev l os l' fs :
  lstep ev l = Some (os, l') → files_inv fs →
  files_inv (file_effect ev os fs) ∧ concat (f_content (file_effect ev os fs)) = concat (f_content fs) ++ written os.
Proof.
  intros Hs Hi. destruct ev as [t e|t|e| |ok| | |ok| |]; cbn in Hs |- *.
  - destruct (Logger_Publish t e l) as [r l1]. injection Hs as <- <-. split; [done|]. by destruct (is_Ok r); cbn; rewrite app_nil_r.
  - simplify_eq. cbn. by rewrite app_nil_r.
  - apply bind_Some in Hs as (l1 & _ & [= <- <-]). cbn. by rewrite app_nil_r.
  - destruct (done l), (flush l), (ch l); simplify_eq. cbn. by rewrite app_nil_r.
  - destruct (flush l); simplify_eq. destruct ok; cbn; [by apply write_inv|by rewrite app_nil_r].
  - destruct (flush l); simplify_eq. cbn. by rewrite app_nil_r.
  - simplify_eq. cbn. by rewrite app_nil_r.
  - destruct (reopen l), (done l), (flush l); simplify_eq. cbn. rewrite app_nil_r. destruct ok; cbn; [|done].
    destruct (openFile_inv fs Hi) as (_ & H2 & H3). by destruct (openFile fs).
  - destruct (closed l); simplify_eq. cbn. by rewrite app_nil_r.
  - destruct (stop l), (done l), (flush l), (ch l); simplify_eq. cbn. by rewrite app_nil_r.
Qed.

(** The steps of the logger among them. *)
Definition logger_events (evs : list fileEvent) : list levent :=
  omap (λ ev, match ev with FLog ev => Some ev | _ => None end) evs.

Lemma file_run_inv evs l fs os l' fs' :
  file_run evs l fs = Some (os, l', fs') → files_inv fs →
  lrun (logger_events evs) l = Some (os, l') ∧ concat (f_content fs') = concat (f_content fs) ++ written os ∧ files_inv fs'.
Proof.
  revert l fs os. induction evs as [|ev evs IH]; intros l fs os; cbn [file_run].
  { intros [= <- <- <-] Hi. cbn. by rewrite app_nil_r. }
  intros ([[o l1] fs1] & Hs & ([[os2 l2] fs2] & Hr & [= <- <- <-])%bind_Some)%bind_Some Hi.
  assert (files_inv fs1 ∧ concat (f_content fs1) = concat (f_content fs) ++ written o ∧
    match ev with FLog ev => lstep ev l = Some (o, l1) | _ => o = [] ∧ l1 = l end) as (Hi1 & Ec & Hl).
  { destruct ev as [ev| |]; cbn in Hs.
    - apply bind_Some in Hs as ([o' l3] & Hs & [= <- <- <-]). by destruct (file_effect_inv _ _ _ _ fs Hs Hi).
    - injection Hs as <- <- <-. cbn. rewrite app_nil_r. split_and!; try done. destruct Hi as (? & ? & _). by split_and!.
    - destruct (f_path fs); [done|]. injection Hs as <- <- <-. cbn [written]. destruct (openFile_inv fs Hi) as (? & _ & ->).
      cbn. by rewrite app_nil_r. }
  destruct (IH l1 fs1 os2 Hr Hi1) as (Hrun & Ec2 & Hi2). rewrite Ec2, Ec, written_app, app_assoc.
  split_and!; try done. destruct ev as [ev| |]; [|by destruct Hl as [-> ->]..].
  change (logger_events (FLog ev :: evs)) with (ev :: logger_events evs). cbn [lrun]. rewrite Hl. cbn. by rewrite Hrun.
Qed.

Lemma start_files_inv old path :
  (∀ i, path = Some i → S i = length old) →
  files_inv (start_files old path) ∧ concat (f_content (start_files old path)) = concat old.
Proof.
  intros Hp. unfold start_files, openFile, setFile, files_inv. cbn. destruct path as [i|]; cbn.
  - specialize (Hp i eq_refl). split_and!; try done; [lia| |intros ? [= <-]; lia].
    intros j c Hj Hl%lookup_lt_Some. lia.
  - rewrite length_app, concat_app. cbn. rewrite app_nil_r. split_and!; try done; [lia| |intros ? [= <-]; lia].
    intros j c Hj Hl%lookup_lt_Some. rewrite length_app in Hl. cbn in Hl. lia.
Qed.

Lemma written_processed os :
  (∀ e, Failed e ∉ os) → written os = processed os.
Proof.
  induction os as [|o os IH]; intros Hf; [done|].
  assert (written os = processed os) as E.
  { apply IH. intros e He. apply (Hf e). by apply list_elem_of_further. }
  destruct o as [e|e|e|e]; cbn; [exact E|exact E|by f_equal|]. exfalso. apply (Hf e). apply list_elem_of_here.
Qed.

(** C36: the audit trail is complete across rotations.  Whatever the interleaving of
    publishers, reservations, the flush loop, rotations of the file, reopen requests
    (also failing ones) and closing: the files, read by age, hold what earlier runs left
    and then every entry the encoder took, each once and in the order of acceptance;
    every accepted entry has been handed to the encoder, is in the hand of the flush loop
    or waits in the queue; and when
    the flush loop ends, and no write has failed, the files hold all of them. *)
Theorem audit_files_complete bufSize timeout old path evs os l fs :
  (∀ i, path = Some i → S i = length old) →
  file_run evs (NewLogger bufSize timeout) (start_files old path) = Some (os, l, fs) →
  concat (f_content fs) = concat old ++ written os ∧
  accepted os = processed os ++ pending l ∧
  (is_Some (lstep LExit l) → (∀ e, Failed e ∉ os) → concat (f_content fs) = concat old ++ accepted os).
Proof.
  intros Hp Hr. destruct (start_files_inv old path Hp) as [Hi Ec].
  destruct (file_run_inv _ _ _ _ _ _ Hr Hi) as (Hl & Ef & _). rewrite Ec in Ef.
  pose proof (lrun_fifo _ _ _ _ Hl) as Hf. cbn in Hf. split_and!; [done|done|].
  intros Hx Hno. rewrite Ef, (written_processed os Hno). f_equal. by rewrite Hf, (exit_idle l Hx), app_nil_r.
Qed.

(** Two entries around a rotation: the first file was there before. *)
Definition ex_rotation : list fileEvent :=
  [FLog (LPublish false (ex_entry "1")); FRename; FLog LReceive; FLog LReopen; FLog (LWrite true); FLog LRelease;
   FLog (LDoReopen false); FLog LReopen; FLog (LDoReopen true); FLog (LPublish false (ex_entry "2")); FLog LReceive;
   FLog (LWrite true); FLog LRelease; FLog LClose].
Definition ex_old : list (list Entry) := [[ex_entry "0"]].

Lemma audit_files_complete_witness :
  ∃ os l fs, file_run ex_rotation (NewLogger 4 0) (start_files ex_old (Some 0)) = Some (os, l, fs) ∧
    f_content fs = [[ex_entry "0"; ex_entry "1"]; [ex_entry "2"]] ∧
    concat (f_content fs) = concat ex_old ++ accepted os.
Proof.
  destruct (file_run ex_rotation (NewLogger 4 0) (start_files ex_old (Some 0))) as [[[os l] fs]|] eqn:E;
    [|vm_compute in E; discriminate].
  exists os, l, fs. split; [reflexivity|].
  destruct (audit_files_complete 4 0 ex_old (Some 0) ex_rotation os l fs) as (_ & _ & H).
  - intros i Hi. injection Hi as <-. reflexivity.
  - exact E.
  - vm_compute in E. injection E as <- <- <-. split; [reflexivity|]. apply H.
    + vm_compute. eexists. reflexivity.
    + intros e. rewrite !not_elem_of_cons. split_and!; try discriminate. apply not_elem_of_nil.
Defined.
