(* ===== verification/Gateway.v ===== *)
(** * cmd/pdag/serve.go: the proxy server's handler

    [proxy_handler] is the middleware chain of [newProxyServer] around a backend,
    over any state that implements the interfaces of its components; [newProxyServer] puts
    it and the probes behind net/http's mux.  The theorems
    put the components together: what must have happened before a request reaches the
    backend, and what the audit entry of a request says about its caller. *)

From S2P Require Import Prelude GoStrings GoNet GoUrl Http ServeMux Store MemoryStore Spans ClientIP Authn RateLimit Authz AuditTrail.

Section Gateway.

Context {S : Type} `{KeyStore S} `{RateLimiter S} `{Authorizer S} `{Publisher S} `{Reserver S} `{Tracer S} `{JsonLib}.
Context (maxBodySize : Z) (auditOpts : Options) (secrets : HmacService) (resolver : Resolver).

Definition proxy_chain : list (Handler S → Handler S) :=
  [RequestID;
   metrics_Middleware;
   Spans.Middleware;
   audit_Middleware auditOpts resolver;
   authn_Middleware (NewHmacService secrets) resolver;
   ratelimit_Middleware;
   BodyBuffer maxBodySize;
   authz_Middleware].

Definition proxy_handler (lb : Handler S) : Handler S := Chain proxy_chain lb.

Definition probeChain : Handler S → Handler S := Chain [RequestID; metrics_Middleware].

(** The liveness probe. *)
Definition healthz : Handler S := λ ctx r w, (Returned, Write "ok" (WriteHeader 200 w)).

(** The readiness probe; [pluginsHealthy] and [backendHealthy] are the answers of
    the plugin manager and of the backend. *)
Definition readinessCheck (pluginsHealthy backendHealthy : bool) : Handler S := λ ctx r w,
  match GetByID "__healthcheck__" (w_state w) with
  | (Err _, s) => reject "store unhealthy" 503 (set_state s w)
  | (Ok _, s) =>
      let w := set_state s w in
      if negb pluginsHealthy then reject "no healthy plugins" 503 w
      else if negb backendHealthy then reject "no healthy backends" 503 w
      else (Returned, Write "ok" (WriteHeader 200 w))
  end.

(** The server's mux: the probes, and everything else to the proxy.  The pattern of the
    proxy matches every path but the empty one, which only CONNECT can bring here. *)
Definition newProxyServer (pluginsHealthy backendHealthy : bool) (lb : Handler S) : Handler S :=
  mux_ServeHTTP (λ segs ctx r w,
    let get := (Method r =? "GET")%go || (Method r =? "HEAD")%go in
    if get && bool_decide (segs = ["healthz"]) then probeChain healthz ctx r w
    else if get && bool_decide (segs = ["readyz"]) then
      probeChain (readinessCheck pluginsHealthy backendHealthy) ctx r w
    else if bool_decide (segs = []) then reject "404 page not found" 404 w
    else proxy_handler lb ctx r w).

(** ** Which requests reach the backend *)

(** The outcome does not depend on the backend. *)
Definition ignores (K : Handler S → outcome * World S) : Prop := ∀ b b', K b = K b'.

Lemma ignores_post (K K' : Handler S → outcome * World S) f :
  (∀ b, K b = f (K' b)) → ignores K' → ignores K.
Proof. intros HK Hi b b'. by rewrite !HK, (Hi b b'). Qed.

(** The outcome is computed from that of an inner handler that ignores it. *)
Ltac ignore_inner Hi :=
  intros ? ?; cbv beta;
  match goal with b1 : Handler _, b2 : Handler _ |- _ =>
    let E := fresh in
    pose proof (Hi b1 b2) as E; cbv beta in E; rewrite E; reflexivity
  end.

Lemma ignores_const K x : (∀ b, K b = x) → ignores K.
Proof. intros HK b b'. by rewrite !HK. Qed.

(** A plugin of one of the key's roles allows the request, as the plugins see it. *)
Definition plugins_allow (ctx : Context) (r : Request) (s : S) : Prop :=
  GetRoles ctx ≠ [] ∧
  ∃ plugin reason, (Authorize (GetRoles ctx) (pluginRequest ctx r) s).1 = ("allow", plugin, reason).

Lemma authz_stage ctx r w :
  ignores (λ b, authz_Middleware b ctx r w) ∨ plugins_allow ctx r (w_state w).
Proof.
  unfold authz_Middleware, plugins_allow.
  destruct (GetRoles ctx) as [|role roles] eqn:Er.
  { left. eapply ignores_const. intros b. by rewrite bool_decide_true by done. }
  rewrite bool_decide_false by done.
  destruct (Authorize (role :: roles) (pluginRequest ctx r) (w_state w)) as [[[d p] rs] s].
  destruct (String.eqb_spec d "allow") as [->|Hd]; [right; split; [done|]; by exists p, rs|].
  left. cbn [negb]. by eapply ignores_const.
Qed.

(** The complete body, within the limit, is what the plugins judge. *)
Definition body_admitted (ctx : Context) (r : Request) (s : S) : Prop :=
  ∃ body, (Body r = NoBody ∧ body = "" ∧ plugins_allow (WithBodyBytes "" ctx) r s ∨
           Body r = BodyStream body false ∧ (slen body ≤ maxBodySize)%Z ∧
           plugins_allow (WithBodyBytes body ctx)
             (set_Body (BodyStream body false) (slen body) r) s).

Hypothesis limit_range : (0 ≤ maxBodySize < 2 ^ 63 - 1)%Z.

Lemma body_stage ctx r w :
  ignores (λ b, BodyBuffer maxBodySize (authz_Middleware b) ctx r w) ∨
  body_admitted ctx r (w_state w).
Proof.
  assert (∀ b, BodyBuffer maxBodySize (authz_Middleware b) ctx r w = _) as Heq
    by (intros b; apply BodyBuffer_eq, limit_range).
  destruct (Body r) as [|content err] eqn:Eb.
  - destruct (authz_stage (WithBodyBytes "" ctx) r w) as [Hi|Hp].
    + left. eapply (ignores_post _ _ id); [|exact Hi]. exact Heq.
    + right. exists "". by left.
  - destruct (oversized maxBodySize r content) eqn:Eo; [left; eapply ignores_const; exact Heq|].
    destruct err; [left; eapply ignores_const; exact Heq|].
    destruct (authz_stage (WithBodyBytes content ctx) (set_Body (BodyStream content false) (slen content) r)
      (set_cells (buffered_cells ctx content (w_cells w)) w)) as [Hi|Hp].
    + left. eapply (ignores_post _ _ id); [|exact Hi]. exact Heq.
    + right. exists content. right. split; [done|]. split; [|done].
      unfold oversized in Eo. apply orb_false_iff in Eo as [_ Eo]. lia.
Qed.

(** The limiter lets the principal through. *)
Definition within_rate (ctx : Context) (r : Request) (s : S) : Prop :=
  ∃ s', body_admitted ctx r s' ∧
    (GetPrincipal ctx ≠ "" → ∃ now, limiter_Allow now (GetPrincipal ctx) s = (true, s')).

Lemma rate_stage ctx r w :
  ignores (λ b, ratelimit_Middleware (BodyBuffer maxBodySize (authz_Middleware b)) ctx r w) ∨
  within_rate ctx r (w_state w).
Proof.
  unfold ratelimit_Middleware, within_rate.
  destruct (String.eqb_spec (GetPrincipal ctx) "") as [Ep|Ep].
  - destruct (body_stage ctx r w) as [Hi|Hb]; [by left|]. right. by exists (w_state w).
  - unfold time_Now. cbn [w_state].
    destruct (limiter_Allow (w_clock w (w_tick w)) (GetPrincipal ctx) (w_state w)) as [[] s] eqn:El; cbn [negb].
    + set (w1 := set_state s _). destruct (body_stage ctx r w1) as [Hi|Hb]; [by left|].
      right. exists s. split; [exact Hb|]. eauto.
    + left. by eapply ignores_const.
Qed.

(** The request carries the secret of a usable key, and passes the later stages
    with that key's principal and roles. *)
Definition admitted_key (ctx : Context) (r : Request) (w : World S) : Prop :=
  ∃ rec w', authenticated secrets resolver r w rec ∧ looked_up r w w' ∧
    within_rate (identify rec ctx) r (w_state w').

Lemma authn_stage ctx r w :
  ignores (λ b, authn_Middleware (NewHmacService secrets) resolver
             (ratelimit_Middleware (BodyBuffer maxBodySize (authz_Middleware b))) ctx r w) ∨
  admitted_key ctx r w.
Proof.
  destruct (authn_cases secrets resolver ctx r w) as [rec w' Ha _ Hl Hk|w0 msg code _ _ _ _ Hk _].
  - destruct (rate_stage (identify rec ctx) r w') as [Hi|Hr].
    + left. eapply (ignores_post _ _ id); [|exact Hi]. intros b. apply Hk.
    + right. by exists rec, w'.
  - left. eapply ignores_const. intros b. apply Hk.
Qed.

(** The request has a reserved audit slot when the mode asks for one; the world
    keeps its clock. *)
Definition slot_reserved (w w' : World S) : Prop :=
  w_clock w' = w_clock w ∧
  if FailClosed auditOpts then Reserve (w_state w) = (true, w_state w') else w_state w' = w_state w.

Lemma audit_stage ctx r w (K : Handler S → Handler S) :
  (∀ ctx' w', ctx' = (audit_enter auditOpts ctx w).1 →
     ignores (λ b, K b ctx' r w') ∨ admitted_key ctx' r w') →
  ignores (λ b, audit_Middleware auditOpts resolver (K b) ctx r w) ∨
  ∃ w', slot_reserved w w' ∧ admitted_key (audit_enter auditOpts ctx w).1 r w'.
Proof.
  intros HK. unfold audit_Middleware, time_Now, slot_reserved. cbn [w_state].
  unfold audit_enter in HK |- *. cbn [fst] in HK |- *. cbn [w_state set_cells].
  set (ctx' := if LogBody auditOpts then _ else _) in *.
  destruct (FailClosed auditOpts).
  - destruct (Reserve (w_state w)) as [ok s] eqn:Er. set (w1 := set_state s _).
    destruct ok; cbn [negb]; [|left; by eapply ignores_const].
    destruct (HK ctx' w1 eq_refl) as [Hi|Ha]; [left|by right; exists w1].
    ignore_inner Hi.
  - set (w1 := set_cells _ _). destruct (HK ctx' w1 eq_refl) as [Hi|Ha]; [left|by right; exists w1].
    ignore_inner Hi.
Qed.

Lemma proxy_handler_eq lb :
  proxy_handler lb = RequestID (metrics_Middleware (Spans.Middleware
    (audit_Middleware auditOpts resolver (authn_Middleware (NewHmacService secrets) resolver
      (ratelimit_Middleware (BodyBuffer maxBodySize (authz_Middleware lb))))))).
Proof. unfold proxy_handler, proxy_chain. rewrite 8!Chain_cons. done. Qed.

Lemma proxy_stage r w :
  ignores (λ b, proxy_handler b Background r w) ∨
  ∃ ctx w', slot_reserved w w' ∧ admitted_key ctx r w'.
Proof.
  enough (ignores (λ b, RequestID (metrics_Middleware (Spans.Middleware
    (audit_Middleware auditOpts resolver (authn_Middleware (NewHmacService secrets) resolver
      (ratelimit_Middleware (BodyBuffer maxBodySize (authz_Middleware b))))))) Background r w) ∨
    ∃ ctx w', slot_reserved w w' ∧ admitted_key ctx r w') as [Hi|?]; [|by right|].
  { left. eapply (ignores_post _ _ id); [|exact Hi]. intros b. by rewrite proxy_handler_eq. }
  unfold RequestID, uuid_New, metrics_Middleware, time_Now, Spans.Middleware.
  cbn [w_uuid w_nuuid].
  set (ctx1 := WithStatusCodePtr _). set (w1 := set_cells _ _).
  destruct (audit_stage ctx1 r w1 (λ b, authn_Middleware (NewHmacService secrets) resolver
    (ratelimit_Middleware (BodyBuffer maxBodySize (authz_Middleware b))))) as [Hi|(w' & Hs & Ha)].
  - intros ctx' w' _. apply authn_stage.
  - left. ignore_inner Hi.
  - right. by exists (audit_enter auditOpts ctx1 w1).1, w'.
Qed.

End Gateway.

(** ** What the audit log learns

    [AuditLog] names the entries a state has logged and says which operations add
    to them. *)

Class AuditLog (S : Type) `{KeyStore S} `{RateLimiter S} `{Authorizer S} `{Publisher S} `{Reserver S}
    `{Tracer S} := {
  log : S → list Entry;
  log_GetByID id s : log (GetByID id s).2 = log s;
  log_Allow now p s : log (limiter_Allow now p s).2 = log s;
  log_Authorize roles q s : log (Authorize roles q s).2 = log s;
  log_End sp s : log (End sp s) = log s;
  log_Reserve s : log (Reserve s).2 = log s;
  log_commit e s : log (commit e s) = log s ++ [e];
  log_Publish e s : log (Publish e s).2 = log s ∨ log (Publish e s).2 = log s ++ [e];
}.

Section AuditEntries.

Context {S : Type} `{AuditLog S} `{JsonLib}.
Context (maxBodySize : Z) (auditOpts : Options) (secrets : HmacService) (resolver : Resolver).

(** The handler logs nothing. *)
Definition quiet (h : Handler S) : Prop :=
  ∀ ctx r w, log (w_state (h ctx r w).2) = log (w_state w).

Lemma quiet_reject msg code (w : World S) : w_state (reject msg code w).2 = w_state w.
Proof. unfold reject, http_Error, WriteHeader. cbn. by destruct (w_recorder w). Qed.

Lemma quiet_authz h : quiet h → quiet (authz_Middleware h).
Proof.
  intros Hh ctx r w. unfold authz_Middleware.
  assert (∀ d p rs (w : World S), w_state (writeResult ctx d p rs w) = w_state w) as Hw.
  { intros. unfold writeResult. by destruct (authzResultKey ctx). }
  case_bool_decide; [by rewrite quiet_reject, Hw|].
  pose proof (log_Authorize (GetRoles ctx) (pluginRequest ctx r) (w_state w)) as Ha.
  destruct (Authorize _ _ _) as [[[d p] rs] s]. cbn in Ha.
  destruct (negb _); [rewrite quiet_reject|rewrite Hh]; by rewrite Hw.
Qed.

Lemma quiet_body h : quiet h → quiet (BodyBuffer maxBodySize h).
Proof.
  intros Hh ctx r w. unfold BodyBuffer. destruct (Body r); [apply Hh|].
  destruct (_ && _); [by rewrite quiet_reject|].
  destruct (ReadAll_limited _ _ _); [|by rewrite quiet_reject].
  destruct (_ <? _)%Z; [by rewrite quiet_reject|]. by rewrite Hh.
Qed.

Lemma quiet_rate h : quiet h → quiet (ratelimit_Middleware h).
Proof.
  intros Hh ctx r w. unfold ratelimit_Middleware, time_Now. destruct (_ =? _)%go; [apply Hh|]. cbn [w_state].
  pose proof (log_Allow (w_clock w (w_tick w)) (GetPrincipal ctx) (w_state w)) as Ha.
  destruct (limiter_Allow _ _ _) as [ok s]. cbn in Ha.
  destruct ok; cbn [negb]; [by rewrite Hh|]. rewrite quiet_reject. exact Ha.
Qed.

Lemma quiet_authn svc h : quiet h → quiet (authn_Middleware svc resolver h).
Proof.
  intros Hh ctx r w. unfold authn_Middleware, time_Now.
  destruct (_ =? _)%go; [by rewrite quiet_reject|].
  destruct (Cut _ _) as [[keyID secret]|]; [|by rewrite quiet_reject].
  destruct (_ || _); [by rewrite quiet_reject|]. cbn [w_state].
  pose proof (log_GetByID keyID (w_state w)) as Hg.
  destruct (GetByID keyID (w_state w)) as [[[rec|]|err] s]; cbn in Hg.
  - unfold authn_record, deny, time_Now. destruct (Authenticate_run svc secret rec) as [[|] work].
    + destruct (readsClock rec); (destruct (keyState _ _ _ _); [by rewrite quiet_reject|by rewrite Hh]).
    + destruct (errors_Is _ _); by rewrite quiet_reject.
  - unfold deny. by rewrite quiet_reject.
  - by rewrite quiet_reject.
Qed.

(** An entry that does not name its caller. *)
Definition anonymous (e : Entry) : Prop := e_Principal e = "" ∧ e_KeyID e = "".

Lemma audit_anonymous h ctx r w :
  quiet h → GetPrincipal ctx = "" → GetKeyID ctx = "" →
  ∃ es, log (w_state (audit_Middleware auditOpts resolver h ctx r w).2) = log (w_state w) ++ es ∧
    Forall anonymous es.
Proof.
  intros Hh Hp Hk. unfold audit_Middleware, time_Now, audit_enter, buildEntry, time_Now. cbn [w_state set_cells].
  set (ctx' := if LogBody auditOpts then _ else _).
  assert (GetPrincipal ctx' = "" ∧ GetKeyID ctx' = "") as [Hp' Hk'].
  { unfold ctx'. by destruct (LogBody auditOpts). }
  destruct (FailClosed auditOpts).
  - pose proof (log_Reserve (w_state w)) as Hr. destruct (Reserve (w_state w)) as [ok s]. cbn in Hr.
    destruct ok; cbn [negb].
    + set (w1 := set_state s _). specialize (Hh ctx' r w1). destruct (h ctx' r w1) as [o w2]. cbn in Hh |- *.
      rewrite log_commit, Hh, Hr. eexists. split; [done|]. constructor; [|done]. by split.
    + exists []. rewrite quiet_reject, app_nil_r. done.
  - set (w1 := set_cells _ _). specialize (Hh ctx' r w1). destruct (h ctx' r w1) as [[] w2]; cbn in Hh |- *.
    + set (e := mkEntry _ _ _ _ _ _ _ _ _ _ _ _ _ _ _).
      destruct (log_Publish e (w_state w2)) as [Hl|Hl]; destruct (Publish e (w_state w2)) as [? s]; cbn in Hl |- *;
        rewrite Hl, Hh; [exists []; by rewrite app_nil_r|].
      exists [e]. split; [done|]. constructor; [|done]. by split.
    + exists []. by rewrite Hh, app_nil_r.
Qed.

End AuditEntries.

(** ** A complete system

    The in-memory key store, the binary64 limiter, a policy for the plugins and a
    log that always has room: a state on which the whole gateway runs. *)

Record Sys := mkSys { sys_keys : Memory.Store; sys_limiter : Limiter Float64.t; sys_log : list Entry; sys_spans : list span }.

(** The key's first role is a plugin that allows everything. *)
#[export] Instance Sys_KeyStore : KeyStore Sys :=
  {| GetByID := λ id s, ((Memory.GetByID id (sys_keys s)).1, s) |}.
#[export] Instance Sys_RateLimiter : RateLimiter Sys :=
  {| limiter_Allow := λ now p s, let '(ok, l) := RateLimit.Allow now p (sys_limiter s) in
       (ok, mkSys (sys_keys s) l (sys_log s) (sys_spans s)) |}.
#[export] Instance Sys_Authorizer : Authorizer Sys :=
  {| Authorize := λ roles q s, (("allow", default "" (head roles), ""), s) |}.
#[export] Instance Sys_Publisher : Publisher Sys :=
  {| Publish := λ e s, (Ok (), mkSys (sys_keys s) (sys_limiter s) (sys_log s ++ [e]) (sys_spans s)) |}.
#[export] Instance Sys_Reserver : Reserver Sys :=
  {| Reserve := λ s, (true, s); commit := λ e s, mkSys (sys_keys s) (sys_limiter s) (sys_log s ++ [e]) (sys_spans s) |}.
#[export] Instance Sys_Tracer : Tracer Sys :=
  {| End := λ sp s, mkSys (sys_keys s) (sys_limiter s) (sys_log s) (sys_spans s ++ [sp]) |}.
#[export] Instance Sys_JsonLib : JsonLib := ex_lib.

#[export] Program Instance Sys_AuditLog : AuditLog Sys := {| log := sys_log |}.
Next Obligation. done. Qed.
Next Obligation. intros. cbn. by destruct (RateLimit.Allow now p (sys_limiter s)). Qed.
Next Obligation. done. Qed.
Next Obligation. done. Qed.
Next Obligation. done. Qed.
Next Obligation. done. Qed.
Next Obligation. by right. Qed.

Definition sys_key : KeyRecord :=
  mkKeyRecord "k1" (Hash ex_gen "pdg_1") "h1" "alice" ["admin"] ["198.51.100.0/24"] true None 0 0.
Definition sys_world : World Sys :=
  mkWorld (mkRW ∅ None "") false (mkCells 0 "" (mkAuthzResult "" "" "") 200) [] 0
    (λ n, Z.of_nat n) 0 (λ _, "req-1") 0 []
    (mkSys {["k1" := sys_key]} (New (mkConfig (Float64.of_Z 1) 2)) [] []).
Definition sys_request (key : string) : Request :=
  mkRequest "PUT" "" "/api/v1/servers/localhost/zones/z" "" "" "h" {["X-Api-Key" := [key]]}
    (BodyStream "{}" false) 2 "198.51.100.7:4711".
Definition sys_opts : Options := mkOptions false true 0 ∅.
Definition sys_handler (lb : Handler Sys) : Handler Sys :=
  proxy_handler 1024 sys_opts {["h1" := "topsecret"]} [] lb.
Definition sent_status (x : outcome * World Sys) : option Z := fst <$> rw_sent (w_rw x.2).
Definition backend_200 : Handler Sys := λ _ _ w, (Returned, WriteHeader 200 w).
Definition backend_204 : Handler Sys := λ _ _ w, (Returned, WriteHeader 204 w).

(** ** Properties *)

(** C9: the server consults the backend only if, in this order, an audit slot was
    reserved (in fail-closed mode), the request carries the secret of a stored,
    enabled, unexpired key used from an allowed address, the key's principal is
    within its rate, the body was read completely and is within the limit, the key
    has roles, and the plugin manager answers ALLOW on the redacted request with
    that body.  In every other case the outcome does not depend on the backend. *)
Theorem gateway_guards_backend {S} `{KeyStore S} `{RateLimiter S} `{Authorizer S} `{Publisher S}
    `{Reserver S} `{Tracer S} `{JsonLib} maxBodySize auditOpts secrets resolver ph bh r (w : World S) :
  (0 ≤ maxBodySize < 2 ^ 63 - 1)%Z →
  (∀ lb lb', newProxyServer maxBodySize auditOpts secrets resolver ph bh lb Background r w =
             newProxyServer maxBodySize auditOpts secrets resolver ph bh lb' Background r w) ∨
  ∃ ctx w', slot_reserved auditOpts w w' ∧
    ∃ rec w'', authenticated secrets resolver r w' rec ∧ looked_up r w' w'' ∧
      within_rate maxBodySize (identify rec ctx) r (w_state w'').
Proof.
  intros Hm. unfold newProxyServer, mux_ServeHTTP. destruct (_ =? _)%go; [by left|].
  destruct (mux_redirect r); [by left|]. destruct (_ && _); [by left|]. destruct (_ && _); [by left|].
  destruct (bool_decide _); [by left|].
  exact (proxy_stage maxBodySize auditOpts secrets resolver Hm r w).
Qed.

Lemma gateway_guards_backend_witness :
  ∃ ctx w', slot_reserved sys_opts sys_world w' ∧
    ∃ rec w'', authenticated {["h1" := "topsecret"]} [] (sys_request "k1:pdg_1") w' rec ∧
      looked_up (sys_request "k1:pdg_1") w' w'' ∧
      within_rate 1024 (identify rec ctx) (sys_request "k1:pdg_1") (w_state w'').
Proof.
  destruct (gateway_guards_backend 1024 sys_opts {["h1" := "topsecret"]} [] true true
    (sys_request "k1:pdg_1") sys_world) as [Hi|Hr].
  - split; vm_compute; [discriminate|reflexivity].
  - exfalso. specialize (Hi backend_200 backend_204).
    apply (f_equal sent_status) in Hi. vm_compute in Hi. discriminate.
  - exact Hr.
Defined.

(** C23: no audit entry ever names its caller: whatever key a request carries,
    the entries the gateway logs for it, around a backend that does not log itself, have
    an empty principal and an empty key ID, because the audit middleware builds them from the context of its own
    request, not from the one the authentication derived from it. *)
Theorem gateway_audit_anonymous {S} `{AuditLog S} `{JsonLib} maxBodySize auditOpts secrets resolver
    (lb : Handler S) r (w : World S) :
  quiet lb →
  ∃ es, log (w_state (proxy_handler maxBodySize auditOpts secrets resolver lb Background r w).2) =
        log (w_state w) ++ es ∧ Forall anonymous es.
Proof.
  intros Hq. rewrite proxy_handler_eq.
  unfold RequestID, uuid_New, metrics_Middleware, time_Now, Spans.Middleware. cbn [w_uuid w_nuuid].
  set (ctx1 := WithStatusCodePtr _). set (w1 := set_cells _ _).
  set (h := authn_Middleware _ _ _).
  assert (quiet h) as Hh by (by apply quiet_authn, quiet_rate, quiet_body, quiet_authz).
  destruct (audit_anonymous auditOpts resolver h ctx1 r w1 Hh eq_refl eq_refl) as (es & E & Hes).
  exists es. split; [|done]. destruct (audit_Middleware auditOpts resolver h ctx1 r w1) as [o w2].
  unfold span_end, set_state. destruct o; cbn; rewrite log_End; exact E.
Qed.

(** Alice's request is forwarded, and logged without her name. *)
Lemma gateway_audit_anonymous_witness :
  sent_status (sys_handler backend_200 Background (sys_request "k1:pdg_1") sys_world) = Some 200%Z ∧
  Forall anonymous (log (w_state (sys_handler backend_200 Background (sys_request "k1:pdg_1") sys_world).2)).
Proof.
  split; [vm_compute; reflexivity|].
  destruct (gateway_audit_anonymous 1024 sys_opts {["h1" := "topsecret"]} [] backend_200
    (sys_request "k1:pdg_1") sys_world) as (es & E & Hes); [intros ctx r w|].
  - cbn. unfold WriteHeader. destruct (w_recorder w); reflexivity.
  - unfold sys_handler. rewrite E. exact Hes.
Defined.
