(* ===== verification/Admin.v ===== *)
(** * internal/admin/server.go: the key management API

    The handlers run on a world whose state implements [KeyManager].  The JSON
    codec, the query parser and RFC 3339 parsing are the operations of the class
    [AdminCodec]; a decoder returns the value and the text left after it, which is
    what [strictDecode] inspects.  The routes are behind net/http's mux (ServeMux).  The random bytes of a call are arguments.  The
    theorems are proved against [KeyManagerSpec], so they hold for every store that
    meets its contract. *)

From S2P Require Import Prelude GoStrings GoNet GoUrl GoCrypto Http ServeMux Store MemoryStore Authn RateLimit.
From Stdlib Require Import Ascii.

Definition adminMaxBodyBytes : Z := (64 * 1024)%Z.
Definition maxPrincipalLen : Z := 256.
Definition maxRoles : nat := 64.
Definition maxRoleLen : Z := 128.
Definition maxAllowedCIDRs : nat := 256.
Definition defaultLimit : Z := 100.
Definition maxLimit : Z := 1000.

(** ** Requests and responses *)

Record createKeyRequest := mkCreateKeyRequest {
  cr_Principal : string; cr_Roles : list string; cr_ExpiresAt : option string;
}.

Record keyResponse := mkKeyResponse {
  kr_ID : string; kr_Principal : string; kr_Roles : list string; kr_AllowedCIDRs : list string;
  kr_Enabled : bool; kr_ExpiresAt : option Time; kr_CreatedAt : Time;
}.

(** The JSON documents the handlers answer with. *)
Inductive document :=
  | DocKey (k : keyResponse)
  | DocKeys (l : list keyResponse)
  | DocDeleted (n : Z)
  | DocCreated (id secret principal : string) (roles : list string)
  | DocRotated (id secret : string).

Class AdminCodec := {
  decode_create : body → option (createKeyRequest * string);
  decode_expiry : body → option (option string * string);
  decode_roles : body → option (list string * string);
  decode_cidrs : body → option (option (list string) * string);
  encode_document : document → string;
  query_Get : string → string → string;
  time_Parse : string → option Time;
}.

(** [Decoder.More] at the top level: some text other than white space follows, and
    it does not start with a closing bracket. *)
Fixpoint skip_json_space (s : string) : string :=
  match s with
  | String c s' => if has_char c (bytes [32; 9; 10; 13]%Z) then skip_json_space s' else s
  | "" => ""
  end.
Definition Decoder_More (rest : string) : bool :=
  match skip_json_space rest with
  | "" => false
  | String c _ => negb (Ascii.eqb c "]") && negb (Ascii.eqb c "}")
  end.

Definition strictDecode {A} (decoded : option (A * string)) : option A :=
  '(v, rest) ← decoded; if Decoder_More rest then None else Some v.

(** [strconv.Atoi] *)
Fixpoint atoi_digits (acc : Z) (s : string) : option Z :=
  match s with
  | "" => Some acc
  | String c s' => d ← digit c; atoi_digits (acc * 10 + d)%Z s'
  end.
Definition Atoi (s : string) : option Z :=
  let '(neg, t) := match s with
                   | String "-" t => (true, t) | String "+" t => (false, t) | _ => (false, s)
                   end in
  if (t =? "")%go then None
  else n ← atoi_digits 0 t;
       let n := if neg : bool then (- n)%Z else n in
       if bool_decide (- 2 ^ 63 ≤ n < 2 ^ 63)%Z then Some n else None.

(** ** Validation *)

Fixpoint cleanRoles (roles : list string) : result (list string) :=
  match roles with
  | [] => Ok []
  | role0 :: rest =>
      let role := TrimSpace role0 in
      if (role =? "")%go then Err (ErrMsg "roles must not be empty or blank")
      else if (maxRoleLen <? slen role)%Z then
        Err (ErrMsg "role exceeds maximum length of 128")
      else cleaned ← cleanRoles rest; mret (role :: cleaned)
  end.

(** Unknown roles are only warned about. *)
Definition validateRoles (roles : list string) : result (list string) :=
  if bool_decide (length roles = 0) then Err (ErrMsg "at least one role is required")
  else if bool_decide (maxRoles < length roles) then Err (ErrMsg "too many roles (max 64)")
  else cleanRoles roles.

Definition error_text (e : gerror) : string :=
  match e with ErrMsg m => m | _ => "" end.

Section Handlers.

Context {S C : Type} `{KeyManager S C} `{AdminCodec}.

(** [r.PathValue("id")] *)
Implicit Types id : string.

Definition keyNotFoundOr500 (err : gerror) (w : World S) : outcome * World S :=
  if errors_Is err ErrKeyNotFound then reject "key not found" 404 w
  else reject "internal error" 500 w.

(** Runs an operation of the manager on the state. *)
Definition call {A} (op : S → result A * S) (w : World S) : result A * World S :=
  let '(res, s) := op (w_state w) in (res, set_state s w).

(** [auditMutation]: false after a failed audit write. *)
Definition auditMutation (keyID action : string) (old new : AuditValues) (w : World S)
    : bool * World S :=
  match call (AuditKeyEvent (mkKeyEvent keyID action "admin_api" old new)) w with
  | (Ok _, w) => (true, w)
  | (Err _, w) =>
      (false, http_Error "audit logging failed" 500 (Inc "AuditInconsistencyTotal" [] w))
  end.

Definition sendJSON (d : document) (w : World S) : outcome * World S :=
  (Returned, Write (encode_document d +:+ newline) (rw_Set "Content-Type" "application/json" w)).

Definition response_of (rec : KeyRecord) : keyResponse :=
  mkKeyResponse (ID rec) (Principal rec) (Roles rec) (AllowedCIDRs rec) (Enabled rec)
    (ExpiresAt rec) (CreatedAt rec).

Definition getKey id (w : World S) : outcome * World S :=
  match call (GetByID id) w with
  | (Err _, w) => reject "internal error" 500 w
  | (Ok None, w) => reject "key not found" 404 w
  | (Ok (Some rec), w) => sendJSON (DocKey (response_of rec)) w
  end.

Definition purgeExpired (w : World S) : outcome * World S :=
  let '(now, w) := time_Now w in
  match call (DeleteExpired now) w with
  | (Err _, w) => reject "internal error" 500 w
  | (Ok n, w) =>
      match call (AuditKeyEvent (mkKeyEvent "" "purge_expired" "admin_api" None
                                   (Some [("deleted", AInt n)]))) w with
      | (Err _, w) => reject "audit logging failed" 500 w
      | (Ok _, w) => sendJSON (DocDeleted n) w
      end
  end.

(** The expiry of a request: absent, or a time after now. *)
Definition parseExpiry (text : option string) (w : World S) : option (option Time) * World S :=
  match text with
  | None => (Some None, w)
  | Some s =>
      match time_Parse s with
      | None => (None, http_Error "invalid expires_at format (use RFC3339)" 400 w)
      | Some t =>
          let '(now, w) := time_Now w in
          if negb (time_After t now) then (None, http_Error "expires_at must be in the future" 400 w)
          else (Some (Some t), w)
      end
  end.

(** The second half of [createKey]: storing, auditing, compensating. *)
Definition createKey_store (now : Time) (rec : KeyRecord) (secret : string) (w : World S)
    : outcome * World S :=
  match call (Create now rec) w with
  | (Err _, w) => reject "internal error" 500 w
  | (Ok _, w) =>
      match call (AuditKeyEvent (mkKeyEvent (ID rec) "create" "admin_api" None
                     (Some [("principal", AStr (Principal rec)); ("roles", AStrs (Roles rec))]))) w with
      | (Err _, w) =>
          let w := match call (Delete (ID rec)) w with
                   | (Err _, w) => Inc "AuditInconsistencyTotal" [] w
                   | (Ok _, w) => w
                   end in
          reject "audit logging failed" 500 w
      | (Ok _, w) =>
          let w := rw_Set "Content-Type" "application/json" w in
          let w := WriteHeader 201 w in
          (Returned, Write (encode_document (DocCreated (ID rec) secret (Principal rec) (Roles rec)) +:+ newline) w)
      end
  end.

(** [idBytes] and [secretBytes] are what [rand.Read] delivers to the generator. *)
Definition createKey (keygen : Generator) (idBytes secretBytes : result (list Z))
    (r : Request) (w : World S) : outcome * World S :=
  match strictDecode (decode_create (Body r)) with
  | None => reject "invalid JSON" 400 w
  | Some req =>
      if (cr_Principal req =? "")%go then reject "principal is required" 400 w
      else if (maxPrincipalLen <? slen (cr_Principal req))%Z then
        reject "principal exceeds maximum length of 256" 400 w
      else match validateRoles (cr_Roles req) with
      | Err e => reject (error_text e) 400 w
      | Ok roles =>
          match GenerateKeyID idBytes with
          | Err _ => reject "internal error" 500 w
          | Ok keyID =>
              match GenerateSecret secretBytes with
              | Err _ => reject "internal error" 500 w
              | Ok secret =>
                  let '(created, w) := time_Now w in
                  let '(updated, w) := time_Now w in
                  match parseExpiry (cr_ExpiresAt req) w with
                  | (None, w) => (Returned, w)
                  | (Some expiresAt, w) =>
                      let rec := mkKeyRecord keyID (Hash keygen secret) (hmacKeyID keygen)
                                   (cr_Principal req) roles [] true expiresAt created updated in
                      let '(now, w) := time_Now w in
                      createKey_store now rec secret w
                  end
              end
          end
      end
  end.

Definition listKeys (c : C) (r : Request) (w : World S) : outcome * World S :=
  let q := query_Get (RawQuery r) in
  let limit := if (q "limit" =? "")%go then Some defaultLimit
               else match Atoi (q "limit") with
                    | Some n => if (n <=? 0)%Z then None else Some n
                    | None => None
                    end in
  match limit with
  | None => reject "limit must be a positive integer" 400 w
  | Some n =>
      let limit := if (maxLimit <? n)%Z then maxLimit else n in
      let offset := if (q "offset" =? "")%go then Some 0%Z
                    else match Atoi (q "offset") with
                         | Some n => if (n <? 0)%Z then None else Some n
                         | None => None
                         end in
      match offset with
      | None => reject "offset must be a non-negative integer" 400 w
      | Some offset =>
          match call (ListFiltered c limit offset (q "principal") (q "role")) w with
          | (Err _, w) => reject "internal error" 500 w
          | (Ok keys, w) => sendJSON (DocKeys (response_of <$> keys)) w
          end
      end
  end.

(** The tail of every mutation: audit, then 204. *)
Definition finishMutation (id action : string) (new : AuditValues) (w : World S) : outcome * World S :=
  match auditMutation id action None new w with
  | (false, w) => (Returned, w)
  | (true, w) => (Returned, WriteHeader 204 w)
  end.

Definition mutate (op : S → result unit * S) (id action : string) (new : AuditValues) (w : World S)
    : outcome * World S :=
  match call op w with
  | (Err err, w) => keyNotFoundOr500 err w
  | (Ok _, w) => finishMutation id action new w
  end.

Definition deleteKey id (w : World S) : outcome * World S := mutate (Delete id) id "delete" None w.

Definition setEnabled (enabled : bool) id (w : World S) : outcome * World S :=
  let '(now, w) := time_Now w in
  mutate (SetEnabled now id enabled) id (if enabled then "enable" else "disable")
    (Some [("enabled", ABool enabled)]) w.

Definition setExpiry id (r : Request) (w : World S) : outcome * World S :=
  match strictDecode (decode_expiry (Body r)) with
  | None => reject "invalid JSON" 400 w
  | Some text =>
      match parseExpiry text w with
      | (None, w) => (Returned, w)
      | (Some expiresAt, w) =>
          let '(now, w) := time_Now w in
          mutate (SetExpiresAt now id expiresAt) id "update_expiry"
            (Some [("expires_at", ATime expiresAt)]) w
      end
  end.

Definition rotateKey (keygen : Generator) (secretBytes : result (list Z)) id (w : World S)
    : outcome * World S :=
  match call (GetByID id) w with
  | (Err _, w) => reject "internal error" 500 w
  | (Ok None, w) => reject "key not found" 404 w
  | (Ok (Some rec), w) =>
      match GenerateSecret secretBytes with
      | Err _ => reject "internal error" 500 w
      | Ok secret =>
          let '(now, w) := time_Now w in
          match call (UpdateHash now id (Hash keygen secret) (hmacKeyID keygen)) w with
          | (Err err, w) => keyNotFoundOr500 err w
          | (Ok _, w) =>
              match auditMutation id "rotate" (Some [("hmac_key_id", AStr (HmacKeyID rec))])
                      (Some [("hmac_key_id", AStr (hmacKeyID keygen))]) w with
              | (false, w) => (Returned, w)
              | (true, w) => sendJSON (DocRotated id secret) w
              end
          end
      end
  end.

Definition updateRoles id (r : Request) (w : World S) : outcome * World S :=
  match strictDecode (decode_roles (Body r)) with
  | None => reject "invalid JSON" 400 w
  | Some req =>
      match validateRoles req with
      | Err e => reject (error_text e) 400 w
      | Ok roles =>
          let '(now, w) := time_Now w in
          mutate (SetRoles now id (Some roles)) id "update_roles" (Some [("roles", AStrs roles)]) w
      end
  end.

(** The error text of an invalid CIDR is shortened to its constant part. *)
Definition updateAllowedCIDRs id (r : Request) (w : World S) : outcome * World S :=
  match strictDecode (decode_cidrs (Body r)) with
  | None => reject "invalid JSON" 400 w
  | Some cidrs =>
      let listed := default [] cidrs in
      if bool_decide (maxAllowedCIDRs < length listed) then
        reject "too many allowed_cidrs (max 256)" 400 w
      else if negb (forallb (λ c, bool_decide (is_Some (ParseCIDR c))) listed) then
        reject "invalid CIDR" 400 w
      else
        let '(now, w) := time_Now w in
        mutate (SetAllowedCIDRs now id cidrs) id "update_allowed_cidrs"
          (Some [("allowed_cidrs", AStrs listed)]) w
  end.

(** ** Protection *)

Definition withAuth (token : string) (next : Handler S) : Handler S := λ ctx r w,
  if (token =? "")%go then reject "admin API not configured" 503 w
  else
    let auth := Header_Get (Header r) "Authorization" in
    if negb (HasPrefix auth "Bearer ") then reject "missing bearer token" 401 w
    else
      let got := TrimPrefix auth "Bearer " in
      if negb (bool_decide (hmac_Sum token got = hmac_Sum token token)) then
        reject "invalid bearer token" 401 w
      else next ctx r w.

Definition maxBodyBytes (maxBytes : Z) (next : Handler S) : Handler S := λ ctx r w,
  match Body r with
  | BodyStream content err =>
      let b := if (maxBytes <? slen content)%Z
               then BodyStream (str_firstn (Z.to_nat maxBytes) content) true
               else BodyStream content err in
      next ctx (set_Body b (ContentLength r) r) w
  | NoBody => next ctx r w
  end.

Definition withRateLimit `{RateLimiter S} (next : Handler S) : Handler S := λ ctx r w,
  let ip := match SplitHostPort (RemoteAddr r) with Some (h, _) => h | None => "" end in
  let ip := if (ip =? "")%go then RemoteAddr r else ip in
  let '(now, w) := time_Now w in
  let '(ok, s) := limiter_Allow now ip (w_state w) in
  let w := set_state s w in
  if negb ok then reject "rate limit exceeded" 429 w else next ctx r w.

(** ** Routes: the table of [Handler]

    The segment of [{id}] is any but the slash that ends a path, or is all there is of
    it once decoded. *)

Definition route (keygen : Generator) (idBytes secretBytes : result (list Z)) (c : C)
    (method : string) (segs : list string) : option (Handler S) :=
  match segs with
  | ["admin"; "keys"] =>
      if (method =? "POST")%go then Some (λ _ r w, createKey keygen idBytes secretBytes r w)
      else if (method =? "GET")%go || (method =? "HEAD")%go then Some (λ _ r w, listKeys c r w)
      else None
  | ["admin"; "keys"; id] =>
      if (id =? "/")%go then None
      else if (method =? "GET")%go || (method =? "HEAD")%go then Some (λ _ _ w, getKey id w)
      else if (method =? "DELETE")%go then
        if (id =? "expired")%go then Some (λ _ _ w, purgeExpired w) else Some (λ _ _ w, deleteKey id w)
      else None
  | ["admin"; "keys"; id; action] =>
      if (id =? "/")%go then None
      else if (method =? "PATCH")%go then
        if (action =? "disable")%go then Some (λ _ _ w, setEnabled false id w)
        else if (action =? "enable")%go then Some (λ _ _ w, setEnabled true id w)
        else if (action =? "expiry")%go then Some (λ _ r w, setExpiry id r w)
        else None
      else if (method =? "PUT")%go then
        if (action =? "roles")%go then Some (λ _ r w, updateRoles id r w)
        else if (action =? "allowed-cidrs")%go then Some (λ _ r w, updateAllowedCIDRs id r w)
        else None
      else if (method =? "POST")%go then
        if (action =? "rotate")%go then Some (λ _ _ w, rotateKey keygen secretBytes id w) else None
      else None
  | _ => None
  end.

(** The mux in front of the routes; when no route matches it answers 405 with the
    methods the path has, or 404. *)
Definition admin_Handler (keygen : Generator) (adminToken : string)
    (idBytes secretBytes : result (list Z)) (c : C) : Handler S :=
  mux_ServeHTTP (λ segs ctx r w,
    let lookup m := route keygen idBytes secretBytes c m segs in
    match lookup (Method r) with
    | Some h => withAuth adminToken h ctx r w
    | None =>
        match filter (λ m, is_Some (lookup m)) ["DELETE"; "GET"; "HEAD"; "PATCH"; "POST"; "PUT"] with
        | [] => reject "404 page not found" 404 w
        | allowed => reject "Method Not Allowed" 405 (rw_Set "Allow" (Join allowed ", ") w)
        end
    end).

(** [NewServer]; its limiter is [token.New(token.Config{Rate: 10, Burst: 50})]. *)
Definition admin_NewServer `{RateLimiter S} (keygen : Generator) (adminToken : string)
    (idBytes secretBytes : result (list Z)) (c : C) : Handler S :=
  withRateLimit (maxBodyBytes adminMaxBodyBytes
    (admin_Handler keygen adminToken idBytes secretBytes c)).

End Handlers.

(** ** Lemmas *)

Definition valid_role (role : string) : Prop := role ≠ "" ∧ (slen role ≤ maxRoleLen)%Z.

(** A validated role set: trimmed, not empty, and within the limits. *)
Definition validated (requested roles : list string) : Prop :=
  roles = TrimSpace <$> requested ∧ roles ≠ [] ∧ length roles ≤ maxRoles ∧ Forall valid_role roles.

Lemma status_reject {S} msg code (w : World S) :
  rw_sent (w_rw w) = None → fst <$> rw_sent (w_rw (http_Error msg code w)) = Some code.
Proof.
  intros Hn. unfold http_Error, WriteHeader, Write, rw_Set, rw_Del. cbn.
  destruct (w_recorder w); cbn; unfold rw_WriteHeader; cbn; by rewrite Hn.
Qed.

Lemma state_http_Error {S} msg code (w : World S) : w_state (http_Error msg code w) = w_state w.
Proof. unfold http_Error, WriteHeader. cbn. by destruct (w_recorder w). Qed.

Lemma metrics_http_Error {S} msg code (w : World S) : w_metrics (http_Error msg code w) = w_metrics w.
Proof. unfold http_Error, WriteHeader. cbn. by destruct (w_recorder w). Qed.

Lemma status_sendJSON {S} `{AdminCodec} d (w : World S) :
  rw_sent (w_rw w) = None → fst <$> rw_sent (w_rw (sendJSON d w).2) = Some 200%Z.
Proof.
  intros Hn. unfold sendJSON, Write, rw_Set. cbn.
  unfold rw_WriteHeader; cbn; by rewrite Hn.
Qed.

Section Contract.

Context {S C : Type} `{KeyManagerSpec S C} `{AdminCodec}.

Abbreviation Keys := (gmap string KeyRecord).

Definition status (w : World S) : option Z := fst <$> rw_sent (w_rw w).

(** The keys are what they were. *)
Definition keeps (w w' : World S) : Prop := keys (w_state w') = keys (w_state w).

(** The key existed, and one of the updates [G] was applied to the keys. *)
Definition applied (G : (Keys → Keys) → Prop) (id : string) (w w' : World S) : Prop :=
  is_Some (keys (w_state w) !! id) ∧ ∃ g, G g ∧ keys (w_state w') = g (keys (w_state w)).

(** The last thing that happened to the store is a successful audit write for the key. *)
Definition audited (id : string) (w' : World S) : Prop :=
  ∃ ev s, ke_keyID ev = id ∧ ke_changedBy ev = "admin_api" ∧
          AuditKeyEvent ev s = (Ok tt, w_state w').

Definition inconsistency : string * list string := ("AuditInconsistencyTotal", []).

(** The outcome of a mutation of one key: done and audited, the key missing, or
    an internal error, after which the keys are unchanged or the inconsistency was
    counted. *)
Definition mutation_outcome (code : Z) (G : (Keys → Keys) → Prop) (id : string) (w w' : World S) : Prop :=
  (status w' = Some code ∧ applied G id w w' ∧ audited id w') ∨
  (status w' = Some 404%Z ∧ keeps w w' ∧ keys (w_state w) !! id = None) ∨
  (status w' = Some 500%Z ∧
     (keeps w w' ∨ applied G id w w' ∧ w_metrics w' = w_metrics w ++ [inconsistency])).

Lemma call_eq {A} (op : S → result A * S) w :
  call op w = ((op (w_state w)).1, set_state (op (w_state w)).2 w).
Proof. unfold call. by destruct (op (w_state w)). Qed.

Lemma failed_500 code G id msg (w w1 : World S) :
  rw_sent (w_rw w1) = None → keeps w w1 → mutation_outcome code G id w (http_Error msg 500 w1).
Proof.
  intros Hn Hk. right; right. unfold status, keeps. rewrite state_http_Error.
  split; [by apply status_reject|by left].
Qed.

Lemma missing_404 code G id msg (w w1 : World S) :
  rw_sent (w_rw w1) = None → keeps w w1 → keys (w_state w) !! id = None →
  mutation_outcome code G id w (http_Error msg 404 w1).
Proof.
  intros Hn Hk Hnf. right; left. unfold status, keeps. rewrite state_http_Error.
  split; [by apply status_reject|done].
Qed.

Lemma keyNotFoundOr500_outcome code G id (err : gerror) (w w1 : World S) :
  rw_sent (w_rw w1) = None → keeps w w1 →
  (errors_Is err ErrKeyNotFound = true → keys (w_state w) !! id = None) →
  ∃ w', keyNotFoundOr500 err w1 = (Returned, w') ∧ mutation_outcome code G id w w'.
Proof.
  intros Hn Hk Hnf. unfold keyNotFoundOr500. destruct (errors_Is err ErrKeyNotFound).
  - eexists. split; [done|]. apply missing_404; auto.
  - eexists. split; [done|]. by apply failed_500.
Qed.

(** The contract of a store operation that applies an update of [G]. *)
Definition updates (G : (Keys → Keys) → Prop) (id : string) (m : Keys) (o : result unit) (m' : Keys) : Prop :=
  match o with
  | Ok _ => is_Some (m !! id) ∧ ∃ g, G g ∧ m' = g m
  | Err e => m' = m ∧ (errors_Is e ErrKeyNotFound = true → m !! id = None)
  end.

Lemma updates_alter (F : Time → KeyRecord → KeyRecord) (G : (Keys → Keys) → Prop) id m o m' :
  (∀ t, G (alter (F t) id)) → (∃ t, update_spec (F t) id m o m') → updates G id m o m'.
Proof.
  intros HG [t Hu]. destruct o; [|done]. destruct Hu as [? ->]. split; [done|]. eauto.
Qed.

(** The audit step after a mutation that took the keys from [w] to [w1]. *)
Lemma auditMutation_outcome code G id action old new (w w1 : World S) :
  rw_sent (w_rw w1) = None → w_metrics w1 = w_metrics w → applied G id w w1 →
  (∃ w2, auditMutation id action old new w1 = (true, w2) ∧ rw_sent (w_rw w2) = None ∧
     applied G id w w2 ∧ audited id w2) ∨
  (∃ w2, auditMutation id action old new w1 = (false, w2) ∧ mutation_outcome code G id w w2).
Proof.
  intros Hn Hm [Hsome (g & Hg & Hks)]. unfold auditMutation. rewrite call_eq.
  set (ev := mkKeyEvent _ _ _ _ _).
  destruct (AuditKeyEvent ev (w_state w1)) as [[[]|err] s'] eqn:Ea; cbn [fst snd];
    pose proof (AuditKeyEvent_spec _ _ _ _ Ea) as Hk.
  - left. eexists. split; [done|]. split; [done|]. split.
    + split; [done|]. exists g. split; [done|]. cbn. by rewrite Hk.
    + exists ev, (w_state w1). by rewrite Ea.
  - right. eexists. split; [done|]. right; right. split; [by apply status_reject|]. right.
    rewrite metrics_http_Error. split; [|cbn; by rewrite Hm].
    split; [done|]. exists g. split; [done|]. rewrite state_http_Error. cbn. by rewrite Hk.
Qed.

Lemma mutate_outcome G op id action new (w w0 : World S) :
  rw_sent (w_rw w0) = None → w_metrics w0 = w_metrics w → w_state w0 = w_state w →
  (∀ o s', op (w_state w) = (o, s') → updates G id (keys (w_state w)) o (keys s')) →
  ∃ w', mutate op id action new w0 = (Returned, w') ∧ mutation_outcome 204 G id w w'.
Proof.
  intros Hn Hm Hs Hop. unfold mutate. rewrite call_eq, Hs.
  destruct (op (w_state w)) as [o s] eqn:Eo. specialize (Hop o s eq_refl).
  cbn [fst snd]. destruct o as [u|err].
  - unfold finishMutation.
    destruct (auditMutation_outcome 204 G id action None new w (set_state s w0))
      as [(w2 & -> & Hn2 & Ha & Hau)|(w2 & -> & Hout)]; try done.
    + eexists. split; [done|]. left. unfold status, applied, audited.
      rewrite state_WriteHeader. split; [by apply status_WriteHeader|done].
    + by exists w2.
  - destruct Hop as [Hks Hnf]. by apply keyNotFoundOr500_outcome.
Qed.

Lemma cleanRoles_valid roles cleaned :
  cleanRoles roles = Ok cleaned ↔ cleaned = TrimSpace <$> roles ∧ Forall valid_role cleaned.
Proof.
  revert cleaned. induction roles as [|r roles IH]; intros cleaned; cbn.
  { split; [by intros [= <-]|by intros [-> _]]. }
  destruct (String.eqb_spec (TrimSpace r) "") as [He|Hne].
  { split; [done|]. intros [-> Hf]. apply Forall_cons in Hf as [[? _] _]. done. }
  destruct (Z.ltb_spec maxRoleLen (slen (TrimSpace r))) as [Hlt|Hle].
  { split; [done|]. intros [-> Hf]. apply Forall_cons in Hf as [[_ ?] _]. lia. }
  split.
  - intros (c & Hc & [= <-])%bind_Ok. apply IH in Hc as [-> ?]. split; [done|]. by constructor.
  - intros [-> Hf]. apply Forall_cons in Hf as [_ Hf].
    by rewrite (proj2 (IH (TrimSpace <$> roles))).
Qed.

Lemma validateRoles_validated roles cleaned :
  validateRoles roles = Ok cleaned ↔ validated roles cleaned.
Proof.
  unfold validateRoles, validated. case_bool_decide as H0'; [|case_bool_decide].
  - split; [done|]. intros (-> & Hne & _). by destruct roles.
  - split; [done|]. intros (-> & _ & Hl & _). rewrite length_fmap in Hl. lia.
  - rewrite cleanRoles_valid. split; [|naive_solver].
    intros [-> Hv]. rewrite length_fmap. split_and!; [done| |lia|done]. by destruct roles.
Qed.

(** The operations on one key, and the updates each may make. *)
Inductive admin_op :=
  | OpDelete | OpEnabled (b : bool) | OpExpiry (r : Request) | OpRoles (r : Request)
  | OpCIDRs (r : Request) | OpRotate (keygen : Generator) (random : result (list Z)).

Definition run_op (op : admin_op) (id : string) (w : World S) : outcome * World S :=
  match op with
  | OpDelete => deleteKey id w
  | OpEnabled b => setEnabled b id w
  | OpExpiry r => setExpiry id r w
  | OpRoles r => updateRoles id r w
  | OpCIDRs r => updateAllowedCIDRs id r w
  | OpRotate keygen random => rotateKey keygen random id w
  end.

(** An expiry the request may set at time [now]. *)
Definition future_expiry (text : option string) (now : Time) (e : option Time) : Prop :=
  match text with
  | None => e = None
  | Some s => ∃ t, time_Parse s = Some t ∧ time_After t now = true ∧ e = Some t
  end.

Definition effect (op : admin_op) (id : string) (w : World S) (g : Keys → Keys) : Prop :=
  match op with
  | OpDelete => g = delete id
  | OpEnabled b => ∃ t, g = alter (set_Enabled b t) id
  | OpExpiry r => ∃ text e t, strictDecode (decode_expiry (Body r)) = Some text ∧
      future_expiry text (w_clock w (w_tick w)) e ∧ g = alter (set_ExpiresAt (stamp <$> e) t) id
  | OpRoles r => ∃ requested roles stored t, strictDecode (decode_roles (Body r)) = Some requested ∧
      validated requested roles ∧ held storable roles stored ∧ g = alter (set_Roles stored t) id
  | OpCIDRs r => ∃ cidrs stored t, strictDecode (decode_cidrs (Body r)) = Some cidrs ∧
      length (default [] cidrs) ≤ maxAllowedCIDRs ∧
      Forall (λ c, is_Some (ParseCIDR c)) (default [] cidrs) ∧
      held storable (default [] cidrs) stored ∧ g = alter (set_AllowedCIDRs stored t) id
  | OpRotate keygen random => ∃ secret t, GenerateSecret random = Ok secret ∧
      g = alter (set_Hash (Hash keygen secret) (hmacKeyID keygen) t) id
  end.

Definition success (op : admin_op) : Z := match op with OpRotate _ _ => 200 | _ => 204 end.

(** A request refused for its own sake: there is no update it could ask for, and
    the store was not touched. *)
Definition bad_request (G : (Keys → Keys) → Prop) (w w' : World S) : Prop :=
  status w' = Some 400%Z ∧ w_state w' = w_state w ∧ ∀ g, ¬ G g.

Lemma bad_request_reject G msg (w w1 : World S) :
  rw_sent (w_rw w1) = None → w_state w1 = w_state w → (∀ g, ¬ G g) →
  bad_request G w (http_Error msg 400 w1).
Proof.
  intros Hn Hs HG. split; [by apply status_reject|]. by rewrite state_http_Error.
Qed.

Lemma parseExpiry_cases text (w : World S) :
  rw_sent (w_rw w) = None →
  match parseExpiry text w with
  | (None, w') => status w' = Some 400%Z ∧ w_state w' = w_state w ∧
      ∀ e, ¬ future_expiry text (w_clock w (w_tick w)) e
  | (Some e, w') => w_rw w' = w_rw w ∧ w_metrics w' = w_metrics w ∧
      w_state w' = w_state w ∧ future_expiry text (w_clock w (w_tick w)) e
  end.
Proof.
  intros Hn. unfold parseExpiry, time_Now, status. destruct text as [s|]; [|done]. cbn [future_expiry].
  destruct (time_Parse s) as [t|].
  2:{ rewrite state_http_Error. split; [by apply status_reject|]. split; [done|]. naive_solver. }
  destruct (time_After t (w_clock w (w_tick w))) eqn:E; cbn [negb].
  - split_and!; try done. by exists t.
  - rewrite state_http_Error. split; [by apply status_reject|]. split; [done|].
    intros e (t' & [= <-] & ? & _). congruence.
Qed.

(** Both outcomes of an operation that may refuse its request. *)
Definition op_outcome (op : admin_op) (id : string) (w w' : World S) : Prop :=
  bad_request (effect op id w) w w' ∨ mutation_outcome (success op) (effect op id w) id w w'.

Lemma refused op id msg (w : World S) :
  rw_sent (w_rw w) = None → (∀ g, ¬ effect op id w g) →
  ∃ w', reject msg 400 w = (Returned, w') ∧ op_outcome op id w w'.
Proof. intros Hn HG. eexists. split; [done|]. left. by apply bad_request_reject. Qed.

Lemma performed op id m act new (w w0 : World S) :
  success op = 204%Z → rw_sent (w_rw w0) = None → w_metrics w0 = w_metrics w → w_state w0 = w_state w →
  (∀ o s', m (w_state w) = (o, s') → updates (effect op id w) id (keys (w_state w)) o (keys s')) →
  ∃ w', mutate m id act new w0 = (Returned, w') ∧ op_outcome op id w w'.
Proof.
  intros Hc Hn Hm Hs Hop.
  destruct (mutate_outcome (effect op id w) m id act new w w0) as (w' & -> & ?); try done.
  exists w'. split; [done|]. right. by rewrite Hc.
Qed.

Lemma deleteKey_outcome id (w : World S) :
  rw_sent (w_rw w) = None →
  ∃ w', deleteKey id w = (Returned, w') ∧ op_outcome OpDelete id w w'.
Proof.
  intros Hn. apply performed; try done. intros o s' Hd%Delete_spec.
  destruct o; [|done]. destruct Hd as [? ->]. split; [done|]. by eexists.
Qed.

Lemma setEnabled_outcome b id (w : World S) :
  rw_sent (w_rw w) = None →
  ∃ w', setEnabled b id w = (Returned, w') ∧ op_outcome (OpEnabled b) id w w'.
Proof.
  intros Hn. apply performed; try done. intros o s' Hd%SetEnabled_spec.
  eapply updates_alter, Hd. cbn. eauto.
Qed.

Lemma setExpiry_outcome id r (w : World S) :
  rw_sent (w_rw w) = None →
  ∃ w', setExpiry id r w = (Returned, w') ∧ op_outcome (OpExpiry r) id w w'.
Proof.
  intros Hn. unfold setExpiry. destruct (strictDecode (decode_expiry (Body r))) as [text|] eqn:Ed.
  2:{ apply refused; [done|]. cbn. rewrite Ed. naive_solver. }
  pose proof (parseExpiry_cases text w Hn) as Hp. destruct (parseExpiry text w) as [[e|] w1].
  - destruct Hp as (Hn1 & Hm1 & Hs1 & He). apply performed; try done; [by cbn; rewrite Hn1|].
    intros o s' Hd%SetExpiresAt_spec. eapply updates_alter, Hd. cbn. eauto 8.
  - destruct Hp as (Hst & Hs & Hno). exists w1. split; [done|]. left. split_and!; [done..|].
    cbn. rewrite Ed. intros g (? & e & ? & [= <-] & He & _). by apply (Hno e).
Qed.

Lemma updateRoles_outcome id r (w : World S) :
  rw_sent (w_rw w) = None →
  ∃ w', updateRoles id r w = (Returned, w') ∧ op_outcome (OpRoles r) id w w'.
Proof.
  intros Hn. unfold updateRoles. destruct (strictDecode (decode_roles (Body r))) as [req|] eqn:Ed.
  2:{ apply refused; [done|]. cbn. rewrite Ed. naive_solver. }
  destruct (validateRoles req) as [roles|e] eqn:Ev.
  - apply validateRoles_validated in Ev. apply performed; try done.
    intros o s' (t & l' & Hh & Hd)%SetRoles_spec.
    eapply (updates_alter (set_Roles l')); [|by eauto]. cbn. eauto 10.
  - apply refused; [done|]. cbn. rewrite Ed. intros g (? & roles & ? & ? & [= <-] & Hv & _).
    apply validateRoles_validated in Hv. congruence.
Qed.

Lemma updateAllowedCIDRs_outcome id r (w : World S) :
  rw_sent (w_rw w) = None →
  ∃ w', updateAllowedCIDRs id r w = (Returned, w') ∧ op_outcome (OpCIDRs r) id w w'.
Proof.
  intros Hn. unfold updateAllowedCIDRs.
  destruct (strictDecode (decode_cidrs (Body r))) as [cidrs|] eqn:Ed.
  2:{ apply refused; [done|]. cbn. rewrite Ed. naive_solver. }
  case_bool_decide as Hl.
  { apply refused; [done|]. cbn. rewrite Ed. intros g (? & ? & ? & [= <-] & ? & _). lia. }
  destruct (forallb _ (default [] cidrs)) eqn:Ef; cbn [negb].
  - rewrite forallb_forall in Ef. apply performed; try done.
    intros o s' (t & l' & Hh & Hd)%SetAllowedCIDRs_spec.
    eapply (updates_alter (set_AllowedCIDRs l')); [|by eauto]. cbn. intros t'.
    exists cidrs, l', t'. split_and!; [done|lia| |done|done]. apply Forall_forall. intros c Hc.
    eapply bool_decide_eq_true_1, Ef. by apply list_elem_of_In.
  - apply refused; [done|]. cbn. rewrite Ed. intros g (? & ? & ? & [= <-] & _ & Hf & _).
    apply not_true_iff_false in Ef. apply Ef, forallb_forall. intros c Hc.
    rewrite Forall_forall in Hf. apply bool_decide_eq_true_2, Hf. by apply list_elem_of_In.
Qed.

Lemma rotateKey_outcome keygen random id (w : World S) :
  rw_sent (w_rw w) = None →
  ∃ w', rotateKey keygen random id w = (Returned, w') ∧ op_outcome (OpRotate keygen random) id w w'.
Proof.
  intros Hn. unfold rotateKey. rewrite call_eq.
  destruct (GetByID id (w_state w)) as [o s] eqn:Eg. destruct (GetByID_spec _ _ _ _ Eg) as [Hk Ho].
  cbn [fst snd]. destruct o as [[rec|]|err].
  3:{ eexists. split; [done|]. right. by apply failed_500. }
  2:{ eexists. split; [done|]. right. apply missing_404; try done. by rewrite <- (Ho None). }
  destruct (GenerateSecret random) as [secret|] eqn:Es.
  2:{ eexists. split; [done|]. right. by apply failed_500. }
  cbn [time_Now]. rewrite call_eq. cbn [w_state set_state].
  destruct (UpdateHash _ id _ _ s) as [[u|err] s'] eqn:Eu; apply UpdateHash_spec in Eu; cbn [fst snd].
  2:{ destruct Eu as (t & Hs & Hnf).
      edestruct (keyNotFoundOr500_outcome 200) as (w' & -> & Hout); [..|exists w'; split; [done|by right]];
        [done|cbn; unfold keeps; cbn; by rewrite Hs|by rewrite <- Hk]. }
  apply (updates_alter (set_Hash (Hash keygen secret) (hmacKeyID keygen))
           (effect (OpRotate keygen random) id w)) in Eu; [|cbn; eauto].
  rewrite Hk in Eu.
  edestruct (auditMutation_outcome 200 (effect (OpRotate keygen random) id w) id)
    as [(w2 & -> & Hn2 & Ha & Hau)|(w2 & -> & Hout)]; [..|exists (sendJSON (DocRotated id secret) w2).2|by exists w2; split; [|right]];
    try done.
  split; [done|]. right. left. split; [by apply status_sendJSON|done].
Qed.

(** ** Creating a key *)

(** The request names a principal of a legal length, roles that validate and an
    expiry that lies in the future. *)
Definition create_request (r : Request) (now : Time) (req : createKeyRequest)
    (roles : list string) (e : option Time) : Prop :=
  strictDecode (decode_create (Body r)) = Some req ∧
  cr_Principal req ≠ "" ∧ (slen (cr_Principal req) ≤ maxPrincipalLen)%Z ∧
  validated (cr_Roles req) roles ∧ future_expiry (cr_ExpiresAt req) now e.

(** The key [rec] holds what was asked for and the hash of the secret. *)
Definition created (g : Generator) (secret : string) (req : createKeyRequest) (roles : list string)
    (e : option Time) (rec : KeyRecord) : Prop :=
  KeyHash rec = Hash g secret ∧ HmacKeyID rec = hmacKeyID g ∧ Principal rec = cr_Principal req ∧
  held storable roles (Roles rec) ∧ AllowedCIDRs rec = [] ∧ Enabled rec = true ∧
  ExpiresAt rec = stamp <$> e.

(** A new key [rec] under [id]. *)
Definition inserted (id : string) (rec : KeyRecord) (w w' : World S) : Prop :=
  ID rec = id ∧ keys (w_state w) !! id = None ∧ keys (w_state w') = <[id := rec]> (keys (w_state w)).

(** The outcomes of the second half: stored, audited and answered with the secret;
    or 500, with the keys as before unless removing the key failed, which is counted. *)
Lemma createKey_store_outcome now rec secret (w w0 : World S) :
  rw_sent (w_rw w0) = None → w_metrics w0 = w_metrics w → w_state w0 = w_state w →
  ∃ w' rec', createKey_store now rec secret w0 = (Returned, w') ∧ same_key storable stamp rec rec' ∧
   ((status w' = Some 201%Z ∧ inserted (ID rec) rec' w w' ∧ audited (ID rec) w' ∧
       rw_body (w_rw w') = rw_body (w_rw w0) +:+
         encode_document (DocCreated (ID rec) secret (Principal rec) (Roles rec)) +:+ newline) ∨
    (status w' = Some 500%Z ∧
       (keeps w w' ∨ inserted (ID rec) rec' w w' ∧ w_metrics w' = w_metrics w ++ [inconsistency]))).
Proof.
  intros Hn Hm Hs. unfold createKey_store. rewrite call_eq, Hs.
  pose proof (same_key_stored storable stamp rec) as Hst.
  destruct (Create now rec (w_state w)) as [[u|err] s] eqn:Ec; apply Create_spec in Ec; cbn [fst snd].
  2:{ do 2 eexists. split; [done|]. split; [done|]. right. split; [by apply status_reject|].
      left. unfold keeps. rewrite state_http_Error. apply Ec. }
  destruct Ec as (Hnone & rec' & Hsame & Hins). rewrite call_eq. set (ev := mkKeyEvent _ _ _ _ _).
  cbn [w_state set_state]. destruct (AuditKeyEvent ev s) as [[[]|err] s1] eqn:Ea;
    pose proof (AuditKeyEvent_spec _ _ _ _ Ea) as Hk; cbn [fst snd].
  { eexists _, rec'. split; [done|]. split; [done|]. left.
    unfold status, inserted, audited. cbn [w_state w_rw Write set_rw]. rewrite state_WriteHeader.
    cbn [w_state rw_Set set_rw set_state]. split_and!.
    - unfold WriteHeader. cbn. destruct (w_recorder w0); cbn; unfold rw_WriteHeader; cbn; by rewrite Hn.
    - by destruct Hsame.
    - done.
    - by rewrite Hk.
    - exists ev, s. by rewrite Ea.
    - unfold WriteHeader. cbn. destruct (w_recorder w0); cbn; unfold rw_WriteHeader; cbn; by rewrite Hn. }
  rewrite call_eq. cbn [w_state set_state].
  destruct (Delete (ID rec) s1) as [[[]|err1] s2] eqn:Ed; apply Delete_spec in Ed; cbn [fst snd];
    eexists _, rec'; (split; [done|]); (split; [done|]); right; (split; [by apply status_reject|]);
    unfold keeps, inserted; rewrite state_http_Error; cbn [w_state set_state Inc].
  - left. destruct Ed as [_ ->]. rewrite Hk, Hins. by apply delete_insert_id.
  - right. rewrite metrics_http_Error. destruct Ed as [-> _]. rewrite Hk.
    split; [|cbn; by rewrite Hm]. by destruct Hsame.
Qed.

(** ** Properties *)

(** The request carries the token. *)
Definition authorized (token : string) (r : Request) : Prop :=
  token ≠ "" ∧ ∃ got, Header_Get (Header r) "Authorization" = "Bearer " +:+ got ∧
                      hmac_Sum token got = hmac_Sum token token.

Lemma withAuth_cases token (h : Handler S) ctx r (w : World S) :
  (authorized token r ∧ withAuth token h ctx r w = h ctx r w) ∨
  (¬ authorized token r ∧ ∃ msg code, code ∈ [401; 503]%Z ∧ withAuth token h ctx r w = reject msg code w).
Proof.
  unfold withAuth, authorized. destruct (String.eqb_spec token "") as [->|Hne].
  { right. split; [naive_solver|]. do 2 eexists. split; [|done]. set_solver. }
  unfold HasPrefix, TrimPrefix. set (auth := Header_Get _ _).
  destruct (strip_prefix "Bearer " auth) as [got|] eqn:Ep.
  - rewrite bool_decide_eq_true_2 by eauto. cbn [negb default].
    apply strip_prefix_Some in Ep. case_bool_decide as Hm; cbn [negb].
    + left. split; [|done]. by eauto.
    + right. split; [|do 2 eexists; split; [|done]; set_solver].
      intros (_ & got' & Hg & ?). rewrite Ep in Hg. by simplify_eq/=.
  - right. split; [|do 2 eexists; split; [|done]; set_solver].
    intros (_ & got' & Hg & ?). apply strip_prefix_Some in Hg. congruence.
Qed.

(** The operation of a method and a path, for key IDs that are written as they are. *)
Inductive served (keygen : Generator) (idBytes secretBytes : result (list Z)) (c : C) :
    string → string → Handler S → Prop :=
  | served_create : served keygen idBytes secretBytes c "POST" "/admin/keys"
      (λ _ r w, createKey keygen idBytes secretBytes r w)
  | served_list : served keygen idBytes secretBytes c "GET" "/admin/keys" (λ _ r w, listKeys c r w)
  | served_purge : served keygen idBytes secretBytes c "DELETE" "/admin/keys/expired" (λ _ _ w, purgeExpired w)
  | served_get id : plain_segment id →
      served keygen idBytes secretBytes c "GET" ("/admin/keys/" +:+ id) (λ _ _ w, getKey id w)
  | served_delete id : plain_segment id → id ≠ "expired" →
      served keygen idBytes secretBytes c "DELETE" ("/admin/keys/" +:+ id) (λ _ _ w, deleteKey id w)
  | served_disable id : plain_segment id →
      served keygen idBytes secretBytes c "PATCH" ("/admin/keys/" +:+ id +:+ "/disable") (λ _ _ w, setEnabled false id w)
  | served_enable id : plain_segment id →
      served keygen idBytes secretBytes c "PATCH" ("/admin/keys/" +:+ id +:+ "/enable") (λ _ _ w, setEnabled true id w)
  | served_expiry id : plain_segment id →
      served keygen idBytes secretBytes c "PATCH" ("/admin/keys/" +:+ id +:+ "/expiry") (λ _ r w, setExpiry id r w)
  | served_roles id : plain_segment id →
      served keygen idBytes secretBytes c "PUT" ("/admin/keys/" +:+ id +:+ "/roles") (λ _ r w, updateRoles id r w)
  | served_cidrs id : plain_segment id →
      served keygen idBytes secretBytes c "PUT" ("/admin/keys/" +:+ id +:+ "/allowed-cidrs")
        (λ _ r w, updateAllowedCIDRs id r w)
  | served_rotate id : plain_segment id →
      served keygen idBytes secretBytes c "POST" ("/admin/keys/" +:+ id +:+ "/rotate")
        (λ _ _ w, rotateKey keygen secretBytes id w).

Lemma plain_literal s : bool_decide (plain_segment s) = true → plain_segment s.
Proof. by rewrite bool_decide_eq_true. Qed.

Lemma plain_keys segs : Forall plain_segment segs → Forall plain_segment ("admin" :: "keys" :: segs).
Proof. intros Hf. do 2 (constructor; [by apply plain_literal; vm_compute|]). done. Qed.

Lemma plain_one id : plain_segment id → Forall plain_segment [id].
Proof. intros. by constructor. Qed.

Lemma plain_two id action :
  plain_segment id → bool_decide (plain_segment action) = true → Forall plain_segment [id; action].
Proof. intros. constructor; [done|]. by apply plain_one, plain_literal. Qed.

(** Every such operation is a route of the table. *)
Lemma served_route keygen idBytes secretBytes c r h :
  served keygen idBytes secretBytes c (Method r) (URL_Path r) h → URL_RawPath r = "" →
  mux_routes r ∧ route keygen idBytes secretBytes c (Method r) (mux_segments r) = Some h.
Proof.
  intros Hs Hr.
  assert (∀ segs, segs ≠ [] → Forall plain_segment segs → URL_Path r = "/" +:+ Join segs "/" →
    route keygen idBytes secretBytes c (Method r) segs = Some h →
    mux_routes r ∧ route keygen idBytes secretBytes c (Method r) (mux_segments r) = Some h) as Hgo.
  { intros segs Hne Hf Hp Hroute. by destruct (plain_routed segs r Hne Hf Hp Hr) as [? ->]. }
  assert (∀ id, plain_segment id → (id =? "/")%go = false) as Hid.
  { intros id (_ & _ & _ & Hc & _). apply String.eqb_neq. by intros ->. }
  remember (Method r) as m eqn:Em. remember (URL_Path r) as p eqn:Ep. clear Em Ep.
  destruct Hs as [| | |id Hp|id Hp He|id Hp|id Hp|id Hp|id Hp|id Hp|id Hp].
  1, 2: apply (Hgo ["admin"; "keys"]); [discriminate|by apply plain_keys|reflexivity..].
  1: apply (Hgo ["admin"; "keys"; "expired"]); [discriminate|by apply plain_keys, plain_one, plain_literal|reflexivity..].
  1, 2: apply (Hgo ["admin"; "keys"; id]); [discriminate|by apply plain_keys, plain_one|reflexivity|].
  3: apply (Hgo ["admin"; "keys"; id; "disable"]); [discriminate|by apply plain_keys, plain_two|reflexivity|].
  4: apply (Hgo ["admin"; "keys"; id; "enable"]); [discriminate|by apply plain_keys, plain_two|reflexivity|].
  5: apply (Hgo ["admin"; "keys"; id; "expiry"]); [discriminate|by apply plain_keys, plain_two|reflexivity|].
  6: apply (Hgo ["admin"; "keys"; id; "roles"]); [discriminate|by apply plain_keys, plain_two|reflexivity|].
  7: apply (Hgo ["admin"; "keys"; id; "allowed-cidrs"]); [discriminate|by apply plain_keys, plain_two|reflexivity|].
  8: apply (Hgo ["admin"; "keys"; id; "rotate"]); [discriminate|by apply plain_keys, plain_two|reflexivity|].
  all: cbn [route]; rewrite (Hid _ Hp); try reflexivity.
  by rewrite (proj2 (String.eqb_neq _ _) He).
Qed.

(** C16: the admin API acts only for the bearer of the token: without it the store
    and the metrics are untouched and the answer is 401, 404, 405 or 503, or 307 or 400
    for a path the mux itself answers; with it a request whose method and path match a
    route runs exactly that route's handler, in particular each of the documented
    operations for every key ID that needs no escaping. *)
Theorem admin_requires_token keygen token idBytes secretBytes (c : C) ctx r (w : World S) :
  rw_sent (w_rw w) = None →
  (¬ authorized token r →
     ∃ w', admin_Handler keygen token idBytes secretBytes c ctx r w = (Returned, w') ∧
       w_state w' = w_state w ∧ w_metrics w' = w_metrics w ∧
       ∃ code, status w' = Some code ∧
         (code ∈ [401; 404; 405; 503]%Z ∨ ¬ mux_routes r ∧ code ∈ [307; 400]%Z)) ∧
  (∀ h, authorized token r → mux_routes r →
     route keygen idBytes secretBytes c (Method r) (mux_segments r) = Some h →
     admin_Handler keygen token idBytes secretBytes c ctx r w = h ctx r w) ∧
  (∀ h, authorized token r → URL_RawPath r = "" → served keygen idBytes secretBytes c (Method r) (URL_Path r) h →
     admin_Handler keygen token idBytes secretBytes c ctx r w = h ctx r w).
Proof.
  intros Hn.
  assert (∀ h, authorized token r → mux_routes r →
     route keygen idBytes secretBytes c (Method r) (mux_segments r) = Some h →
     admin_Handler keygen token idBytes secretBytes c ctx r w = h ctx r w) as Hroute.
  { intros h Ha Hm Hr. unfold admin_Handler. mux_split Hm' Hown; [|done].
    rewrite Hr. by destruct (withAuth_cases token h ctx r w) as [[_ ->]|[? _]]. }
  split; [|split; [exact Hroute|]].
  2:{ intros h Ha Hraw Hs. destruct (served_route _ _ _ _ _ _ Hs Hraw) as [Hm Hr]. by apply Hroute. }
  intros Hna. assert (∀ msg code w1, rw_sent (w_rw w1) = None → w_state w1 = w_state w →
      w_metrics w1 = w_metrics w → code ∈ [401; 404; 405; 503]%Z →
      ∃ w', reject msg code w1 = (Returned, w') ∧ w_state w' = w_state w ∧ w_metrics w' = w_metrics w ∧
       ∃ code, status w' = Some code ∧
         (code ∈ [401; 404; 405; 503]%Z ∨ ¬ mux_routes r ∧ code ∈ [307; 400]%Z)) as Hrej.
  { intros msg code w1 Hn1 Hs1 Hm1 Hc. eexists. split; [done|].
    rewrite state_http_Error, metrics_http_Error. split_and!; [done..|].
    exists code. split; [by apply status_reject|by left]. }
  unfold admin_Handler. mux_split Hm Hown.
  - destruct (route _ _ _ _ (Method r) _) as [h|].
    + destruct (withAuth_cases token h ctx r w) as [[? _]|(_ & msg & code & Hc & ->)]; [done|].
      apply Hrej; try done. set_solver.
    + destruct (filter _ _) as [|m l]; apply Hrej; try done; set_solver.
  - destruct (Hown (λ _ _ _ w, (Returned, w))) as (w' & _ & -> & Hs & Hmt & Hcode). exists w'. split_and!; try done.
    destruct (Hcode Hn) as (code & Hc & Hcc). exists code. split; [done|]. right. split; [done|]. set_solver.
Qed.

(** C14: every operation on one key ends in one of five ways.  It answers 400 and
    has not touched the store, and then no update answers the request; 204 (200
    for a rotation), and exactly the requested update was made to an existing key
    and audited; 404, and the key does not exist and nothing changed; 500 and
    nothing changed; or 500 with the update made but not audited, and then the
    inconsistency counter was incremented.  Roles that are set are trimmed, not
    empty and within the limits, ranges that are set parse, an expiry that is set
    lies in the future; they are stored as they are, as far as the store can hold the
    texts and the precision of the time. *)
Theorem admin_mutation_outcome op id (w : World S) :
  rw_sent (w_rw w) = None →
  ∃ w', run_op op id w = (Returned, w') ∧ op_outcome op id w w'.
Proof.
  destruct op; cbn [run_op]; auto using deleteKey_outcome, setEnabled_outcome, setExpiry_outcome,
    updateRoles_outcome, updateAllowedCIDRs_outcome, rotateKey_outcome.
Qed.

(** The outcomes of creating a key. *)
Definition create_outcome (keygen : Generator) (idBytes secretBytes : result (list Z)) (r : Request)
    (w w' : World S) : Prop :=
  (status w' = Some 400%Z ∧ w_state w' = w_state w ∧
     ∀ req roles e, ¬ create_request r (w_clock w (2 + w_tick w)) req roles e) ∨
  (status w' = Some 500%Z ∧ keeps w w') ∨
  ∃ req roles e id secret rec,
     create_request r (w_clock w (2 + w_tick w)) req roles e ∧
     GenerateKeyID idBytes = Ok id ∧ GenerateSecret secretBytes = Ok secret ∧
     created keygen secret req roles e rec ∧ inserted id rec w w' ∧
     ((status w' = Some 201%Z ∧ audited id w' ∧
         rw_body (w_rw w') = rw_body (w_rw w) +:+
           encode_document (DocCreated id secret (cr_Principal req) roles) +:+ newline) ∨
      (status w' = Some 500%Z ∧ w_metrics w' = w_metrics w ++ [inconsistency])).

Lemma create_refused keygen idBytes secretBytes r msg (w : World S) :
  rw_sent (w_rw w) = None →
  (∀ req roles e, ¬ create_request r (w_clock w (2 + w_tick w)) req roles e) →
  ∃ w', reject msg 400 w = (Returned, w') ∧ create_outcome keygen idBytes secretBytes r w w'.
Proof.
  intros Hn Hno. eexists. split; [done|]. left. rewrite state_http_Error.
  split; [by apply status_reject|done].
Qed.

Lemma create_failed keygen idBytes secretBytes r msg (w : World S) :
  rw_sent (w_rw w) = None →
  ∃ w', reject msg 500 w = (Returned, w') ∧ create_outcome keygen idBytes secretBytes r w w'.
Proof.
  intros Hn. eexists. split; [done|]. right; left. unfold keeps. rewrite state_http_Error.
  split; [by apply status_reject|done].
Qed.

Lemma createKey_cases keygen idBytes secretBytes r (w : World S) :
  rw_sent (w_rw w) = None →
  ∃ w', createKey keygen idBytes secretBytes r w = (Returned, w') ∧
        create_outcome keygen idBytes secretBytes r w w'.
Proof.
  intros Hn. unfold createKey.
  destruct (strictDecode (decode_create (Body r))) as [req|] eqn:Ed;
    [|apply create_refused; [done|]; intros ??? (? & _); congruence].
  destruct (String.eqb_spec (cr_Principal req) "") as [|Hp];
    [apply create_refused; [done|]; intros ??? (? & ? & _); congruence|].
  destruct (Z.ltb_spec maxPrincipalLen (slen (cr_Principal req))) as [|Hl];
    [apply create_refused; [done|]; intros ??? (? & ? & ? & _); simplify_eq; lia|].
  destruct (validateRoles (cr_Roles req)) as [roles|err] eqn:Ev.
  2:{ apply create_refused; [done|]. intros req' roles e (? & _ & _ & Hv%validateRoles_validated & _).
      congruence. }
  apply validateRoles_validated in Ev.
  destruct (GenerateKeyID idBytes) as [id|] eqn:Ei; [|by apply create_failed].
  destruct (GenerateSecret secretBytes) as [secret|] eqn:Es; [|by apply create_failed].
  destruct (time_Now w) as [t1 w1] eqn:E1. destruct (time_Now w1) as [t2 w2] eqn:E2.
  injection E1 as _ E1. injection E2 as _ E2. subst w1 w2.
  match goal with |- context [parseExpiry _ ?w2] => set (w2' := w2) end.
  pose proof (parseExpiry_cases (cr_ExpiresAt req) w2' Hn) as Hx.
  destruct (parseExpiry (cr_ExpiresAt req) w2') as [[e|] w3].
  2:{ destruct Hx as (Hst & Hs & Hno). exists w3. split; [done|]. left. split_and!; [done..|].
      intros req' roles' e (Hd & _ & _ & _ & He). rewrite Ed in Hd. injection Hd as <-. by apply (Hno e). }
  destruct Hx as (Hrw & Hm & Hs & He). cbn [time_Now].
  match goal with |- context [createKey_store ?now ?rec secret ?w4] =>
    destruct (createKey_store_outcome now rec secret w w4)
      as (w' & rec' & -> & Hsame & Hout); [by cbn; rewrite Hrw|done..|] end.
  exists w'. split; [done|]. destruct Hsame as (? & ? & ? & ? & ? & Hci%(λ f, f (Forall_nil_2 _)) & ? & ?).
  assert (create_request r (w_clock w (2 + w_tick w)) req roles e) as Hcr by done.
  assert (created keygen secret req roles e rec') as Hc by done.
  destruct Hout as [(Hst & Hi & Ha & Hb)|(Hst & [Hk|[Hi Hmet]])].
  - right; right. exists req, roles, e, id, secret, rec'. split_and!; try done. left.
    split_and!; [done..|]. rewrite Hb. cbn. by rewrite Hrw.
  - right; left. done.
  - right; right. exists req, roles, e, id, secret, rec'. split_and!; try done. by right.
Qed.

(** C15: creating a key answers 400 with the store left alone, and then the
    request is not a valid one; 201 when the key was stored under a fresh ID, enabled,
    with the requested principal, roles and expiry and the hash of the very secret
    the response carries, and audited; otherwise 500, and the keys are as before, or a
    key that could be neither audited nor removed was counted as an inconsistency. *)
Theorem createKey_outcome keygen idBytes secretBytes r (w : World S) :
  rw_sent (w_rw w) = None →
  ∃ w', createKey keygen idBytes secretBytes r w = (Returned, w') ∧
        create_outcome keygen idBytes secretBytes r w w'.
Proof. apply createKey_cases. Qed.

(** When the purge has deleted keys and the audit write then fails, the
    handler answers 500 but counts no inconsistency, unlike every other handler that
    mutates first: the keys are gone, the caller is told of a failure, and the
    reconciliation counter does not show it. *)
Theorem purge_audit_failure_uncounted n s s' err (w : World S) :
  rw_sent (w_rw w) = None →
  DeleteExpired (w_clock w (w_tick w)) (w_state w) = (Ok n, s) →
  AuditKeyEvent (mkKeyEvent "" "purge_expired" "admin_api" None (Some [("deleted", AInt n)])) s = (Err err, s') →
  ∃ w', purgeExpired w = (Returned, w') ∧ status w' = Some 500%Z ∧ w_metrics w' = w_metrics w ∧
    keys (w_state w') = filter (λ kr, expired (stamp (w_clock w (w_tick w))) kr.2 = false) (keys (w_state w)).
Proof.
  intros Hn Hd Ha. unfold purgeExpired. cbn [time_Now]. rewrite call_eq. cbn [w_state]. rewrite Hd.
  cbn [fst snd]. rewrite call_eq. cbn [w_state set_state]. rewrite Ha. cbn [fst snd].
  eexists. split; [done|]. rewrite metrics_http_Error, state_http_Error. split; [by apply status_reject|].
  split; [done|]. cbn [w_state set_state]. rewrite (AuditKeyEvent_spec _ _ _ _ Ha).
  by destruct (DeleteExpired_spec _ _ _ _ Hd) as [-> _].
Qed.

End Contract.

(** ** Witnesses: the memory store, and a codec that stands in for JSON *)

#[local] Instance ex_codec : AdminCodec := {|
  decode_create b := match b with
    | BodyStream s _ => Some (mkCreateKeyRequest "alice" (Split s ",") None, newline)
    | NoBody => None
    end;
  decode_expiry b := match b with BodyStream s _ => Some (Some s, "") | NoBody => None end;
  decode_roles b := match b with BodyStream s _ => Some (Split s ",", newline) | NoBody => None end;
  decode_cidrs b := match b with BodyStream s _ => Some (Some (Split s ","), "") | NoBody => None end;
  encode_document _ := "{}";
  query_Get _ _ := "";
  time_Parse := Atoi;
|}.

Definition ex_admin_req (auth method path content : string) : Request :=
  mkRequest method "" path "" "" "h" {["Authorization" := [auth]]} (BodyStream content false)
    (slen content) "127.0.0.1:1".

Lemma admin_requires_token_witness :
  (∃ w', admin_Handler ex_gen "tok" (Ok [1%Z]) (Ok [2%Z]) ["k1"] Background
           (ex_admin_req "Bearer no" "DELETE" "/admin/keys/k1" "") ex_authn_world = (Returned, w') ∧
         w_state w' = {["k1" := ex_key]}) ∧
  w_state (admin_Handler ex_gen "tok" (Ok [1%Z]) (Ok [2%Z]) ["k1"] Background
            (ex_admin_req "Bearer tok" "DELETE" "/admin/keys/k1" "") ex_authn_world).2 = ∅.
Proof.
  split.
  - destruct (admin_requires_token ex_gen "tok" (Ok [1%Z]) (Ok [2%Z]) ["k1"] Background
      (ex_admin_req "Bearer no" "DELETE" "/admin/keys/k1" "") ex_authn_world eq_refl) as [Hno _].
    destruct Hno as (w' & E & Hs & _).
    + intros (_ & got & Hg & Hm). injection Hg as <-. vm_compute in Hm. discriminate Hm.
    + exists w'. split; [exact E|exact Hs].
  - assert (authorized "tok" (ex_admin_req "Bearer tok" "DELETE" "/admin/keys/k1" "")) as Ha.
    { split; [discriminate|]. exists "tok". split; reflexivity. }
    destruct (admin_requires_token ex_gen "tok" (Ok [1%Z]) (Ok [2%Z]) ["k1"] Background
      (ex_admin_req "Bearer tok" "DELETE" "/admin/keys/k1" "") ex_authn_world eq_refl) as (_ & _ & Hyes).
    rewrite (Hyes (λ _ _ w, deleteKey "k1" w) Ha eq_refl).
    + vm_compute. reflexivity.
    + apply (served_delete ex_gen _ _ _ "k1"); [apply plain_literal; vm_compute; reflexivity|discriminate].
Defined.

(** A path with dots is redirected before any route, and an escaped slash does not
    separate segments. *)
Example admin_unclean_redirected :
  (status (admin_Handler ex_gen "tok" (Ok [1%Z]) (Ok [2%Z]) ["k1"] Background
     (ex_admin_req "Bearer tok" "DELETE" "/admin/keys/.." "") ex_authn_world).2 = Some 307%Z) ∧
  mux_segments (mkRequest "PATCH" "" "/admin/keys/k1/disable" "/admin/keys/k1%2Fdisable" "" "h" ∅ NoBody 0 "") =
    ["admin"; "keys"; "k1/disable"].
Proof. split; vm_compute; reflexivity. Qed.

(** Roles are trimmed and set, and the key of the example is the one changed. *)
Lemma admin_mutation_outcome_witness :
  ∃ w', updateRoles "k1" (ex_admin_req "" "" "" " viewer,admin ") ex_authn_world = (Returned, w') ∧
        op_outcome (OpRoles (ex_admin_req "" "" "" " viewer,admin ")) "k1" ex_authn_world w' ∧
        status w' = Some 204%Z ∧ (Roles <$> w_state w' !! "k1") = Some ["viewer"; "admin"].
Proof.
  destruct (admin_mutation_outcome (OpRoles (ex_admin_req "" "" "" " viewer,admin ")) "k1"
    ex_authn_world eq_refl) as (w' & E & Hout).
  exists w'. split; [exact E|]. split; [exact Hout|].
  cbn [run_op] in E. apply (f_equal snd) in E. cbn [snd] in E. rewrite <- E.
  vm_compute. split; reflexivity.
Defined.

Lemma createKey_outcome_witness :
  ∃ w', createKey ex_gen (Ok [1%Z]) (Ok [2%Z]) (ex_admin_req "" "" "" "admin") ex_authn_world
          = (Returned, w') ∧
        create_outcome ex_gen (Ok [1%Z]) (Ok [2%Z]) (ex_admin_req "" "" "" "admin") ex_authn_world w' ∧
        status w' = Some 201%Z ∧ is_Some (w_state w' !! "k_01").
Proof.
  destruct (createKey_outcome ex_gen (Ok [1%Z]) (Ok [2%Z]) (ex_admin_req "" "" "" "admin")
    ex_authn_world eq_refl) as (w' & E & Hout).
  exists w'. split; [exact E|]. split; [exact Hout|].
  apply (f_equal snd) in E. cbn [snd] in E. rewrite <- E.
  vm_compute. split; [reflexivity|]. eexists. reflexivity.
Defined.

(** A memory store whose audit log is down. *)
Definition Unaudited : Type := Memory.Store.

#[local] Instance Unaudited_KeyStore : KeyStore Unaudited := Memory_KeyStore.
#[local] Instance Unaudited_KeyManager : KeyManager Unaudited (list string) := {|
  Create := Memory.Create;
  List := Memory.List;
  ListPaged := Memory.ListPaged;
  ListFiltered := Memory.ListFiltered;
  SetEnabled := Memory.SetEnabled;
  SetRoles := Memory.SetRoles;
  SetAllowedCIDRs := Memory.SetAllowedCIDRs;
  UpdateHash := Memory.UpdateHash;
  Delete := Memory.Delete;
  DeleteExpired := λ before m, Memory.DeleteExpired (elements (dom m)) before m;
  SetExpiresAt := Memory.SetExpiresAt;
  AuditKeyEvent := λ _ m, (Err (ErrMsg "audit log down"), m);
|}.

#[local] Obligation Tactic := idtac.
#[local] Program Instance Unaudited_KeyManagerSpec : KeyManagerSpec Unaudited (list string) :=
  {| keys := λ m, m; storable := λ _, True; stamp := id |}.
Next Obligation. exact (GetByID_spec (S := Memory.Store) (C := list string)). Qed.
Next Obligation. exact (Create_spec (S := Memory.Store) (C := list string)). Qed.
Next Obligation. exact (List_spec (S := Memory.Store) (C := list string)). Qed.
Next Obligation. exact (ListPaged_spec (S := Memory.Store) (C := list string)). Qed.
Next Obligation. exact (ListFiltered_spec (S := Memory.Store) (C := list string)). Qed.
Next Obligation. exact (SetEnabled_spec (S := Memory.Store) (C := list string)). Qed.
Next Obligation. exact (SetRoles_spec (S := Memory.Store) (C := list string)). Qed.
Next Obligation. exact (SetAllowedCIDRs_spec (S := Memory.Store) (C := list string)). Qed.
Next Obligation. exact (UpdateHash_spec (S := Memory.Store) (C := list string)). Qed.
Next Obligation. exact (SetExpiresAt_spec (S := Memory.Store) (C := list string)). Qed.
Next Obligation. exact (Delete_spec (S := Memory.Store) (C := list string)). Qed.
Next Obligation. exact (DeleteExpired_spec (S := Memory.Store) (C := list string)). Qed.
Next Obligation. by intros ev s o s' [= <- <-]. Qed.

Definition ex_purge_world : World Unaudited :=
  set_state (S := Unaudited) ex_store_expired
    (mkWorld (mkRW ∅ None "") false (mkCells 0 "" (mkAuthzResult "" "" "") 0) [] 0
      (λ _, 50%Z) 0 (λ _, "u") 0 [] ∅).

Lemma purge_audit_failure_uncounted_witness :
  ∃ w', purgeExpired ex_purge_world = (Returned, w') ∧ status w' = Some 500%Z ∧ w_metrics w' = [].
Proof.
  destruct (purge_audit_failure_uncounted 1 {["k2" := ex_rec "k2" 10]} {["k2" := ex_rec "k2" 10]}
    (ErrMsg "audit log down") ex_purge_world) as (w' & E & Hs & Hm & _).
  - reflexivity.
  - vm_compute. reflexivity.
  - reflexivity.
  - exists w'. split; [exact E|]. split; [exact Hs|exact Hm].
Defined.
