(* ===== verification/AdminKeys.v ===== *)
(** * The keys the admin API leaves behind

    A key is well formed when it lies under its own ID, has a principal of legal
    length, between one and 64 roles of legal length and at most 256 ranges that all
    parse.  Every request the admin API answers, whatever it is and however it ends,
    takes a store of well-formed keys to a store of well-formed keys, as long as the
    store can hold the roles the request names. *)

From S2P Require Import Prelude GoStrings GoNet GoCrypto Http ServeMux Store MemoryStore Authn Admin.
From Stdlib Require Import Ascii.

Definition wf_key (id : string) (r : KeyRecord) : Prop :=
  ID r = id ∧ Principal r ≠ "" ∧ (slen (Principal r) ≤ maxPrincipalLen)%Z ∧
  Roles r ≠ [] ∧ length (Roles r) ≤ maxRoles ∧ Forall valid_role (Roles r) ∧
  length (AllowedCIDRs r) ≤ maxAllowedCIDRs ∧ Forall (λ c, is_Some (ParseCIDR c)) (AllowedCIDRs r).

Section Invariant.
Context {S C : Type} `{KeyManagerSpec S C} `{AdminCodec}.

(** The store can hold ranges that parse, and the roles of the request. *)
Context (ranges_storable : ∀ c, is_Some (ParseCIDR c) → storable c).

Definition roles_storable (r : Request) : Prop :=
  (∀ req, strictDecode (decode_create (Body r)) = Some req → Forall storable (TrimSpace <$> cr_Roles req)) ∧
  (∀ req, strictDecode (decode_roles (Body r)) = Some req → Forall storable (TrimSpace <$> req)).

Definition wf (w : World S) : Prop := map_Forall wf_key (keys (w_state w)).

(** Changing one key so that it stays well formed keeps all of them. *)
Lemma wf_alter (f : KeyRecord → KeyRecord) id (m : gmap string KeyRecord) :
  (∀ r, wf_key id r → wf_key id (f r)) → map_Forall wf_key m → map_Forall wf_key (alter f id m).
Proof.
  intros Hf Hm j r. rewrite lookup_alter. case_decide as Hj; [|by apply Hm]. subst j.
  destruct (m !! id) as [r0|] eqn:E; [|done]. intros [= <-]. apply Hf. by apply Hm.
Qed.

Lemma wf_effect op id w g :
  (∀ r, op = OpRoles r → roles_storable r) → effect op id w g → wf w →
  map_Forall wf_key (g (keys (w_state w))).
Proof.
  intros Hop Heff Hw. destruct op as [|b|r|r|r|kg rnd]; cbn in Heff.
  - subst g. by apply map_Forall_delete.
  - destruct Heff as (t & ->). by apply wf_alter.
  - destruct Heff as (text & e & t & _ & _ & ->). by apply wf_alter.
  - destruct Heff as (req & roles & stored & t & Hdec & (-> & Hne & Hl & Hv) & Hh & ->).
    destruct (Hop r eq_refl) as [_ Hst]. specialize (Hh (Hst _ Hdec)). subst stored.
    apply wf_alter; [|done]. intros rec (? & ? & ? & _ & _ & _ & ? & ?). by split_and!.
  - destruct Heff as (cidrs & stored & t & _ & Hl & Hv & Hh & ->).
    assert (stored = default [] cidrs) as -> by (apply Hh; eapply Forall_impl; [done|apply ranges_storable]).
    apply wf_alter; [|done]. intros rec (? & ? & ? & ? & ? & ? & _ & _). by split_and!.
  - destruct Heff as (secret & t & _ & ->). by apply wf_alter.
Qed.

Lemma wf_op op id w o w' :
  (∀ r, op = OpRoles r → roles_storable r) → rw_sent (w_rw w) = None → run_op op id w = (o, w') → wf w → wf w'.
Proof.
  intros Hop Hn Hrun Hw.
  assert (op_outcome op id w w') as Hout.
  { destruct op; cbn [run_op] in Hrun;
      [destruct (deleteKey_outcome id w Hn) as (w1 & E & ?)|destruct (setEnabled_outcome b id w Hn) as (w1 & E & ?)
      |destruct (setExpiry_outcome id r w Hn) as (w1 & E & ?)|destruct (updateRoles_outcome id r w Hn) as (w1 & E & ?)
      |destruct (updateAllowedCIDRs_outcome id r w Hn) as (w1 & E & ?)
      |destruct (rotateKey_outcome keygen random id w Hn) as (w1 & E & ?)]; congruence. }
  unfold wf. destruct Hout as [(_ & -> & _)|[(_ & [_ (g & Hg & ->)] & _)|[(_ & -> & _)|(_ & [-> | [[_ (g & Hg & ->)] _]])]]];
    try done; by eapply wf_effect.
Qed.

Lemma wf_create keygen idBytes secretBytes r w o w' :
  roles_storable r → rw_sent (w_rw w) = None → createKey keygen idBytes secretBytes r w = (o, w') → wf w → wf w'.
Proof.
  intros [Hst _] Hn Hrun Hw. destruct (createKey_cases keygen idBytes secretBytes r w Hn) as (w1 & E & Hout).
  assert (w1 = w') as -> by congruence. unfold wf.
  destruct Hout as [(_ & -> & _)|[(_ & ->)|(req & roles & e & id & secret & rec & Hreq & _ & _ & Hc & Hi & _)]]; try done.
  destruct Hi as (Hid & _ & ->). apply map_Forall_insert_2; [|done].
  destruct Hreq as (Hdec & Hp & Hpl & (-> & Hne & Hl & Hv) & _).
  destruct Hc as (_ & _ & Hpr & Hro & Hci & _). specialize (Hro (Hst _ Hdec)).
  unfold wf_key. rewrite Hpr, Hro, Hci. split_and!; try done. cbn. unfold maxAllowedCIDRs. lia.
Qed.

(** Reading changes nothing. *)
Lemma wf_get id w o w' : getKey id w = (o, w') → wf w → wf w'.
Proof.
  unfold getKey. rewrite call_eq. destruct (GetByID id (w_state w)) as [res s] eqn:E.
  destruct (GetByID_spec _ _ _ _ E) as [Hk _]. cbn [fst snd]. intros Hq. unfold wf.
  destruct res as [[rec|]|e]; injection Hq as _ <-; rewrite ?state_http_Error; cbn; by rewrite Hk.
Qed.

Lemma wf_list c r w o w' : listKeys c r w = (o, w') → wf w → wf w'.
Proof.
  unfold listKeys. set (q := query_Get (RawQuery r)). intros Hq Hw.
  destruct (if (q "limit" =? "")%go then _ else _) as [n|]; [|by injection Hq as _ <-; unfold wf; rewrite state_http_Error].
  destruct (if (q "offset" =? "")%go then _ else _) as [off|]; [|by injection Hq as _ <-; unfold wf; rewrite state_http_Error].
  rewrite call_eq in Hq. destruct (ListFiltered c _ off _ _ (w_state w)) as [res s] eqn:E.
  destruct (ListFiltered_spec _ _ _ _ _ _ _ _ E) as [Hk _]. cbn [fst snd] in Hq. unfold wf.
  destruct res as [l|e]; injection Hq as _ <-; rewrite ?state_http_Error; cbn; by rewrite Hk.
Qed.

Lemma wf_purge w o w' : purgeExpired w = (o, w') → wf w → wf w'.
Proof.
  unfold purgeExpired. cbn [time_Now]. rewrite call_eq. cbn [w_state].
  destruct (DeleteExpired _ (w_state w)) as [[n|e] s] eqn:E; apply DeleteExpired_spec in E; cbn [fst snd].
  2:{ intros [= _ <-] Hw. unfold wf. rewrite state_http_Error. cbn. by rewrite E. }
  destruct E as [E _]. rewrite call_eq. cbn [w_state set_state].
  destruct (AuditKeyEvent _ s) as [[u|e] s1] eqn:Ea; pose proof (AuditKeyEvent_spec _ _ _ _ Ea) as Hk; cbn [fst snd];
    intros [= _ <-] Hw; unfold wf; rewrite ?state_http_Error; cbn; rewrite Hk, E;
    intros id r; rewrite map_lookup_filter_Some; intros [? _]; by apply Hw.
Qed.

Lemma wf_route keygen idBytes secretBytes c method segs h ctx r w o w' :
  route keygen idBytes secretBytes c method segs = Some h → roles_storable r → rw_sent (w_rw w) = None →
  h ctx r w = (o, w') → wf w → wf w'.
Proof.
  unfold route. intros Hr Hst Hn Hh Hw.
  repeat match goal with
  | H : match ?x with _ => _ end = Some _ |- _ => destruct x; try discriminate H
  end; injection Hr as <-;
    first [ by eapply wf_create; [done|done|exact Hh|] | by eapply wf_list; [exact Hh|]
          | by eapply wf_get; [exact Hh|] | by eapply wf_purge; [exact Hh|]
          | by eapply (wf_op OpDelete); [done|done|exact Hh|]
          | by eapply (wf_op (OpEnabled false)); [done|done|exact Hh|]
          | by eapply (wf_op (OpEnabled true)); [done|done|exact Hh|]
          | by eapply (wf_op (OpExpiry r)); [done|done|exact Hh|]
          | by eapply (wf_op (OpRoles r)); [by intros r' [= <-]|done|exact Hh|]
          | by eapply (wf_op (OpCIDRs r)); [done|done|exact Hh|]
          | by eapply (wf_op (OpRotate _ _)); [done|done|exact Hh|] ].
Qed.

(** One request, on a fresh response writer. *)
Record admin_request := mkAdminRequest {
  ar_request : Request; ar_idBytes : result (list Z); ar_secretBytes : result (list Z); ar_choice : C;
}.

Definition answer_request (keygen : Generator) (token : string) (w0 : World S) (s : S) (a : admin_request) : S :=
  w_state (admin_Handler keygen token (ar_idBytes a) (ar_secretBytes a) (ar_choice a) Background (ar_request a)
             (set_state s w0)).2.

Lemma wf_request keygen token w0 s a :
  rw_sent (w_rw w0) = None → roles_storable (ar_request a) →
  map_Forall wf_key (keys s) → map_Forall wf_key (keys (answer_request keygen token w0 s a)).
Proof.
  intros Hn Hst Hw. unfold answer_request, admin_Handler.
  mux_split Hm Hown.
  2:{ destruct (Hown (λ _ _ _ w, (Returned, w))) as (w' & _ & -> & Hs & _). cbn [snd]. by rewrite Hs. }
  destruct (route _ _ _ _ (Method (ar_request a)) _) as [h|] eqn:Er.
  - destruct (withAuth_cases token h Background (ar_request a) (set_state s w0)) as [[_ ->]|(_ & msg & code & _ & ->)].
    + destruct (h Background (ar_request a) (set_state s w0)) as [o w'] eqn:Eh.
      by eapply (wf_route _ _ _ _ _ _ _ _ _ (set_state s w0)); [exact Er|done|done|exact Eh|].
    + cbn [reject snd]. unfold reject. cbn [snd]. by rewrite state_http_Error.
  - destruct (filter _ _); cbn [snd reject]; unfold reject; cbn [snd]; by rewrite state_http_Error.
Qed.

Lemma wf_requests keygen token w0 (reqs : list admin_request) (s : S) :
  rw_sent (w_rw w0) = None → Forall (λ a, roles_storable (ar_request a)) reqs →
  map_Forall wf_key (keys s) →
  map_Forall wf_key (keys (foldl (answer_request keygen token w0) s reqs)).
Proof.
  intros Hn Hf. revert s. induction Hf as [|a reqs Ha Hf IH]; intros s Hw; [done|]. cbn. by apply IH, wf_request.
Qed.

(** C20: whatever requests the admin API answers, with or without the token and
    however they end, every key in the store stays well formed: under its own ID, with
    a principal, roles and ranges within the limits, and every range parses.  This is for
    requests whose roles the store can hold and a store that can hold every range that
    parses: the memory store holds all of them, the Postgres store all roles but those
    named NULL, which its array codec writes as an SQL null. *)
Theorem admin_keys_wellformed keygen token w0 (reqs : list admin_request) (s : S) :
  rw_sent (w_rw w0) = None → Forall (λ a, roles_storable (ar_request a)) reqs →
  map_Forall wf_key (keys s) →
  map_Forall wf_key (keys (foldl (answer_request keygen token w0) s reqs)).
Proof. apply wf_requests. Qed.
End Invariant.

(** ** Witness: the memory store *)

#[local] Instance ex_admin_codec : AdminCodec := {|
  decode_create b := match b with
    | BodyStream s _ => Some (mkCreateKeyRequest "alice" (Split s ",") None, newline)
    | NoBody => None
    end;
  decode_expiry b := match b with BodyStream s _ => Some (Some s, "") | NoBody => None end;
  decode_roles b := match b with BodyStream s _ => Some (Split s ",", newline) | NoBody => None end;
  decode_cidrs b := match b with BodyStream s _ => Some (Some (Split s ","), "") | NoBody => None end;
  encode_document _ := "{}";
  query_Get _ _ := "";
  time_Parse := Atoi;
|}.

(** Create a key, set its ranges, and try to set a range that does not parse. *)
Definition ex_admin_requests : list (admin_request (C := list string)) :=
  [mkAdminRequest (ex_admin_req "Bearer tok" "POST" "/admin/keys" "admin, viewer") (Ok [1%Z]) (Ok [2%Z]) [];
   mkAdminRequest (ex_admin_req "Bearer tok" "PUT" "/admin/keys/k_01/allowed-cidrs" "10.0.0.0/8") (Ok []) (Ok []) [];
   mkAdminRequest (ex_admin_req "Bearer tok" "PUT" "/admin/keys/k_01/allowed-cidrs" "10.0.0.0/40") (Ok []) (Ok []) []].

Definition ex_after : Memory.Store :=
  foldl (answer_request (S := Memory.Store) ex_gen "tok" (set_state Memory.NewStore ex_authn_world)) Memory.NewStore ex_admin_requests.

Example ex_after_ranges : AllowedCIDRs <$> ex_after !! "k_01" = Some ["10.0.0.0/8"].
Proof. vm_compute. reflexivity. Qed.

Lemma admin_keys_wellformed_witness :
  map_Forall wf_key (keys (S := Memory.Store) (C := list string)
    (foldl (answer_request ex_gen "tok" (set_state Memory.NewStore ex_authn_world)) Memory.NewStore ex_admin_requests)).
Proof.
  apply (admin_keys_wellformed (S := Memory.Store) (C := list string)).
  - intros c _. exact I.
  - reflexivity.
  - apply Forall_true. intros a. split; intros req _; apply Forall_true; intros x; exact I.
  - exact (map_Forall_empty (M := gmap string) wf_key).
Defined.
