(* ===== verification/CircuitBreaker.v ===== *)
(** * internal/authz/plugin/circuitbreaker.go: the breaker of one plugin

    Every method holds the mutex for its whole body, so a history of a breaker
    is a sequence of method calls; [cb_call] is one call with the time it reads
    and [cb_run] runs a history.  The record also carries the metric series
    labelled with the breaker's plugin: the state gauge and the transition
    counter, as the list of the transitions counted.  The theorems give the
    exact tripping condition, the blocking during the cool-down, the recovery
    by successful probes and the fate of a probe that reports nothing. *)

From S2P Require Import Prelude.

Inductive CBState := StateClosed | StateHalfOpen | StateOpen.

#[global] Instance CBState_eq_dec : EqDecision CBState.
Proof. solve_decision. Defined.

Definition CBState_String (s : CBState) : string :=
  match s with StateClosed => "closed" | StateHalfOpen => "half-open" | StateOpen => "open" end.

Record CircuitBreaker := mkCB {
  cb_plugin : string;
  failureThreshold : Z;
  successThreshold : Z;
  cooldown : Duration;
  state : CBState;
  consecutiveFailures : Z;
  consecutiveSuccesses : Z;
  lastFailure : Time;
  halfOpenAllowed : bool;
  gauge : CBState;
  transitions : list (string * string);
}.

Definition NewCircuitBreaker (plugin : string)
    (failureThreshold successThreshold : Z) (cooldown : Duration) : CircuitBreaker :=
  mkCB plugin failureThreshold successThreshold cooldown
    StateClosed 0 0 zeroTime false StateClosed [].

Definition transition (to : CBState) (cb : CircuitBreaker) : CircuitBreaker :=
  let from := state cb in
  mkCB (cb_plugin cb) (failureThreshold cb) (successThreshold cb) (cooldown cb)
    to 0 0 (lastFailure cb) (bool_decide (to = StateHalfOpen))
    to (transitions cb ++ [(CBState_String from, CBState_String to)]).

Definition set_counts (f s : Z) (cb : CircuitBreaker) : CircuitBreaker :=
  mkCB (cb_plugin cb) (failureThreshold cb) (successThreshold cb) (cooldown cb)
    (state cb) f s (lastFailure cb) (halfOpenAllowed cb) (gauge cb) (transitions cb).
Definition set_lastFailure (t : Time) (cb : CircuitBreaker) : CircuitBreaker :=
  mkCB (cb_plugin cb) (failureThreshold cb) (successThreshold cb) (cooldown cb)
    (state cb) (consecutiveFailures cb) (consecutiveSuccesses cb) t
    (halfOpenAllowed cb) (gauge cb) (transitions cb).
Definition set_halfOpenAllowed (b : bool) (cb : CircuitBreaker) : CircuitBreaker :=
  mkCB (cb_plugin cb) (failureThreshold cb) (successThreshold cb) (cooldown cb)
    (state cb) (consecutiveFailures cb) (consecutiveSuccesses cb) (lastFailure cb)
    b (gauge cb) (transitions cb).

Definition Allow (now : Time) (cb : CircuitBreaker) : bool * CircuitBreaker :=
  match state cb with
  | StateClosed => (true, cb)
  | StateOpen =>
      if (cooldown cb <? time_Sub now (lastFailure cb))%Z then
        (true, set_halfOpenAllowed false (transition StateHalfOpen cb))
      else (false, cb)
  | StateHalfOpen =>
      if halfOpenAllowed cb then (true, set_halfOpenAllowed false cb) else (false, cb)
  end.

Definition RecordSuccess (cb0 : CircuitBreaker) : CircuitBreaker :=
  let cb := set_counts 0 (consecutiveSuccesses cb0) cb0 in
  match state cb with
  | StateHalfOpen =>
      let cb' := set_counts 0 (wrap64 (consecutiveSuccesses cb + 1)) cb in
      if (successThreshold cb' <=? consecutiveSuccesses cb')%Z then transition StateClosed cb'
      else set_halfOpenAllowed true cb'
  | _ => cb
  end.

Definition RecordFailure (now : Time) (cb0 : CircuitBreaker) : CircuitBreaker :=
  let cb := set_lastFailure now (set_counts (wrap64 (consecutiveFailures cb0 + 1)) 0 cb0) in
  match state cb with
  | StateClosed =>
      if (failureThreshold cb <=? consecutiveFailures cb)%Z then transition StateOpen cb else cb
  | StateHalfOpen => transition StateOpen cb
  | StateOpen => cb
  end.

(** ** Histories *)

Inductive cb_call := CallAllow (now : Time) | CallSuccess | CallFailure (now : Time).

(** One call: what it answers (for [Allow]) and the breaker afterwards. *)
Definition cb_do (c : cb_call) (cb : CircuitBreaker) : option bool * CircuitBreaker :=
  match c with
  | CallAllow now => let '(b, cb') := Allow now cb in (Some b, cb')
  | CallSuccess => (None, RecordSuccess cb)
  | CallFailure now => (None, RecordFailure now cb)
  end.

Fixpoint cb_run (h : list cb_call) (cb : CircuitBreaker) : list (option bool) * CircuitBreaker :=
  match h with
  | [] => ([], cb)
  | c :: h' => let '(b, cb1) := cb_do c cb in
               let '(bs, cb2) := cb_run h' cb1 in (b :: bs, cb2)
  end.

Definition call_time (c : cb_call) : option Time :=
  match c with CallAllow t | CallFailure t => Some t | CallSuccess => None end.

(** The length of the streak of failures a history ends with, given the streak
    before it, and the longest streak on the way. *)
Fixpoint streak (k : Z) (h : list cb_call) : Z :=
  match h with
  | [] => k
  | CallAllow _ :: h' => streak k h'
  | CallSuccess :: h' => streak 0 h'
  | CallFailure _ :: h' => streak (k + 1) h'
  end.
Fixpoint longest_streak (k : Z) (h : list cb_call) : Z :=
  match h with
  | [] => k
  | CallAllow _ :: h' => longest_streak k h'
  | CallSuccess :: h' => Z.max k (longest_streak 0 h')
  | CallFailure _ :: h' => longest_streak (k + 1) h'
  end.

(** ** Lemmas *)

Lemma cb_run_app h1 h2 cb :
  cb_run (h1 ++ h2) cb =
  let '(b1, cb1) := cb_run h1 cb in let '(b2, cb2) := cb_run h2 cb1 in (b1 ++ b2, cb2).
Proof.
  revert cb. induction h1 as [|c h1 IH]; intros cb; cbn.
  - by destruct (cb_run h2 cb).
  - destruct (cb_do c cb) as [b cb1]. rewrite IH.
    destruct (cb_run h1 cb1), (cb_run h2 _); done.
Qed.

Lemma longest_streak_ge k h : (k ≤ longest_streak k h)%Z.
Proof.
  revert k. induction h as [|[] h IH]; intros k; cbn; [lia|apply IH|lia|].
  specialize (IH (k + 1)%Z). lia.
Qed.

(** No call changes the configuration of a breaker. *)
Definition same_config (cb cb' : CircuitBreaker) : Prop :=
  cb_plugin cb' = cb_plugin cb ∧ failureThreshold cb' = failureThreshold cb ∧
  successThreshold cb' = successThreshold cb ∧ cooldown cb' = cooldown cb.

#[global] Instance same_config_preorder : PreOrder same_config.
Proof. split; red; unfold same_config; intuition congruence. Qed.

Lemma cb_do_config c cb : same_config cb (cb_do c cb).2.
Proof.
  destruct c; cbn; unfold Allow, RecordSuccess, RecordFailure; cbn; repeat split_match;
    simplify_eq; done.
Qed.

(** What holds of every breaker that [NewCircuitBreaker] and the methods make. *)
Record cb_wf (cb : CircuitBreaker) : Prop := {
  wf_gauge : gauge cb = state cb;
  wf_allowed : halfOpenAllowed cb = true → state cb = StateHalfOpen;
  wf_closed : state cb = StateClosed →
    (0 ≤ consecutiveFailures cb)%Z ∧ (consecutiveFailures cb < Z.max 1 (failureThreshold cb))%Z;
  wf_half : state cb = StateHalfOpen →
    (0 ≤ consecutiveSuccesses cb)%Z ∧ (consecutiveSuccesses cb < Z.max 1 (successThreshold cb))%Z;
}.

Lemma wf_new p f s d : cb_wf (NewCircuitBreaker p f s d).
Proof. split; cbn; intros; try done; lia. Qed.

Lemma wf_transition to cb : cb_wf (transition to cb).
Proof. split; cbn; intros; unbool; try done; lia. Qed.

Definition int_thresholds (cb : CircuitBreaker) : Prop :=
  int64 (failureThreshold cb) ∧ int64 (successThreshold cb).

Lemma wf_do c cb : int_thresholds cb → cb_wf cb → cb_wf (cb_do c cb).2.
Proof.
  intros [Hf Hs] [Hg Ha Hc Hh]. unfold int64 in *. destruct c as [now| |now]; cbn.
  - unfold Allow. destruct (state cb) eqn:E.
    + cbn. split; rewrite ?E; auto.
    + destruct (halfOpenAllowed cb) eqn:E'; split; cbn; rewrite ?E; auto.
    + destruct (_ <? _)%Z; [|split; cbn; rewrite ?E; auto].
      split; cbn; intros; try done; lia.
  - unfold RecordSuccess; cbn. destruct (state cb) eqn:E.
    + split; cbn; rewrite ?E; auto; try done. intros _. destruct (Hc eq_refl). lia.
    + destruct (Z.leb_spec (successThreshold cb) (wrap64 (consecutiveSuccesses cb + 1)));
        [apply wf_transition|].
      split; cbn; rewrite ?E; auto; [done|]. intros _. destruct (Hh eq_refl).
      rewrite wrap64_id in * by (unfold int64; lia). lia.
    + split; cbn; rewrite ?E; auto; done.
  - unfold RecordFailure; cbn. destruct (state cb) eqn:E; [|apply wf_transition|].
    + destruct (Z.leb_spec (failureThreshold cb) (wrap64 (consecutiveFailures cb + 1)));
        [apply wf_transition|].
      split; cbn; rewrite ?E; auto; try done. intros _. destruct (Hc eq_refl).
      rewrite wrap64_id in * by (unfold int64; lia). lia.
    + split; cbn; rewrite ?E; auto; done.
Qed.

(** Transitions are only ever added. *)
Lemma cb_do_transitions c cb : transitions cb `prefix_of` transitions (cb_do c cb).2.
Proof.
  destruct c; cbn; unfold Allow, RecordSuccess, RecordFailure; cbn; repeat split_match;
    simplify_eq; try done; cbn; by apply prefix_app_r.
Qed.

Lemma cb_run_transitions h cb : transitions cb `prefix_of` transitions (cb_run h cb).2.
Proof.
  revert cb. induction h as [|c h IH]; intros cb; cbn; [done|].
  pose proof (cb_do_transitions c cb) as H1. destruct (cb_do c cb) as [b cb1].
  specialize (IH cb1). destruct (cb_run h cb1). by etrans.
Qed.

(** A closed breaker that has counted [k] failures. *)
Definition closed_at (k : Z) (cb : CircuitBreaker) : Prop :=
  state cb = StateClosed ∧ consecutiveFailures cb = k ∧ transitions cb = [].

Lemma closed_run h k cb :
  int_thresholds cb → closed_at k cb → (0 ≤ k < failureThreshold cb)%Z →
  let '(bs, cb') := cb_run h cb in
  if bool_decide (longest_streak k h < failureThreshold cb)%Z
  then closed_at (streak k h) cb' ∧ Forall (λ b, b ≠ Some false) bs
  else transitions cb' ≠ [].
Proof.
  revert k cb. induction h as [|c h IH]; intros k cb Hint (Hst & Hk & Htr) Hr; cbn.
  { rewrite bool_decide_true by lia. by repeat split. }
  pose proof (cb_do_config c cb) as (_ & Hf & Hsu & _).
  assert (int_thresholds (cb_do c cb).2) as Hint' by (red; by rewrite Hf, Hsu).
  destruct c as [t| |t]; cbn in *.
  - unfold Allow in *. rewrite Hst in *. specialize (IH k cb).
    destruct (cb_run h cb) as [bs cb']. specialize (IH Hint ltac:(done) Hr).
    case_bool_decide; [|done]. destruct IH. split; [done|]. by constructor.
  - unfold RecordSuccess in *; cbn in *. rewrite Hst in *.
    specialize (IH 0%Z (set_counts 0 (consecutiveSuccesses cb) cb)).
    destruct (cb_run h _) as [bs cb'].
    specialize (IH Hint' ltac:(done) ltac:(cbn; lia)). cbn in IH.
    destruct (decide (longest_streak 0 h < failureThreshold cb)%Z) as [Hl|Hl].
    + rewrite bool_decide_true in * by lia. destruct IH. split; [done|]. by constructor.
    + rewrite bool_decide_false in * by lia. done.
  - destruct Hint as [Hif His]. unfold int64 in *.
    unfold RecordFailure in *; cbn in *. rewrite Hst, Hk in *. rewrite wrap64_id in * by (unfold int64; lia).
    destruct (Z.leb_spec (failureThreshold cb) (k + 1)) as [Hle|Hgt].
    + destruct (cb_run h _) as [bs cb'] eqn:E. pose proof (longest_streak_ge (k + 1) h).
      rewrite bool_decide_false by lia. intros Hn.
      set (cb1 := transition StateOpen _) in E.
      pose proof (cb_run_transitions h cb1) as Hp. rewrite E in Hp. cbn in Hp. rewrite Hn in Hp. apply prefix_nil_inv in Hp.
      by destruct (transitions cb).
    + set (cb1 := set_lastFailure _ _) in *. specialize (IH (k + 1)%Z cb1).
      destruct (cb_run h cb1) as [bs cb']. specialize (IH Hint' ltac:(done) ltac:(cbn; lia)). cbn in IH.
      case_bool_decide; [|done]. destruct IH. split; [done|]. by constructor.
Qed.

(** A breaker that is open until [lf + cooldown] refuses every call up to then. *)
Lemma open_run h lf cb :
  int64 (cooldown cb) → state cb = StateOpen → (lf ≤ lastFailure cb)%Z →
  Forall (λ c, ∀ t, call_time c = Some t → lf ≤ t ≤ lf + cooldown cb)%Z h →
  let '(bs, cb') := cb_run h cb in Forall (λ b, b ≠ Some true) bs ∧ state cb' = StateOpen.
Proof.
  revert cb. induction h as [|c h IH]; intros cb Hd Hst Hlf Hh; cbn; [by split|].
  inversion Hh as [|?? Hc Hh']; subst. unfold int64 in Hd.
  pose proof (cb_do_config c cb) as (_ & _ & _ & Hcd).
  assert ((cb_do c cb).1 ≠ Some true ∧ state (cb_do c cb).2 = StateOpen ∧
          (lf ≤ lastFailure (cb_do c cb).2)%Z) as (Hb & Hst' & Hlf').
  { destruct c as [t| |t]; cbn in *.
    - unfold Allow. rewrite Hst. specialize (Hc t eq_refl).
      destruct (Z.ltb_spec (cooldown cb) (time_Sub t (lastFailure cb))) as [Hlt|_]; [|done].
      unfold time_Sub in Hlt. lia.
    - unfold RecordSuccess; cbn. by rewrite Hst.
    - unfold RecordFailure; cbn. rewrite Hst. cbn. specialize (Hc t eq_refl).
      split_and!; [done|done|lia]. }
  destruct (cb_do c cb) as [b cb1]. cbn in *. specialize (IH cb1).
  destruct (cb_run h cb1) as [bs cb']. rewrite Hcd in IH.
  destruct IH as [Hbs ?]; [done..|]. split; [by constructor|done].
Qed.

(** A half-open breaker whose probe is out refuses every call and does not move. *)
Lemma half_open_waits ts cb :
  state cb = StateHalfOpen → halfOpenAllowed cb = false →
  cb_run (CallAllow <$> ts) cb = ((λ _, Some false) <$> ts, cb).
Proof.
  intros Hst Hal. induction ts as [|t ts IH]; [done|]. cbn. unfold Allow.
  rewrite Hst, Hal. by rewrite IH.
Qed.

(** The successful probes of a recovery. *)
Definition probes (ts : list Time) : list cb_call := ts ≫= λ t, [CallAllow t; CallSuccess].

Lemma half_open_probes ts k cb :
  int_thresholds cb → state cb = StateHalfOpen → halfOpenAllowed cb = true →
  consecutiveSuccesses cb = k → (0 ≤ k)%Z →
  (k + Z.of_nat (length ts) ≤ Z.max 1 (successThreshold cb))%Z →
  let '(bs, cb') := cb_run (probes ts) cb in
  Forall (λ b, b ≠ Some false) bs ∧
  state cb' = (if bool_decide (ts ≠ [] ∧ k + Z.of_nat (length ts) = Z.max 1 (successThreshold cb))%Z
               then StateClosed else StateHalfOpen).
Proof.
  revert k cb. induction ts as [|t ts IH]; intros k cb Hint Hst Hal Hk H0 Hle.
  { cbn -[bool_decide]. split; [done|]. by rewrite bool_decide_false by naive_solver. }
  change (probes (t :: ts)) with (CallAllow t :: CallSuccess :: probes ts).
  cbn -[bool_decide probes]. unfold Allow. rewrite Hst, Hal. unfold RecordSuccess; cbn -[bool_decide probes]. rewrite Hst, Hk.
  destruct Hint as [Hif His]. unfold int64 in *. cbn [length] in Hle.
  rewrite wrap64_id by (unfold int64; lia).
  destruct (Z.leb_spec (successThreshold cb) (k + 1)) as [Hc|Hc].
  - destruct ts as [|t' ts]; cbn [length] in Hle; [|lia]. cbn -[bool_decide].
    rewrite bool_decide_true by (split; [done|lia]). by repeat constructor.
  - set (cb1 := set_halfOpenAllowed true _). specialize (IH (k + 1)%Z cb1).
    destruct (cb_run (probes ts) cb1) as [bs cb'].
    destruct IH as [Hb Hs]; try done; try (cbn; lia).
    split; [by repeat constructor|]. rewrite Hs. cbn -[bool_decide].
    erewrite bool_decide_ext; [done|]. split; [intros [Hn Hl]; split; [done|lia]|].
    intros [_ Hl]. split; [|lia]. intros ->. cbn in *. lia.
Qed.

(** ** Properties *)

(** C30: a new breaker with a positive threshold trips exactly when the calls
    recorded on it contain [failureThreshold] failures in a row; until then it
    stays closed and answers every [Allow] with true. *)
Theorem cb_trips_exactly plugin f s d h :
  (1 ≤ f)%Z → int64 f → int64 s →
  let '(bs, cb) := cb_run h (NewCircuitBreaker plugin f s d) in
  (transitions cb = [] ↔ (longest_streak 0 h < f)%Z) ∧
  ((longest_streak 0 h < f)%Z → state cb = StateClosed ∧ Forall (λ b, b ≠ Some false) bs).
Proof.
  intros Hf Hif His.
  pose proof (closed_run h 0 (NewCircuitBreaker plugin f s d)) as Hr. cbn in Hr.
  destruct (cb_run h _) as [bs cb].
  specialize (Hr (conj Hif His) ltac:(done) ltac:(lia)).
  case_bool_decide; [destruct Hr as [(? & ? & ?) ?]; by repeat split|].
  split; [by split|lia].
Qed.

Lemma cb_trips_exactly_witness :
  transitions (cb_run [CallAllow 0; CallFailure 1; CallSuccess; CallFailure 2; CallFailure 3]
    (NewCircuitBreaker "p" 3 2 Second)).2 = [].
Proof.
  destruct (cb_run _ _) as [bs cb] eqn:E.
  pose proof (cb_trips_exactly "p" 3 2 Second
    [CallAllow 0; CallFailure 1; CallSuccess; CallFailure 2; CallFailure 3]) as H.
  rewrite E in H. apply H; unfold int64; cbn; lia.
Defined.

(** A breaker that has just opened lets no call through until its
    cool-down has passed, whatever calls are made and whatever late results
    of earlier calls are recorded on it meanwhile, and stays open. *)
Theorem cb_open_blocks cb h :
  int64 (cooldown cb) → state cb = StateOpen →
  Forall (λ c, ∀ t, call_time c = Some t →
            lastFailure cb ≤ t ≤ lastFailure cb + cooldown cb)%Z h →
  let '(bs, cb') := cb_run h cb in Forall (λ b, b ≠ Some true) bs ∧ state cb' = StateOpen.
Proof. intros Hd Hst Hh. by apply (open_run h (lastFailure cb)). Qed.

Lemma cb_open_blocks_witness :
  state (cb_run [CallAllow 500; CallSuccess; CallFailure 700; CallAllow 1005]
    (RecordFailure 10 (NewCircuitBreaker "p" 1 1 1000))).2 = StateOpen.
Proof.
  destruct (cb_run _ _) as [bs cb] eqn:E.
  pose proof (cb_open_blocks (RecordFailure 10 (NewCircuitBreaker "p" 1 1 1000))
    [CallAllow 500; CallSuccess; CallFailure 700; CallAllow 1005]) as H.
  rewrite E in H. change (cooldown (RecordFailure _ _)) with 1000%Z in H.
  change (lastFailure (RecordFailure _ _)) with 10%Z in H.
  apply H; [unfold int64; lia|reflexivity|]. clear E H.
  repeat apply Forall_cons_2; [..|apply Forall_nil_2]; intros ? [=]; lia.
Defined.

(** Once the cool-down has passed, [successThreshold] successful probes
    (at least one), made one after the other at any times, are all let through
    and close the breaker; after fewer of them it is half-open. *)
Theorem cb_recovers cb t ts :
  cb_wf cb → int_thresholds cb → state cb = StateOpen →
  (cooldown cb < time_Sub t (lastFailure cb))%Z →
  (Z.of_nat (length (t :: ts)) ≤ Z.max 1 (successThreshold cb))%Z →
  let '(bs, cb') := cb_run (probes (t :: ts)) cb in
  Forall (λ b, b ≠ Some false) bs ∧
  state cb' = (if bool_decide (Z.of_nat (length (t :: ts)) = Z.max 1 (successThreshold cb))
               then StateClosed else StateHalfOpen).
Proof.
  intros Hwf Hint Hst Hcd Hle.
  pose proof (half_open_probes (t :: ts) 0 (transition StateHalfOpen cb) Hint eq_refl eq_refl
    eq_refl ltac:(lia) Hle) as H.
  assert (cb_run (probes (t :: ts)) cb = cb_run (probes (t :: ts)) (transition StateHalfOpen cb)) as ->.
  { cbn. unfold Allow. rewrite Hst. cbn. by apply Z.ltb_lt in Hcd as ->. }
  destruct (cb_run _ _) as [bs cb']. destruct H as [Hb Hs]. split; [done|]. rewrite Hs.
  erewrite bool_decide_ext; [done|]. cbn. naive_solver.
Qed.

Lemma cb_recovers_witness :
  state (cb_run (probes [2000; 2001]%Z) (RecordFailure 10 (NewCircuitBreaker "p" 1 2 1000))).2 =
  StateClosed.
Proof.
  destruct (cb_run _ _) as [bs cb] eqn:E.
  pose proof (cb_recovers (RecordFailure 10 (NewCircuitBreaker "p" 1 2 1000)) 2000 [2001%Z]) as H.
  rewrite E in H. clear E.
  apply H; [|split; split; vm_compute; discriminate || reflexivity|reflexivity|reflexivity
    |vm_compute; discriminate].
  apply (wf_do (CallFailure 10)); [unfold int_thresholds, int64; cbn; lia|apply wf_new].
Defined.
