(* ===== verification/PluginManager.v ===== *)
(** * internal/authz/plugin/manager.go: the plugin manager

    Instances are shared by pointer between the plugin map, the snapshots of
    running requests and the restart goroutines, so the manager is a heap of
    instances and a map from plugin names to locations.  A plugin call is its
    two atomic halves, before and after the RPC; the RPC's outcome and what the
    code observes after it (the contexts' errors, whether the process has
    exited) are inputs.  [Authorize] is a transition system: the spawning loop,
    one goroutine per role, the buffered channel and the collecting loop, with
    [fstep] the execution of one event. *)

From S2P Require Import Prelude GoStrings GoCrypto CircuitBreaker.

(** ** Instances *)

Record PluginConfig := mkPluginConfig {
  Path : string;
  SHA256 : string;
  Timeout : Duration;
  FailureThreshold : Z;
  SuccessThreshold : Z;
  Cooldown : Duration;
}.

(** [killed] tells whether [client.Kill] was called. *)
Record pluginInstance := mkInst {
  breaker : CircuitBreaker;
  timeout : Duration;
  cfg : PluginConfig;
  restarting : bool;
  failed : bool;
  killed : bool;
}.

Definition set_breaker (cb : CircuitBreaker) (i : pluginInstance) : pluginInstance :=
  mkInst cb (timeout i) (cfg i) (restarting i) (failed i) (killed i).
Definition set_restarting (b : bool) (i : pluginInstance) : pluginInstance :=
  mkInst (breaker i) (timeout i) (cfg i) b (failed i) (killed i).
Definition set_failed (b : bool) (i : pluginInstance) : pluginInstance :=
  mkInst (breaker i) (timeout i) (cfg i) (restarting i) b (killed i).
Definition Kill (i : pluginInstance) : pluginInstance :=
  mkInst (breaker i) (timeout i) (cfg i) (restarting i) (failed i) true.

(** ** Starting a plugin *)

(** What [startPlugin] meets outside: the content of the binary when it can be
    read, its permission bits when it can be stat'ed, and the outcomes of
    connecting, dispensing and of the type assertion. *)
Record startEnv := mkStartEnv {
  e_file : option string;
  e_perm : option Z;
  e_connect : result unit;
  e_dispense : result unit;
  e_isGRPC : bool;
}.

Definition hashFile (file : option string) : result string :=
  match file with
  | None => Err (ErrMsg "open")
  | Some content => Ok (hex_EncodeToString (GoCrypto.sha256 (to_bytes content)))
  end.

(** What [startPlugin] does to the world, in order: the binary read and stat'ed, the
    process started, the process killed. *)
Inductive startEvent :=
  | ReadBinary (path : string)
  | StatBinary (path : string)
  | Launch (path : string)
  | KillClient.

Definition checkHash (name : string) (pc : PluginConfig) (env : startEnv) : result unit :=
  match hashFile (e_file env) with
  | Err e =>
      if negb (SHA256 pc =? "")%go then Err (ErrWrap "hash plugin binary" e) else Ok ()
  | Ok binHash =>
      if negb (SHA256 pc =? "")%go && negb (EqualFold binHash (SHA256 pc)) then
        Err (ErrMsg ("plugin " +:+ name +:+ " hash mismatch"))
      else Ok ()
  end.

Definition checkPerm (name : string) (env : startEnv) : result unit :=
  match e_perm env with
  | Some perm =>
      if negb (Z.land perm 18 =? 0)%Z then
        Err (ErrMsg ("plugin " +:+ name +:+ " binary is group/world-writable"))
      else Ok ()
  | None => Ok ()
  end.

(** [client.Client()] starts the process and connects to it. *)
Definition startPlugin (name : string) (pc : PluginConfig) (env : startEnv)
    : list startEvent * result pluginInstance :=
  let tr := [ReadBinary (Path pc)] in
  match checkHash name pc env with
  | Err e => (tr, Err e)
  | Ok _ =>
      let tr := tr ++ [StatBinary (Path pc)] in
      match checkPerm name env with
      | Err e => (tr, Err e)
      | Ok _ =>
          let tr := tr ++ [Launch (Path pc)] in
          match e_connect env with
          | Err e => (tr ++ [KillClient], Err (ErrWrap "connect to plugin" e))
          | Ok _ =>
              match e_dispense env with
              | Err e => (tr ++ [KillClient], Err (ErrWrap "dispense authorizer" e))
              | Ok _ =>
                  if negb (e_isGRPC env) then (tr ++ [KillClient], Err (ErrMsg "unexpected plugin type"))
                  else
                    let breaker := NewCircuitBreaker name (FailureThreshold pc) (SuccessThreshold pc)
                                     (Cooldown pc) in
                    (tr, Ok (mkInst breaker (Timeout pc) pc false false false))
              end
          end
      end
  end.

(** ** One plugin call *)

(** [pb.Decision_ALLOW] is 1; every other value of the enum denies. *)
Inductive rpc_result :=
  | RpcErr (err : string)
  | RpcNil
  | RpcResp (decision : Z) (reason : string).

Record rpc_obs := mkObs {
  ob_rpc : rpc_result;
  ob_ctxErr : bool;     (** the request's context is done *)
  ob_deadline : bool;   (** the call's own context timed out *)
  ob_exited : bool;     (** the plugin process has exited *)
  ob_now : Time;
}.

(** The series of [AuthzDecisionTotal] that is incremented. *)
Abbreviation metric := (string * string)%type.

(** Up to the RPC: an answer without a call, or [None] when the RPC is made. *)
Definition callPlugin_begin (name : string) (now : Time) (inst : pluginInstance)
    : option (string * string) * pluginInstance * list metric :=
  if failed inst then
    (Some ("deny", "plugin permanently failed: " +:+ name), inst, [(name, "failed")])
  else
    let '(ok, cb) := Allow now (breaker inst) in
    let inst := set_breaker cb inst in
    if negb ok then (Some ("deny", "circuit open: " +:+ name), inst, [(name, "circuit_open")])
    else (None, inst, []).

(** From the RPC's return: the answer, the instance, the metrics and whether a
    restart goroutine was started. *)
Definition callPlugin_end (name : string) (o : rpc_obs) (inst : pluginInstance)
    : (string * string) * pluginInstance * list metric * bool :=
  match ob_rpc o with
  | RpcErr err =>
      if ob_ctxErr o then (("deny", "canceled: " +:+ name), inst, [(name, "canceled")], false)
      else
        let inst := set_breaker (RecordFailure (ob_now o) (breaker inst)) inst in
        if ob_deadline o then
          (("deny", "timeout: " +:+ name), inst, [(name, "timeout")], false)
        else
          let restart := ob_exited o && negb (failed inst) && negb (restarting inst) in
          let inst := if restart then set_restarting true inst else inst in
          (("deny", "error: " +:+ name +:+ ": " +:+ err), inst, [(name, "error")], restart)
  | RpcNil =>
      (("deny", "nil response: " +:+ name),
       set_breaker (RecordFailure (ob_now o) (breaker inst)) inst, [(name, "error")], false)
  | RpcResp decision reason =>
      let inst := set_breaker (RecordSuccess (breaker inst)) inst in
      if (decision =? 1)%Z then (("allow", reason), inst, [(name, "allow")], false)
      else (("deny", reason), inst, [(name, "deny")], false)
  end.

(** ** The fan-out of [Authorize] *)

Record fresult := mkResult { res_decision : string; res_plugin : string; res_reason : string }.

Definition allowed (r : fresult) : bool := (res_decision r =? "allow")%go.

Inductive task := TReady (role : string) (l : nat) | TCalling (role : string) (l : nat) | TDone.

Record fanout := mkFanout {
  heap : gmap nat pluginInstance;
  todo : list string;           (** roles the spawning loop has not reached *)
  tasks : list task;            (** one per role already spawned, in order *)
  resultCh : list fresult;
  received : nat;
  lastDeny : fresult;
  returned : option fresult;
  counted : list metric;
  restarts : list string;
}.

Inductive fevent :=
  | EvSpawn
  | EvBegin (i : nat) (now : Time)
  | EvReturn (i : nat) (o : rpc_obs)
  | EvPanic (i : nat)
  | EvRecv.

Section Fanout.

Context (snap : gmap string nat) (roles : list string).

Definition with_task (i : nat) (t : task) (h : gmap nat pluginInstance) (ms : list metric)
    (rs : list string) (st : fanout) : fanout :=
  mkFanout h (todo st) (<[i:=t]> (tasks st)) (resultCh st) (received st) (lastDeny st)
    (returned st) (counted st ++ ms) (restarts st ++ rs).

(** [resultCh <- r]: blocks on a full channel. *)
Definition send (r : fresult) (st : fanout) : option fanout :=
  if bool_decide (length (resultCh st) < length roles) then
    Some (mkFanout (heap st) (todo st) (tasks st) (resultCh st ++ [r]) (received st)
            (lastDeny st) (returned st) (counted st) (restarts st))
  else None.

(** One iteration of the spawning loop. *)
Definition spawn (st : fanout) : option fanout :=
  match todo st with
  | [] => None
  | role :: rest =>
      let push t := mkFanout (heap st) rest (tasks st ++ [t]) (resultCh st) (received st)
                      (lastDeny st) (returned st) (counted st) (restarts st) in
      match snap !! role with
      | None => send (mkResult "deny" role "plugin not configured") (push TDone)
      | Some l => Some (push (TReady role l))
      end
  end.

(** One iteration of the collecting loop; the first ALLOW returns, and so does
    the last result. *)
Definition recv (st : fanout) : option fanout :=
  match todo st, returned st, resultCh st with
  | [], None, res :: ch =>
      let n := S (received st) in
      if allowed res then
        Some (mkFanout (heap st) [] (tasks st) ch n (lastDeny st) (Some res)
                (counted st) (restarts st))
      else
        Some (mkFanout (heap st) [] (tasks st) ch n res
                (if bool_decide (n = length roles) then Some res else None)
                (counted st) (restarts st))
  | _, _, _ => None
  end.

Definition fstep (ev : fevent) (st : fanout) : option fanout :=
  match ev with
  | EvSpawn => spawn st
  | EvBegin i now =>
      match tasks st !! i with
      | Some (TReady role l) =>
          inst ← heap st !! l;
          match callPlugin_begin role now inst with
          | (Some (d, r), inst', ms) =>
              send (mkResult d role r) (with_task i TDone (<[l:=inst']> (heap st)) ms [] st)
          | (None, inst', ms) =>
              Some (with_task i (TCalling role l) (<[l:=inst']> (heap st)) ms [] st)
          end
      | _ => None
      end
  | EvReturn i o =>
      match tasks st !! i with
      | Some (TCalling role l) =>
          inst ← heap st !! l;
          let '((d, r), inst', ms, restart) := callPlugin_end role o inst in
          send (mkResult d role r)
            (with_task i TDone (<[l:=inst']> (heap st)) ms (if restart : bool then [role] else []) st)
      | _ => None
      end
  | EvPanic i =>
      match tasks st !! i with
      | Some (TCalling role l) =>
          send (mkResult "deny" role ("panic: " +:+ role))
            (with_task i TDone (heap st) [(role, "error")] [] st)
      | _ => None
      end
  | EvRecv => recv st
  end.

(** The state at the start of the loop; without roles the call returns at once. *)
Definition Authorize_start (h : gmap nat pluginInstance) : fanout :=
  mkFanout h roles [] [] 0 (mkResult "" "" "")
    (if bool_decide (length roles = 0) then Some (mkResult "deny" "" "no roles assigned") else None)
    [] [].

Definition fan_run (evs : list fevent) (st : fanout) : option fanout :=
  foldl (λ ost ev, ost ≫= fstep ev) (Some st) evs.

End Fanout.

(** ** Invariants of the fan-out *)

Fixpoint ndone (ts : list task) : nat :=
  match ts with [] => 0 | TDone :: ts' => S (ndone ts') | _ :: ts' => ndone ts' end.

Definition task_weight (t : task) : nat :=
  match t with TReady _ _ => 3 | TCalling _ _ => 2 | TDone => 0 end.

(** The work left: every event takes some of it. *)
Definition fan_weight (st : fanout) : nat :=
  4 * length (todo st) + sum_list (task_weight <$> tasks st) + length (resultCh st).

Lemma ndone_app ts ts' : ndone (ts ++ ts') = ndone ts + ndone ts'.
Proof. induction ts as [|[] ts IH]; cbn; lia. Qed.

Lemma ndone_le ts : ndone ts ≤ length ts.
Proof. induction ts as [|[] ts IH]; cbn; lia. Qed.

Lemma ndone_lt ts i t : ts !! i = Some t → t ≠ TDone → ndone ts < length ts.
Proof.
  revert i. induction ts as [|t' ts IH]; intros [|i] H Ht; simplify_eq/=.
  - pose proof (ndone_le ts). destruct t; [cbn; lia..|done].
  - specialize (IH i H Ht). destruct t'; cbn; lia.
Qed.

Lemma ndone_insert ts i t t' :
  ts !! i = Some t → t ≠ TDone →
  ndone (<[i:=t']> ts) = match t' with TDone => S (ndone ts) | _ => ndone ts end.
Proof.
  revert i. induction ts as [|t0 ts IH]; intros [|i] H Ht; simplify_eq/=.
  - by destruct t, t'.
  - specialize (IH i H Ht). destruct t0; cbn; rewrite IH; by destruct t'.
Qed.

Lemma weight_insert ts i t t' :
  ts !! i = Some t →
  sum_list (task_weight <$> <[i:=t']> ts) + task_weight t =
  sum_list (task_weight <$> ts) + task_weight t'.
Proof.
  revert i. induction ts as [|t0 ts IH]; intros [|i] H; simplify_eq/=; [lia|].
  specialize (IH i H). lia.
Qed.

Lemma weight_snoc ts t :
  sum_list (task_weight <$> ts ++ [t]) = sum_list (task_weight <$> ts) + task_weight t.
Proof. induction ts as [|t0 ts IH]; cbn in *; lia. Qed.

Lemma ndone_all ts : ndone ts = length ts ∨ ∃ i t, ts !! i = Some t ∧ t ≠ TDone.
Proof.
  induction ts as [|[r l|r l|] ts IH]; [by left|right; by exists 0, (TReady r l)
    |right; by exists 0, (TCalling r l)|].
  destruct IH as [IH|(i & t & ? & ?)]; [left; cbn; lia|right; by exists (S i), t].
Qed.

Section FanoutInvariant.

Context (snap : gmap string nat) (roles : list string) (h0 : gmap nat pluginInstance).

(** The snapshot's pointers are valid. *)
Hypothesis snap_valid : ∀ role l, snap !! role = Some l → is_Some (h0 !! l).

Lemma fan_run_snoc evs ev st :
  fan_run snap roles (evs ++ [ev]) st = fan_run snap roles evs st ≫= fstep snap roles ev.
Proof. unfold fan_run. by rewrite foldl_app. Qed.

(** An ALLOW came back from the plugin of role number [i]. *)
Definition answered_allow (evs : list fevent) (i : nat) (reason : string) : Prop :=
  ∃ o, EvReturn i o ∈ evs ∧ ob_rpc o = RpcResp 1 reason.

(** An allowing result is the answer of the plugin of one of the roles. *)
Definition justified (evs : list fevent) (r : fresult) : Prop :=
  allowed r = true →
  ∃ i, answered_allow evs i (res_reason r) ∧ roles !! i = Some (res_plugin r) ∧
       is_Some (snap !! res_plugin r).

Definition task_ok (i : nat) (t : task) : Prop :=
  match t with
  | TReady role l | TCalling role l =>
      roles !! i = Some role ∧ snap !! role = Some l ∧ is_Some (h0 !! l)
  | TDone => True
  end.

Record fan_inv (evs : list fevent) (st : fanout) : Prop := {
  fi_roles : drop (length (tasks st)) roles = todo st;
  fi_len : length (tasks st) + length (todo st) = length roles;
  fi_heap : dom (heap st) = dom h0;
  fi_tasks : ∀ i t, tasks st !! i = Some t → task_ok i t;
  fi_done : received st + length (resultCh st) = ndone (tasks st);
  fi_just : Forall (justified evs) (resultCh st);
  fi_ret : match returned st with
           | None => received st < length roles
           | Some r => justified evs r ∧ (allowed r = false → received st = length roles)
           end;
  fi_complete : (∃ i reason, answered_allow evs i reason) →
    Exists (λ r, allowed r = true) (resultCh st) ∨
    ∃ r, returned st = Some r ∧ allowed r = true;
  fi_weight : length evs + fan_weight st ≤ 4 * length roles;
}.

Lemma answered_allow_mono evs ev i reason :
  answered_allow evs i reason → answered_allow (evs ++ [ev]) i reason.
Proof. intros (o & Ho & E). exists o. split; [|done]. apply elem_of_app. by left. Qed.

Lemma justified_mono evs ev r : justified evs r → justified (evs ++ [ev]) r.
Proof.
  intros Hj Ha. destruct (Hj Ha) as (i & Hi & ?). exists i. split; [|done].
  by apply answered_allow_mono.
Qed.

(** Events other than the return of an allowing call answer nothing new. *)
Lemma answered_allow_snoc evs ev i reason :
  answered_allow (evs ++ [ev]) i reason →
  answered_allow evs i reason ∨ ∃ o, ev = EvReturn i o ∧ ob_rpc o = RpcResp 1 reason.
Proof.
  intros (o & Ho & E). apply elem_of_app in Ho as [Ho|Ho]; [left; by exists o|].
  apply list_elem_of_singleton in Ho as <-. right. by exists o.
Qed.

Lemma fan_inv_start : fan_inv [] (Authorize_start roles h0).
Proof.
  split; cbn; [done|lia|done|done|done|done| |by intros (? & ? & ? & ?%not_elem_of_nil & ?)
    |unfold fan_weight; cbn; lia].
  case_bool_decide; [by split|lia].
Qed.

Lemma task_ok_insert (ts : list task) i t :
  (∀ j t', ts !! j = Some t' → task_ok j t') → task_ok i t →
  ∀ j t', <[i:=t]> ts !! j = Some t' → task_ok j t'.
Proof.
  intros Hts Ht j t' Hj. apply list_lookup_insert_Some in Hj as [(<- & <- & _)|[_ Hj]]; eauto.
Qed.

(** A task that ends sends its result: the channel has room for it, and the
    invariant is kept. *)
Lemma fan_inv_finish evs ev st i t r h' ms rs :
  fan_inv evs st → tasks st !! i = Some t → t ≠ TDone → dom h' = dom (heap st) →
  justified (evs ++ [ev]) r →
  ((∃ j o reason, ev = EvReturn j o ∧ ob_rpc o = RpcResp 1 reason) → allowed r = true) →
  ∃ st', send roles r (with_task i TDone h' ms rs st) = Some st' ∧ fan_inv (evs ++ [ev]) st'.
Proof.
  intros [Hr Hl Hh Ht Hd Hj Hret Hc Hw] Hi Hnd Hdom Hjr Hal.
  pose proof (ndone_lt _ _ _ Hi Hnd) as Hlt.
  pose proof (ndone_insert _ _ _ TDone Hi Hnd) as Hn. cbn in Hn.
  pose proof (weight_insert _ _ _ TDone Hi) as Hwi. cbn in Hwi.
  assert (2 ≤ task_weight t) by (destruct t; [cbn; lia..|done]).
  unfold send. cbn. rewrite bool_decide_true by lia. eexists. split; [done|].
  split; cbn; rewrite ?length_insert, ?length_app; cbn; try done; try lia.
  - congruence.
  - by apply task_ok_insert.
  - apply Forall_app. split; [|by constructor].
    eapply Forall_impl; [exact Hj|]. apply justified_mono.
  - destruct (returned st); [|done]. destruct Hret. split; [by apply justified_mono|done].
  - intros (j & reason & [Ha|(o & -> & Ho)]%answered_allow_snoc).
    + destruct Hc as [Hc|Hc]; [by eauto|left; apply Exists_app; by left|by right].
    + left. apply Exists_app. right. constructor. apply Hal. by exists j, o, reason.
  - unfold fan_weight in *. cbn. rewrite ?length_app. cbn. lia.
Qed.

(** An event that neither sends nor receives. *)
Lemma fan_inv_begin evs st i role l now inst' :
  fan_inv evs st → tasks st !! i = Some (TReady role l) →
  fan_inv (evs ++ [EvBegin i now])
    (with_task i (TCalling role l) (<[l:=inst']> (heap st)) [] [] st).
Proof.
  intros [Hr Hl Hh Ht Hd Hj Hret Hc Hw] Hi.
  pose proof (ndone_insert _ _ _ (TCalling role l) Hi ltac:(done)) as Hn. cbn in Hn.
  pose proof (weight_insert _ _ _ (TCalling role l) Hi) as Hwi. cbn in Hwi.
  pose proof (Ht _ _ Hi) as (Hrole & Hsnap & Hval).
  split; cbn; rewrite ?length_insert, ?length_app; cbn; try done; try lia.
  - rewrite dom_insert_L, Hh. apply elem_of_dom in Hval. set_solver.
  - by apply task_ok_insert.
  - eapply Forall_impl; [exact Hj|]. apply justified_mono.
  - destruct (returned st); [|done]. destruct Hret. split; [by apply justified_mono|done].
  - intros (j & reason & [Ha|(o & ? & Ho)]%answered_allow_snoc); [|done].
    destruct Hc as [Hc|Hc]; [by eauto|by left|by right].
  - unfold fan_weight in *. cbn. lia.
Qed.

Lemma justified_deny evs r : allowed r = false → justified evs r.
Proof. intros H H'. congruence. Qed.

Lemma fan_inv_spawn evs st :
  fan_inv evs st → todo st ≠ [] →
  ∃ st', spawn snap roles st = Some st' ∧ fan_inv (evs ++ [EvSpawn]) st'.
Proof.
  intros [Hr Hl Hh Ht Hd Hj Hret Hc Hw] Htodo. unfold spawn.
  destruct (todo st) as [|role rest] eqn:E; [done|].
  pose proof (ndone_le (tasks st)). cbn in Hl.
  assert (roles !! length (tasks st) = Some role) as Hrole.
  { rewrite <- (Nat.add_0_r (length (tasks st))), <- lookup_drop, Hr. done. }
  assert (drop (length (tasks st) + 1) roles = rest) as Hdrop.
  { by rewrite <- drop_drop, Hr. }
  assert (∀ t, task_ok (length (tasks st)) t →
    ∀ i t', (tasks st ++ [t]) !! i = Some t' → task_ok i t') as Hts.
  { intros t Hok i t' [Hi|[? Hi]]%lookup_app_Some; [by apply Ht|].
    apply list_lookup_singleton_Some in Hi as [? <-].
    by replace i with (length (tasks st)) by lia. }
  assert (match returned st with
          | None => received st < length roles
          | Some r => justified (evs ++ [EvSpawn]) r ∧ (allowed r = false → received st = length roles)
          end) as Hret'.
  { destruct (returned st); [|done]. destruct Hret. split; [by apply justified_mono|done]. }
  assert (Hc' : (∃ i reason, answered_allow (evs ++ [EvSpawn]) i reason) →
    Exists (λ r, allowed r = true) (resultCh st) ∨
    ∃ r, returned st = Some r ∧ allowed r = true).
  { intros (j & reason & [Ha|(o & ? & Ho)]%answered_allow_snoc); [eauto|done]. }
  assert (Forall (justified (evs ++ [EvSpawn])) (resultCh st)) as Hj'.
  { eapply Forall_impl; [exact Hj|]. apply justified_mono. }
  destruct (snap !! role) as [l|] eqn:Esnap; cbn.
  - eexists. split; [done|].
    split; cbn; rewrite ?length_app, ?ndone_app; cbn; try done; try lia.
    + apply Hts. split_and!; eauto.
    + unfold fan_weight in *. rewrite E in Hw. cbn in *. rewrite weight_snoc. cbn. lia.
  - unfold send. cbn. rewrite bool_decide_true by lia. eexists. split; [done|].
    split; cbn; rewrite ?length_app, ?ndone_app; cbn; try done; try lia.
    + by apply Hts.
    + apply Forall_app. split; [done|]. constructor; [by apply justified_deny|done].
    + intros [?|?]%Hc'; [left; apply Exists_app; by left|by right].
    + unfold fan_weight in *. rewrite E in Hw. cbn in *.
      rewrite weight_snoc, ?length_app. cbn. lia.
Qed.

Lemma fan_inv_recv evs st st' :
  fan_inv evs st → recv roles st = Some st' → fan_inv (evs ++ [EvRecv]) st'.
Proof.
  intros [Hr Hl Hh Ht Hd Hj Hret Hc Hw]. unfold recv.
  destruct (todo st) eqn:E; [|done]. destruct (returned st) eqn:Eret; [done|].
  destruct (resultCh st) as [|res ch] eqn:Ech; [done|]. intros Hst.
  inversion Hj as [|?? Hres Hch]; subst. cbn in Hd.
  assert (Forall (justified (evs ++ [EvRecv])) ch) as Hch'.
  { eapply Forall_impl; [exact Hch|]. apply justified_mono. }
  assert (length (evs ++ [EvRecv]) + (sum_list (task_weight <$> tasks st) + length ch)
    ≤ 4 * length roles) as Hw'.
  { unfold fan_weight in Hw. rewrite E, Ech in Hw. rewrite length_app. cbn in *. lia. }
  assert (Hc' : (∃ i reason, answered_allow (evs ++ [EvRecv]) i reason) →
    Exists (λ r, allowed r = true) (res :: ch)).
  { intros (j & reason & [Ha|(o & ? & Ho)]%answered_allow_snoc); [|done].
    destruct Hc as [?|(? & ? & ?)]; eauto; done. }
  destruct (allowed res) eqn:Ea; simplify_eq; split; cbn; try done; try lia.
  - split; [by apply justified_mono|by rewrite Ea].
  - intros _. right. by exists res.
  - case_bool_decide; [|lia]. split; [by apply justified_mono|by intros].
  - intros [?|?]%Hc'%Exists_cons; [congruence|by left].
Qed.

(** [callPlugin]'s answer is ALLOW exactly when the plugin returned ALLOW. *)
Lemma callPlugin_end_allow role o inst d r inst' ms b :
  callPlugin_end role o inst = ((d, r), inst', ms, b) →
  allowed (mkResult d role r) = true ↔ ob_rpc o = RpcResp 1 r.
Proof.
  unfold callPlugin_end. destruct (ob_rpc o) as [err| |dec reason]; intros H.
  - repeat split_if; by simplify_eq.
  - by simplify_eq.
  - destruct (Z.eqb_spec dec 1); simplify_eq; naive_solver.
Qed.

Lemma callPlugin_end_decision role o inst d r inst' ms b :
  callPlugin_end role o inst = ((d, r), inst', ms, b) → d = "allow" ∨ d = "deny".
Proof.
  unfold callPlugin_end. destruct (ob_rpc o) as [err| |dec reason]; intros H;
    repeat split_if; simplify_eq; auto.
Qed.

Lemma callPlugin_end_other role o inst d r inst' ms b :
  callPlugin_end role o inst = ((d, r), inst', ms, b) → (∃ reason, ob_rpc o = RpcResp 1 reason) →
  ob_rpc o = RpcResp 1 r.
Proof. intros H [reason E]. unfold callPlugin_end in H. rewrite E in H. cbn in H. by simplify_eq. Qed.

Lemma callPlugin_begin_deny role now inst d r inst' ms :
  callPlugin_begin role now inst = (Some (d, r), inst', ms) → allowed (mkResult d role r) = false.
Proof.
  unfold callPlugin_begin. destruct (Allow now (breaker inst)).
  intros H. repeat split_if; by simplify_eq.
Qed.

Lemma callPlugin_begin_none role now inst inst' ms :
  callPlugin_begin role now inst = (None, inst', ms) → ms = [].
Proof.
  unfold callPlugin_begin. destruct (Allow now (breaker inst)).
  intros H. repeat split_if; by simplify_eq.
Qed.

Lemma fan_inv_heap evs st i role l :
  fan_inv evs st → (tasks st !! i = Some (TReady role l) ∨ tasks st !! i = Some (TCalling role l)) →
  ∃ inst, heap st !! l = Some inst ∧ ∀ inst', dom (<[l:=inst']> (heap st)) = dom (heap st).
Proof.
  intros Hinv Hi. assert (task_ok i (TReady role l)) as (_ & _ & Hl).
  { destruct Hi as [Hi|Hi]; exact (fi_tasks _ _ Hinv _ _ Hi). }
  apply elem_of_dom in Hl. rewrite <- (fi_heap _ _ Hinv) in Hl.
  pose proof Hl as [inst ?]%elem_of_dom. exists inst. split; [done|].
  intros inst'. rewrite dom_insert_L. set_solver.
Qed.

Lemma fan_inv_ready evs st i role l now :
  fan_inv evs st → tasks st !! i = Some (TReady role l) →
  ∃ st', fstep snap roles (EvBegin i now) st = Some st' ∧ fan_inv (evs ++ [EvBegin i now]) st'.
Proof.
  intros Hinv Hi. destruct (fan_inv_heap _ _ i role l Hinv) as (inst & Hl & Hdom); [by left|].
  cbn. rewrite Hi, Hl. cbn.
  destruct (callPlugin_begin role now inst) as [[[[d r]|] inst'] ms] eqn:E.
  - eapply fan_inv_finish; try done.
    + by eapply justified_deny, callPlugin_begin_deny.
    + by intros (? & ? & ? & ? & ?).
  - apply callPlugin_begin_none in E as ->. eexists. split; [done|]. by apply fan_inv_begin.
Qed.

Lemma fan_inv_return evs st i role l o :
  fan_inv evs st → tasks st !! i = Some (TCalling role l) →
  ∃ st', fstep snap roles (EvReturn i o) st = Some st' ∧ fan_inv (evs ++ [EvReturn i o]) st'.
Proof.
  intros Hinv Hi. destruct (fan_inv_heap _ _ i role l Hinv) as (inst & Hl & Hdom); [by right|].
  pose proof (fi_tasks _ _ Hinv _ _ Hi) as (Hrole & Hsnap & _).
  cbn. rewrite Hi, Hl. cbn.
  destruct (callPlugin_end role o inst) as [[[[d r] inst'] ms] restart] eqn:E.
  pose proof (callPlugin_end_allow _ _ _ _ _ _ _ _ E) as Hal.
  eapply fan_inv_finish; try done.
  - intros Ha. exists i. cbn. split_and!; [|done|by eexists].
    exists o. split; [apply elem_of_app; right; by apply list_elem_of_singleton|by apply Hal].
  - intros (j & o' & reason & [= <- <-] & Ho). apply Hal.
    eapply callPlugin_end_other; [done|by exists reason].
Qed.

Lemma fan_inv_panic evs st i role l :
  fan_inv evs st → tasks st !! i = Some (TCalling role l) →
  ∃ st', fstep snap roles (EvPanic i) st = Some st' ∧ fan_inv (evs ++ [EvPanic i]) st'.
Proof.
  intros Hinv Hi. cbn. rewrite Hi. eapply fan_inv_finish; try done.
  by intros (? & ? & ? & ? & ?).
Qed.

Lemma fan_inv_step evs ev st st' :
  fan_inv evs st → fstep snap roles ev st = Some st' → fan_inv (evs ++ [ev]) st'.
Proof.
  intros Hinv Hst. destruct ev as [|i now|i o|i|].
  - destruct (fan_inv_spawn evs st Hinv) as (st1 & E & ?); [|cbn in Hst; by simplify_eq].
    intros E. cbn in Hst. unfold spawn in Hst. by rewrite E in Hst.
  - destruct (tasks st !! i) as [[role l| |]|] eqn:Hi; cbn in Hst; rewrite Hi in Hst; try done.
    destruct (fan_inv_ready evs st i role l now Hinv Hi) as (st1 & E & ?).
    cbn in E. rewrite Hi in E. by simplify_eq.
  - destruct (tasks st !! i) as [[|role l|]|] eqn:Hi; cbn in Hst; rewrite Hi in Hst; try done.
    destruct (fan_inv_return evs st i role l o Hinv Hi) as (st1 & E & ?).
    cbn in E. rewrite Hi in E. by simplify_eq.
  - destruct (tasks st !! i) as [[|role l|]|] eqn:Hi; cbn in Hst; rewrite Hi in Hst; try done.
    destruct (fan_inv_panic evs st i role l Hinv Hi) as (st1 & E & ?).
    cbn in E. rewrite Hi in E. by simplify_eq.
  - by eapply fan_inv_recv.
Qed.

Lemma fan_inv_run evs st :
  fan_run snap roles evs (Authorize_start roles h0) = Some st → fan_inv evs st.
Proof.
  revert st. induction evs as [|ev evs IH] using rev_ind; intros st.
  - intros [= <-]. apply fan_inv_start.
  - rewrite fan_run_snoc. intros (st1 & H1 & H2)%bind_Some. eapply fan_inv_step; eauto.
Qed.

(** As long as the call has not returned, some event can happen. *)
Lemma fan_inv_progress evs st :
  fan_inv evs st → returned st = None → ∃ ev, is_Some (fstep snap roles ev st).
Proof.
  intros Hinv Hret. destruct (todo st) as [|role rest] eqn:Et.
  2: { destruct (fan_inv_spawn evs st Hinv) as (st' & E & _); [by rewrite Et|]. by exists EvSpawn, st'. }
  destruct (ndone_all (tasks st)) as [Hd|(i & t & Hi & Ht)].
  - pose proof (fi_ret _ _ Hinv) as Hr. rewrite Hret in Hr.
    pose proof (fi_done _ _ Hinv) as Hn. pose proof (fi_len _ _ Hinv) as Hl.
    rewrite Et in Hl. cbn in Hl. exists EvRecv. cbn. unfold recv. rewrite Et, Hret.
    destruct (resultCh st) as [|r ch]; [cbn in Hn; lia|]. destruct (allowed r); by eexists.
  - destruct t as [role l|role l|]; [| |done].
    + destruct (fan_inv_ready evs st i role l 0 Hinv Hi) as (st' & E & _). by exists (EvBegin i 0), st'.
    + destruct (fan_inv_panic evs st i role l Hinv Hi) as (st' & E & _). by exists (EvPanic i), st'.
Qed.
End FanoutInvariant.

(** ** The manager: start and readiness *)

(** Restarts and [Close] are in PluginRestart. *)

Record Manager := mkManager {
  plugins : gmap string nat;
  insts : gmap nat pluginInstance;
  closed : bool;
  done_closed : bool;
}.

Definition kill_at (l : nat) (h : gmap nat pluginInstance) : gmap nat pluginInstance := alter Kill l h.

(** Copy-on-write replacement; returns the instance that was mapped before. *)
Definition swapPlugin (name : string) (l : nat) (m : Manager) : option nat * Manager :=
  (plugins m !! name, mkManager (<[name:=l]> (plugins m)) (insts m) (closed m) (done_closed m)).

(** [startPlugin]'s instance on the heap. *)
Definition alloc (inst : pluginInstance) (m : Manager) : nat * Manager :=
  let l := fresh (dom (insts m)) in
  (l, mkManager (plugins m) (<[l:=inst]> (insts m)) (closed m) (done_closed m)).

(** After the last attempt. *)
Definition markFailed (name : string) (m : Manager) : Manager :=
  match plugins m !! name with
  | Some l => mkManager (plugins m) (alter (set_failed true) l (insts m)) (closed m) (done_closed m)
  | None => m
  end.

(** The delays of the five attempts. *)
Definition backoff : list Duration := [1 * Second; 2 * Second; 5 * Second; 10 * Second; 30 * Second]%Z.

(** The loop of [NewManager] over the configured plugins, in the order the map
    is visited; a failed start kills the instances started before it. *)
Fixpoint NewManager_loop (todo : list (string * PluginConfig * startEnv)) (m : Manager)
    : result unit * Manager :=
  match todo with
  | [] => (Ok (), m)
  | (name, pc, env) :: rest =>
      match (startPlugin name pc env).2 with
      | Err e =>
          (Err (ErrWrap ("start plugin " +:+ name) e),
           mkManager ∅ (foldr kill_at (insts m) ((map_to_list (plugins m)).*2)) false false)
      | Ok inst =>
          let '(l, m) := alloc inst m in
          NewManager_loop rest (swapPlugin name l m).2
      end
  end.

Definition NewManager (todo : list (string * PluginConfig * startEnv)) : result unit * Manager :=
  NewManager_loop todo (mkManager ∅ ∅ false false).

Definition HasPlugins (m : Manager) : bool := bool_decide (0 < size (plugins m)).

Definition serving (exited : nat → bool) (m : Manager) (l : nat) : bool :=
  match insts m !! l with
  | Some inst =>
      negb (failed inst) && negb (exited l) && negb (bool_decide (state (breaker inst) = StateOpen))
  | None => false
  end.

(** [exited l] is [client.Exited()] of the instance at [l]. *)
Definition Healthy (exited : nat → bool) (m : Manager) : bool :=
  existsb (serving exited m) ((map_to_list (plugins m)).*2).

(** ** Lemmas on the manager *)

(** The process of the instance at [l] has been started and not killed. *)
Definition live (m : Manager) (l : nat) : Prop := ∃ inst, insts m !! l = Some inst ∧ killed inst = false.
Definition mapped (m : Manager) (l : nat) : Prop := ∃ name, plugins m !! name = Some l.

Lemma live_alter f m l l' :
  (∀ i, killed (f i) = killed i) →
  live (mkManager (plugins m) (alter f l (insts m)) (closed m) (done_closed m)) l' ↔ live m l'.
Proof.
  intros Hf. unfold live; cbn. split; intros (inst & E & Hk).
  - apply lookup_alter_Some in E as [(-> & i & ? & ->)|[? ?]]; [rewrite Hf in Hk|]; eauto.
  - destruct (decide (l = l')) as [->|Hne].
    + exists (f inst). rewrite lookup_alter_eq, E, Hf. done.
    + exists inst. by rewrite lookup_alter_ne.
Qed.

Lemma live_insert m l l' inst inst' :
  insts m !! l = Some inst → killed inst' = killed inst →
  live (mkManager (plugins m) (<[l:=inst']> (insts m)) (closed m) (done_closed m)) l' ↔ live m l'.
Proof.
  intros El Hk. rewrite <- (live_alter (λ i, mkInst (breaker inst') (timeout inst') (cfg inst')
    (restarting inst') (failed inst') (killed i)) m l l') by done.
  replace (alter _ l (insts m)) with (<[l:=inst']> (insts m)); [done|].
  apply map_eq. intros j. destruct (decide (l = j)) as [->|Hne].
  - rewrite lookup_insert_eq, lookup_alter_eq, El. cbn. rewrite <- Hk. by destruct inst'.
  - by rewrite lookup_insert_ne, lookup_alter_ne.
Qed.

Lemma lookup_kill_all ls h l :
  foldr kill_at h ls !! l = (if bool_decide (l ∈ ls) then Kill else id) <$> h !! l.
Proof.
  induction ls as [|l' ls IH]; cbn; [by rewrite option_fmap_id|].
  unfold kill_at at 1. destruct (decide (l' = l)) as [->|Hne].
  - rewrite lookup_alter_eq, IH, (bool_decide_true (l ∈ l :: ls)) by apply list_elem_of_here.
    destruct (h !! l); cbn; [|done]. by case_bool_decide.
  - rewrite lookup_alter_ne, IH by done.
    rewrite (bool_decide_ext (l ∈ l' :: ls) (l ∈ ls)); [done|].
    rewrite elem_of_cons. naive_solver.
Qed.

Lemma killed_begin name now inst : killed (callPlugin_begin name now inst).1.2 = killed inst.
Proof. unfold callPlugin_begin. destruct (Allow now (breaker inst)) as [[] ?]; by destruct (failed inst). Qed.

Lemma killed_end name o inst : killed (callPlugin_end name o inst).1.1.2 = killed inst.
Proof.
  unfold callPlugin_end. destruct (ob_rpc o); cbn; [|done|by destruct (_ =? 1)%Z].
  repeat (split_if; cbn; try done).
Qed.

Lemma startPlugin_alive name pc env inst :
  (startPlugin name pc env).2 = Ok inst → killed inst = false.
Proof.
  unfold startPlugin. destruct (checkHash name pc env), (checkPerm name env), (e_connect env), (e_dispense env); try done.
  destruct (e_isGRPC env); [|done]. by intros [= <-].
Qed.

(** ** Properties *)

(** A key with the role of a plugin that allows, one with an unknown role, and
    the manager they run on: the inputs of the witnesses below. *)
Definition ex_cfg : PluginConfig := mkPluginConfig "/p" "" Second 2 1 (10 * Second).
Definition ex_inst (cb : CircuitBreaker) : pluginInstance :=
  mkInst cb Second ex_cfg false false false.
Definition ex_heap : gmap nat pluginInstance :=
  {[ 0 := ex_inst (NewCircuitBreaker "admin" 2 1 (10 * Second));
     1 := ex_inst (NewCircuitBreaker "reader" 2 1 (10 * Second)) ]}.
Definition ex_snap : gmap string nat := {[ "admin" := 0; "reader" := 1 ]}.
Definition ex_obs (r : rpc_result) : rpc_obs := mkObs r false false false 5.
Definition ex_run : list fevent :=
  [EvSpawn; EvSpawn; EvBegin 1 1; EvSpawn; EvReturn 1 (ex_obs (RpcResp 1 "ok")); EvRecv;
   EvRecv; EvBegin 0 3].
Definition ex_roles : list string := ["admin"; "reader"; "ghost"].

(** Every pointer of the snapshot is valid: a check by computation. *)
Lemma ex_snap_valid role l : ex_snap !! role = Some l → is_Some (ex_heap !! l).
Proof.
  unfold ex_snap. intros [[<- <-]|[? [<- <-]%lookup_singleton_Some]]%lookup_insert_Some; by eexists.
Qed.

(** C11: [Authorize] answers ALLOW if and only if the plugin of one of the
    key's roles answered ALLOW: whatever order the goroutines run, are canceled,
    fail or panic in, a returned ALLOW names such a role and its reason, and a
    returned DENY means that no plugin had answered ALLOW. *)
Theorem Authorize_allow_iff (snap : gmap string nat) roles (h : gmap nat pluginInstance) evs st r :
  (∀ role l, snap !! role = Some l → is_Some (h !! l)) →
  fan_run snap roles evs (Authorize_start roles h) = Some st → returned st = Some r →
  (allowed r = true →
     ∃ i, answered_allow evs i (res_reason r) ∧ roles !! i = Some (res_plugin r) ∧
          is_Some (snap !! res_plugin r)) ∧
  (allowed r = false → ∀ i reason, ¬ answered_allow evs i reason).
Proof.
  intros Hv Hrun Hret.
  pose proof (fan_inv_run snap roles h Hv evs st Hrun) as [Hr Hl Hh Ht Hd Hj Hre Hc Hw].
  rewrite Hret in Hre. destruct Hre as [Hjust Hfull]. split; [done|].
  intros Hna i reason Ha. specialize (Hfull Hna).
  destruct Hc as [Hex|(r' & ? & ?)]; [by eauto| |by simplify_eq; congruence].
  pose proof (ndone_le (tasks st)). destruct (resultCh st); [by apply Exists_nil in Hex|].
  cbn in Hd. lia.
Qed.

Lemma Authorize_allow_iff_witness :
  ∃ i, answered_allow ex_run i "ok" ∧ ex_roles !! i = Some "reader".
Proof.
  destruct (fan_run ex_snap ex_roles ex_run (Authorize_start ex_roles ex_heap)) as [st|] eqn:E;
    [|vm_compute in E; discriminate].
  destruct (Authorize_allow_iff ex_snap ex_roles ex_heap ex_run st (mkResult "allow" "reader" "ok")
    ex_snap_valid E) as [H _].
  - vm_compute in E. injection E as <-. reflexivity.
  - destruct (H eq_refl) as (i & ? & ? & _). exists i. split; assumption.
Defined.

(** C27: [Authorize] always returns: a run has at most four events per role, no
    goroutine ever waits on the result channel (each running plugin call can
    deliver whatever it ends with, also after the request was answered), and as
    long as nothing has been returned some event is possible. *)
Theorem Authorize_returns (snap : gmap string nat) roles (h : gmap nat pluginInstance) evs st :
  (∀ role l, snap !! role = Some l → is_Some (h !! l)) →
  fan_run snap roles evs (Authorize_start roles h) = Some st →
  length evs ≤ 4 * length roles ∧
  (∀ i role l, tasks st !! i = Some (TReady role l) →
     ∀ now, is_Some (fstep snap roles (EvBegin i now) st)) ∧
  (∀ i role l, tasks st !! i = Some (TCalling role l) →
     (∀ o, is_Some (fstep snap roles (EvReturn i o) st)) ∧ is_Some (fstep snap roles (EvPanic i) st)) ∧
  (returned st = None → ∃ ev, is_Some (fstep snap roles ev st)).
Proof.
  intros Hv Hrun. pose proof (fan_inv_run snap roles h Hv evs st Hrun) as Hinv.
  split_and!.
  - pose proof (fi_weight _ _ _ _ _ Hinv). lia.
  - intros i role l Hi now. destruct (fan_inv_ready snap roles h Hv evs st i role l now Hinv Hi)
      as (st' & E & _). by exists st'.
  - intros i role l Hi. split.
    + intros o. destruct (fan_inv_return snap roles h Hv evs st i role l o Hinv Hi) as (st' & E & _).
      by exists st'.
    + destruct (fan_inv_panic snap roles h evs st i role l Hinv Hi) as (st' & E & _). by exists st'.
  - by apply (fan_inv_progress snap roles h Hv evs).
Qed.

Lemma Authorize_returns_witness : length ex_run ≤ 4 * length ex_roles.
Proof.
  destruct (fan_run ex_snap ex_roles ex_run (Authorize_start ex_roles ex_heap)) as [st|] eqn:E;
    [|vm_compute in E; discriminate].
  exact (proj1 (Authorize_returns ex_snap ex_roles ex_heap ex_run st ex_snap_valid E)).
Defined.

(** The binary may be run: its owner alone can write it (as far as it can be stat'ed),
    and when a SHA-256 is configured it can be read and has that digest, up to the case
    of the hex digits. *)
Definition verified (pc : PluginConfig) (env : startEnv) : Prop :=
  (∀ perm, e_perm env = Some perm → Z.testbit perm 1 = false ∧ Z.testbit perm 4 = false) ∧
  (SHA256 pc ≠ "" → ∃ content, e_file env = Some content ∧
     EqualFold (hex_EncodeToString (GoCrypto.sha256 (to_bytes content))) (SHA256 pc) = true).

Lemma land_022 perm : Z.land perm 18 = 0%Z ↔ Z.testbit perm 1 = false ∧ Z.testbit perm 4 = false.
Proof.
  split.
  - intros E. split; [assert (Z.testbit (Z.land perm 18) 1 = false) as H|assert (Z.testbit (Z.land perm 18) 4 = false) as H];
      try (by rewrite E); rewrite Z.land_spec in H; by rewrite andb_true_r in H.
  - intros [H1 H4]. apply Z.bits_inj'. intros n Hn. rewrite Z.land_spec, Z.bits_0.
    destruct (decide (n = 1%Z)) as [->|]; [by rewrite H1|]. destruct (decide (n = 4%Z)) as [->|]; [by rewrite H4|].
    apply andb_false_intro2. destruct (decide (n < 5)%Z); [|by apply Z.bits_above_log2; cbn; lia].
    assert (n = 0 ∨ n = 2 ∨ n = 3)%Z as [->|[->| ->]] by lia; done.
Qed.

Lemma checks_verified name pc env :
  verified pc env ↔ is_Ok (checkHash name pc env) = true ∧ is_Ok (checkPerm name env) = true.
Proof.
  assert ((∀ perm, e_perm env = Some perm → Z.testbit perm 1 = false ∧ Z.testbit perm 4 = false) ↔
          is_Ok (checkPerm name env) = true) as Hp.
  { unfold checkPerm. destruct (e_perm env) as [perm|]; [|naive_solver].
    destruct (Z.eqb_spec (Z.land perm 18) 0) as [E|E]; rewrite land_022 in E; cbn; naive_solver. }
  unfold verified. rewrite Hp, (and_comm _ (is_Ok (checkPerm _ _) = true)). apply and_iff_compat_l.
  unfold checkHash, hashFile. destruct (String.eqb_spec (SHA256 pc) "") as [E|E]; cbn [negb andb].
  - destruct (e_file env); naive_solver.
  - destruct (e_file env) as [content|]; cbn [is_Ok]; [|naive_solver]. destruct (EqualFold _ _) eqn:Ef; cbn; naive_solver.
Qed.

(** C28: nothing is executed unchecked.  Starting a plugin reads its binary, stats it and
    only then launches the process; it launches it exactly when the binary is writable by
    its owner alone (as far as it can be stat'ed) and, if a SHA-256 is configured, is
    readable with that digest.  Otherwise the start fails without a launch.  A process
    that was launched but with which the handshake, the dispensing or the type assertion
    fails is killed and the start fails; else the instance starts with a closed breaker
    and the configured timeout. *)
Theorem startPlugin_verified name pc env :
  let '(tr, r) := startPlugin name pc env in
  let p := Path pc in
  (verified pc env ∧
     ((∃ inst, r = Ok inst ∧ tr = [ReadBinary p; StatBinary p; Launch p] ∧
         state (breaker inst) = StateClosed ∧ cfg inst = pc ∧ timeout inst = Timeout pc ∧ killed inst = false) ∨
      (is_Ok r = false ∧ tr = [ReadBinary p; StatBinary p; Launch p; KillClient]))) ∨
  (¬ verified pc env ∧ is_Ok r = false ∧ tr `prefix_of` [ReadBinary p; StatBinary p]).
Proof.
  pose proof (checks_verified name pc env) as Hv. unfold startPlugin.
  destruct (checkHash name pc env) as [[]|e]; cbn [is_Ok] in Hv.
  2: { right. split_and!; [by intros [? _]%Hv|done|by exists [StatBinary (Path pc)]]. }
  destruct (checkPerm name env) as [[]|e]; cbn [is_Ok] in Hv.
  2: { right. split_and!; [by intros [_ ?]%Hv|done|by exists []]. }
  destruct (e_connect env) as [[]|]; [|left; split; [by apply Hv|by right]].
  destruct (e_dispense env) as [[]|]; [|left; split; [by apply Hv|by right]].
  destruct (e_isGRPC env); cbn [negb]; (left; split; [by apply Hv|]); [left|by right].
  eexists. split_and!; try done.
Qed.

Definition ex_env : startEnv := mkStartEnv (Some "elf") (Some 493%Z) (Ok ()) (Ok ()) true.

Definition ex_pinned : PluginConfig :=
  mkPluginConfig "/p" "780D84B20D7AE7E6292919399348BDBF96025270136198083FC8A4DA398B5CA9" Second 2 1 Second.

(** The pinned binary is launched; made writable for the group it is not even run. *)
Example startPlugin_pinned :
  (startPlugin "admin" ex_pinned ex_env).1 = [ReadBinary "/p"; StatBinary "/p"; Launch "/p"] ∧
  (startPlugin "admin" ex_pinned (mkStartEnv (Some "elf") (Some 509%Z) (Ok ()) (Ok ()) true)).1 =
    [ReadBinary "/p"; StatBinary "/p"].
Proof. vm_compute. done. Qed.

(** A half-open probe that ends in a cancellation is never reported to the
    breaker: the plugin's calls are then refused at all later times without
    ever being made again, while [Healthy] still counts the plugin as able to
    serve, as long as its process lives. *)
Theorem canceled_probe_wedges name now o inst inst1 inst2 ms1 ms2 ans restart :
  callPlugin_begin name now inst = (None, inst1, ms1) →
  state (breaker inst) ≠ StateClosed →
  callPlugin_end name o inst1 = (ans, inst2, ms2, restart) →
  (∃ err, ob_rpc o = RpcErr err) → ob_ctxErr o = true →
  (∀ t, callPlugin_begin name t inst2 =
          (Some ("deny", "circuit open: " +:+ name), inst2, [(name, "circuit_open")])) ∧
  (∀ exited l m, plugins m !! name = Some l → insts m !! l = Some inst2 → exited l = false →
     Healthy exited m = true).
Proof.
  intros Hb Hst He [err Hr] Hc. unfold callPlugin_end in He. rewrite Hr, Hc in He. simplify_eq.
  assert (failed inst2 = false ∧ state (breaker inst2) = StateHalfOpen ∧
          halfOpenAllowed (breaker inst2) = false) as (Hf & Hs & Ha).
  { unfold callPlugin_begin, Allow in Hb. destruct (failed inst) eqn:Ef; [done|].
    destruct (state (breaker inst)) eqn:Es; [done| |].
    - destruct (halfOpenAllowed (breaker inst)); simplify_eq/=. by rewrite Ef, Es.
    - destruct (_ <? _)%Z; simplify_eq/=. by rewrite Ef. }
  split.
  - intros t. unfold callPlugin_begin, Allow. rewrite Hf, Hs, Ha. cbn. by destruct inst2.
  - intros exited l m Hl Hi Hx. unfold Healthy. apply existsb_exists. exists l. split.
    + apply list_elem_of_In, list_elem_of_fmap. exists (name, l). split; [done|].
      by apply elem_of_map_to_list.
    + unfold serving. by rewrite Hi, Hf, Hx, Hs.
Qed.

Definition ex_tripped : pluginInstance :=
  ex_inst (RecordFailure 0 (NewCircuitBreaker "admin" 1 1 (10 * Second))).

Lemma canceled_probe_wedges_witness :
  ∃ inst2, callPlugin_begin "admin" (1000000 * Second) inst2 =
    (Some ("deny", "circuit open: admin"), inst2, [("admin", "circuit_open")]).
Proof.
  destruct (callPlugin_begin "admin" (11 * Second) ex_tripped) as [[a1 inst1] ms1] eqn:E1.
  destruct (callPlugin_end "admin" (mkObs (RpcErr "canceled") true false false (12 * Second)) inst1)
    as [[[ans inst2] ms2] restart] eqn:E2.
  vm_compute in E1. injection E1 as <- <- <-.
  exists inst2. eapply (canceled_probe_wedges "admin" (11 * Second) _ ex_tripped).
  - vm_compute. reflexivity.
  - vm_compute. discriminate.
  - exact E2.
  - exists "canceled". reflexivity.
  - reflexivity.
Defined.
