(* ===== verification/PluginRestart.v ===== *)
(** * internal/authz/plugin/manager.go: restarts and shutdown

    The goroutines of [restartPlugin] and [Close] at the grain of their locks.  A restart
    waits in its select, starts a process outside the manager's mutex, takes the mutex to
    look at [closed] and to replace the instance in the map, and kills afterwards: the
    instance it replaced or, after a shutdown, its own.  [Close] closes the channel,
    stores the flag, and under the mutex empties the map and kills what was in it, one
    process after the other.  Everything interleaves with everything, plugin calls
    included, which start the restarts.

    Between these steps processes are alive that the map does not hold.  The theorem says
    who answers for them. *)

From S2P Require Import Prelude GoStrings GoCrypto CircuitBreaker PluginManager.

(** ** The goroutines *)

(** A restart of [name]: where it is.  [n] counts the attempts made. *)
Inductive worker :=
  | RWait (name : string) (pc : PluginConfig) (n : nat)    (** in the select *)
  | RStart (name : string) (pc : PluginConfig) (n : nat)   (** in [startPlugin] *)
  | RHold (name : string) (l : nat)                        (** about to take the mutex with a new instance *)
  | RKill (l : nat)                                        (** about to kill *)
  | RMark (name : string)                                  (** out of attempts *)
  | RDone.

Inductive closePhase :=
  | COpen                    (** not called *)
  | CDone                    (** the channel is closed *)
  | CFlag                    (** and the flag is stored *)
  | CKilling (ls : list nat) (** holding the mutex, these are left to kill *)
  | CFinished.

Record Pool := mkPool { mgr : Manager; workers : list worker; closing : closePhase }.

Definition set_insts (h : gmap nat pluginInstance) (m : Manager) : Manager :=
  mkManager (plugins m) h (closed m) (done_closed m).

(** [Close] keeps the mutex until it returns. *)
Definition mutex_free (p : Pool) : bool := match closing p with CKilling _ => false | _ => true end.

(** One step of a restart goroutine, with what it meets: whether the select takes the
    closed channel, and the outcome of [startPlugin]. *)
Definition wstep (sawDone : bool) (env : startEnv) (w : worker) (p : Pool) : option (worker * Manager) :=
  let m := mgr p in
  match w with
  | RWait name pc n =>
      if sawDone then (if done_closed m then Some (RDone, m) else None)
      else Some (RStart name pc n, m)
  | RStart name pc n =>
      match (startPlugin name pc env).2 with
      | Err _ => Some (if bool_decide (S n < length backoff) then RWait name pc (S n) else RMark name, m)
      | Ok inst0 =>
          let inst := set_breaker (NewCircuitBreaker name (FailureThreshold pc)
                        (SuccessThreshold pc) (Cooldown pc)) inst0 in
          let '(l, m) := alloc inst m in Some (RHold name l, m)
      end
  | RHold name l =>
      if mutex_free p then
        if closed m then Some (RKill l, m)
        else let '(old, m) := swapPlugin name l m in
             Some (if old is Some lo then RKill lo else RDone, m)
      else None
  | RKill l => Some (RDone, set_insts (kill_at l (insts m)) m)
  | RMark name => if mutex_free p then Some (RDone, markFailed name m) else None
  | RDone => None
  end.

(** One step of [Close]. *)
Definition close_step (p : Pool) : option Pool :=
  let m := mgr p in
  match closing p with
  | COpen => Some (mkPool (mkManager (plugins m) (insts m) (closed m) true) (workers p) CDone)
  | CDone => Some (mkPool (mkManager (plugins m) (insts m) true (done_closed m)) (workers p) CFlag)
  | CFlag => Some (mkPool (mkManager ∅ (insts m) (closed m) (done_closed m)) (workers p)
                     (CKilling ((map_to_list (plugins m)).*2)))
  | CKilling (l :: ls) => Some (mkPool (set_insts (kill_at l (insts m)) m) (workers p) (CKilling ls))
  | CKilling [] => Some (mkPool m (workers p) CFinished)
  | CFinished => None
  end.

(** What happens next: a half of a plugin call on an instance, a step of a restart, a
    step of [Close]. *)
Inductive pevent :=
  | PBegin (l : nat) (name : string) (now : Time)
  | PEnd (l : nat) (name : string) (o : rpc_obs)
  | PWorker (i : nat) (sawDone : bool) (env : startEnv)
  | PClose.

Definition pstep (ev : pevent) (p : Pool) : option Pool :=
  let m := mgr p in
  match ev with
  | PBegin l name now =>
      inst ← insts m !! l;
      Some (mkPool (set_insts (<[l := (callPlugin_begin name now inst).1.2]> (insts m)) m) (workers p) (closing p))
  | PEnd l name o =>
      inst ← insts m !! l;
      let '(_, inst', _, restart) := callPlugin_end name o inst in
      Some (mkPool (set_insts (<[l := inst']> (insts m)) m)
              (workers p ++ (if restart : bool then [RWait name (cfg inst) 0] else [])) (closing p))
  | PWorker i sawDone env =>
      w ← workers p !! i;
      '(w', m') ← wstep sawDone env w p;
      Some (mkPool m' (<[i := w']> (workers p)) (closing p))
  | PClose => close_step p
  end.

Fixpoint prun (evs : list pevent) (p : Pool) : option Pool :=
  match evs with
  | [] => Some p
  | ev :: evs => p ← pstep ev p; prun evs p
  end.

(** The gateway once [NewManager] has returned. *)
Definition started (m : Manager) : Pool := mkPool m [] COpen.

(** ** Who answers for a process *)

Definition holding (w : worker) : list nat := match w with RHold _ l | RKill l => [l] | _ => [] end.
Definition mapped_list (m : Manager) : list nat := (map_to_list (plugins m)).*2.
Definition killing (c : closePhase) : list nat := match c with CKilling ls => ls | _ => [] end.

(** In the map, in the hands of a restart, or on the list of [Close]. *)
Definition owned (p : Pool) : list nat := mapped_list (mgr p) ++ (workers p ≫= holding) ++ killing (closing p).

(** What the phase of [Close] says about the manager. *)
Definition phase_ok (p : Pool) : Prop :=
  match closing p with
  | COpen | CDone => closed (mgr p) = false
  | CFlag => closed (mgr p) = true
  | CKilling _ | CFinished => closed (mgr p) = true ∧ plugins (mgr p) = ∅
  end.

Record pool_inv (p : Pool) : Prop := {
  pi_live : ∀ l, live (mgr p) l ↔ l ∈ owned p;
  pi_once : NoDup (owned p);
  pi_closed : phase_ok p;
}.

(** [p] with other owners in another order. *)
Lemma pool_inv_perm p p' :
  pool_inv p → owned p' ≡ₚ owned p → (∀ l, live (mgr p') l ↔ live (mgr p) l) →
  phase_ok p' → pool_inv p'.
Proof.
  intros [Hl Hn _] Hp Hlive Hc. split; [|by rewrite Hp|done]. intros l. by rewrite Hlive, Hl, Hp.
Qed.

(** A process more, with an owner. *)
Lemma pool_inv_add p p' l :
  pool_inv p → owned p' ≡ₚ l :: owned p → ¬ live (mgr p) l →
  (∀ l', live (mgr p') l' ↔ l' = l ∨ live (mgr p) l') →
  phase_ok p' → pool_inv p'.
Proof.
  intros [Hl Hn _] Hp Hnew Hlive Hc. split; [| |done].
  - intros l'. by rewrite Hlive, Hl, Hp, elem_of_cons.
  - rewrite Hp. apply NoDup_cons. split; [by rewrite <- Hl|done].
Qed.

(** One process killed by its owner. *)
Lemma pool_inv_kill p p' l :
  pool_inv p → owned p ≡ₚ l :: owned p' → insts (mgr p') = kill_at l (insts (mgr p)) →
  phase_ok p' → pool_inv p'.
Proof.
  intros [Hl Hn _] Hp Hk Hc. rewrite Hp in Hn. apply NoDup_cons in Hn as [Hni Hn]. split; [|done|done].
  intros l'. specialize (Hl l'). rewrite Hp, elem_of_cons in Hl. unfold live in *. rewrite Hk. unfold kill_at. split.
  - intros (inst & [(-> & i & ? & ->)|[Hne E]]%lookup_alter_Some & Hi); [done|].
    destruct (proj1 Hl) as [->|?]; [by eauto|done|done].
  - intros Hin. assert (l' ≠ l) by by intros ->. destruct (proj2 Hl) as (inst & E & Hi); [by right|].
    exists inst. by rewrite lookup_alter_ne.
Qed.

(** ** Each step *)

Lemma workers_insert (ws : list worker) i w w' :
  ws !! i = Some w → ∃ ws1 ws2, ws = ws1 ++ w :: ws2 ∧ <[i := w']> ws = ws1 ++ w' :: ws2.
Proof.
  intros Hi. exists (take i ws), (drop (S i) ws). split; [by symmetry; apply take_drop_middle|].
  apply insert_take_drop. by eapply lookup_lt_Some.
Qed.

Lemma holding_middle ws1 w ws2 : (ws1 ++ w :: ws2) ≫= holding = (ws1 ≫= holding) ++ holding w ++ (ws2 ≫= holding).
Proof. by rewrite bind_app, bind_cons. Qed.

Lemma mapped_swap m name l :
  match plugins m !! name with
  | Some lo => lo :: mapped_list (swapPlugin name l m).2 ≡ₚ l :: mapped_list m
  | None => mapped_list (swapPlugin name l m).2 ≡ₚ l :: mapped_list m
  end.
Proof.
  unfold mapped_list, swapPlugin. cbn. destruct (plugins m !! name) as [lo|] eqn:E.
  - rewrite <- insert_delete_eq, map_to_list_insert by apply lookup_delete_eq. cbn.
    rewrite <- (insert_delete_id (plugins m) name lo E) at 2. rewrite map_to_list_insert by apply lookup_delete_eq.
    cbn. apply Permutation_swap.
  - by rewrite map_to_list_insert.
Qed.

Lemma alloc_live m inst l :
  killed inst = false → ¬ live m (alloc inst m).1 ∧
  (live (alloc inst m).2 l ↔ l = (alloc inst m).1 ∨ live m l).
Proof.
  intros Hk. unfold alloc, live. cbn. set (l0 := fresh (dom (insts m))).
  assert (insts m !! l0 = None) as Hf by apply not_elem_of_dom, is_fresh. split; [intros (? & ? & _); congruence|]. split.
  - intros (i & [[<- <-]|[? ?]]%lookup_insert_Some & ?); eauto.
  - intros [->|(i & E & ?)]; [exists inst; by rewrite lookup_insert_eq|]. exists i.
    rewrite lookup_insert_ne by congruence. done.
Qed.

Lemma inv_call p l inst inst' ws :
  pool_inv p → insts (mgr p) !! l = Some inst → killed inst' = killed inst → ws ≫= holding = [] →
  pool_inv (mkPool (set_insts (<[l := inst']> (insts (mgr p))) (mgr p)) (workers p ++ ws) (closing p)).
Proof.
  intros Hp El Hk Hws. eapply pool_inv_perm; [done| | |exact (pi_closed p Hp)].
  - unfold owned, mapped_list. cbn. by rewrite bind_app, Hws, app_nil_r.
  - intros l'. cbn. by apply (live_insert (mgr p) l l' inst).
Qed.

(** The goroutine at [i] lets go of [ls] and takes [ls']. *)
Lemma owned_worker p i w w' m' c :
  workers p !! i = Some w →
  ∃ rest, owned p ≡ₚ mapped_list (mgr p) ++ holding w ++ rest ++ killing (closing p) ∧
    owned (mkPool m' (<[i := w']> (workers p)) c) ≡ₚ mapped_list m' ++ holding w' ++ rest ++ killing c.
Proof.
  intros Hi. destruct (workers_insert _ i w w' Hi) as (ws1 & ws2 & E1 & E2).
  exists ((ws1 ≫= holding) ++ (ws2 ≫= holding)). unfold owned. cbn [mgr workers closing].
  rewrite E2, E1, !holding_middle. split; solve_Permutation.
Qed.

Lemma inv_start p i name pc n env inst0 :
  pool_inv p → workers p !! i = Some (RStart name pc n) → (startPlugin name pc env).2 = Ok inst0 →
  let inst := set_breaker (NewCircuitBreaker name (FailureThreshold pc) (SuccessThreshold pc) (Cooldown pc)) inst0 in
  pool_inv (mkPool (alloc inst (mgr p)).2 (<[i := RHold name (alloc inst (mgr p)).1]> (workers p)) (closing p)).
Proof.
  intros Hp Hi Hs%startPlugin_alive inst. assert (killed inst = false) as Hk by done.
  destruct (owned_worker p i _ (RHold name (alloc inst (mgr p)).1) (alloc inst (mgr p)).2 (closing p) Hi) as (rest & E1 & E2).
  eapply (pool_inv_add p _ (alloc inst (mgr p)).1); [done| | | |exact (pi_closed p Hp)].
  - rewrite E2, E1. cbn [holding app]. unfold mapped_list, alloc. cbn [snd plugins]. solve_Permutation.
  - by apply (alloc_live _ _ 0).
  - intros l. by apply alloc_live.
Qed.

Lemma inv_hold p i name l :
  pool_inv p → workers p !! i = Some (RHold name l) → mutex_free p = true → closed (mgr p) = false →
  let '(old, m') := swapPlugin name l (mgr p) in
  pool_inv (mkPool m' (<[i := if old is Some lo then RKill lo else RDone]> (workers p)) (closing p)).
Proof.
  intros Hp Hi Hf Hc. pose proof (mapped_swap (mgr p) name l) as Hsw.
  destruct (swapPlugin name l (mgr p)) as [old m'] eqn:Es. unfold swapPlugin in Es. injection Es as <- <-.
  set (w' := match plugins (mgr p) !! name with Some lo => RKill lo | None => RDone end).
  set (m' := mkManager _ _ _ _) in *.
  destruct (owned_worker p i _ w' m' (closing p) Hi) as (rest & E1 & E2).
  eapply pool_inv_perm; [done| |done|].
  - rewrite E2, E1. unfold w'. cbn [holding app]. destruct (plugins (mgr p) !! name) as [lo|]; cbn [holding app].
    + cbn [snd swapPlugin] in Hsw. fold m' in Hsw.
      transitivity ((lo :: mapped_list m') ++ rest ++ killing (closing p)); [solve_Permutation|].
      rewrite Hsw. solve_Permutation.
    + cbn [snd swapPlugin] in Hsw. fold m' in Hsw. rewrite Hsw. solve_Permutation.
  - pose proof (pi_closed p Hp) as Hph. unfold phase_ok, mutex_free in *. cbn.
    destruct (closing p); try done; destruct Hph; congruence.
Qed.

(** A step of a goroutine that neither takes nor gives up a process. *)
Lemma inv_idle p i w w' m' :
  pool_inv p → workers p !! i = Some w → holding w' = holding w → plugins m' = plugins (mgr p) →
  closed m' = closed (mgr p) → (∀ l, live m' l ↔ live (mgr p) l) →
  pool_inv (mkPool m' (<[i := w']> (workers p)) (closing p)).
Proof.
  intros Hp Hi Hh Em Ec Hl. destruct (owned_worker p i w w' m' (closing p) Hi) as (rest & E1 & E2).
  eapply pool_inv_perm; [done| |done|].
  - rewrite E2, E1, Hh. unfold mapped_list. by rewrite Em.
  - pose proof (pi_closed p Hp) as Hph. unfold phase_ok in *. cbn. by rewrite Em, Ec.
Qed.

Lemma inv_worker p i w saw env w' m' :
  pool_inv p → workers p !! i = Some w → wstep saw env w p = Some (w', m') →
  pool_inv (mkPool m' (<[i := w']> (workers p)) (closing p)).
Proof.
  intros Hp Hi Hs. destruct w as [name pc n|name pc n|name l|l|name|]; cbn [wstep] in Hs.
  - destruct saw; [destruct (done_closed _); [|done]|]; injection Hs as <- <-; by eapply inv_idle.
  - destruct (startPlugin name pc env).2 as [inst0|e] eqn:Es.
    + pose proof (inv_start p i name pc n env inst0 Hp Hi Es) as Hst. cbv zeta in Hst.
      destruct (alloc _ (mgr p)) as [l m1]. by injection Hs as <- <-.
    + injection Hs as <- <-. eapply inv_idle; try done. by case_bool_decide.
  - destruct (mutex_free p) eqn:Hf; [|done]. destruct (closed (mgr p)) eqn:Hc.
    + injection Hs as <- <-. by eapply inv_idle.
    + pose proof (inv_hold p i name l Hp Hi Hf Hc) as Hh. destruct (swapPlugin name l (mgr p)) as [old m1].
      by injection Hs as <- <-.
  - injection Hs as <- <-. destruct (owned_worker p i _ RDone (set_insts (kill_at l (insts (mgr p))) (mgr p)) (closing p) Hi)
      as (rest & E1 & E2). eapply (pool_inv_kill p _ l); [done| |done|exact (pi_closed p Hp)].
    rewrite E1, E2. cbn [holding app]. unfold mapped_list, set_insts. cbn [plugins]. solve_Permutation.
  - destruct (mutex_free p); [|done]. injection Hs as <- <-. eapply inv_idle; try done; unfold markFailed;
      destruct (plugins (mgr p) !! name) as [l|]; try done. intros l'. by apply live_alter.
  - done.
Qed.

Lemma inv_close p p' : pool_inv p → close_step p = Some p' → pool_inv p'.
Proof.
  intros Hp Hs. pose proof (pi_closed p Hp) as Hph. unfold close_step in Hs. unfold phase_ok in Hph.
  destruct (closing p) as [| | |[|l ls]|] eqn:Ec; try done; injection Hs as <-.
  - eapply pool_inv_perm; [done|by unfold owned; rewrite Ec|done|done].
  - eapply pool_inv_perm; [done|by unfold owned; rewrite Ec|done|done].
  - eapply pool_inv_perm; [done| |done|done]. unfold owned, mapped_list. rewrite Ec. cbn. rewrite map_to_list_empty. cbn.
    solve_Permutation.
  - eapply pool_inv_perm; [done|by unfold owned; rewrite Ec|done|done].
  - eapply (pool_inv_kill p _ l); [done| |done|done]. unfold owned, mapped_list. rewrite Ec. cbn [mgr workers closing killing set_insts plugins].
    solve_Permutation.
Qed.

Lemma inv_step ev p p' : pool_inv p → pstep ev p = Some p' → pool_inv p'.
Proof.
  intros Hp Hs. destruct ev as [l name now|l name o|i saw env|]; cbn [pstep] in Hs.
  - apply bind_Some in Hs as (inst & El & [= <-]).
    pose proof (inv_call p l inst (callPlugin_begin name now inst).1.2 [] Hp El (killed_begin name now inst) eq_refl) as Hc.
    by rewrite app_nil_r in Hc.
  - apply bind_Some in Hs as (inst & El & Hs). pose proof (killed_end name o inst) as Hk.
    destruct (callPlugin_end name o inst) as [[[ans inst'] ms] restart]. injection Hs as <-. cbn in Hk.
    eapply inv_call; [done|done|done|]. by destruct restart.
  - apply bind_Some in Hs as (w & Hi & ([w' m'] & Hw & [= <-])%bind_Some). by eapply inv_worker.
  - by eapply inv_close.
Qed.

Lemma prun_snoc evs ev p : prun (evs ++ [ev]) p = prun evs p ≫= pstep ev.
Proof.
  revert p. induction evs as [|e evs IH]; intros p; cbn [prun app]; [cbn; by destruct (pstep ev p)|].
  destruct (pstep e p); [apply IH|done].
Qed.

Lemma inv_run evs p p' : pool_inv p → prun evs p = Some p' → pool_inv p'.
Proof.
  revert p. induction evs as [|ev evs IH]; intros p Hp; cbn [prun]; [by intros [= <-]|].
  intros (p1 & Hs & Hr)%bind_Some. eapply IH; [by eapply inv_step|done].
Qed.

(** ** The start of the gateway *)

Lemma inv_loop todo m :
  pool_inv (started m) → NoDup ((λ t, t.1.1) <$> todo) → (∀ t, t ∈ todo → plugins m !! t.1.1 = None) →
  let '(r, m') := NewManager_loop todo m in
  pool_inv (started m') ∧ (is_Ok r = false → ∀ l, ¬ live m' l).
Proof.
  revert m. induction todo as [|[[name pc] env] todo IH]; intros m Hinv Hnd Hnew; cbn; [by split|].
  destruct (startPlugin name pc env).2 as [inst|e] eqn:E.
  - apply NoDup_cons in Hnd as [Hni Hnd]. pose proof (startPlugin_alive _ _ _ _ E) as Hk.
    pose proof (Hnew _ (list_elem_of_here _ _)) as Hn. cbn in Hn.
    destruct (alloc_live m inst 0 Hk) as [Hfr _]. cbn in Hfr.
    apply IH; [|done|].
    + eapply (pool_inv_add (started m) _ (alloc inst m).1); [done| |done| |exact (pi_closed _ Hinv)].
      * pose proof (mapped_swap m name (alloc inst m).1) as Hsw. rewrite Hn in Hsw.
        unfold owned. cbn [mgr workers closing started killing]. exact (Permutation_app_tail _ Hsw).
      * intros l. exact (proj2 (alloc_live m inst l Hk)).
    + intros t Ht. cbn. rewrite lookup_insert_ne; [apply Hnew; by apply list_elem_of_further|].
      intros ->. apply Hni. apply list_elem_of_fmap. by exists t.
  - assert (∀ l b b', ¬ live (mkManager ∅ (foldr kill_at (insts m) (mapped_list m)) b b') l) as Hdead.
    { intros l b b' (inst & Ei & Hk). cbn in Ei. rewrite lookup_kill_all in Ei. apply fmap_Some in Ei as (i & Ei & ->).
      case_bool_decide as Hin; [done|]. apply Hin. assert (l ∈ owned (started m)) as Hl by (apply (pi_live _ Hinv); by exists i).
      unfold owned in Hl. cbn in Hl. by rewrite app_nil_r in Hl. }
    split; [|by intros _ l; apply Hdead]. split; [|by apply NoDup_nil_2|done]. intros l. split; [by intros ?%Hdead|].
    by intros ?%not_elem_of_nil.
Qed.

(** ** Restarts end *)

Definition worker_weight (w : worker) : nat :=
  match w with
  | RWait _ _ n => 4 + 2 * (4 - n)
  | RStart _ _ n => 3 + 2 * (4 - n)
  | RHold _ _ => 2
  | RKill _ | RMark _ => 1
  | RDone => 0
  end.

Lemma wstep_weight saw env w p w' m' : wstep saw env w p = Some (w', m') → worker_weight w' < worker_weight w.
Proof.
  intros Hs. destruct w as [name pc n|name pc n|name l|l|name|]; cbn [wstep] in Hs; try done.
  - destruct saw; [destruct (done_closed _); [|done]|]; injection Hs as <- <-; cbn; lia.
  - destruct (startPlugin name pc env).2 as [inst0|e].
    + destruct (alloc _ (mgr p)). injection Hs as <- <-. cbn. lia.
    + injection Hs as <- <-. case_bool_decide as Hb; cbn in *; lia.
  - destruct (mutex_free p); [|done]. destruct (closed (mgr p)); [injection Hs as <- <-; cbn; lia|].
    destruct (swapPlugin name l (mgr p)) as [[lo|] m1]; injection Hs as <- <-; cbn; lia.
  - injection Hs as <- <-. cbn. lia.
  - destruct (mutex_free p); [|done]. injection Hs as <- <-. cbn. lia.
Qed.

(** How often the restart [i] has moved. *)
Definition moves (i : nat) (ev : pevent) : nat := match ev with PWorker j _ _ => if decide (j = i) then 1 else 0 | _ => 0 end.
Definition total_moves (i : nat) (evs : list pevent) : nat := sum_list (moves i <$> evs).

Lemma total_moves_snoc i evs ev : total_moves i (evs ++ [ev]) = total_moves i evs + moves i ev.
Proof. unfold total_moves. induction evs as [|e evs IH]; cbn in *; lia. Qed.

(** What a step does to the restart [i]: nothing, its start, or one move. *)
Lemma pstep_worker ev p p' i :
  pstep ev p = Some p' →
  (moves i ev = 0 ∧ workers p' !! i = workers p !! i) ∨
  (moves i ev = 0 ∧ workers p !! i = None ∧ ∃ name pc, workers p' !! i = Some (RWait name pc 0)) ∨
  (moves i ev = 1 ∧ ∃ w w', workers p !! i = Some w ∧ workers p' !! i = Some w' ∧ worker_weight w' < worker_weight w).
Proof.
  intros Hs. destruct ev as [l name now|l name o|j saw env|]; cbn [pstep moves] in *.
  - apply bind_Some in Hs as (inst & _ & [= <-]). by left.
  - apply bind_Some in Hs as (inst & _ & Hs). destruct (callPlugin_end name o inst) as [[[ans inst'] ms] restart].
    injection Hs as <-. cbn. destruct restart; [|left; by rewrite app_nil_r].
    destruct (decide (i = length (workers p))) as [->|Hne]; [right; left|left; split; [done|]].
    + rewrite list_lookup_middle by done. split_and!; [done|by apply lookup_ge_None_2|eauto].
    + destruct (decide (i < length (workers p))); [by rewrite lookup_app_l|].
      rewrite !lookup_ge_None_2; [done|lia|rewrite length_app; cbn; lia].
  - apply bind_Some in Hs as (w0 & Hj & ([w' m'] & Hw & [= <-])%bind_Some). cbn. case_decide as E; [|left; by rewrite list_lookup_insert_ne].
    subst j. right. right. split; [done|]. exists w0, w'. rewrite list_lookup_insert_eq by by eapply lookup_lt_Some.
    by apply wstep_weight in Hw.
  - left. unfold close_step in Hs. destruct (closing p) as [| | |[]|]; by simplify_eq.
Qed.

(** A restart makes at most twelve moves. *)
Lemma moves_bound evs m i p :
  prun evs (started m) = Some p → total_moves i evs + from_option worker_weight 12 (workers p !! i) ≤ 12.
Proof.
  revert p. induction evs as [|ev evs IH] using rev_ind; intros p; [by intros [= <-]|].
  rewrite prun_snoc. intros (p1 & Hr & Hs)%bind_Some. specialize (IH p1 Hr). rewrite total_moves_snoc.
  destruct (pstep_worker ev p1 p i Hs) as [[-> ->]|[(-> & Hn & name & pc & ->)|(-> & w & w' & Hw & -> & Hlt)]].
  - lia.
  - rewrite Hn in IH. cbn in *. lia.
  - rewrite Hw in IH. cbn in *. lia.
Qed.

(** Unless it is done or waits for [Close] to release the mutex, a restart can move. *)
Lemma worker_moves p i w :
  workers p !! i = Some w → w ≠ RDone → mutex_free p = true → ∀ env, is_Some (pstep (PWorker i false env) p).
Proof.
  intros Hi Hw Hf env. cbn [pstep]. rewrite Hi. cbn [mbind option_bind].
  destruct w as [name pc n|name pc n|name l|l|name|]; try done; cbn [wstep]; rewrite ?Hf; cbn; try done.
  - destruct (startPlugin name pc env).2; cbn; by eexists.
  - destruct (closed (mgr p)); by eexists.
Qed.

(** After [Close] a restart that holds a process kills it with its next two moves. *)
Lemma held_killed p i w l :
  pool_inv p → workers p !! i = Some w → l ∈ holding w → closing p = CFinished →
  ∃ n, n ≤ 2 ∧ ∀ saw env, ∃ p', prun (replicate n (PWorker i saw env)) p = Some p' ∧ ¬ live (mgr p') l.
Proof.
  intros Hp Hi Hl Hc. pose proof (pi_closed p Hp) as Hph. unfold phase_ok in Hph. rewrite Hc in Hph. destruct Hph as [Hcl _].
  assert (∀ m, ¬ live (set_insts (kill_at l (insts m)) m) l) as Hdead.
  { intros m (inst & E & Hk). cbn in E. unfold kill_at in E. rewrite lookup_alter_eq in E.
    apply fmap_Some in E as (i' & _ & ->). done. }
  assert (mutex_free p = true) as Hf by (unfold mutex_free; by rewrite Hc).
  destruct w as [name pc n|name pc n|name l'|l'|name|]; cbn in Hl; try by apply not_elem_of_nil in Hl.
  - apply list_elem_of_singleton in Hl as <-. exists 2. split; [done|]. intros saw env.
    cbn [replicate prun pstep]. rewrite Hi. cbn [mbind option_bind wstep]. rewrite Hf, Hcl. cbn [mbind option_bind workers].
    rewrite list_lookup_insert_eq by by eapply lookup_lt_Some. cbn [mbind option_bind wstep mgr]. eexists. split; [done|apply Hdead].
  - apply list_elem_of_singleton in Hl as <-. exists 1. split; [lia|]. intros saw env.
    cbn [replicate prun pstep]. rewrite Hi. cbn [mbind option_bind wstep]. eexists. split; [done|apply Hdead].
Qed.

(** ** Properties *)

(** C29: processes are never orphaned while the gateway runs.  A failed start leaves no
    process alive.  After a successful one, in every interleaving of plugin calls, restart
    goroutines and [Close]: the processes alive are exactly those in the plugin map, in the
    hands of one restart goroutine (which starts a process before it is mapped and kills
    the replaced one afterwards) or on the list [Close] is killing, each of them once; when
    no goroutine holds one they are exactly the mapped ones.  Once [Close] has returned
    nothing is mapped any more, and what a late restart still holds it kills with its next
    two moves.  A restart makes at most twelve moves and is never stuck unless [Close]
    holds the mutex. *)
Theorem manager_no_orphans todo :
  NoDup ((λ t, t.1.1) <$> todo) →
  let '(r, m0) := NewManager todo in
  (is_Ok r = false → ∀ l, ¬ live m0 l) ∧
  ∀ evs p, prun evs (started m0) = Some p →
    (∀ l, live (mgr p) l ↔ l ∈ owned p) ∧ NoDup (owned p) ∧
    ((workers p ≫= holding) = [] → mutex_free p = true → ∀ l, live (mgr p) l ↔ mapped (mgr p) l) ∧
    (closing p = CFinished →
       plugins (mgr p) = ∅ ∧
       ∀ l, live (mgr p) l → ∃ i n, n ≤ 2 ∧
         ∀ saw env, ∃ p', prun (replicate n (PWorker i saw env)) p = Some p' ∧ ¬ live (mgr p') l) ∧
    (∀ i, total_moves i evs ≤ 12) ∧
    (∀ i w, workers p !! i = Some w → w ≠ RDone → mutex_free p = true →
       ∀ env, is_Some (pstep (PWorker i false env) p)).
Proof.
  intros Hnd. pose proof (inv_loop todo (mkManager ∅ ∅ false false)) as H0. unfold NewManager.
  destruct (NewManager_loop todo _) as [r m0]. destruct H0 as [H0 Herr]; [|done|done|].
  { split; [|by apply NoDup_nil_2|done]. intros l. unfold live. cbn. setoid_rewrite lookup_empty.
    split; [naive_solver|by intros ?%not_elem_of_nil]. }
  split; [exact Herr|]. intros evs p Hr. pose proof (inv_run evs _ p H0 Hr) as Hp. destruct (Hp) as [Hl Hn Hph].
  split_and!; [exact Hl|exact Hn| | |intros i; pose proof (moves_bound evs m0 i p Hr); lia|intros; by eapply worker_moves].
  - intros Hw Hf l. rewrite Hl. unfold owned, mapped, mapped_list. rewrite Hw.
    assert (killing (closing p) = []) as -> by (unfold mutex_free in Hf; by destruct (closing p)).
    cbn [app]. rewrite app_nil_r. rewrite list_elem_of_fmap. split.
    + intros ([n l'] & -> & Hin%elem_of_map_to_list). by exists n.
    + intros [n Hin%elem_of_map_to_list]. by exists (n, l).
  - intros Hc. unfold phase_ok in Hph. rewrite Hc in Hph. split; [apply Hph|]. intros l Hlive%Hl.
    unfold owned, mapped_list in Hlive. rewrite (proj2 Hph), Hc, map_to_list_empty in Hlive. cbn in Hlive.
    rewrite app_nil_r in Hlive. apply list_elem_of_bind in Hlive as (w & Hlw & [i Hi]%list_elem_of_lookup_1).
    destruct (held_killed p i w l Hp Hi Hlw Hc) as (n & Hn2 & Hk). by exists i, n.
Qed.

(** ** A restart that is late for the shutdown *)

Definition ex_todo : list (string * PluginConfig * startEnv) := [("admin", PluginManager.ex_cfg, ex_env)].
Definition ex_started : Pool := started (NewManager ex_todo).2.

(** A call finds its process gone and starts a restart, whose timer fires just before
    [Close]; the new process is started when [Close] has returned. *)
Definition ex_late : list pevent :=
  [PEnd 0 "admin" (mkObs (RpcErr "EOF") false false true 5); PWorker 0 false ex_env;
   PClose; PClose; PClose; PClose; PClose; PWorker 0 false ex_env].

Definition ex_late_pool : option Pool := Eval vm_compute in prun ex_late ex_started.
Lemma ex_late_eq : prun ex_late ex_started = ex_late_pool.
Proof. vm_compute. reflexivity. Qed.

Lemma ex_late_alive : ∃ p, ex_late_pool = Some p ∧ closing p = CFinished ∧ live (mgr p) 1.
Proof. eexists. split_and!; [reflexivity..|]. eexists. by vm_compute. Qed.

(** [Close] has returned, and a plugin process is alive: if the program exits now, before
    the goroutine's own [Kill], the process stays behind. *)
Theorem restart_outlives_close :
  ∃ p, prun ex_late ex_started = Some p ∧ closing p = CFinished ∧ ∃ l, live (mgr p) l.
Proof. rewrite ex_late_eq. destruct ex_late_alive as (p & -> & Hc & Hl). eauto. Qed.

Lemma manager_no_orphans_witness :
  ∃ p i n, prun ex_late ex_started = Some p ∧ live (mgr p) 1 ∧ n ≤ 2 ∧
    ∃ p', prun (replicate n (PWorker i false ex_env)) p = Some p' ∧ ¬ live (mgr p') 1.
Proof.
  destruct ex_late_alive as (p & Hp & Hc & Hl). rewrite <- ex_late_eq in Hp.
  pose proof (manager_no_orphans ex_todo) as H. unfold ex_started in *. destruct (NewManager ex_todo) as [r m0].
  destruct H as [_ H]; [repeat constructor; apply not_elem_of_nil|].
  destruct (H ex_late p Hp) as (_ & _ & _ & H4 & _). destruct (H4 Hc) as [_ H5]. destruct (H5 1 Hl) as (i & n & Hn & Hk).
  exists p, i, n. split; [exact Hp|]. split; [exact Hl|]. split; [exact Hn|]. exact (Hk false ex_env).
Defined.
