(* ===== verification/Balancer.v ===== *)
(** * internal/proxy: the round-robin balancer and the single backend

    Both forward through net/http's [ReverseProxy], whose request side is modelled
    as far as it decides what goes upstream: the joined path, decoded and as written, hop-by-hop and forwarding headers, the
    refused protocol switch, [Rewrite] and the response copy.  What comes back from
    the wire is the parameter [Env]: per iteration of the loop the round trip's
    result, whether the client has gone, and a health flag another goroutine may
    have stored just before it is loaded.  The pool is a component of the state,
    reached through the class [HasPool]. *)

From S2P Require Import Prelude GoStrings GoNet GoUrl Http.
From Stdlib Require Import Ascii.

(** ** URLs and outbound requests *)

Record URL := mkURL { u_Scheme : string; u_Host : string; u_Path : string; u_RawPath : string; u_RawQuery : string }.

Record outRequest := mkOut {
  o_Method : string; o_Scheme : string; o_Addr : string; o_Path : string; o_RawPath : string;
  o_Query : string;   o_Host : string; o_Header : headers; o_Body : body; o_ContentLength : Z;
}.

(** ** The header work of [ReverseProxy] *)

Definition trimOWS (s : string) : string :=
  let l := trim_left [" "; bytes [9%Z]] s in srev (trim_left [" "; bytes [9%Z]] (srev l)).

Definition header_tokens (values : list string) : list string :=
  values ≫= (λ v, trimOWS <$> Split v ",").

Definition header_values (h : headers) (k : string) : list string := default [] (h !! k).

Definition upgradeType (h : headers) : string :=
  if existsb (λ t, EqualFold t "Upgrade") (header_tokens (header_values h "Connection"))
  then Header_Get h "Upgrade" else "".

(** [ascii.IsPrint] *)
Definition IsPrint (s : string) : bool := all_bytes (λ c, (32 <=? byte c) && (byte c <=? 126))%Z s.

Definition hopHeaders : list string :=
  ["Connection"; "Proxy-Connection"; "Keep-Alive"; "Proxy-Authenticate"; "Proxy-Authorization";
   "Te"; "Trailer"; "Transfer-Encoding"; "Upgrade"].

Definition delAll (ks : list string) (h : headers) : headers := foldr Header_Del h ks.

Definition removeHopByHopHeaders (h : headers) : headers :=
  delAll hopHeaders (delAll (filter (λ t, t ≠ "") (header_tokens (header_values h "Connection"))) h).

(** The headers [Rewrite] is given: without hop-by-hop and forwarding headers, but
    with the request's TE: trailers and protocol switch restored. *)
Definition outHeaders (h : headers) : headers :=
  let o := removeHopByHopHeaders h in
  let o := if existsb (λ t, EqualFold t "trailers") (header_tokens (header_values h "Te"))
           then Header_Set "Te" "trailers" o else o in
  let o := if (upgradeType h =? "")%go then o
           else Header_Set "Upgrade" (upgradeType h) (Header_Set "Connection" "Upgrade" o) in
  delAll ["Forwarded"; "X-Forwarded-For"; "X-Forwarded-Host"; "X-Forwarded-Proto"] o.

(** [cleanQueryParams]: a query with a semicolon or a broken escape is parsed and
    encoded again by [reencode]. *)
Fixpoint query_clean (s : string) : bool :=
  match s with
  | "" => true
  | String c s' =>
      if Ascii.eqb c ";" then false
      else if Ascii.eqb c "%" then
        match s' with
        | String a (String b s'') =>
            bool_decide (is_Some (hex_val a)) && bool_decide (is_Some (hex_val b)) && query_clean s''
        | _ => false
        end
      else query_clean s'
  end.
Definition cleanQueryParams (reencode : string → string) (s : string) : string :=
  if query_clean s then s else reencode s.

(** ** Rewriting *)

(** [rewriteFunc(target, apiKey)] on the inbound headers [inH] and the outbound
    ones. *)
Definition rewriteHeaders (apiKey : string) (inH out : headers) : headers :=
  let contentType := Header_Get inH "Content-Type" in
  let accept := Header_Get inH "Accept" in
  let out := delAll (elements (dom inH)) out in
  let out := Header_Set "X-API-Key" apiKey out in
  let out := if (contentType =? "")%go then out else Header_Set "Content-Type" contentType out in
  if (accept =? "")%go then out else Header_Set "Accept" accept out.

(** [pr.SetURL(target)], [pr.Out.Host = target.Host], and the rest of the outbound
    request: no body is sent when the length is 0, and an absent User-Agent stays
    absent. *)
Definition outbound (reencode : string → string) (target : URL) (apiKey : string) (r : Request) : outRequest :=
  let q := cleanQueryParams reencode (RawQuery r) in
  let query := if (u_RawQuery target =? "")%go || (q =? "")%go then u_RawQuery target +:+ q
               else u_RawQuery target +:+ "&" +:+ q in
  let h := rewriteHeaders apiKey (Header r) (outHeaders (Header r)) in
  let h := match h !! "User-Agent" with None => Header_Set "User-Agent" "" h | Some _ => h end in
  let path := joinURLPath (u_Path target) (u_RawPath target) (URL_Path r) (URL_RawPath r) in
  mkOut (Method r) (u_Scheme target) (u_Host target) path.1 path.2
    query (u_Host target) h (if (ContentLength r =? 0)%Z then NoBody else Body r) (ContentLength r).

(** ** Responses *)

Record Response := mkResponse {
  resp_Status : Z; resp_Header : headers; resp_Body : string;
  resp_Aborted : bool;    (** the copy of the body broke off *)
}.

Inductive roundtrip := RTResponse (resp : Response) | RTError (canceled : bool).

(** What [ReverseProxy] makes of the answer.  A 101 always goes to the error handler
    ([handleUpgradeResponse]): [Rewrite] has removed every header of the client, so no
    protocol was asked for, and a response that names one does not match; one that names
    none comes without the writable body the transport gives to a real switch. *)
Definition settled (rt : roundtrip) : roundtrip :=
  match rt with
  | RTResponse resp => if (resp_Status resp =? 101)%Z then RTError false else rt
  | RTError _ => rt
  end.

(** The response copied to the client; a broken copy panics with
    [http.ErrAbortHandler]. *)
Definition copyResponse {S} (resp : Response) (w : World S) : World S :=
  let h := removeHopByHopHeaders (resp_Header resp) in
  let rw := w_rw w in
  let w := set_rw (mkRW (union_with (λ a b, Some (a ++ b)) (rw_header rw) h) (rw_sent rw) (rw_body rw)) w in
  Write (resp_Body resp) (WriteHeader (resp_Status resp) w).

Definition copied (resp : Response) : outcome := if resp_Aborted resp then Panicked else Returned.

(** ** The pool *)

Definition maxAttempts : nat := 2.

Definition isIdempotentMethod (m : string) : bool :=
  (m =? "GET")%go || (m =? "HEAD")%go || (m =? "PUT")%go || (m =? "DELETE")%go.

Record backendEntry := mkEntry { target : URL; url : string; apiKey : string; healthy : bool }.

(** [sent] are the requests that went out, with the iteration and the backend's index. *)
Record Pool := mkPool { backends : list backendEntry; counter : Z; sent : list (nat * nat * outRequest) }.

Definition store_healthy (b : bool) (e : backendEntry) : backendEntry :=
  mkEntry (target e) (url e) (apiKey e) b.
Definition mark (idx : nat) (b : bool) (p : Pool) : Pool :=
  mkPool (alter (store_healthy b) idx (backends p)) (counter p) (sent p).
Definition send (i idx : nat) (o : outRequest) (p : Pool) : Pool :=
  mkPool (backends p) (counter p) (sent p ++ [(i, idx, o)]).

(** [New]; [url_Parse] is [url.Parse]. *)
Definition New (url_Parse : string → result URL) (cfg : list (string * string)) : result Pool :=
  if bool_decide (cfg = []) then Err (ErrMsg "at least one backend is required")
  else
    entries ← (fix go l := match l with
                | [] => mret []
                | (u, key) :: l' => t ← url_Parse u; es ← go l'; mret (mkEntry t u key true :: es)
                end) cfg;
    mret (mkPool entries 0 []).

Definition Pool_Healthy (p : Pool) : bool := existsb healthy (backends p).

(** The health check's request: it could not be built, failed, or was answered. *)
Inductive probe := NoRequest | NoResponse | Status (code : Z).

Definition checkOne (res : probe) (idx : nat) (p : Pool) : Pool :=
  match res with
  | NoRequest => p
  | NoResponse => mark idx false p
  | Status code => mark idx ((200 <=? code)%Z && (code <? 300)%Z) p
  end.

(** [checkAll] runs the checks concurrently: each stores its own flag, in any order. *)
Definition checkAll (results : list (nat * probe)) (p : Pool) : Pool :=
  foldl (λ p '(idx, res), checkOne res idx p) p results.

(** What [select] of the loop receives; [Close] cancels the context and waits. *)
Inductive loopEvent := TickerC (results : list (nat * probe)) | CtxDone.

Fixpoint healthLoop (evs : list loopEvent) (p : Pool) : Pool :=
  match evs with
  | [] | CtxDone :: _ => p
  | TickerC results :: evs => healthLoop evs (checkAll results p)
  end.

Class HasPool (S : Type) := {
  pool : S → Pool;
  set_pool : Pool → S → S;
  pool_set p s : pool (set_pool p s) = p;
}.

Record Env := mkEnv {
  RoundTrip : nat → outRequest → roundtrip;
  gone : nat → bool;                   (** [r.Context().Err() != nil] *)
  stored : nat → nat → option bool;    (** a concurrent store to the flag *)
}.

(** What an attempt left in its [attemptState]. *)
Inductive attemptState := Committed | Failed | Canceled.

Section ServeHTTP.

Context {S : Type} `{HasPool S} (reencode : string → string) (env : Env).

Definition on_pool (f : Pool → Pool) (w : World S) : World S :=
  set_state (set_pool (f (pool (w_state w))) (w_state w)) w.

(** [entry.healthy.Load()] in iteration [i]. *)
Definition load (i idx : nat) (w : World S) : bool * World S :=
  match stored env i idx with
  | Some b => (b, on_pool (mark idx b) w)
  | None => (match backends (pool (w_state w)) !! idx with Some e => healthy e | None => false end, w)
  end.

(** The [ErrorHandler] of an entry. *)
Definition errorHandler (i idx : nat) (canceled : bool) (w : World S) : attemptState * World S :=
  if canceled || gone env i then (Canceled, w) else (Failed, on_pool (mark idx false) w).

(** One [rp.ServeHTTP] through the entry at [idx]. *)
Definition attempt (i idx : nat) (e : backendEntry) (r : Request) (w : World S)
    : outcome * attemptState * World S :=
  if negb (IsPrint (upgradeType (Header r))) then
    let '(st, w) := errorHandler i idx false w in (Returned, st, w)
  else
    let o := outbound reencode (target e) (apiKey e) r in
    let w := on_pool (send i idx o) w in
    match settled (RoundTrip env i o) with
    | RTResponse resp => (copied resp, Committed, copyResponse resp w)
    | RTError canceled => let '(st, w) := errorHandler i idx canceled w in (Returned, st, w)
    end.

Definition giveUp (attempts : nat) (w : World S) : outcome * World S :=
  if bool_decide (attempts = 0) then reject "no healthy backends" 502 w else reject "bad gateway" 502 w.

Definition visit (start : Z) (n i : nat) : nat :=
  Z.to_nat (wrapu64 (start + Z.of_nat i) `mod` Z.of_nat n).

(** The loop from iteration [i] on; [remaining] is [n - i]. *)
Fixpoint serve_loop (start : Z) (n remaining i attempts : nat) (r : Request) (w : World S)
    : outcome * World S :=
  match remaining with
  | 0 => giveUp attempts w
  | Datatypes.S rest =>
      if negb (attempts <? maxAttempts)%nat then giveUp attempts w
      else
        let idx := visit start n i in
        let '(up, w) := load i idx w in
        match backends (pool (w_state w)) !! idx with
        | Some e =>
            if negb up then serve_loop start n rest (i + 1) attempts r w
            else match attempt i idx e r w with
                 | (Panicked, _, w) => (Panicked, w)
                 | (Returned, Committed, w) => (Returned, w)
                 | (Returned, Canceled, w) => (Returned, w)
                 | (Returned, Failed, w) =>
                     if negb (isIdempotentMethod (Method r)) then giveUp (attempts + 1) w
                     else serve_loop start n rest (i + 1) (attempts + 1) r w
                 end
        | None => (Panicked, w)
        end
  end.

(** A replay sends the buffered body; a nil and an empty one are both sent as no
    body, since the length is then 0. *)
Definition replayable (ctx : Context) (r : Request) : Request :=
  if (GetBodyBytes ctx =? "")%go then r
  else set_Body (BodyStream (GetBodyBytes ctx) false) (ContentLength r) r.

Definition Balancer_ServeHTTP : Handler S := λ ctx r w,
  let p := pool (w_state w) in
  let start := counter p in
  let w := on_pool (λ p, mkPool (backends p) (wrapu64 (counter p + 1)) (sent p)) w in
  let n := length (backends p) in
  serve_loop start n n 0 0 (replayable ctx r) w.

(** ** internal/proxy/single *)

Definition single_ServeHTTP (target : URL) (apiKey : string) : Handler S := λ ctx r w,
  let fail (canceled : bool) w :=
    if canceled || gone env 0 then (Returned, w)
    else reject "bad gateway" 502 (Inc "UpstreamErrorsTotal" ["transport"] w) in
  if negb (IsPrint (upgradeType (Header r))) then fail false w
  else
    let o := outbound reencode target apiKey r in
    let w := on_pool (send 0 0 o) w in
    match settled (RoundTrip env 0 o) with
    | RTResponse resp => (copied resp, copyResponse resp w)
    | RTError canceled => fail canceled w
    end.

End ServeHTTP.

(** ** Lemmas: headers *)

(** Header maps as the server parses them have canonical keys. *)
Definition canonical (h : headers) : Prop := ∀ k, k ∈ dom h → CanonicalHeaderKey k = k.

Lemma delAll_lookup ks h k :
  delAll ks h !! k = if decide (k ∈ CanonicalHeaderKey <$> ks) then None else h !! k.
Proof.
  induction ks as [|k0 ks IH]; [cbn; by rewrite decide_False by apply not_elem_of_nil|].
  change (delAll (k0 :: ks) h) with (delete (CanonicalHeaderKey k0) (delAll ks h)).
  rewrite fmap_cons, lookup_delete.
  destruct (decide (CanonicalHeaderKey k0 = k)) as [<-|Hne].
  - rewrite decide_True; [done|]. apply list_elem_of_here.
  - rewrite IH. destruct (decide (k ∈ CanonicalHeaderKey <$> ks)).
    + rewrite decide_True; [done|]. by apply list_elem_of_further.
    + rewrite decide_False; [done|]. rewrite not_elem_of_cons. split; [congruence|done].
Qed.

Lemma delAll_dom ks h : dom (delAll ks h) ⊆ dom h.
Proof.
  intros k. rewrite !elem_of_dom, delAll_lookup. destruct (decide _); [by intros []|done].
Qed.

Lemma header_tokens_dom h k f :
  existsb f (header_tokens (header_values h k)) = true → k ∈ dom h.
Proof.
  unfold header_values. rewrite elem_of_dom. destruct (h !! k); [by eexists|]. cbn. done.
Qed.

Lemma Header_Get_dom h k : Header_Get h k ≠ "" → CanonicalHeaderKey k ∈ dom h.
Proof.
  unfold Header_Get. rewrite elem_of_dom. destruct (h !! CanonicalHeaderKey k); [by eexists|done].
Qed.

Lemma Header_Set_dom k v (h D : headers) :
  CanonicalHeaderKey k ∈ dom D → dom h ⊆ dom D → dom (Header_Set k v h) ⊆ dom D.
Proof.
  intros Hk Hh. unfold Header_Set. rewrite dom_insert.
  apply union_subseteq. split; [by apply singleton_subseteq_l|done].
Qed.

(** [Rewrite] is given no header the client did not send. *)
Lemma outHeaders_dom h : dom (outHeaders h) ⊆ dom h.
Proof.
  unfold outHeaders. etrans; [apply delAll_dom|].
  assert (dom (removeHopByHopHeaders h) ⊆ dom h) as Hr.
  { unfold removeHopByHopHeaders. etrans; apply delAll_dom. }
  set (o1 := if existsb _ _ then _ else _). assert (dom o1 ⊆ dom h) as H1.
  { unfold o1. destruct (existsb _ _) eqn:E; [|done]. apply header_tokens_dom in E.
    by apply Header_Set_dom. }
  destruct (String.eqb_spec (upgradeType h) "") as [_|Hu]; [done|].
  set (v := upgradeType h). unfold upgradeType in Hu.
  destruct (existsb (λ t, EqualFold t "Upgrade") _) eqn:E; [|done].
  apply header_tokens_dom in E. apply Header_Get_dom in Hu. by repeat apply Header_Set_dom.
Qed.

Lemma client_headers_removed h : canonical h → delAll (elements (dom h)) (outHeaders h) = ∅.
Proof.
  intros Hc. apply map_eq. intros k. rewrite lookup_empty, delAll_lookup.
  destruct (decide _) as [|Hn]; [done|]. apply not_elem_of_dom. intros Hk%outHeaders_dom.
  apply Hn. apply list_elem_of_fmap. exists k. split; [by rewrite Hc|]. by apply elem_of_elements.
Qed.

(** The headers of an outbound request. *)
Definition forwarded_headers (apiKey : string) (inH : headers) : headers :=
  let opt k v (h : headers) := if (v =? "")%go then h else <[k := [v]]> h in
  opt "Accept" (Header_Get inH "Accept") (opt "Content-Type" (Header_Get inH "Content-Type")
    {["User-Agent" := [""]; "X-Api-Key" := [apiKey]]}).

Lemma outbound_headers reencode t key r :
  canonical (Header r) → o_Header (outbound reencode t key r) = forwarded_headers key (Header r).
Proof.
  intros Hc. unfold outbound, rewriteHeaders, forwarded_headers. cbn [o_Header].
  rewrite client_headers_removed by done. unfold Header_Set.
  change (CanonicalHeaderKey "X-API-Key") with "X-Api-Key".
  change (CanonicalHeaderKey "Content-Type") with "Content-Type".
  change (CanonicalHeaderKey "Accept") with "Accept".
  change (CanonicalHeaderKey "User-Agent") with "User-Agent".
  destruct (_ =? _)%go, (_ =? _)%go; rewrite !lookup_insert_ne by done; rewrite lookup_empty;
    apply map_eq; intros k; rewrite !lookup_insert, ?lookup_singleton, ?lookup_empty; repeat case_decide; congruence.
Qed.

(** ** Lemmas: the order of visits *)

Lemma visit_eq start n i :
  (0 ≤ start)%Z → (start + Z.of_nat n ≤ 2 ^ 64)%Z → i < n →
  Z.of_nat (visit start n i) = ((start + Z.of_nat i) `mod` Z.of_nat n)%Z.
Proof.
  intros. unfold visit. rewrite wrapu64_id by lia.
  pose proof (Z.mod_pos_bound (start + Z.of_nat i) (Z.of_nat n)). lia.
Qed.

Lemma visit_lt start n i : 0 < n → visit start n i < n.
Proof.
  intros. unfold visit. pose proof (Z.mod_pos_bound (wrapu64 (start + Z.of_nat i)) (Z.of_nat n)). lia.
Qed.

Lemma visit_inj start n i j :
  (0 ≤ start)%Z → (start + Z.of_nat n ≤ 2 ^ 64)%Z → i < n → j < n →
  visit start n i = visit start n j → i = j.
Proof.
  intros Hs Hn Hi Hj E. apply (f_equal Z.of_nat) in E. rewrite !visit_eq in E by done.
  pose proof (Z.div_mod (start + Z.of_nat i) (Z.of_nat n) ltac:(lia)) as Hdi.
  pose proof (Z.div_mod (start + Z.of_nat j) (Z.of_nat n) ltac:(lia)) as Hdj.
  rewrite E in Hdi.
  assert ((start + Z.of_nat i) / Z.of_nat n = (start + Z.of_nat j) / Z.of_nat n)%Z by nia. nia.
Qed.

Lemma visit_surj start n idx :
  (0 ≤ start)%Z → (start + Z.of_nat n ≤ 2 ^ 64)%Z → idx < n → ∃ j, j < n ∧ visit start n j = idx.
Proof.
  intros Hs Hn Hi. set (d := ((Z.of_nat idx - start) `mod` Z.of_nat n)%Z).
  assert (0 ≤ d < Z.of_nat n)%Z by (apply Z.mod_pos_bound; lia).
  exists (Z.to_nat d). split; [lia|]. apply Nat2Z.inj. rewrite visit_eq by lia.
  rewrite Z2Nat.id by lia. unfold d. rewrite Zplus_mod_idemp_r.
  replace (start + (Z.of_nat idx - start))%Z with (Z.of_nat idx) by lia. apply Z.mod_small. lia.
Qed.

(** ** Lemmas: the loop *)

(** The writer after [http.Error] and after a response was copied. *)
Definition error_rw (msg : string) (code : Z) (rw : ResponseWriter) : ResponseWriter :=
  w_rw (http_Error msg code (mkWorld rw false (mkCells 0 "" (mkAuthzResult "" "" "") 0) [] 0
                               (λ _, 0%Z) 0 (λ _, "") 0 [] tt)).
Definition copy_rw (resp : Response) (rw : ResponseWriter) : ResponseWriter :=
  w_rw (copyResponse resp (mkWorld rw false (mkCells 0 "" (mkAuthzResult "" "" "") 0) [] 0
                               (λ _, 0%Z) 0 (λ _, "") 0 [] tt)).

Lemma http_Error_rw {S} msg code (w : World S) : w_rw (http_Error msg code w) = error_rw msg code (w_rw w).
Proof. unfold error_rw, http_Error, WriteHeader. cbn. by destruct (w_recorder w). Qed.
Lemma copyResponse_rw {S} resp (w : World S) : w_rw (copyResponse resp w) = copy_rw resp (w_rw w).
Proof. unfold copy_rw, copyResponse, WriteHeader. cbn. by destruct (w_recorder w). Qed.
Lemma http_Error_state {S} msg code (w : World S) : w_state (http_Error msg code w) = w_state w.
Proof. unfold http_Error, WriteHeader. cbn. by destruct (w_recorder w). Qed.
Lemma copyResponse_state {S} resp (w : World S) : w_state (copyResponse resp w) = w_state w.
Proof. unfold copyResponse, WriteHeader. cbn. by destruct (w_recorder w). Qed.

Section Loop.

Context {S : Type} `{HasPool S} (reencode : string → string) (env : Env).
(** The backends when the request came in, its number and the request. *)
Context (B0 : list backendEntry) (start : Z) (r : Request).
Context (start_range : (0 ≤ start)%Z) (no_wrap : (start + Z.of_nat (length B0) ≤ 2 ^ 64)%Z).
Context (plain : IsPrint (upgradeType (Header r)) = true).

Abbreviation n := (length B0).
Implicit Types w : World S.

(** Backend [visit j], when its flag is loaded in iteration [j]. *)
Definition up (j : nat) : bool :=
  let idx := visit start n j in
  match stored env j idx with
  | Some b => b
  | None => match B0 !! idx with Some e => healthy e | None => false end
  end.

(** What an attempt ended in. *)
Definition attempt_result (a : nat * nat * outRequest) : attemptState :=
  match settled (RoundTrip env a.1.1 a.2) with
  | RTResponse _ => Committed
  | RTError c => if c || gone env a.1.1 then Canceled else Failed
  end.

(** An attempt of iteration [i] or later: the visited backend was up, and was sent
    the rewritten request. *)
Definition attempt_ok (i : nat) (a : nat * nat * outRequest) : Prop :=
  ∃ j e, a = (j, visit start n j, outbound reencode (target e) (apiKey e) r) ∧
    i ≤ j < n ∧ up j = true ∧ B0 !! visit start n j = Some e.

(** How the client is answered, given the attempts [l]. *)
Definition answered (attempts : nat) (l : list (nat * nat * outRequest)) (rw : ResponseWriter)
    (o : outcome) (rw' : ResponseWriter) : Prop :=
  match last l with
  | None => o = Returned ∧
      rw' = error_rw (if bool_decide (attempts = 0) then "no healthy backends" else "bad gateway") 502 rw
  | Some (j, _, out) =>
      match settled (RoundTrip env j out) with
      | RTResponse resp => o = copied resp ∧ rw' = copy_rw resp rw
      | RTError c => o = Returned ∧ rw' = if c || gone env j then rw else error_rw "bad gateway" 502 rw
      end
  end.

Record served (i attempts : nat) w (o : outcome) w' (l : list (nat * nat * outRequest)) : Prop := {
  served_sent : sent (pool (w_state w')) = sent (pool (w_state w)) ++ l;
  served_ok : Forall (attempt_ok i) l;
  served_once : NoDup ((λ a, a.1.2) <$> l);
  served_bound : attempts + length l ≤ maxAttempts;
  served_retry l1 a : l = l1 ++ [a] → Forall (λ b, attempt_result b = Failed) l1 ∧
    (l1 ≠ [] → isIdempotentMethod (Method r) = true);
  served_all : Forall (λ b, attempt_result b = Failed) l → attempts + length l < maxAttempts →
    l = [] ∨ isIdempotentMethod (Method r) = true →
    ∀ j, i ≤ j < n → up j = true → j ∈ (λ a, a.1.1) <$> l;
  served_answer : answered attempts l (w_rw w) o (w_rw w');
}.

(** The entries not visited yet are as they were. *)
Definition untouched (i : nat) w : Prop :=
  ∀ j, i ≤ j < n → backends (pool (w_state w)) !! visit start n j = B0 !! visit start n j.

Lemma untouched_mark i b w :
  i < n → untouched i w → untouched (i + 1) (on_pool (mark (visit start n i) b) w).
Proof.
  intros Hi Hu j Hj. cbn. rewrite pool_set. cbn. rewrite list_lookup_alter_ne; [apply Hu; lia|].
  intros E. apply visit_inj in E; [lia|done..|lia].
Qed.

Lemma untouched_next i w : untouched i w → untouched (i + 1) w.
Proof. intros Hu j Hj. apply Hu. lia. Qed.

Lemma visited i : i < n → ∃ e, B0 !! visit start n i = Some e.
Proof. intros Hi. apply lookup_lt_is_Some_2, visit_lt. lia. Qed.

Lemma load_spec i e w :
  i < n → untouched i w → B0 !! visit start n i = Some e →
  ∃ w1 e1, load env i (visit start n i) w = (up i, w1) ∧ untouched (i + 1) w1 ∧
    backends (pool (w_state w1)) !! visit start n i = Some e1 ∧ target e1 = target e ∧ apiKey e1 = apiKey e ∧
    sent (pool (w_state w1)) = sent (pool (w_state w)) ∧ w_rw w1 = w_rw w.
Proof.
  intros Hi Hu He. pose proof (Hu i ltac:(lia)) as Hi0. rewrite He in Hi0. unfold load, up.
  destruct (stored env i (visit start n i)) as [b|].
  - eexists _, (store_healthy b e). split; [done|]. split; [by apply untouched_mark|].
    cbn. rewrite pool_set. cbn. rewrite list_lookup_alter_eq, Hi0. done.
  - exists w, e. rewrite Hi0, He. split; [done|]. split; [by apply untouched_next|done].
Qed.

Lemma giveUp_served i attempts w :
  attempts ≤ maxAttempts → (attempts < maxAttempts → ∀ j, i ≤ j < n → up j = false) →
  ∃ w', giveUp attempts w = (Returned, w') ∧ served i attempts w Returned w' [].
Proof.
  intros Ha Hup. unfold giveUp.
  assert (∀ msg, msg = (if bool_decide (attempts = 0) then "no healthy backends" else "bad gateway") →
    served i attempts w Returned (http_Error msg 502 w) []) as Hs.
  { intros msg ->. split.
    - by rewrite http_Error_state, app_nil_r.
    - constructor.
    - constructor.
    - cbn [length]. lia.
    - intros [] ?; discriminate.
    - intros _ Hl _ j Hj E. cbn [length] in Hl. rewrite (Hup ltac:(lia) j Hj) in E. done.
    - unfold answered. cbn [last]. split; [done|]. apply http_Error_rw. }
  destruct (bool_decide (attempts = 0)); eexists; (split; [done|]); by apply Hs.
Qed.

(** A skipped iteration. *)
Lemma served_skip i attempts w w1 o w' l :
  up i = false → w_rw w1 = w_rw w → sent (pool (w_state w1)) = sent (pool (w_state w)) →
  served (i + 1) attempts w1 o w' l → served i attempts w o w' l.
Proof.
  intros Hup Hrw Hst [H1 H2 H3 H4 H5 H6 H7]. split; try done.
  - by rewrite H1, Hst.
  - eapply Forall_impl; [exact H2|]. intros a (j & e & ? & ? & ? & ?). exists j, e. split_and!; try done; lia.
  - intros Hf Hl Hi j Hj E. apply H6; try done. destruct (decide (j = i)); [congruence|lia].
  - by rewrite <- Hrw.
Qed.

(** An attempt that is the last one. *)
Lemma served_last i attempts w o w' a :
  attempts < maxAttempts → attempt_ok i a → i = a.1.1 →
  sent (pool (w_state w')) = sent (pool (w_state w)) ++ [a] →
  (attempt_result a = Failed → isIdempotentMethod (Method r) = false) →
  answered attempts [a] (w_rw w) o (w_rw w') →
  served i attempts w o w' [a].
Proof.
  intros Ha Hok Hi Hsent Hres Hans. split; try done.
  - by constructor.
  - apply NoDup_singleton.
  - cbn. lia.
  - intros l1 b E. apply (app_inj_2 [] l1 [a] [b]) in E as [<- _]; [|done]. split; [constructor|done].
  - intros [Hf _]%Forall_cons Hl [?|Hid]; [done|]. specialize (Hres Hf). congruence.
Qed.

(** A failed attempt that is retried. *)
Lemma served_cons i attempts w w1 o w' a l :
  attempts < maxAttempts → attempt_ok i a → a.1.1 = i → attempt_result a = Failed →
  isIdempotentMethod (Method r) = true → w_rw w1 = w_rw w →
  sent (pool (w_state w1)) = sent (pool (w_state w)) ++ [a] →
  served (i + 1) (attempts + 1) w1 o w' l → served i attempts w o w' (a :: l).
Proof.
  intros Ha Hok Hai Hf Hid Hrw Hst [H1 H2 H3 H4 H5 H6 H7].
  destruct a as [[i' idx] out]. cbn in Hai. subst i'. split.
  - by rewrite H1, Hst, <- app_assoc.
  - constructor; [done|]. eapply Forall_impl; [exact H2|]. intros b (j & e & ? & ? & ? & ?).
    exists j, e. split_and!; try done; lia.
  - cbn. constructor; [|done]. rewrite list_elem_of_fmap. intros (b & E & Hb).
    rewrite Forall_forall in H2. destruct (H2 b Hb) as (j & e & -> & Hj & _). cbn in E.
    destruct Hok as (i2 & e2 & [= <- -> _] & Hi2 & _). apply visit_inj in E; [lia|done..|lia|lia].
  - cbn in H4 |- *. lia.
  - intros [|b l1] c E; cbn in E; [split; [constructor|done]|]. injection E as <- E.
    destruct (H5 l1 c E). split; [by constructor|done].
  - intros [_ Hl]%Forall_cons Hlen _ j Hj E. cbn in Hlen |- *.
    destruct (decide (j = i)) as [->|]; [apply list_elem_of_here|]. apply list_elem_of_further.
    apply H6; try done; [lia|by right|lia].
  - unfold answered in H7 |- *. rewrite Hrw in H7. destruct l as [|b l].
    + unfold attempt_result in Hf. cbn [last fst snd] in Hf, H7 |- *. destruct (settled (RoundTrip env i out)); [done|].
      destruct (_ || _); [done|]. rewrite bool_decide_false in H7 by lia. done.
    + rewrite last_cons_cons. destruct (last (b :: l)) eqn:El; [exact H7|]. by apply last_None in El.
Qed.

(** The three ends of an attempt through the entry of iteration [i]. *)
Lemma attempt_spec i e e1 w :
  i < n → untouched (i + 1) w → backends (pool (w_state w)) !! visit start n i = Some e1 →
  B0 !! visit start n i = Some e → target e1 = target e → apiKey e1 = apiKey e → up i = true →
  ∃ a o st w1, attempt reencode env i (visit start n i) e1 r w = (o, st, w1) ∧
    attempt_ok i a ∧ a.1.1 = i ∧ attempt_result a = st ∧
    sent (pool (w_state w1)) = sent (pool (w_state w)) ++ [a] ∧
    match st with
    | Failed => o = Returned ∧ untouched (i + 1) w1 ∧ w_rw w1 = w_rw w
    | _ => ∀ attempts, answered attempts [a] (w_rw w) o (w_rw w1)
    end.
Proof.
  intros Hi Hu Hl He Ht Hk Hup. unfold attempt. rewrite plain. cbn [negb]. rewrite Ht, Hk.
  set (out := outbound reencode (target e) (apiKey e) r).
  exists (i, visit start n i, out).
  assert (attempt_ok i (i, visit start n i, out)) as Hok.
  { exists i, e. split_and!; try done; lia. }
  unfold attempt_result, answered. cbn [fst snd last].
  destruct (settled (RoundTrip env i out)) as [resp|c] eqn:Er.
  - do 3 eexists. split; [done|]. split_and!; try done.
    + rewrite copyResponse_state. cbn. by rewrite pool_set.
    + intros _. split; [done|]. by rewrite copyResponse_rw.
  - unfold errorHandler. destruct (c || gone env i); do 3 eexists; (split; [done|]); split_and!; try done.
    + cbn. by rewrite pool_set.
    + cbn. by rewrite !pool_set.
    + intros j Hj. cbn. rewrite !pool_set. cbn. rewrite list_lookup_alter_ne; [by apply Hu|].
      intros E. apply visit_inj in E; [lia|done..|lia].
Qed.

Lemma serve_loop_served remaining i attempts w :
  i + remaining = n → attempts ≤ maxAttempts → untouched i w →
  ∃ o w' l, serve_loop reencode env start n remaining i attempts r w = (o, w') ∧
            served i attempts w o w' l.
Proof.
  revert i attempts w. induction remaining as [|rest IH]; intros i attempts w Hn Ha Hu.
  { destruct (giveUp_served i attempts w) as (w' & E & Hs); [done|intros _ j ?; lia|].
    exists Returned, w', []. by split. }
  cbn [serve_loop]. destruct (Nat.ltb_spec attempts maxAttempts) as [Hlt|Hge]; cbn [negb].
  2:{ destruct (giveUp_served i attempts w) as (w' & E & Hs); [done|lia|]. exists Returned, w', []. by split. }
  destruct (visited i ltac:(lia)) as [e He].
  destruct (load_spec i e w ltac:(lia) Hu He) as (w1 & e1 & -> & Hu1 & Hl & Ht & Hk & Hs1 & Hrw1).
  rewrite Hl. destruct (up i) eqn:Hup; cbn [negb].
  2:{ destruct (IH (i + 1) attempts w1) as (o & w' & l & E & Hs); [lia|done|done|].
      exists o, w', l. split; [done|]. by eapply served_skip. }
  destruct (attempt_spec i e e1 w1) as (a & o & st & w2 & -> & Hok & Hai & Hres & Hs2 & Hst); try done; [lia|].
  rewrite Hs1 in Hs2. destruct st.
  - exists o, w2, [a]. split; [by destruct o|]. rewrite Hrw1 in Hst. by apply served_last; rewrite ?Hres.
  - destruct Hst as (-> & Hu2 & Hrw2). destruct (isIdempotentMethod (Method r)) eqn:Hid; cbn [negb].
    + destruct (IH (i + 1) (attempts + 1) w2) as (o & w' & l & E & Hs); [lia|lia|done|].
      exists o, w', (a :: l). split; [done|]. eapply (served_cons i attempts w w2); try done; congruence.
    + unfold giveUp. rewrite bool_decide_false by lia. do 2 eexists. exists [a]. split; [done|].
      apply served_last; try done; [by rewrite http_Error_state|].
      unfold answered, attempt_result in *. destruct a as [[j idx] out]. cbn [fst snd last] in Hres |- *.
      destruct (settled (RoundTrip env j out)); [done|]. destruct (_ || _); [done|]. split; [done|].
      by rewrite http_Error_rw, Hrw2, Hrw1.
  - exists o, w2, [a]. split; [by destruct o|]. rewrite Hrw1 in Hst. by apply served_last; rewrite ?Hres.
Qed.

End Loop.

(** A request that asks for a switch to an unprintable protocol: nothing is sent. *)
Definition refused_with {S} `{HasPool S} (env : Env) (w w' : World S) : Prop :=
  sent (pool (w_state w')) = sent (pool (w_state w)) ∧
  ((∃ msg, w_rw w' = error_rw msg 502 (w_rw w)) ∨ w_rw w' = w_rw w ∧ ∃ j, gone env j = true).

Lemma giveUp_refused {S} `{HasPool S} env m (w w1 : World S) :
  w_rw w1 = w_rw w → sent (pool (w_state w1)) = sent (pool (w_state w)) →
  ∃ w', giveUp m w1 = (Returned, w') ∧ refused_with env w w'.
Proof.
  intros Hrw Hs. unfold giveUp, reject, refused_with. case_bool_decide; eexists; (split; [done|]);
    rewrite http_Error_state; (split; [done|]); left; eexists; rewrite <- Hrw; apply http_Error_rw.
Qed.

Lemma load_refused {S} `{HasPool S} env i idx (w : World S) :
  let w1 := (load env i idx w).2 in
  length (backends (pool (w_state w1))) = length (backends (pool (w_state w))) ∧ w_rw w1 = w_rw w ∧
  sent (pool (w_state w1)) = sent (pool (w_state w)).
Proof. unfold load. destruct (stored env i idx); cbn; [|done]. rewrite pool_set. cbn. by rewrite length_alter. Qed.

Lemma serve_loop_refused {S} `{HasPool S} reencode env start n remaining i attempts r (w : World S) :
  IsPrint (upgradeType (Header r)) = false → remaining ≤ n → n = length (backends (pool (w_state w))) →
  ∃ w', serve_loop reencode env start n remaining i attempts r w = (Returned, w') ∧ refused_with env w w'.
Proof.
  intros Hp. revert i attempts w. induction remaining as [|rest IH]; intros i attempts w Hrem Hn.
  { by apply giveUp_refused. }
  cbn [serve_loop]. destruct (negb (attempts <? maxAttempts)%nat); [by apply giveUp_refused|].
  pose proof (load_refused env i (visit start n i) w) as Hld. destruct (load env i (visit start n i) w) as [up w1].
  destruct Hld as (Hl & Hrw & Hs). cbn [snd] in *.
  destruct (lookup_lt_is_Some_2 (backends (pool (w_state w1))) (visit start n i)) as [e He].
  { rewrite Hl, <- Hn. apply visit_lt. lia. }
  rewrite He. destruct up; cbn [negb].
  2: { destruct (IH (i + 1) attempts w1 ltac:(lia) ltac:(congruence)) as (w' & E & Hr). exists w'.
       unfold refused_with in *. rewrite <- Hrw, <- Hs. by split. }
  unfold attempt. rewrite Hp. cbn [negb]. unfold errorHandler. cbn [orb].
  destruct (gone env i) eqn:Eg; [exists w1; split_and!; [done|split; [done|right; eauto]]|].
  set (w2 := on_pool _ w1). assert (w_rw w2 = w_rw w ∧ sent (pool (w_state w2)) = sent (pool (w_state w)) ∧
    n = length (backends (pool (w_state w2)))) as (Hrw2 & Hs2 & Hl2).
  { unfold w2. cbn. rewrite pool_set. cbn. rewrite length_alter. split_and!; congruence. }
  destruct (negb _); [by apply giveUp_refused|].
  destruct (IH (i + 1) (attempts + 1) w2 ltac:(lia) Hl2) as (w' & E & Hr). exists w'.
  unfold refused_with in *. rewrite <- Hrw2, <- Hs2. by split.
Qed.

#[export] Program Instance Pool_HasPool : HasPool Pool := {| pool p := p; set_pool p _ := p |}.
Next Obligation. done. Qed.

(** ** Lemmas: health checks *)

(** The entry after a check with this result. *)
Definition judged (res : probe) (e : backendEntry) : backendEntry :=
  match res with
  | NoRequest => e
  | NoResponse => store_healthy false e
  | Status code => store_healthy ((200 <=? code)%Z && (code <? 300)%Z) e
  end.

Lemma checkOne_backends res idx p : backends (checkOne res idx p) = alter (judged res) idx (backends p).
Proof. destruct res; [|done..]. cbn. symmetry. apply list_alter_id. by intros. Qed.

Lemma checkAll_cons idx res results p :
  checkAll ((idx, res) :: results) p = checkAll results (checkOne res idx p).
Proof. done. Qed.

Lemma checkAll_length results p : length (backends (checkAll results p)) = length (backends p).
Proof.
  revert p. induction results as [|[idx res] results IH]; intros p; [done|].
  by rewrite checkAll_cons, IH, checkOne_backends, length_alter.
Qed.

Lemma checkAll_other results p idx :
  idx ∉ results.*1 → backends (checkAll results p) !! idx = backends p !! idx.
Proof.
  revert p. induction results as [|[j res] results IH]; intros p Hn; [done|]. cbn in Hn.
  apply not_elem_of_cons in Hn as [Hj Hn]. rewrite checkAll_cons, IH, checkOne_backends by done.
  by apply list_lookup_alter_ne.
Qed.

Lemma checkAll_lookup results p idx res :
  NoDup results.*1 → (idx, res) ∈ results →
  backends (checkAll results p) !! idx = judged res <$> backends p !! idx.
Proof.
  revert p. induction results as [|[j res'] results IH]; intros p Hnd Hin; [by apply elem_of_nil in Hin|].
  rewrite checkAll_cons. cbn in Hnd. apply NoDup_cons in Hnd as [Hj Hnd]. apply elem_of_cons in Hin as [[= <- <-]|Hin].
  - rewrite checkAll_other, checkOne_backends by done. apply list_lookup_alter_eq.
  - rewrite (IH _ Hnd Hin), checkOne_backends, list_lookup_alter_ne; [done|].
    intros ->. apply Hj. by apply (list_elem_of_fmap_2 fst) in Hin.
Qed.

Lemma healthLoop_snoc evs results p :
  Forall (.≠ CtxDone) evs →
  healthLoop (evs ++ [TickerC results]) p = checkAll results (healthLoop evs p) ∧
  length (backends (healthLoop evs p)) = length (backends p).
Proof.
  intros Hf. revert p. induction Hf as [|[rs|] evs Hne Hf IH]; intros p; [done| |done]. cbn.
  destruct (IH (checkAll rs p)) as [-> ->]. by rewrite checkAll_length.
Qed.

(** ** Properties *)

(** C13: a request to the balancer always ends.  One that asks for a switch to an
    unprintable protocol is refused: nothing is sent, and the client, unless it has gone,
    gets a 502.  For any other there are at most two attempts, each at a different backend
    whose health flag was up when it was loaded and each with the request rewritten for
    that backend.  A second attempt is made only for an idempotent method and only after
    the first ended in the reverse proxy's error handler (a transport error or a protocol
    switch nobody asked for) while the client had not canceled.  The client gets the
    response of the last attempt; a client that went away gets nothing; if all attempts
    failed it gets one 502.  A request is given up after fewer than two attempts only when
    its method forbids a retry or no other backend was up, and with no attempt at all only
    when every backend was seen down. *)
Theorem balancer_failover {S} `{HasPool S} reencode env ctx r (w : World S) :
  let p := pool (w_state w) in
  (0 ≤ counter p)%Z → (counter p + Z.of_nat (length (backends p)) ≤ 2 ^ 64)%Z →
  (IsPrint (upgradeType (Header r)) = false →
     ∃ w', Balancer_ServeHTTP reencode env ctx r w = (Returned, w') ∧
       sent (pool (w_state w')) = sent p ∧
       ((∃ msg, w_rw w' = error_rw msg 502 (w_rw w)) ∨ w_rw w' = w_rw w ∧ ∃ j, gone env j = true)) ∧
  (IsPrint (upgradeType (Header r)) = true →
     ∃ o w' l, Balancer_ServeHTTP reencode env ctx r w = (o, w') ∧
       served reencode env (backends p) (counter p) (replayable ctx r) 0 0 w o w' l ∧
       (l = [] → ∀ idx, idx < length (backends p) →
          ∃ j, visit (counter p) (length (backends p)) j = idx ∧ up env (backends p) (counter p) j = false)).
Proof.
  intros p Hs Hn. unfold Balancer_ServeHTTP. fold p. set (w0 := on_pool _ w).
  assert (Header (replayable ctx r) = Header r) as Hh by (unfold replayable; by destruct (_ =? _)%go).
  assert (backends (pool (w_state w0)) = backends p ∧ sent (pool (w_state w0)) = sent p ∧ w_rw w0 = w_rw w)
    as (Hb0 & Hs0 & Hrw0) by (unfold w0; cbn; by rewrite pool_set).
  split; intros Hp.
  { destruct (serve_loop_refused reencode env (counter p) (length (backends p)) (length (backends p)) 0 0
      (replayable ctx r) w0) as (w' & E & Hr); [by rewrite Hh|done|by rewrite Hb0|].
    exists w'. unfold refused_with in Hr. rewrite Hs0, Hrw0 in Hr. by split. }
  destruct (serve_loop_served reencode env (backends p) (counter p) (replayable ctx r) Hs Hn
    ltac:(by rewrite Hh) (length (backends p)) 0 0 w0) as (o & w' & l & E & Hser); [lia|lia| |].
  { intros j _. by rewrite Hb0. }
  exists o, w', l. split; [done|]. split.
  - destruct Hser as [H1 H2 H3 H4 H5 H6 H7]. split; try done. by rewrite H1, Hs0.
  - intros -> idx Hi. destruct (visit_surj (counter p) (length (backends p)) idx) as (j & Hj & <-); try done.
    exists j. split; [done|]. apply not_true_iff_false. intros Hup.
    pose proof (served_all _ _ _ _ _ _ _ _ _ _ _ Hser (Forall_nil_2 _) ltac:(unfold maxAttempts; cbn; lia)
      (or_introl eq_refl) j ltac:(lia) Hup) as Hin. by apply not_elem_of_nil in Hin.
Qed.

Definition ex_pool : Pool :=
  mkPool [mkEntry (mkURL "http" "a:8081" "/" "" "") "http://a:8081/" "ka" true;
          mkEntry (mkURL "http" "b:8081" "" "" "") "http://b:8081" "kb" true] 0 [].
Definition ex_pool_world : World Pool :=
  mkWorld (mkRW ∅ None "") false (mkCells 0 "" (mkAuthzResult "" "" "") 0) [] 0 (λ _, 0%Z) 0 (λ _, "") 0 [] ex_pool.
Definition ex_pool_req (h : headers) : Request :=
  mkRequest "GET" "" "/api/v1/servers" "" "" "h" h NoBody 0 "1.2.3.4:5".

(** The first backend is down, the second answers. *)
Definition ex_env : Env :=
  mkEnv (λ i _, if bool_decide (i = 0) then RTError false else RTResponse (mkResponse 200 ∅ "ok" false))
    (λ _, false) (λ _ _, None).

Lemma balancer_failover_witness :
  ∃ o w' l, Balancer_ServeHTTP id ex_env Background (ex_pool_req ∅) ex_pool_world = (o, w') ∧
    sent (w_state w') = l ∧ length l = 2 ∧ rw_body (w_rw w') = "ok" ∧ o = Returned.
Proof.
  destruct (balancer_failover id ex_env Background (ex_pool_req ∅) ex_pool_world) as [_ Hp].
  - vm_compute. discriminate.
  - vm_compute. discriminate.
  - destruct (Hp eq_refl) as (o & w' & l & E & Hs & _). exists o, w', l. pose proof (served_sent _ _ _ _ _ _ _ _ _ _ _ Hs) as Hl. split; [exact E|].
    split; [exact Hl|].
    vm_compute in E. injection E as <- <-. vm_compute in Hl. subst l. repeat split.
Defined.

(** Nothing of the client's headers goes upstream but its content type and
    accept header: whatever headers a request carries, the backend sees the method,
    the joined path and exactly the backend's API key, those two headers and an
    empty user agent, with the buffered body that was authorized. *)
Theorem outbound_isolated reencode t key ctx r :
  canonical (Header r) → ContentLength r = slen (GetBodyBytes ctx) →
  let o := outbound reencode t key (replayable ctx r) in
  o_Method o = Method r ∧ (o_Path o, o_RawPath o) = joinURLPath (u_Path t) (u_RawPath t) (URL_Path r) (URL_RawPath r) ∧
  o_Addr o = u_Host t ∧ o_Host o = u_Host t ∧
  o_Header o = forwarded_headers key (Header r) ∧
  o_Body o = (if (GetBodyBytes ctx =? "")%go then NoBody else BodyStream (GetBodyBytes ctx) false) ∧
  o_ContentLength o = slen (GetBodyBytes ctx).
Proof.
  intros Hc Hl. cbv zeta. rewrite outbound_headers by (unfold replayable; by destruct (_ =? _)%go).
  unfold replayable, outbound.
  destruct (String.eqb_spec (GetBodyBytes ctx) "") as [E|E];
    cbn [o_Method o_Path o_RawPath o_Addr o_Host o_Body o_ContentLength Method URL_Path URL_RawPath Header
      ContentLength Body set_Body]; rewrite <- surjective_pairing;
    rewrite Hl.
  - by rewrite E.
  - destruct (Z.eqb_spec (slen (GetBodyBytes ctx)) 0) as [E0|_]; [|done].
    destruct (GetBodyBytes ctx); [done|]. unfold slen in E0. cbn in E0. lia.
Qed.

Lemma outbound_isolated_witness :
  o_Header (outbound id (mkURL "http" "a:8081" "/" "" "") "ka" (replayable Background
    (ex_pool_req {["X-Api-Key" := ["k1:s"]; "Cookie" := ["c"]; "Accept" := ["text/plain"]]}))) =
  {["Accept" := ["text/plain"]; "User-Agent" := [""]; "X-Api-Key" := ["ka"]]}.
Proof.
  destruct (outbound_isolated id (mkURL "http" "a:8081" "/" "" "") "ka" Background
    (ex_pool_req {["X-Api-Key" := ["k1:s"]; "Cookie" := ["c"]; "Accept" := ["text/plain"]]}))
    as (_ & _ & _ & _ & E & _).
  - intros k. cbn [Header ex_pool_req]. rewrite !dom_insert, dom_singleton, !elem_of_union, !elem_of_singleton.
    intros [->|[->| ->]]; reflexivity.
  - reflexivity.
  - rewrite E. reflexivity.
Defined.

(** A request that asks for a protocol switch with an unprintable protocol name
    is refused by the reverse proxy before anything is sent; the error handler takes
    that for a backend failure, so one request of this kind marks two healthy
    backends down (here the whole pool) without contacting them. *)
Theorem bad_upgrade_marks_pool_down reencode RoundTrip :
  let r := ex_pool_req {["Connection" := ["upgrade"]; "Upgrade" := [bytes [255%Z]]]} in
  let w' := (Balancer_ServeHTTP reencode (mkEnv RoundTrip (λ _, false) (λ _ _, None)) Background r
               ex_pool_world).2 in
  Pool_Healthy ex_pool = true ∧ Pool_Healthy (w_state w') = false ∧ sent (w_state w') = [] ∧
  fst <$> rw_sent (w_rw w') = Some 502%Z.
Proof. vm_compute. repeat split. Qed.

(** A backend that answers a plain request with 101 counts as failed: it is marked down,
    and the next one is asked. *)
Example unasked_switch_fails_over :
  let env := mkEnv (λ i _, RTResponse (mkResponse (if bool_decide (i = 0) then 101 else 200) ∅ "ok" false))
               (λ _, false) (λ _ _, None) in
  let w' := (Balancer_ServeHTTP id env Background (ex_pool_req ∅) ex_pool_world).2 in
  length (sent (w_state w')) = 2 ∧ (healthy <$> backends (w_state w')) = [false; true] ∧
  fst <$> rw_sent (w_rw w') = Some 200%Z.
Proof. vm_compute. done. Qed.

(** Every tick of the health checks decides every flag anew: whatever requests and
    earlier checks have stored, and in whatever order the checks of the tick finish, a
    backend is up afterwards exactly when its check was answered with a 2xx, and keeps its
    flag when the request could not be built; so the pool is healthy again at the
    first tick at which one backend answers. *)
Theorem health_tick_decides evs results (p : Pool) :
  Forall (.≠ CtxDone) evs → results.*1 ≡ₚ seq 0 (length (backends p)) →
  let p' := healthLoop (evs ++ [TickerC results]) p in
  (∀ idx res, (idx, res) ∈ results →
     backends p' !! idx = judged res <$> backends (healthLoop evs p) !! idx) ∧
  (Exists (λ x, ∃ code, x.2 = Status code ∧ (200 ≤ code < 300)%Z) results → Pool_Healthy p' = true).
Proof.
  intros He Hp. destruct (healthLoop_snoc evs results p He) as [-> Hlen]. cbv zeta.
  assert (NoDup results.*1) as Hnd by (rewrite Hp; apply NoDup_seq).
  split; [by intros; apply checkAll_lookup|].
  intros ([idx res] & Hin & code & Hres & Hc)%Exists_exists. cbn in Hres. subst res.
  assert (idx ∈ seq 0 (length (backends p))) as Hidx
    by (rewrite <- Hp; by apply (list_elem_of_fmap_2 fst) in Hin).
  apply elem_of_seq in Hidx. rewrite <- Hlen in Hidx.
  destruct (lookup_lt_is_Some_2 (backends (healthLoop evs p)) idx) as [e Hb]; [lia|].
  pose proof (checkAll_lookup results (healthLoop evs p) idx _ Hnd Hin) as Hl. rewrite Hb in Hl.
  unfold Pool_Healthy. apply existsb_exists. eexists. split.
  - apply list_elem_of_In. eapply list_elem_of_lookup_2. exact Hl.
  - cbn. lia.
Qed.

Lemma health_tick_decides_witness :
  Pool_Healthy (healthLoop [TickerC [(0, NoResponse); (1, NoResponse)]; TickerC [(1, Status 204); (0, NoResponse)]] ex_pool) = true.
Proof.
  refine (proj2 (health_tick_decides [TickerC [(0, NoResponse); (1, NoResponse)]]
    [(1, Status 204); (0, NoResponse)] ex_pool _ _) _).
  - by constructor.
  - cbn. constructor.
  - constructor. by exists 204%Z.
Defined.
