(* ===== verification/Mediation.v ===== *)
(** * The whole path of a request: nothing is sent upstream unjudged

    The proxy server of cmd/pdag/serve.go around the load balancer, over any
    [Deployment]: a state that implements the interfaces of all components, in which no
    component touches what belongs to another and the authorizer says allow only when
    the plugin of one of the roles does.  A handler is described by what it sends:
    [emits] is a precondition on its context and request and a property of every
    request that goes to a backend while it runs, and each middleware turns the
    description of the handler behind it into its own.  The theorem composes them:
    every request a backend receives was judged, byte for byte, by a plugin of a role of
    a stored key whose secret the client presented. *)

From S2P Require Import Prelude GoStrings GoNet GoUrl Http ServeMux Store MemoryStore Spans ClientIP Authn RateLimit.
From S2P Require Import Authz AuditTrail Gateway Balancer.

(** ** What the components promise each other *)

Class Deployment (S : Type) `{KeyStore S} `{RateLimiter S} `{Authorizer S} `{Publisher S}
    `{Reserver S} `{Tracer S} `{HasPool S} := {
  stored_keys : S → gmap string KeyRecord;
  (** The policy of the plugin of a role. *)
  decides : string → HttpRequest → bool;
  found_stored id s rec : (GetByID id s).1 = Ok (Some rec) → stored_keys s !! id = Some rec;
  allow_decided roles q s plugin reason s' :
    Authorize roles q s = (("allow", plugin, reason), s') → plugin ∈ roles ∧ decides plugin q = true;
  frame_GetByID id s : stored_keys (GetByID id s).2 = stored_keys s ∧ pool (GetByID id s).2 = pool s;
  frame_Allow now p s :
    stored_keys (limiter_Allow now p s).2 = stored_keys s ∧ pool (limiter_Allow now p s).2 = pool s;
  frame_Authorize roles q s :
    stored_keys (Authorize roles q s).2 = stored_keys s ∧ pool (Authorize roles q s).2 = pool s;
  frame_Reserve s : stored_keys (Reserve s).2 = stored_keys s ∧ pool (Reserve s).2 = pool s;
  pool_commit e s : pool (commit e s) = pool s;
  pool_Publish e s : pool (Publish e s).2 = pool s;
  pool_End sp s : pool (End sp s) = pool s;
}.

(** ** What the balancer does to the world *)

(** A relation between worlds that holds of every step of the balancer: changes to the
    response alone, to the health flags and the counter of the pool, and a request sent. *)
Section BalancerSteps.

Context {S : Type} `{HasPool S} (reencode : string → string) (env : Env).
Context (R : World S → World S → Prop) `{!PreOrder R}.

(** The handler's own state and the recorded decision stay. *)
Definition same_view (w w' : World S) : Prop :=
  w_state w' = w_state w ∧ authzResult (w_cells w') = authzResult (w_cells w).

Hypothesis R_view : ∀ w w', same_view w w' → R w w'.
Hypothesis R_flags : ∀ f w, (∀ p, sent (f p) = sent p) → R w (on_pool f w).
Hypothesis R_send : ∀ i idx o w, R w (on_pool (send i idx o) w).

Lemma reject_step msg code w : R w (reject msg code w).2.
Proof. apply R_view. unfold reject, http_Error, WriteHeader. cbn. by destruct (w_recorder w). Qed.

Lemma copyResponse_step resp w : R w (copyResponse resp w).
Proof. apply R_view. unfold copyResponse, WriteHeader. cbn. by destruct (w_recorder w). Qed.

Lemma load_step i idx w : R w (load env i idx w).2.
Proof. unfold load. destruct (stored env i idx); [by apply R_flags|done]. Qed.

Lemma errorHandler_step i idx c w : R w (errorHandler env i idx c w).2.
Proof. unfold errorHandler. destruct (_ || _); [done|by apply R_flags]. Qed.

Lemma attempt_step i idx e r w : R w (attempt reencode env i idx e r w).2.
Proof.
  unfold attempt. destruct (negb _).
  - pose proof (errorHandler_step i idx false w) as Hs. by destruct (errorHandler env i idx false w).
  - set (w1 := on_pool _ w). assert (R w w1) as H1 by apply R_send.
    destruct (settled (RoundTrip env i _)) as [resp|c]; [etrans; [exact H1|apply copyResponse_step]|].
    pose proof (errorHandler_step i idx c w1) as Hs. destruct (errorHandler env i idx c w1). by etrans.
Qed.

Lemma giveUp_step attempts w : R w (giveUp attempts w).2.
Proof. unfold giveUp. case_bool_decide; apply reject_step. Qed.

Lemma serve_loop_step start n remaining i attempts r w :
  R w (serve_loop reencode env start n remaining i attempts r w).2.
Proof.
  revert i attempts w. induction remaining as [|rest IH]; intros i attempts w; [apply giveUp_step|].
  cbn [serve_loop]. destruct (negb _); [apply giveUp_step|].
  pose proof (load_step i (visit start n i) w) as Hl. destruct (load env i (visit start n i) w) as [up w1].
  etrans; [exact Hl|]. cbn [snd]. destruct (backends (pool (w_state w1)) !! visit start n i) as [e|]; [|done].
  destruct up; cbn [negb]; [|apply IH].
  pose proof (attempt_step i (visit start n i) e r w1) as Ha.
  destruct (attempt reencode env i (visit start n i) e r w1) as [[[] []] w2]; try done; etrans; try exact Ha.
  destruct (negb _); [apply giveUp_step|apply IH].
Qed.

Lemma balancer_step ctx r w : R w (Balancer_ServeHTTP reencode env ctx r w).2.
Proof. unfold Balancer_ServeHTTP. etrans; [|apply serve_loop_step]. by apply R_flags. Qed.

End BalancerSteps.

Section Mediation.

Context {S : Type} `{Deployment S} `{JsonLib}.
Context (reencode : string → string) (env : Env).
Context (maxBodySize : Z) (auditOpts : Options) (secrets : HmacService) (resolver : Resolver).

(** The request as it came in, the keys and the backends at that time, and what the
    clock says when the authentication checks the key's expiry. *)
Context (r0 : Request) (K : gmap string KeyRecord) (B : list (URL * string)) (T : Time).

Definition targets (s : S) : list (URL * string) := (λ e, (target e, apiKey e)) <$> backends (pool s).

(** ** What a request has shown on its way *)

(** The request carries the secret of the stored key [rec], which at [T] is enabled, not
    expired and open to the client's address. *)
Definition holder (rec : KeyRecord) : Prop :=
  ∃ keyID secret, credentials r0 keyID secret ∧ K !! keyID = Some rec ∧
    verifies secrets rec secret ∧ key_usable resolver rec r0 T.

Definition identified (ctx : Context) (rec : KeyRecord) : Prop :=
  holder rec ∧ GetRoles ctx = Roles rec ∧ GetPrincipal ctx = Principal rec.

(** What the client sent as the body, read to its end. *)
Definition client_body (b : string) : Prop :=
  (Body r0 = NoBody ∧ b = "") ∨ Body r0 = BodyStream b false.

(** The body in the context is the body of the request, and that of the client. *)
Definition body_agrees (ctx : Context) (r : Request) : Prop :=
  client_body (GetBodyBytes ctx) ∧
  ((Body r = NoBody ∧ GetBodyBytes ctx = "") ∨
   ∃ b, Body r = BodyStream b false ∧ ContentLength r = slen b ∧ GetBodyBytes ctx = b).

Definition buffered (ctx : Context) (r : Request) : Prop :=
  ∃ b n, r = set_Body b n r0 ∧ body_agrees ctx r ∧ ∃ rec, identified ctx rec.

Definition judged (ctx : Context) (r : Request) : Prop :=
  ∃ b n rec role, r = set_Body b n r0 ∧ body_agrees ctx r ∧ identified ctx rec ∧
    role ∈ Roles rec ∧ decides role (pluginRequest ctx r) = true.

(** A request a backend may receive. *)
Definition approved (o : outRequest) : Prop :=
  ∃ ctx r t key, judged ctx r ∧ (t, key) ∈ B ∧ o = outbound reencode t key (replayable ctx r).

(** ** Handlers by what they send *)

Definition emits (P : Context → Request → World S → Prop) (h : Handler S) : Prop :=
  ∀ ctx r w, P ctx r w → stored_keys (w_state w) = K → targets (w_state w) = B →
    ∃ l, sent (pool (w_state (h ctx r w).2)) = sent (pool (w_state w)) ++ l ∧
         Forall (λ a, approved a.2) l.

(** A precondition on the context and the request alone. *)
Definition whenever (P : Context → Request → Prop) : Context → Request → World S → Prop :=
  λ ctx r _, P ctx r.

(** The request as it came, when the [k]-th next reading of the clock is [T]. *)
Definition arrived (k : nat) (_ : Context) (r : Request) (w : World S) : Prop :=
  r = r0 ∧ w_clock w (k + w_tick w) = T.

(** The rest of a handler leaves the pool alone. *)
Lemma emits_same (w w' : World S) :
  pool (w_state w') = pool (w_state w) →
  ∃ l, sent (pool (w_state w')) = sent (pool (w_state w)) ++ l ∧ Forall (λ a, approved a.2) l.
Proof. intros ->. exists []. by rewrite app_nil_r. Qed.

Lemma reject_state msg code (w : World S) : w_state (reject msg code w).2 = w_state w.
Proof. apply http_Error_state. Qed.

Lemma emits_reject msg code (w w' : World S) :
  pool (w_state w) = pool (w_state w') →
  ∃ l, sent (pool (w_state (reject msg code w).2)) = sent (pool (w_state w')) ++ l ∧
       Forall (λ a, approved a.2) l.
Proof. intros E. apply emits_same. by rewrite reject_state. Qed.

Lemma targets_pool s s' : pool s' = pool s → targets s' = targets s.
Proof. unfold targets. by intros ->. Qed.

(** An inner handler, run in a world with the same keys and the same pool. *)
Lemma emits_inner P h ctx r (w w1 : World S) :
  emits P h → P ctx r w1 → stored_keys (w_state w) = K → targets (w_state w) = B →
  stored_keys (w_state w1) = stored_keys (w_state w) ∧ pool (w_state w1) = pool (w_state w) →
  ∃ l, sent (pool (w_state (h ctx r w1).2)) = sent (pool (w_state w)) ++ l ∧ Forall (λ a, approved a.2) l.
Proof.
  intros Hh HP HK HB [E1 E2]. destruct (Hh ctx r w1 HP) as (l & Hl & Hf); [congruence| |].
  - rewrite (targets_pool (w_state w)); [done|congruence].
  - exists l. by rewrite Hl, E2.
Qed.

Lemma writeResult_state ctx d p rs (w : World S) : w_state (writeResult ctx d p rs w) = w_state w.
Proof. unfold writeResult. by destruct (authzResultKey ctx). Qed.

Lemma emits_authz h : emits (whenever judged) h → emits (whenever buffered) (authz_Middleware h).
Proof.
  intros Hh ctx r w (b & n & -> & Hb & rec & Hid) HK HB. unfold authz_Middleware.
  case_bool_decide; [by apply emits_reject; rewrite writeResult_state|].
  destruct (Authorize (GetRoles ctx) (pluginRequest ctx (set_Body b n r0)) (w_state w))
    as [[[d p] rs] s] eqn:Ea.
  pose proof (frame_Authorize (GetRoles ctx) (pluginRequest ctx (set_Body b n r0)) (w_state w)) as Hfr.
  rewrite Ea in Hfr. cbn [snd] in Hfr.
  destruct (String.eqb_spec d "allow") as [->|Hd]; cbn [negb].
  - apply allow_decided in Ea as [Hp Hdec]. rewrite (proj1 (proj2 Hid)) in Hp.
    eapply emits_inner; [done| |done|done|by rewrite writeResult_state].
    exists b, n, rec, p. done.
  - apply emits_reject. rewrite writeResult_state. apply Hfr.
Qed.

Lemma set_Body_id : set_Body (Body r0) (ContentLength r0) r0 = r0.
Proof. by destruct r0. Qed.

Definition located (ctx : Context) (r : Request) : Prop := r = r0 ∧ ∃ rec, identified ctx rec.

Hypothesis limit_range : (0 ≤ maxBodySize < 2 ^ 63 - 1)%Z.

Lemma emits_body h : emits (whenever buffered) h → emits (whenever located) (BodyBuffer maxBodySize h).
Proof.
  intros Hh ctx r w [-> (rec & Hid)] HK HB. rewrite (BodyBuffer_eq _ _ _ _ _ limit_range).
  destruct (Body r0) as [|content err] eqn:Eb.
  - eapply emits_inner; [done| |done|done|done].
    exists NoBody, (ContentLength r0). split; [by rewrite <- Eb, set_Body_id|].
    split; [split; by left|by exists rec].
  - destruct (oversized _ _ _); [by apply emits_reject|]. destruct err; [by apply emits_reject|].
    eapply emits_inner; [done| |done|done|done].
    exists (BodyStream content false), (slen content). split; [done|].
    split; [split; [by right|right; by exists content]|by exists rec].
Qed.

Lemma emits_rate h : emits (whenever located) h → emits (whenever located) (ratelimit_Middleware h).
Proof.
  intros Hh ctx r w HP HK HB. unfold ratelimit_Middleware, time_Now.
  destruct (_ =? _)%go; [by eapply emits_inner|]. cbn [w_state].
  pose proof (frame_Allow (w_clock w (w_tick w)) (GetPrincipal ctx) (w_state w)) as Hfr.
  destruct (limiter_Allow _ _ _) as [ok s]. cbn [snd] in Hfr.
  destruct ok; cbn [negb]; [by eapply emits_inner|]. apply emits_reject. apply Hfr.
Qed.

Lemma emits_authn h :
  emits (whenever located) h → emits (arrived 2) (authn_Middleware (NewHmacService secrets) resolver h).
Proof.
  intros Hh ctx r w [-> HT] HK HB.
  destruct (authn_cases secrets resolver ctx r0 w) as
    [rec w' (keyID & secret & Hc & Hg & Hv & Hu) _ (i & s & Hc' & Hw) Hk|w0 msg code _ _ _ Hw Hk _].
  - rewrite Hk. eapply emits_inner; [done| |done|done|rewrite Hw; exact (frame_GetByID i (w_state w))].
    split; [done|]. exists rec. split; [|done]. apply found_stored in Hg. rewrite HK in Hg.
    exists keyID, secret. by rewrite <- HT.
  - rewrite Hk. apply emits_reject. destruct Hw as [->|(i & s & _ & ->)]; [done|]. apply frame_GetByID.
Qed.

Lemma emits_audit h : emits (arrived 2) h → emits (arrived 3) (audit_Middleware auditOpts resolver h).
Proof.
  intros Hh ctx r w HP HK HB. unfold audit_Middleware, time_Now, audit_enter, buildEntry, time_Now.
  cbn [w_state set_cells]. set (ctx' := if LogBody auditOpts then _ else _).
  destruct (FailClosed auditOpts).
  - pose proof (frame_Reserve (w_state w)) as Hfr. destruct (Reserve (w_state w)) as [ok s]. cbn [snd] in Hfr.
    destruct ok; cbn [negb]; [|apply emits_reject; apply Hfr].
    set (w1 := set_state s _). destruct (emits_inner (arrived 2) h ctx' r w w1) as (l & Hl & Hf); try done.
    exists l. split; [|done]. rewrite <- Hl. destruct (h ctx' r w1) as [o w2]. cbn. by rewrite pool_commit.
  - set (w1 := set_cells _ _). destruct (emits_inner (arrived 2) h ctx' r w w1) as (l & Hl & Hf); try done.
    exists l. split; [|done]. rewrite <- Hl. destruct (h ctx' r w1) as [[] w2]; cbn; [|done].
    match goal with |- context [Publish ?e ?s] => pose proof (pool_Publish e s) as Hp end.
    destruct (Publish _ _) as [? s]. cbn in Hp |- *. by rewrite Hp.
Qed.

Lemma emits_spans k h : emits (arrived k) h → emits (arrived k) (Spans.Middleware h).
Proof.
  intros Hh ctx r w HP HK HB. unfold Spans.Middleware. destruct (Hh ctx r w HP HK HB) as (l & Hl & Hf).
  exists l. split; [|done]. rewrite <- Hl. destruct (h ctx r w) as [o w2]. cbn. by rewrite pool_End.
Qed.

Lemma emits_metrics h : emits (arrived 3) h → emits (arrived 4) (metrics_Middleware h).
Proof.
  intros Hh ctx r w HP HK HB. unfold metrics_Middleware, time_Now.
  set (ctx' := WithStatusCodePtr _). set (w1 := set_cells _ _).
  destruct (emits_inner (arrived 3) h ctx' r w w1) as (l & Hl & Hf); try done.
  exists l. split; [|done]. rewrite <- Hl. by destruct (h ctx' r w1) as [[] w2].
Qed.

Lemma emits_id k h : emits (arrived k) h → emits (arrived k) (RequestID h).
Proof. intros Hh ctx r w HP HK HB. unfold RequestID, uuid_New. by eapply emits_inner. Qed.

(** ** The balancer *)

(** What goes out is the request, rewritten for one of the backends. *)
Definition outgoing (r : Request) (a : nat * nat * outRequest) : Prop :=
  ∃ t key, (t, key) ∈ B ∧ a.2 = outbound reencode t key r.

(** From [w] to [w'] only such requests were sent, and the backends are the same. *)
Definition sends (r : Request) (w w' : World S) : Prop :=
  targets (w_state w') = targets (w_state w) ∧
  ∃ l, sent (pool (w_state w')) = sent (pool (w_state w)) ++ l ∧ Forall (outgoing r) l.

Lemma sends_refl r (w w' : World S) : pool (w_state w') = pool (w_state w) → sends r w w'.
Proof. intros E. unfold sends, targets. rewrite E. split; [done|]. exists []. by rewrite app_nil_r. Qed.

Lemma sends_trans r (w1 w2 w3 : World S) : sends r w1 w2 → sends r w2 w3 → sends r w1 w3.
Proof.
  intros [E1 (l1 & Hl1 & F1)] [E2 (l2 & Hl2 & F2)]. split; [congruence|].
  exists (l1 ++ l2). split; [by rewrite Hl2, Hl1, app_assoc|by apply Forall_app].
Qed.

Lemma sends_mark r idx b (w : World S) : sends r w (on_pool (mark idx b) w).
Proof.
  unfold sends, targets. cbn. rewrite pool_set. cbn. split.
  - apply list_eq. intros i. rewrite !list_lookup_fmap, list_lookup_alter. case_decide; [|done].
    subst i. by destruct (backends _ !! idx).
  - exists []. by rewrite app_nil_r.
Qed.

Lemma sends_errorHandler r i idx c (w : World S) : sends r w (errorHandler env i idx c w).2.
Proof. unfold errorHandler. destruct (_ || _); [by apply sends_refl|apply sends_mark]. Qed.

Lemma sends_load r i idx (w : World S) : sends r w (load env i idx w).2.
Proof. unfold load. destruct (stored env i idx); [apply sends_mark|by apply sends_refl]. Qed.

Lemma sends_attempt r i idx e (w : World S) :
  (target e, apiKey e) ∈ B → sends r w (attempt reencode env i idx e r w).2.
Proof.
  intros He. unfold attempt. destruct (negb _).
  { pose proof (sends_errorHandler r i idx false w) as Hs.
    destruct (errorHandler env i idx false w) as [st w1]. exact Hs. }
  set (o := outbound _ _ _ _). set (w1 := on_pool _ w).
  assert (sends r w w1) as Hw1.
  { unfold sends, targets, w1. cbn. rewrite pool_set. cbn. split; [done|]. eexists. split; [done|].
    apply Forall_singleton. by exists (target e), (apiKey e). }
  destruct (settled (RoundTrip env i o)) as [resp|c].
  - cbn. eapply sends_trans; [done|]. apply sends_refl. by rewrite copyResponse_state.
  - pose proof (sends_errorHandler r i idx c w1) as Hs.
    destruct (errorHandler env i idx c w1) as [st w2]. by eapply sends_trans.
Qed.

Lemma sends_giveUp r attempts (w : World S) : sends r w (giveUp attempts w).2.
Proof. unfold giveUp. case_bool_decide; apply sends_refl; by rewrite reject_state. Qed.

Lemma sends_serve_loop start n remaining i attempts r (w : World S) :
  targets (w_state w) = B → sends r w (serve_loop reencode env start n remaining i attempts r w).2.
Proof.
  revert i attempts w. induction remaining as [|rest IH]; intros i attempts w HB; [apply sends_giveUp|].
  cbn [serve_loop]. destruct (negb _); [apply sends_giveUp|].
  pose proof (sends_load r i (visit start n i) w) as Hl.
  destruct (load env i (visit start n i) w) as [up w1]. cbn [snd] in Hl.
  assert (targets (w_state w1) = B) as HB1 by (destruct Hl; congruence).
  destruct (backends (pool (w_state w1)) !! visit start n i) as [e|] eqn:Ee; [|done].
  destruct up; cbn [negb]; [|by eapply sends_trans; [|apply IH]].
  assert ((target e, apiKey e) ∈ B) as He.
  { rewrite <- HB1. apply (list_elem_of_fmap_2 (λ e, (target e, apiKey e))). by eapply list_elem_of_lookup_2. }
  pose proof (sends_attempt r i (visit start n i) e w1 He) as Ha.
  destruct (attempt reencode env i (visit start n i) e r w1) as [[[] []] w2]; cbn [snd] in Ha |- *;
    pose proof (sends_trans r w w1 w2 Hl Ha) as Hw2; try done.
  assert (targets (w_state w2) = B) by (destruct Hw2; congruence).
  destruct (negb _); (eapply sends_trans; [exact Hw2|]); [apply sends_giveUp|by apply IH].
Qed.

Lemma emits_balancer : emits (whenever judged) (Balancer_ServeHTTP reencode env).
Proof.
  intros ctx r w Hj _ HB. unfold Balancer_ServeHTTP. set (w1 := on_pool _ w).
  assert (targets (w_state w1) = B ∧ sent (pool (w_state w1)) = sent (pool (w_state w))) as [HB1 Hs].
  { unfold targets, w1. cbn. by rewrite pool_set. }
  match goal with |- context [serve_loop _ _ ?st ?n ?m 0 0 ?r' w1] =>
    destruct (sends_serve_loop st n m 0 0 r' w1 HB1) as [_ (l & Hl & Hf)] end.
  exists l. rewrite Hl, Hs. split; [done|]. eapply Forall_impl; [exact Hf|].
  intros a (t & key & Hin & ->). by exists ctx, r, t, key.
Qed.

(** ** The server *)

Lemma emits_probes h : emits (arrived 3) h → emits (arrived 4) (probeChain h).
Proof. intros Hh. unfold probeChain. rewrite !Chain_cons. by apply emits_id, emits_metrics. Qed.

Lemma emits_healthz k : emits (arrived k) healthz.
Proof.
  intros ctx r w _ _ _. apply emits_same. unfold healthz, WriteHeader. cbn. by destruct (w_recorder w).
Qed.

Lemma emits_readiness k ph bh : emits (arrived k) (readinessCheck ph bh).
Proof.
  intros ctx r w _ _ _. unfold readinessCheck.
  pose proof (frame_GetByID "__healthcheck__" (w_state w)) as [_ Hp].
  destruct (GetByID "__healthcheck__" (w_state w)) as [[o|e] s]; cbn [snd] in Hp; [|by apply emits_reject].
  destruct ph, bh; cbn [negb]; try by apply emits_reject.
  apply emits_same. unfold WriteHeader. cbn. by destruct (w_recorder w).
Qed.

(** The server around a backend that sends only approved requests for judged ones. *)
Lemma emits_server ph bh lb :
  emits (whenever judged) lb → emits (arrived 4) (newProxyServer maxBodySize auditOpts secrets resolver ph bh lb).
Proof.
  intros Hlb ctx r w HP HK HB. unfold newProxyServer. mux_split Hm Hown.
  2:{ destruct (Hown (λ _ _ _ w, (Returned, w))) as (w' & _ & -> & Hs & _). apply emits_same. cbn [snd]. by rewrite Hs. }
  destruct (_ && _); [by apply (emits_probes _ (emits_healthz 3))|].
  destruct (_ && _); [by apply (emits_probes _ (emits_readiness 3 ph bh))|].
  destruct (bool_decide _); [by apply emits_reject|].
  rewrite proxy_handler_eq.
  exact (emits_id 4 _ (emits_metrics _ (emits_spans 3 _ (emits_audit _ (emits_authn _ (emits_rate _
    (emits_body _ (emits_authz _ Hlb))))))) ctx r w HP HK HB).
Qed.

(** ** What an approved request looks like *)

Lemma judged_body ctx t key r :
  body_agrees ctx r →
  o_Body (outbound reencode t key (replayable ctx r)) =
  if (GetBodyBytes ctx =? "")%go then NoBody else BodyStream (GetBodyBytes ctx) false.
Proof.
  unfold outbound, replayable. intros [_ [[Eb ->]|(b & Eb & Ec & ->)]].
  - cbn [String.eqb o_Body]. rewrite Eb. by destruct (_ =? _)%Z.
  - destruct (String.eqb_spec b "") as [->|Hb]; cbn [o_Body Body ContentLength set_Body]; rewrite Ec; [done|].
    destruct (Z.eqb_spec (slen b) 0) as [E0|_]; [|done]. destruct b; [done|]. unfold slen in E0. cbn in E0. lia.
Qed.

(** The query of the backend's URL and that of the client, without the parameters the
    reverse proxy drops. *)
Definition forwarded_query (t : URL) (query : string) : string :=
  let q := cleanQueryParams reencode query in
  if (u_RawQuery t =? "")%go || (q =? "")%go then u_RawQuery t +:+ q
  else u_RawQuery t +:+ "&" +:+ q.

(** [o], sent to a backend, is the request the plugin of a role of the presented key
    allowed: same method, path (behind the backend's own, and as the client wrote it) and
    body, what is written on the wire decoding to that path; none of the client's headers but its media
    types, and the backend's own key. *)
Definition mediated (o : outRequest) : Prop :=
  ∃ rec role q t key, holder rec ∧ role ∈ Roles rec ∧ decides role q = true ∧ (t, key) ∈ B ∧
    pb_Principal q = Principal rec ∧ pb_Method q = Method r0 ∧ pb_Path q = URL_Path r0 ∧
    pb_RawQuery q = RawQuery r0 ∧ client_body (pb_Body q) ∧
    o_Method o = pb_Method q ∧
    (o_Path o, o_RawPath o) = joinURLPath (u_Path t) (u_RawPath t) (pb_Path q) (URL_RawPath r0) ∧
    url_unescape (EscapedPath (o_Path o) (o_RawPath o)) = Some (o_Path o) ∧
    o_Query o = forwarded_query t (pb_RawQuery q) ∧ o_Addr o = u_Host t ∧
    o_Header o = forwarded_headers key (Header r0) ∧
    o_Body o = (if (pb_Body q =? "")%go then NoBody else BodyStream (pb_Body q) false).

Lemma approved_mediated o : canonical (Header r0) → approved o → mediated o.
Proof.
  intros Hc (ctx & r & t & key & (b & n & rec & role & -> & Hb & (Hrec & Hroles & Hp) & Hin & Hd) & Ht & ->).
  exists rec, role, (pluginRequest ctx (set_Body b n r0)), t, key.
  set (r := set_Body b n r0) in *.
  assert (Method (replayable ctx r) = Method r0 ∧ URL_Path (replayable ctx r) = URL_Path r0 ∧
          URL_RawPath (replayable ctx r) = URL_RawPath r0 ∧
          Header (replayable ctx r) = Header r0 ∧ RawQuery (replayable ctx r) = RawQuery r0) as (Em & Eu & Er & Eh & Eq)
    by (unfold replayable; by destruct (_ =? _)%go).
  split_and!; try done.
  - apply Hb.
  - unfold outbound. cbn [o_Path o_RawPath]. by rewrite Eu, Er, <- surjective_pairing.
  - apply EscapedPath_decodes.
  - unfold outbound, forwarded_query. cbn [o_Query]. by rewrite Eq.
  - rewrite outbound_headers; by rewrite Eh.
  - by apply judged_body.
Qed.

End Mediation.

(** Everything sent while the server handles a request was approved. *)
Lemma server_approved {S} `{Deployment S} `{JsonLib} reencode env maxBodySize auditOpts
    secrets resolver pluginsHealthy backendHealthy r (w : World S) :
  (0 ≤ maxBodySize < 2 ^ 63 - 1)%Z →
  ∃ l, sent (pool (w_state (newProxyServer maxBodySize auditOpts secrets resolver pluginsHealthy backendHealthy
              (Balancer_ServeHTTP reencode env) Background r w).2)) = sent (pool (w_state w)) ++ l ∧
       Forall (λ a, approved reencode secrets resolver r (stored_keys (w_state w)) (targets (w_state w))
                      (w_clock w (4 + w_tick w)) a.2) l.
Proof.
  intros Hm. exact (emits_server reencode maxBodySize auditOpts secrets resolver r (stored_keys (w_state w))
    (targets (w_state w)) (w_clock w (4 + w_tick w)) Hm pluginsHealthy backendHealthy (Balancer_ServeHTTP reencode env)
    (emits_balancer _ _ _ _ _ _ _ _) Background r w (conj eq_refl eq_refl) eq_refl eq_refl).
Qed.

(** C1: complete mediation.  In any deployment of the components, whatever the
    backends answer and however often the balancer fails over, everything sent to the
    backends while the proxy server handles a request is mediated: it goes to a
    configured backend with that backend's key, the client presented the secret of a
    stored key that is enabled, open to the client's address and not expired at the
    reading of the clock of the authentication's own check (the fifth of the request:
    the metrics, the audit trail and the timed key lookup read it first), the plugin of one of that key's roles allowed exactly the
    method, path, query and whole body the client sent, these are what is sent on (the
    query as the reverse proxy re-encodes it), and no header of the client but Accept
    and Content-Type goes with it. *)
Theorem gateway_complete_mediation {S} `{Deployment S} `{JsonLib} reencode env maxBodySize auditOpts
    secrets resolver pluginsHealthy backendHealthy r (w : World S) :
  (0 ≤ maxBodySize < 2 ^ 63 - 1)%Z → canonical (Header r) →
  ∃ l, sent (pool (w_state (newProxyServer maxBodySize auditOpts secrets resolver pluginsHealthy backendHealthy
              (Balancer_ServeHTTP reencode env) Background r w).2)) = sent (pool (w_state w)) ++ l ∧
       Forall (λ a, mediated reencode secrets resolver r (stored_keys (w_state w)) (targets (w_state w))
                      (w_clock w (4 + w_tick w)) a.2) l.
Proof.
  intros Hm Hc. destruct (server_approved reencode env maxBodySize auditOpts secrets resolver pluginsHealthy
    backendHealthy r w Hm) as (l & Hl & Hf).
  exists l. split; [exact Hl|]. eapply Forall_impl; [exact Hf|]. intros a. by apply approved_mediated.
Qed.
