(* ===== verification/Plugins.v ===== *)
(** * plugins: the authorization policies shipped with the gateway

    Each plugin is a function of the request it is asked about.  The challenger
    reads a JSON body: [json_Parse] is the syntax tree of a document with its
    members in order, and [unmarshal_patch] is what [json.Unmarshal] makes of the
    tree for the plugin's types (field names match without regard to case, later
    members overwrite earlier ones, an array reuses the elements of the slice it
    replaces).  Name resolution is a parameter.  The theorems say which requests each
    policy allows, and how the challenger's reading differs from that of the backend,
    which gets the body unchanged. *)

From S2P Require Import Prelude GoStrings Http Authz AuditTrail.
From Stdlib Require Import Ascii.

Inductive Decision := DENY | ALLOW.

Record AuthorizeResponse := mkResponse { ar_Decision : Decision; ar_Reason : string }.

Definition deny (reason : string) : AuthorizeResponse := mkResponse DENY reason.
Definition allow (reason : string) : AuthorizeResponse := mkResponse ALLOW reason.

(** ** admin, api_discovery, read_zones, zone_notify *)

Definition adminPlugin (_ : HttpRequest) : AuthorizeResponse := allow "admin: full access".

Definition discoveryPlugin (req : HttpRequest) : AuthorizeResponse :=
  if (pb_Method req =? "GET")%go && (pb_Path req =? "/api")%go then
    allow "api_discovery: version discovery"
  else deny ("api_discovery: only GET /api allowed, got " +:+ pb_Method req +:+ " " +:+ pb_Path req).

(** [[a-z0-9.-]] *)
Definition zone_char (c : ascii) : bool :=
  let b := byte c in
  ((97 <=? b) && (b <=? 122) || (48 <=? b) && (b <=? 57))%Z || Ascii.eqb c "." || Ascii.eqb c "-".

Definition zones_path : string := "/api/v1/servers/localhost/zones".

(** The two expressions of [allowedGetPaths]. *)
Definition match_zones (path : string) : bool := (path =? zones_path)%go.
Definition match_zone (path : string) : bool :=
  match strip_prefix (zones_path +:+ "/") path with
  | Some rest => negb (rest =? "")%go && all_bytes zone_char rest
  | None => false
  end.
Definition allowedGetPaths : list (string → bool) := [match_zones; match_zone].

Definition readZonesPlugin (req : HttpRequest) : AuthorizeResponse :=
  if negb (pb_Method req =? "GET")%go then deny "read_zones: only GET is allowed"
  else if existsb (λ re, re (pb_Path req)) allowedGetPaths then allow "read_zones: GET on zones endpoint"
  else deny "read_zones: path not allowed".

Definition path_parts (path : string) : list string := Split (TrimPrefix path "/") "/".

(** The common test of the two path checks below. *)
Definition under_zones (parts : list string) : bool :=
  (default "" (parts !! 0) =? "api")%go && (default "" (parts !! 1) =? "v1")%go &&
  (default "" (parts !! 2) =? "servers")%go && (default "" (parts !! 4) =? "zones")%go.

Definition isZoneSubpath (path : string) : bool :=
  let parts := path_parts path in bool_decide (6 ≤ length parts) && under_zones parts.

Definition notifyPlugin (req : HttpRequest) : AuthorizeResponse :=
  if (pb_Method req =? "PUT")%go && HasSuffix (pb_Path req) "/notify" && isZoneSubpath (pb_Path req) then
    allow "zone_notify: zone notify"
  else deny ("zone_notify: only PUT to zone notify allowed, got " +:+ pb_Method req +:+ " " +:+ pb_Path req).

(** ** letsencrypt_dns_challenger *)

Record rrset := mkRRset { rr_Name : string; rr_Type : string; rr_ChangeType : string }.
#[global] Instance rrset_eq_dec : EqDecision rrset.
Proof. solve_decision. Defined.

Definition zero_rrset : rrset := mkRRset "" "" "".

(** [foldName] of encoding/json: ASCII letters in upper case, and the two other
    runes that fold to ASCII letters, the long s and the Kelvin sign. *)
Fixpoint foldName (s : string) : string :=
  match s with
  | "" => ""
  | String a t =>
      let plain := String (ascii_upper a) (foldName t) in
      match t with
      | String b t2 =>
          if (byte a =? 197)%Z && (byte b =? 191)%Z then String "S" (foldName t2)
          else match t2 with
               | String c t3 =>
                   if (byte a =? 226)%Z && (byte b =? 132)%Z && (byte c =? 170)%Z then String "K" (foldName t3)
                   else plain
               | "" => plain
               end
      | "" => plain
      end
  end.

Definition field_matches (key field : string) : bool := (foldName key =? foldName field)%go.

(** Into a string: null leaves it alone, another type is an error. *)
Definition unmarshal_string (old : string) (v : json) : option string :=
  match v with JStr s => Some s | JNull => Some old | _ => None end.

Definition unmarshal_member (rr : rrset) (kv : string * json) : option rrset :=
  let '(k, v) := kv in
  if field_matches k "name" then s ← unmarshal_string (rr_Name rr) v; Some (mkRRset s (rr_Type rr) (rr_ChangeType rr))
  else if field_matches k "type" then s ← unmarshal_string (rr_Type rr) v; Some (mkRRset (rr_Name rr) s (rr_ChangeType rr))
  else if field_matches k "changetype" then s ← unmarshal_string (rr_ChangeType rr) v; Some (mkRRset (rr_Name rr) (rr_Type rr) s)
  else Some rr.

Fixpoint foldM {A B} (f : A → B → option A) (a : A) (l : list B) : option A :=
  match l with [] => Some a | b :: l' => a' ← f a b; foldM f a' l' end.

Definition unmarshal_rrset (old : rrset) (v : json) : option rrset :=
  match v with
  | JObj members => foldM unmarshal_member old members
  | JNull => Some old
  | _ => None
  end.

(** A slice with what its backing array holds beyond its length. *)
Record slice := mkSlice { elems : list rrset; spare : list rrset }.

Fixpoint unmarshal_elements (backing : list rrset) (l : list json) : option (list rrset) :=
  match l with
  | [] => Some []
  | v :: l' =>
      rr ← unmarshal_rrset (default zero_rrset (head backing)) v;
      rest ← unmarshal_elements (tail backing) l';
      Some (rr :: rest)
  end.

Definition unmarshal_rrsets (old : slice) (v : json) : option slice :=
  match v with
  | JNull => Some (mkSlice [] [])
  | JArr l =>
      let backing := elems old ++ spare old in
      es ← unmarshal_elements backing l; Some (mkSlice es (drop (length l) backing))
  | _ => None
  end.

(** Into an [rrsetPatch]. *)
Definition unmarshal_patch (v : json) : option (list rrset) :=
  match v with
  | JObj members =>
      elems <$> foldM (λ acc '(k, v), if field_matches k "rrsets" then unmarshal_rrsets acc v else Some acc)
                  (mkSlice [] []) members
  | JNull => Some []
  | _ => None
  end.

Definition isZonePath (path : string) : bool :=
  let parts := path_parts path in bool_decide (length parts = 6) && under_zones parts.

Definition acme : string := "_acme-challenge.".

Section Challenger.

(** [json_Parse]: the syntax tree of a document.  The lookups of [resolvable] are
    those of the two resolver calls. *)
Context (json_Parse : string → option json).
Context (LookupHost : string → result (list string)) (LookupCNAME : string → result string).

Definition resolvable (fqdn : string) : bool :=
  match LookupHost fqdn with
  | Ok (_ :: _) => true
  | _ => match LookupCNAME fqdn with
         | Ok cname => negb (cname =? "")%go && negb (cname =? fqdn)%go
         | Err _ => false
         end
  end.

(** The loop over the records: the reason of the first one refused. *)
Fixpoint checkRecords (l : list rrset) : option string :=
  match l with
  | [] => None
  | rr :: l' =>
      if negb (rr_Type rr =? "TXT")%go then
        Some ("letsencrypt: only TXT records allowed, got " +:+ rr_Type rr)
      else if negb (HasPrefix (rr_Name rr) acme) then
        Some ("letsencrypt: name must start with _acme-challenge., got " +:+ rr_Name rr)
      else if negb (resolvable (TrimPrefix (rr_Name rr) acme)) then
        Some ("letsencrypt: FQDN " +:+ TrimPrefix (rr_Name rr) acme +:+ " does not resolve")
      else checkRecords l'
  end.

Definition challengerPlugin (req : HttpRequest) : AuthorizeResponse :=
  if negb (pb_Method req =? "PATCH")%go || negb (isZonePath (pb_Path req)) then
    deny ("letsencrypt: only PATCH to zones allowed, got " +:+ pb_Method req +:+ " " +:+ pb_Path req)
  else match json_Parse (pb_Body req) ≫= unmarshal_patch with
  | None => deny "letsencrypt: invalid JSON body"
  | Some rrsets =>
      if bool_decide (length rrsets = 0) then deny "letsencrypt: empty rrsets"
      else match checkRecords rrsets with
           | Some reason => deny reason
           | None => allow "letsencrypt: valid ACME challenge records"
           end
  end.

End Challenger.

(** ** Lemmas *)

Lemma Split_snoc_inv s sep l b :
  Split s sep = l ++ [b] → l ≠ [] → s = Join l (String sep "") +:+ String sep b.
Proof.
  intros E Hl. rewrite <- (Join_Split s sep), E. clear E s. induction l as [|x l IH]; [done|].
  destruct l as [|y l]; [done|]. cbn [app]. rewrite !Join_cons2.
  change (y :: l ++ [b]) with ((y :: l) ++ [b]). rewrite IH by done. by rewrite !sapp_assoc.
Qed.

Lemma under_zones_iff parts :
  under_zones parts = true ↔
  parts !! 0 = Some "api" ∧ parts !! 1 = Some "v1" ∧ parts !! 2 = Some "servers" ∧ parts !! 4 = Some "zones".
Proof.
  assert (∀ i s, s ≠ "" → (default "" (parts !! i) =? s)%go = true ↔ parts !! i = Some s) as Hi.
  { intros i s Hs. rewrite String.eqb_eq. destruct (parts !! i); cbn; split; congruence. }
  unfold under_zones. rewrite !andb_true_iff, !Hi by done. tauto.
Qed.

Lemma checkRecords_None LH LC l :
  checkRecords LH LC l = None ↔
  Forall (λ rr, rr_Type rr = "TXT" ∧ ∃ fqdn, rr_Name rr = acme +:+ fqdn ∧ resolvable LH LC fqdn = true) l.
Proof.
  induction l as [|rr l IH]; [split; [constructor|done]|]. rewrite Forall_cons, <- IH. cbn [checkRecords].
  destruct (String.eqb_spec (rr_Type rr) "TXT") as [Ht|Ht]; cbn [negb]; [|split; [done|by intros [[? _] _]]].
  unfold HasPrefix, TrimPrefix. destruct (strip_prefix acme (rr_Name rr)) as [f|] eqn:E.
  - rewrite bool_decide_eq_true_2 by eauto. cbn [negb default from_option id].
    destruct (resolvable LH LC f) eqn:Er; cbn [negb].
    + apply strip_prefix_Some in E.
      split; [intros ?; split; [|assumption]; split; [done|]; by exists f|by intros [_ ?]].
    + split; [done|]. intros [[_ (f' & E' & Hf)] _]. apply strip_prefix_Some in E'. congruence.
  - rewrite bool_decide_eq_false_2 by (by intros [? ?]). cbn [negb]. split; [done|].
    intros [[_ (f' & E' & _)] _]. apply strip_prefix_Some in E'. congruence.
Qed.

(** A path of six or more segments ends in /notify exactly when its last segment is
    notify. *)
Lemma notify_suffix path :
  6 ≤ length (path_parts path) →
  HasSuffix path "/notify" = true ↔ ∃ l, path_parts path = l ++ ["notify"].
Proof.
  intros Hlen. rewrite HasSuffix_iff. unfold path_parts in *. split.
  - intros (a & ->). destruct a as [|c a]; [vm_compute in Hlen; lia|]. cbn [String.append].
    assert (TrimPrefix (String c (a +:+ "/notify")) "/" = TrimPrefix (String c a) "/" +:+ "/notify") as ->.
    { unfold TrimPrefix. cbn [strip_prefix]. by destruct (Ascii.eqb "/" c). }
    rewrite Split_sep_app. by eexists.
  - intros (l & E). assert (l ≠ []) as Hl by (intros ->; rewrite E in Hlen; cbn in Hlen; lia).
    apply Split_snoc_inv in E; [|done]. unfold TrimPrefix in E.
    destruct (strip_prefix "/" path) as [p|] eqn:Ep; cbn in E; subst.
    + apply strip_prefix_Some in Ep. subst. by eexists ("/" +:+ _).
    + by eexists.
Qed.

(** ** Properties *)

Lemma isZonePath_iff path :
  isZonePath path = true ↔
  ∃ id zone, path_parts path = ["api"; "v1"; "servers"; id; "zones"; zone].
Proof.
  unfold isZonePath. rewrite andb_true_iff, bool_decide_eq_true, under_zones_iff.
  split; [|by intros (id & zone & ->)].
  destruct (path_parts path) as [|p0 [|p1 [|p2 [|p3 [|p4 [|p5 [|]]]]]]]; intros (Hl & H0 & H1 & H2 & H4);
    try done. cbn in *. simplify_eq. by exists p3, p5.
Qed.

(** C33: the challenger allows exactly the PATCH requests to one zone whose body, as
    the plugin decodes it, holds at least one record set and only TXT record sets
    named _acme-challenge.<name> for a name that resolves. *)
Theorem challenger_allow_iff json_Parse LH LC req :
  ar_Decision (challengerPlugin json_Parse LH LC req) = ALLOW ↔
  pb_Method req = "PATCH" ∧
  (∃ id zone, path_parts (pb_Path req) = ["api"; "v1"; "servers"; id; "zones"; zone]) ∧
  ∃ tree rrsets, json_Parse (pb_Body req) = Some tree ∧ unmarshal_patch tree = Some rrsets ∧
    rrsets ≠ [] ∧
    Forall (λ rr, rr_Type rr = "TXT" ∧ ∃ fqdn, rr_Name rr = acme +:+ fqdn ∧ resolvable LH LC fqdn = true) rrsets.
Proof.
  rewrite <- isZonePath_iff. unfold challengerPlugin.
  destruct (String.eqb_spec (pb_Method req) "PATCH") as [Hm|Hm]; cbn [negb orb]; [|naive_solver].
  destruct (isZonePath (pb_Path req)); cbn [negb]; [|naive_solver].
  destruct (json_Parse (pb_Body req)) as [tree|]; cbn [mbind option_bind]; [|naive_solver].
  destruct (unmarshal_patch tree) as [rrsets|] eqn:Eu; [|naive_solver].
  pose proof (checkRecords_None LH LC rrsets) as Hc.
  case_bool_decide as Hl; [destruct rrsets; naive_solver|].
  assert (rrsets ≠ []) as Hne by (by intros ->).
  destruct (checkRecords LH LC rrsets); cbn [ar_Decision deny allow]; split; try done.
  - intros (_ & _ & t & l & [= <-] & El & _ & Hf). rewrite Eu in El. injection El as <-.
    by apply Hc in Hf.
  - intros _. split_and!; [done..|]. exists tree, rrsets. split_and!; try done. by apply Hc.
Qed.

(** The notify plugin allows exactly the PUT requests below the zones of a server
    whose last segment is notify; the segment may be the zone itself, or lie
    deeper than the notify endpoint of a zone. *)
Theorem notify_allow_iff req :
  ar_Decision (notifyPlugin req) = ALLOW ↔
  pb_Method req = "PUT" ∧
  ∃ id rest, path_parts (pb_Path req) = ["api"; "v1"; "servers"; id; "zones"] ++ rest ++ ["notify"].
Proof.
  unfold notifyPlugin, isZoneSubpath. set (path := pb_Path req).
  destruct (String.eqb_spec (pb_Method req) "PUT") as [Hm|Hm]; cbn [andb]; [|naive_solver].
  assert ((∃ id rest, path_parts path = ["api"; "v1"; "servers"; id; "zones"] ++ rest ++ ["notify"]) ↔
    6 ≤ length (path_parts path) ∧ under_zones (path_parts path) = true ∧
    ∃ l, path_parts path = l ++ ["notify"]) as ->.
  { rewrite under_zones_iff. split.
    - intros (id & rest & ->). split; [rewrite !length_app; cbn; lia|]. split; [done|].
      by exists (["api"; "v1"; "servers"; id; "zones"] ++ rest).
    - intros (Hl & (H0 & H1 & H2 & H4) & l & E). rewrite E in *. clear E.
      destruct l as [|p0 [|p1 [|p2 [|p3 [|p4 rest]]]]]; cbn in Hl; try lia.
      cbn in *. simplify_eq. by exists p3, rest. }
  destruct (decide (6 ≤ length (path_parts path))) as [Hl|Hl].
  - rewrite <- (notify_suffix path Hl). rewrite (bool_decide_eq_true_2 _ Hl).
    destruct (HasSuffix path "/notify"), (under_zones (path_parts path)); cbn; naive_solver.
  - rewrite (bool_decide_eq_false_2 _ Hl). rewrite andb_false_r. cbn. naive_solver.
Qed.

(** The later member wins, whatever its case. *)
Lemma unmarshal_patch_overwrites evil es fqdn :
  unmarshal_elements [] evil = Some es →
  ∃ ct, unmarshal_patch (JObj [("rrsets", JArr evil);
          ("RRSETS", JArr [JObj [("name", JStr (acme +:+ fqdn)); ("type", JStr "TXT")]])]) =
        Some [mkRRset (acme +:+ fqdn) "TXT" ct].
Proof.
  intros He. exists (rr_ChangeType (default zero_rrset (head (es ++ drop (length evil) [])))).
  unfold unmarshal_patch, foldM. change (field_matches "rrsets" "rrsets") with true.
  change (field_matches "RRSETS" "rrsets") with true. cbn [unmarshal_rrsets elems spare app].
  rewrite He. reflexivity.
Qed.

(** What the challenger judges is not what the backend reads: a document with
    any record sets under the member rrsets, and a challenge record under a
    member spelled RRSETS, is allowed, and its body is forwarded unchanged. *)
Theorem challenger_smuggles json_Parse LH LC req id zone evil fqdn :
  pb_Method req = "PATCH" → path_parts (pb_Path req) = ["api"; "v1"; "servers"; id; "zones"; zone] →
  json_Parse (pb_Body req) = Some (JObj [("rrsets", JArr evil);
    ("RRSETS", JArr [JObj [("name", JStr (acme +:+ fqdn)); ("type", JStr "TXT")]])]) →
  is_Some (unmarshal_elements [] evil) → resolvable LH LC fqdn = true →
  ar_Decision (challengerPlugin json_Parse LH LC req) = ALLOW.
Proof.
  intros Hm Hp Hj [es He] Hr. destruct (unmarshal_patch_overwrites evil es fqdn He) as [ct Hu].
  unfold challengerPlugin. rewrite Hm, (proj2 (isZonePath_iff (pb_Path req))) by eauto.
  cbn [String.eqb negb orb]. rewrite Hj. cbn [mbind option_bind]. rewrite Hu. cbn [length bool_decide].
  rewrite bool_decide_eq_false_2 by done.
  rewrite (proj2 (checkRecords_None LH LC _)); [done|].
  constructor; [|constructor]. split; [done|]. by exists fqdn.
Qed.

Definition ex_patch : HttpRequest :=
  mkHttpRequest "PATCH" "http" "h" "/api/v1/servers/localhost/zones/example.org." "" [] "{...}" 5 "" "" "".
Definition ex_evil : list json :=
  [JObj [("name", JStr "www.example.org."); ("type", JStr "A"); ("changetype", JStr "REPLACE")]].

Lemma challenger_smuggles_witness :
  ar_Decision (challengerPlugin
    (λ _, Some (JObj [("rrsets", JArr ex_evil);
       ("RRSETS", JArr [JObj [("name", JStr (acme +:+ "example.org.")); ("type", JStr "TXT")]])]))
    (λ _, Ok ["192.0.2.1"]) (λ _, Ok "") ex_patch) = ALLOW.
Proof.
  apply (challenger_smuggles _ _ _ ex_patch "localhost" "example.org." ex_evil "example.org.").
  - reflexivity.
  - reflexivity.
  - reflexivity.
  - eexists. reflexivity.
  - reflexivity.
Defined.
