(* ===== verification/Sdk.v ===== *)
(** * sdk/plugin.go: both ends of a plugin call

    The gateway and a plugin process share this package: [Serve] is the configuration
    the plugin's main hands to go-plugin, [GRPCClient] is what the gateway dispenses,
    and the stubs of proto/authz/authz_grpc.pb.go lie between them.  go-plugin and gRPC
    are the class [Rpc], whose laws are what their documentation says of the calls made
    here.  The theorem follows an answer from the plugin's code through the wire into
    the plugin manager's [callPlugin]. *)

From S2P Require Import Prelude GoStrings Http Authz CircuitBreaker PluginManager Plugins.

(** ** The messages *)

(** The response on the wire: a decision is any int32, and the zero value is an empty
    message. *)
Record Reply := mkReply { rp_Decision : Z; rp_Reason : string }.

Definition Decision_number (d : Decision) : Z := match d with DENY => 0 | ALLOW => 1 end.
Definition new_AuthorizeResponse : Reply := mkReply 0 "".

(** What a plugin author implements; [None] is a nil response. *)
Abbreviation sdk_Authorizer := (HttpRequest → result (option Reply)).

(** A policy of Plugins as such an implementation. *)
Definition implements (policy : HttpRequest → AuthorizeResponse) : sdk_Authorizer := λ req,
  let resp := policy req in Ok (Some (mkReply (Decision_number (ar_Decision resp)) (ar_Reason resp))).

(** ** The two ends *)

Record HandshakeConfig := mkHandshake {
  ProtocolVersion : Z; MagicCookieKey : string; MagicCookieValue : string;
}.
Definition Handshake : HandshakeConfig := mkHandshake 1 "PDAG_PLUGIN" "authz".

(** [Impl] is nil on the gateway's side. *)
Record AuthorizerPlugin := mkAuthorizerPlugin { Impl : option sdk_Authorizer }.

Record ServeConfig := mkServeConfig {
  sc_Handshake : HandshakeConfig;
  sc_Plugins : gmap string AuthorizerPlugin;
}.

Definition Serve (impl : sdk_Authorizer) : ServeConfig :=
  mkServeConfig Handshake {["authorizer" := mkAuthorizerPlugin (Some impl)]}.

(** The plugins and the handshake of the gateway's [ClientConfig]. *)
Definition clientConfig : ServeConfig :=
  mkServeConfig Handshake {["authorizer" := mkAuthorizerPlugin None]}.

(** A gRPC server by its registered methods. *)
Abbreviation grpc_Server := (gmap string sdk_Authorizer).

Definition Authorizer_Authorize_FullMethodName : string := "/pdag.authz.Authorizer/Authorize".

(** A call of a nil implementation panics: the plugin process ends, and the call fails. *)
Definition grpcServer_Authorize (impl : option sdk_Authorizer) : sdk_Authorizer := λ req,
  match impl with
  | Some impl => impl req
  | None => Err (ErrMsg "panic: nil Authorizer")
  end.

Definition RegisterAuthorizerServer (srv : sdk_Authorizer) (s : grpc_Server) : grpc_Server :=
  <[Authorizer_Authorize_FullMethodName := srv]> s.

Definition GRPCServer (p : AuthorizerPlugin) (s : grpc_Server) : grpc_Server :=
  RegisterAuthorizerServer (grpcServer_Authorize (Impl p)) s.

(** The client dispensed to the gateway holds a connection. *)
Record GRPCClient (C : Type) := mkGRPCClient { client_cc : C }.
Arguments mkGRPCClient {C} _.
Arguments client_cc {C} _.

(** ** The libraries *)

(** A connection [C] leads to the process that serves a configuration.
    - [Dial]: the handshake either fails or yields a connection.
    - [Dispense]: the named plugin of the client's set makes the client; a name that is
      not in the set is an error.
    - [Invoke]: a unary call fails, or the method registered under its name by the
      plugins the process serves ran on the request and did not fail, and the reply
      that is stored is the returned message, a nil message being the empty one. *)
Class Rpc := {
  Conn : Type;
  Dial : ServeConfig → ServeConfig → result Conn;
  serves : Conn → ServeConfig;
  Dispense : ServeConfig → string → Conn → result (option (GRPCClient Conn));
  Invoke : Conn → string → HttpRequest → Reply → result Reply;
  Dial_serves client server c : Dial client server = Ok c → serves c = server;
  Dispense_known client name p c :
    sc_Plugins client !! name = Some p → Dispense client name c = Ok (Some (mkGRPCClient c));
  Dispense_unknown client name c :
    sc_Plugins client !! name = None → is_Ok (Dispense client name c) = false;
  Invoke_Ok c method req out reply : Invoke c method req out = Ok reply →
    ∃ name p impl m, sc_Plugins (serves c) !! name = Some p ∧ GRPCServer p ∅ !! method = Some impl ∧
      impl req = Ok m ∧ reply = default new_AuthorizeResponse m;
}.

Section Client.
Context `{Rpc}.

(** The generated stub. *)
Definition authorizerClient_Authorize (cc : Conn) : sdk_Authorizer := λ req,
  match Invoke cc Authorizer_Authorize_FullMethodName req new_AuthorizeResponse with
  | Err e => Err e
  | Ok out => Ok (Some out)
  end.

Definition GRPCClient_Authorize (c : GRPCClient Conn) : sdk_Authorizer :=
  authorizerClient_Authorize (client_cc c).

(** The value and the error the manager's call returns, as [callPlugin] tells them apart. *)
Definition observed (r : result (option Reply)) : rpc_result :=
  match r with
  | Err (ErrMsg msg) | Err (ErrWrap msg _) => RpcErr msg
  | Err _ => RpcErr ""
  | Ok None => RpcNil
  | Ok (Some reply) => RpcResp (rp_Decision reply) (rp_Reason reply)
  end.

(** What [startPlugin] finds when it connects to a plugin built with the SDK. *)
Definition dispensed (impl : sdk_Authorizer) : result (option (GRPCClient Conn)) :=
  c ← Dial clientConfig (Serve impl); Dispense clientConfig "authorizer" c.

(** Once connected, the plugin is dispensed with the type the gateway asserts, and its
    client reaches the implementation. *)
Lemma dispensed_client impl c :
  Dial clientConfig (Serve impl) = Ok c → dispensed impl = Ok (Some (mkGRPCClient c)).
Proof. intros Hd. unfold dispensed. rewrite Hd. cbn. by eapply Dispense_known, lookup_singleton_eq. Qed.

Lemma client_reply impl client req r :
  dispensed impl = Ok (Some client) → GRPCClient_Authorize client req = Ok r →
  ∃ m, impl req = Ok m ∧ r = Some (default new_AuthorizeResponse m).
Proof.
  intros (c & Hd & Hp)%bind_Ok. rewrite (Dispense_known _ _ _ _ (lookup_singleton_eq _ _)) in Hp.
  injection Hp as <-. unfold GRPCClient_Authorize, authorizerClient_Authorize. cbn [client_cc].
  destruct (Invoke c _ req _) as [out|] eqn:Ei; [|done]. intros [= <-].
  apply Invoke_Ok in Ei as (name & p & impl' & m & Hn & Hm & Hi & ->).
  rewrite (Dial_serves _ _ _ Hd) in Hn. cbn [Serve sc_Plugins] in Hn. apply lookup_singleton_Some in Hn as [_ <-].
  unfold GRPCServer, RegisterAuthorizerServer in Hm. rewrite lookup_insert_eq in Hm. injection Hm as <-.
  by exists m.
Qed.

(** C26: the boundary to a plugin built with the SDK is fail-closed.  [callPlugin] on
    the dispensed client answers allow with a reason only when the plugin's own code
    returned ALLOW with that reason for that very request; a nil response of the
    plugin arrives as an empty message, so the answer is deny and [callPlugin] never sees a
    nil response without an error. *)
Theorem sdk_fail_closed impl client name req inst inst' ms restart d reason ctxErr deadline exited now :
  dispensed impl = Ok (Some client) →
  let o := mkObs (observed (GRPCClient_Authorize client req)) ctxErr deadline exited now in
  callPlugin_end name o inst = ((d, reason), inst', ms, restart) →
  (d = "allow" → impl req = Ok (Some (mkReply 1 reason))) ∧
  (impl req = Ok None → d = "deny") ∧ ob_rpc o ≠ RpcNil.
Proof.
  intros Hd o He. apply callPlugin_end_allow in He as Hal. unfold allowed in Hal. cbn [res_decision] in Hal.
  assert (d = "allow" → impl req = Ok (Some (mkReply 1 reason))) as Hallow.
  { intros ->. assert (ob_rpc o = RpcResp 1 reason) as Ho by by apply Hal. cbn [o ob_rpc] in Ho.
    destruct (GRPCClient_Authorize client req) as [r|[]] eqn:Er; [|done..].
    destruct (client_reply _ _ _ _ Hd Er) as (m & Hi & ->). cbn [observed] in Ho. injection Ho as Hn Hr.
    rewrite Hi. destruct m as [[n r]|]; cbn in Hn, Hr; [by subst|done]. }
  split_and!; [done| |].
  - intros Hnil. destruct (callPlugin_end_decision _ _ _ _ _ _ _ _ He) as [->| ->]; [|done].
    by rewrite Hallow in Hnil.
  - cbn [o ob_rpc]. destruct (GRPCClient_Authorize client req) as [r|[]] eqn:Er; try done.
    by destruct (client_reply _ _ _ _ Hd Er) as (m & _ & ->).
Qed.
End Client.

(** ** A transport that works *)

(** The connection is the served configuration, and a call runs the method registered
    by the served plugin. *)
Definition direct_Invoke (c : ServeConfig) (method : string) (req : HttpRequest) : result Reply :=
  match sc_Plugins c !! "authorizer" ≫= (λ p, GRPCServer p ∅ !! method) with
  | Some impl => default new_AuthorizeResponse <$> impl req
  | None => Err (ErrMsg "unimplemented")
  end.

#[refine] Instance direct : Rpc := {|
  Conn := ServeConfig;
  Dial client server := Ok server;
  serves c := c;
  Dispense client name c :=
    match sc_Plugins client !! name with
    | Some _ => Ok (Some (mkGRPCClient c))
    | None => Err (ErrMsg "unknown plugin type")
    end;
  Invoke c method req out := direct_Invoke c method req;
|}.
Proof.
  - by intros client server c [= <-].
  - by intros client name p c ->.
  - by intros client name c ->.
  - intros c method req out reply. unfold direct_Invoke.
    destruct (sc_Plugins c !! "authorizer") as [p|] eqn:Ep; cbn [mbind option_bind]; [|done].
    destruct (GRPCServer p ∅ !! method) as [impl|] eqn:Em; [|done].
    destruct (impl req) as [m|] eqn:Ei; [|done]. intros [= <-]. by exists "authorizer", p, impl, m.
Defined.

Lemma sdk_fail_closed_witness :
  implements adminPlugin (mkHttpRequest "PUT" "http" "h" "/api" "" [] "" 0 "" "" "") =
  Ok (Some (mkReply 1 "admin: full access")).
Proof.
  destruct (dispensed (implements adminPlugin)) as [[client|]|] eqn:Ed; [|discriminate..].
  destruct (callPlugin_end "admin" (mkObs (observed (GRPCClient_Authorize client
    (mkHttpRequest "PUT" "http" "h" "/api" "" [] "" 0 "" "" ""))) false false false 5)
    (ex_inst (NewCircuitBreaker "admin" 2 1 Second))) as [[[[d reason] inst'] ms] restart] eqn:E.
  destruct (sdk_fail_closed (implements adminPlugin) client "admin"
    (mkHttpRequest "PUT" "http" "h" "/api" "" [] "" 0 "" "" "") _ _ _ _ _ _ _ _ _ _ Ed E) as [H _].
  vm_compute in Ed. injection Ed as <-. vm_compute in E. injection E as <- <- _ _ _.
  apply H. reflexivity.
Defined.
