(* ===== verification/Driver.v ===== *)
(** * Plugin processes and the running of a fan-out

    A plugin process answers with the policy it was built from, called through the
    SDK.  The goroutines of a fan-out are run by a script of events; where the script
    asks for something that cannot happen, the driver takes an event that can.  So the
    fan-out of [Authorize] becomes a total function of the script, and what is proved here
    holds for every script: it returns after four events per role, an ALLOW is the policy of a
    plugin of one of the roles, and one working plugin that allows is enough for an
    ALLOW, whatever happens to the others. *)

From S2P Require Import Prelude GoStrings Http Authz CircuitBreaker PluginManager Plugins Sdk.

(** ** Plugin processes *)

(** The code a plugin of this name was built from. *)
Class Policies := { policy : string → option (HttpRequest → AuthorizeResponse) }.

Definition policy_allows `{Policies} (name : string) (req : HttpRequest) : bool :=
  match policy name with
  | Some p => match ar_Decision (p req) with ALLOW => true | DENY => false end
  | None => false
  end.

Section Processes.
Context `{Policies} `{Rpc}.

(** What a call of the plugin process returns when it gets through. *)
Definition process_reply (name : string) (req : HttpRequest) : rpc_result :=
  match policy name with
  | Some p =>
      match dispensed (implements p) with
      | Ok (Some client) => observed (GRPCClient_Authorize client req)
      | _ => RpcErr "no connection"
      end
  | None => RpcErr "no process"
  end.

Lemma process_reply_allow name req reason :
  process_reply name req = RpcResp 1 reason → policy_allows name req = true.
Proof.
  unfold process_reply, policy_allows. destruct (policy name) as [p|]; [|done].
  destruct (dispensed (implements p)) as [[client|]|] eqn:Ed; [|done..].
  destruct (GRPCClient_Authorize client req) as [r|[]] eqn:Er; [|done..].
  destruct (client_reply _ _ _ _ Ed Er) as (m & [= <-] & ->). cbn. intros [= Hd _].
  by destruct (ar_Decision (p req)).
Qed.
End Processes.

(** ** Running the fan-out *)

Section Driver.
Context `{Policies} `{Rpc}.
Context (script : nat → fevent) (clock : nat → Time).
Context (snap : gmap string nat) (roles : list string) (req : HttpRequest).

(** A reply is that of the plugin's process; a call may fail at any time. *)
Definition honest (st : fanout) (ev : fevent) : fevent :=
  match ev with
  | EvReturn i o =>
      match ob_rpc o, tasks st !! i with
      | RpcErr _, _ => ev
      | _, Some (TCalling role _) =>
          EvReturn i (mkObs (process_reply role req) (ob_ctxErr o) (ob_deadline o) (ob_exited o) (ob_now o))
      | _, _ => EvReturn i (mkObs (RpcErr "") (ob_ctxErr o) (ob_deadline o) (ob_exited o) (ob_now o))
      end
  | _ => ev
  end.

Definition is_open (t : task) : bool := match t with TDone => false | _ => true end.

(** An event that is possible as long as the call has not returned. *)
Definition fallback (n : nat) (st : fanout) : fevent :=
  match todo st with
  | _ :: _ => EvSpawn
  | [] =>
      match list_find (λ t, is_open t = true) (tasks st) with
      | Some (i, TReady _ _) => EvBegin i (clock n)
      | Some (i, _) => EvReturn i (mkObs RpcNil false false false (clock n))
      | None => EvRecv
      end
  end.

Definition advance (n : nat) (st : fanout) : option (fevent * fanout) :=
  let try ev := (λ st', (ev, st')) <$> fstep snap roles ev st in
  match try (honest st (script n)) with
  | Some x => Some x
  | None => try (honest st (fallback n st))
  end.

(** Events until nothing is possible any more: the calls that lost the race end after
    the answer was returned. *)
Fixpoint drive (fuel n : nat) (st : fanout) : nat * fanout :=
  match fuel with
  | 0 => (n, st)
  | S fuel =>
      match advance n st with
      | Some (_, st') => drive fuel (S n) st'
      | None => (n, st)
      end
  end.

Context (h0 : gmap nat pluginInstance).
Hypothesis snap_valid : ∀ role l, snap !! role = Some l → is_Some (h0 !! l).

(** Every reply of the run is one of the process of its role. *)
Definition honest_run (evs : list fevent) : Prop :=
  ∀ i o reason role, EvReturn i o ∈ evs → ob_rpc o = RpcResp 1 reason → roles !! i = Some role →
    process_reply role req = RpcResp 1 reason.

Lemma honest_run_snoc evs st ev :
  fan_inv snap roles h0 evs st → honest_run evs → honest_run (evs ++ [honest st ev]).
Proof.
  intros Hinv Hev i o reason role [Hin|Hin%list_elem_of_singleton]%elem_of_app Ho Hr; [by eapply Hev|].
  destruct ev as [|j now|j o'|j|]; try done. cbn in Hin.
  assert (∀ e, ob_rpc o ≠ RpcErr e) as Hne by (intros; congruence).
  destruct (ob_rpc o') eqn:Eo'; [by injection Hin as -> ->; destruct (Hne err)|..];
    destruct (tasks st !! j) as [[role' l|role' l|]|] eqn:Ej; injection Hin as -> ->; cbn in Ho; try done;
    pose proof (fi_tasks _ _ _ _ _ Hinv _ _ Ej) as (Hr' & _); congruence.
Qed.

Lemma fallback_steps evs n st :
  fan_inv snap roles h0 evs st → returned st = None →
  is_Some (fstep snap roles (honest st (fallback n st)) st).
Proof.
  intros Hinv Hret. unfold fallback. destruct (todo st) as [|role rest] eqn:Et.
  2: { destruct (fan_inv_spawn snap roles h0 snap_valid evs st Hinv) as (st' & E & _); [by rewrite Et|].
       by exists st'. }
  destruct (list_find _ (tasks st)) as [[i t]|] eqn:Ef.
  - apply list_find_Some in Ef as (Hi & Ht & _). destruct t as [role l|role l|]; [| |done].
    + destruct (fan_inv_ready snap roles h0 snap_valid evs st i role l (clock n) Hinv Hi) as (st' & E & _).
      by exists st'.
    + cbn [honest ob_rpc]. rewrite Hi.
      destruct (fan_inv_return snap roles h0 snap_valid evs st i role l
        (mkObs (process_reply role req) false false false (clock n)) Hinv Hi) as (st' & E & _). by exists st'.
  - apply list_find_None in Ef. destruct (ndone_all (tasks st)) as [Hd|(i & t & Hi & Ht)].
    + pose proof (fi_ret _ _ _ _ _ Hinv) as Hr. rewrite Hret in Hr.
      pose proof (fi_done _ _ _ _ _ Hinv) as Hn. pose proof (fi_len _ _ _ _ _ Hinv) as Hl.
      rewrite Et in Hl. cbn in Hl. cbn. unfold recv. rewrite Et, Hret.
      destruct (resultCh st) as [|r ch]; [cbn in Hn; lia|]. destruct (allowed r); by eexists.
    + rewrite Forall_lookup in Ef. specialize (Ef i t Hi). by destruct t.
Qed.

(** An event the driver takes. *)
Definition driven (n : nat) (st : fanout) (ev : fevent) : Prop :=
  ev = honest st (script n) ∨ ev = honest st (fallback n st).

Lemma advance_cases evs n st :
  fan_inv snap roles h0 evs st →
  match advance n st with
  | Some (ev, st') => driven n st ev ∧ fstep snap roles ev st = Some st'
  | None => returned st ≠ None
  end.
Proof.
  intros Hinv. unfold advance, driven. set (ev1 := honest st (script n)). set (ev2 := honest st (fallback n st)).
  destruct (fstep snap roles ev1 st) as [st1|] eqn:E1; cbn [fmap option_fmap option_map]; [by split; [left|]|].
  destruct (fstep snap roles ev2 st) as [st2|] eqn:E2; cbn [fmap option_fmap option_map]; [by split; [right|]|].
  intros Hret. destruct (fallback_steps evs n st Hinv Hret) as [st' E]. fold ev2 in E. congruence.
Qed.

(** Four events per role are enough, whatever the script says, and what every driven
    event preserves holds at the end. *)
Lemma drive_inv (P : list fevent → fanout → Prop) fuel n evs st :
  (∀ evs n st ev st', fan_inv snap roles h0 evs st → P evs st → driven n st ev →
     fstep snap roles ev st = Some st' → P (evs ++ [ev]) st') →
  fan_inv snap roles h0 evs st → P evs st → 4 * length roles ≤ fuel + length evs →
  ∃ evs', fan_inv snap roles h0 evs' (drive fuel n st).2 ∧ P evs' (drive fuel n st).2 ∧
    returned (drive fuel n st).2 ≠ None.
Proof.
  intros HP. revert n evs st. induction fuel as [|fuel IH]; intros n evs st Hinv Hev Hlen; cbn [drive].
  - exists evs. split_and!; [done..|]. intros Hret.
    destruct (fallback_steps evs n st Hinv Hret) as [st' E].
    pose proof (fan_inv_step _ _ _ snap_valid _ _ _ _ Hinv E) as Hinv'.
    pose proof (fi_weight _ _ _ _ _ Hinv') as Hw. rewrite length_app in Hw. cbn in Hw, Hlen. lia.
  - pose proof (advance_cases evs n st Hinv) as Ha.
    destruct (advance n st) as [[ev st']|]; [|by exists evs]. destruct Ha as [Hd Hs].
    apply (IH (S n) (evs ++ [ev]) st'); [by eapply fan_inv_step|by eapply HP|].
    rewrite length_app. cbn. lia.
Qed.

Lemma drive_start fuel n :
  4 * length roles ≤ fuel →
  ∃ evs, fan_inv snap roles h0 evs (drive fuel n (Authorize_start roles h0)).2 ∧ honest_run evs ∧
    returned (drive fuel n (Authorize_start roles h0)).2 ≠ None.
Proof.
  intros Hf. apply (drive_inv (λ evs _, honest_run evs) fuel n []); [|apply fan_inv_start| |cbn; lia].
  - intros evs n' st ev st' Hinv Hev [->| ->] _; by apply honest_run_snoc.
  - intros i o reason role Hin. by apply not_elem_of_nil in Hin.
Qed.

(** *** Availability: one working plugin that allows is enough *)

Context (role : string) (l : nat) (reason : string).
Hypothesis role_plugin : snap !! role = Some l.
Hypothesis role_alone : ∀ role', snap !! role' = Some l → role' = role.

(** The plugin's calls are made: it has not failed for good, and its breaker is closed. *)
Definition in_service (inst : pluginInstance) : Prop :=
  failed inst = false ∧ state (breaker inst) = StateClosed.

(** No call of this plugin fails; those of the others may. *)
Definition reliable (ev : fevent) : Prop :=
  match ev with
  | EvPanic i => roles !! i ≠ Some role
  | EvReturn i o => roles !! i = Some role → ob_rpc o = RpcResp 1 reason
  | _ => True
  end.

Record served_well (evs : list fevent) (st : fanout) : Prop := {
  sw_inst : ∃ inst, heap st !! l = Some inst ∧ in_service inst;
  sw_done i : roles !! i = Some role → tasks st !! i = Some TDone → answered_allow evs i reason;
}.

Lemma send_same r st st' : PluginManager.send roles r st = Some st' → heap st' = heap st ∧ tasks st' = tasks st.
Proof. unfold send. case_bool_decide; [|done]. by intros [= <-]. Qed.

Lemma begin_in_service now inst :
  in_service inst → callPlugin_begin role now inst = (None, inst, []).
Proof.
  intros [Hf Hs]. unfold callPlugin_begin, CircuitBreaker.Allow. rewrite Hf, Hs. by destruct inst.
Qed.

Lemma end_in_service o inst :
  in_service inst → ob_rpc o = RpcResp 1 reason → in_service (callPlugin_end role o inst).1.1.2.
Proof.
  intros [Hf Hs] Ho. unfold callPlugin_end, RecordSuccess. rewrite Ho. cbn. rewrite Hs. by split.
Qed.

(** A task that ends or goes on, with the instance of its plugin replaced. *)
Lemma served_well_task evs ev st i role' l' t inst' h ms rs :
  fan_inv snap roles h0 evs st → served_well evs st →
  tasks st !! i = Some (TReady role' l') ∨ tasks st !! i = Some (TCalling role' l') →
  h = heap st ∨ h = <[l':=inst']> (heap st) ∧ (role' = role → in_service inst') →
  (t = TDone → role' = role → answered_allow (evs ++ [ev]) i reason) →
  ∀ st', heap st' = heap (with_task i t h ms rs st) → tasks st' = tasks (with_task i t h ms rs st) →
  served_well (evs ++ [ev]) st'.
Proof.
  intros Hinv [(inst & Hl & Hin) Hdone] Hi Hh Ht st' Eh Et.
  assert (task_ok snap roles h0 i (TReady role' l')) as (Hri & Hs' & _).
  { destruct Hi as [Hi|Hi]; exact (fi_tasks _ _ _ _ _ Hinv _ _ Hi). }
  split.
  - rewrite Eh. cbn. destruct Hh as [->|[-> Hgood]]; [by exists inst|].
    destruct (decide (l' = l)) as [->|]; [|exists inst; by rewrite lookup_insert_ne by done].
    exists inst'. rewrite lookup_insert_eq. split; [done|]. by apply Hgood, role_alone.
  - intros j Hj. rewrite Et. cbn. intros [(<- & Hd & _)|[_ Hd]]%list_lookup_insert_Some.
    + apply Ht; [done|congruence].
    + by apply answered_allow_mono, Hdone.
Qed.

Lemma served_well_spawn evs st st' :
  fan_inv snap roles h0 evs st → served_well evs st → spawn snap roles st = Some st' →
  served_well (evs ++ [EvSpawn]) st'.
Proof.
  intros Hinv [Hl Hdone]. unfold spawn. destruct (todo st) as [|role' rest] eqn:E; [done|].
  assert (roles !! length (tasks st) = Some role') as Hrole.
  { rewrite <- (Nat.add_0_r (length (tasks st))), <- lookup_drop, (fi_roles _ _ _ _ _ Hinv), E. done. }
  assert (∀ t, (t = TDone → role' ≠ role) → ∀ i, roles !! i = Some role →
    (tasks st ++ [t]) !! i = Some TDone → answered_allow (evs ++ [EvSpawn]) i reason) as Hnew.
  { intros t Ht i Hi [Hd|[Hge Hd]]%lookup_app_Some; [by apply answered_allow_mono, Hdone|].
    apply list_lookup_singleton_Some in Hd as [Ei ->].
    replace i with (length (tasks st)) in Hi by lia. destruct Ht; [done|congruence]. }
  destruct (snap !! role') as [l'|] eqn:Es.
  - intros [= <-]. split; [done|]. by apply (Hnew (TReady role' l')).
  - intros [Eh Et]%send_same. split; rewrite ?Eh, ?Et; [done|]. apply (Hnew TDone). intros _ ->. congruence.
Qed.

Lemma served_well_step evs ev st st' :
  fan_inv snap roles h0 evs st → served_well evs st → reliable ev → fstep snap roles ev st = Some st' →
  served_well (evs ++ [ev]) st'.
Proof.
  intros Hinv Hsw Hrel Hst. pose proof (sw_inst _ _ Hsw) as (inst0 & Hl0 & Hin0).
  destruct ev as [|i now|i o|i|]; cbn [fstep] in Hst.
  - by eapply served_well_spawn.
  - destruct (tasks st !! i) as [[role' l'| |]|] eqn:Hi; [|done..].
    destruct (heap st !! l') as [inst|] eqn:Hl'; [cbn in Hst|done].
    pose proof (fi_tasks _ _ _ _ _ Hinv _ _ Hi) as (Hri & Hs' & _).
    destruct (callPlugin_begin role' now inst) as [[[[d r]|] inst'] ms] eqn:Eb.
    + apply send_same in Hst as [Eh Et].
      assert (role' ≠ role).
      { intros ->. rewrite role_plugin in Hs'. injection Hs' as <-.
        by rewrite Hl0 in Hl'; simplify_eq; rewrite begin_in_service in Eb. }
      eapply (served_well_task evs _ st i role' l' TDone inst'); [done|done|by left| |done|exact Eh|exact Et].
      by right.
    + injection Hst as <-. eapply (served_well_task evs _ st i role' l' (TCalling role' l') inst');
        [done|done|by left| |done|done|done].
      right. split; [done|]. intros ->. rewrite role_plugin in Hs'. injection Hs' as <-.
      rewrite Hl0 in Hl'. simplify_eq. rewrite begin_in_service in Eb by done. by simplify_eq.
  - destruct (tasks st !! i) as [[|role' l'|]|] eqn:Hi; [done| |done..].
    destruct (heap st !! l') as [inst|] eqn:Hl'; [cbn in Hst|done].
    pose proof (fi_tasks _ _ _ _ _ Hinv _ _ Hi) as (Hri & Hs' & _).
    destruct (callPlugin_end role' o inst) as [[[[d r] inst'] ms] restart] eqn:Ee.
    apply send_same in Hst as [Eh Et].
    eapply (served_well_task evs _ st i role' l' TDone inst'); [done|done|by right| | |exact Eh|exact Et].
    + right. split; [done|]. intros ->. rewrite role_plugin in Hs'. injection Hs' as <-.
      rewrite Hl0 in Hl'. simplify_eq. pose proof (end_in_service o inst Hin0 (Hrel Hri)) as Hg. by rewrite Ee in Hg.
    + intros _ ->. exists o. split; [|by apply Hrel]. apply elem_of_app. right. by apply list_elem_of_singleton.
  - destruct (tasks st !! i) as [[|role' l'|]|] eqn:Hi; [done| |done..].
    pose proof (fi_tasks _ _ _ _ _ Hinv _ _ Hi) as (Hri & _).
    apply send_same in Hst as [Eh Et]. eapply (served_well_task evs _ st i role' l' TDone inst0 (heap st));
      [done|done|by right|by left| |exact Eh|exact Et].
    intros _ ->. by destruct (Hrel Hri).
  - unfold recv in Hst. destruct (todo st), (returned st), (resultCh st) as [|res ch]; try done.
    destruct Hsw as [Hl Hdone].
    destruct (allowed res); injection Hst as <-; (split; [done|]); intros j Hj Hd;
      by apply answered_allow_mono, Hdone.
Qed.

(** A script in which no call of the plugin fails. *)
Definition dependable (ev : fevent) : Prop :=
  match ev with
  | EvPanic i => roles !! i ≠ Some role
  | EvReturn i o => roles !! i = Some role → ∀ err, ob_rpc o ≠ RpcErr err
  | _ => True
  end.

Lemma fallback_dependable n st : dependable (fallback n st).
Proof.
  unfold fallback. destruct (todo st); [|done].
  destruct (list_find _ _) as [[i [| |]]|]; [done| | |done]; by intros _ err.
Qed.

Lemma dependable_reliable evs st ev st' :
  fan_inv snap roles h0 evs st → process_reply role req = RpcResp 1 reason → dependable ev →
  fstep snap roles (honest st ev) st = Some st' → reliable (honest st ev).
Proof.
  intros Hinv Hp Hd Hst. destruct ev as [|i now|i o|i|]; [done|done| |done|done].
  cbn [honest] in *. destruct (tasks st !! i) as [[|role' l'|]|] eqn:Hi.
  1,3,4: destruct (ob_rpc o); cbn in Hst; by rewrite Hi in Hst.
  pose proof (fi_tasks _ _ _ _ _ Hinv _ _ Hi) as (Hri & _).
  destruct (ob_rpc o) as [err| |] eqn:Eo; cbn; intros Hr; [by destruct (Hd Hr err)|..];
    by replace role' with role by congruence.
Qed.

(** The fan-out answers ALLOW. *)
Lemma drive_available fuel n i :
  roles !! i = Some role → process_reply role req = RpcResp 1 reason → (∀ n, dependable (script n)) →
  (∃ inst, h0 !! l = Some inst ∧ in_service inst) → 4 * length roles ≤ fuel →
  ∃ r, returned (drive fuel n (Authorize_start roles h0)).2 = Some r ∧ allowed r = true.
Proof.
  intros Hi Hp Hd Hl Hf.
  destruct (drive_inv served_well fuel n [] (Authorize_start roles h0)) as (evs & Hinv & Hsw & Hret);
    [|apply fan_inv_start|by split|cbn; lia|].
  - intros evs n' st ev st' Hinv Hsw [->| ->] Hst; (eapply served_well_step; [done|done| |done]);
      (eapply dependable_reliable; [done|done| |done]); [apply Hd|apply fallback_dependable].
  - destruct (drive fuel n _) as [m st]. cbn [snd] in *.
    pose proof (fi_ret _ _ _ _ _ Hinv) as Hr. destruct (returned st) as [r|] eqn:Er; [|done].
    exists r. split; [done|]. destruct (allowed r) eqn:Ea; [done|]. exfalso.
    destruct Hr as [_ Hall]. specialize (Hall eq_refl).
    pose proof (fi_done _ _ _ _ _ Hinv) as Hdone. pose proof (fi_len _ _ _ _ _ Hinv) as Hlen.
    pose proof (ndone_le (tasks st)). apply lookup_lt_Some in Hi as Hlt.
    destruct (lookup_lt_is_Some_2 (tasks st) i) as [t Ht]; [lia|].
    assert (t = TDone) as ->.
    { destruct t; [| |done]; pose proof (ndone_lt _ _ _ Ht ltac:(done)); lia. }
    destruct (fi_complete _ _ _ _ _ Hinv) as [Hex|(r' & ? & ?)].
    + exists i, reason. by apply (sw_done _ _ Hsw).
    + destruct (resultCh st); [by apply Exists_nil in Hex|cbn in Hdone; lia].
    + congruence.
Qed.

End Driver.
