(* ===== verification/System.v ===== *)
(** * The whole program, put together

    The components of the other files as one running gateway: the in-memory key store,
    the binary64 rate limiter, the plugin manager with its instances and breakers, the
    audit logger, the spans and the pool of backends.  [Authorize] runs the plugin
    fan-out of [Driver], for any script of its goroutines.  The system meets the
    contract of [Mediation], so the end-to-end theorems hold of it. *)

From S2P Require Import Prelude GoStrings GoNet GoUrl Http ServeMux Store MemoryStore Spans ClientIP Authn RateLimit.
From S2P Require Import Authz AuditTrail AuditFile Gateway CircuitBreaker PluginManager.
From S2P Require Import Balancer Mediation Plugins Sdk Driver.

(** ** The state of the running program *)

(** The plugin map only holds instances that exist. *)
Definition valid_manager (m : Manager) : Prop :=
  ∀ name l, plugins m !! name = Some l → is_Some (insts m !! l).

Record LiveManager := mkLive { live_manager :> Manager; live_valid : valid_manager live_manager }.

Record System := mkSystem {
  sy_keys : Memory.Store;
  sy_limiter : Limiter Float64.t;
  sy_plugins : LiveManager;
  sy_script : nat → fevent;      (** how the goroutines of the fan-outs will run *)
  sy_clock : nat → Time;         (** the clock of the breakers *)
  sy_tick : nat;
  sy_counted : list metric;
  sy_restarts : list string;     (** the restart goroutines that were started *)
  sy_log : Logger;
  sy_spans : list span;
  sy_pool : Pool;
}.

Definition set_sy_limiter (l : Limiter Float64.t) (s : System) : System :=
  mkSystem (sy_keys s) l (sy_plugins s) (sy_script s) (sy_clock s) (sy_tick s) (sy_counted s)
    (sy_restarts s) (sy_log s) (sy_spans s) (sy_pool s).
Definition set_sy_log (l : Logger) (s : System) : System :=
  mkSystem (sy_keys s) (sy_limiter s) (sy_plugins s) (sy_script s) (sy_clock s) (sy_tick s) (sy_counted s)
    (sy_restarts s) l (sy_spans s) (sy_pool s).
Definition set_sy_spans (l : list span) (s : System) : System :=
  mkSystem (sy_keys s) (sy_limiter s) (sy_plugins s) (sy_script s) (sy_clock s) (sy_tick s) (sy_counted s)
    (sy_restarts s) (sy_log s) l (sy_pool s).
Definition set_sy_pool (p : Pool) (s : System) : System :=
  mkSystem (sy_keys s) (sy_limiter s) (sy_plugins s) (sy_script s) (sy_clock s) (sy_tick s) (sy_counted s)
    (sy_restarts s) (sy_log s) (sy_spans s) p.

(** The manager with the instances a fan-out leaves. *)
Definition with_insts (h : gmap nat pluginInstance) (m : Manager) : Manager :=
  mkManager (plugins m) h (PluginManager.closed m) (done_closed m).

Section Authorize.
Context `{Policies} `{Rpc}.

Definition fan_of (roles : list string) (req : HttpRequest) (s : System) : nat * fanout :=
  drive (sy_script s) (sy_clock s) (plugins (sy_plugins s)) roles req (4 * length roles) (sy_tick s)
    (Authorize_start roles (insts (sy_plugins s))).

Lemma fan_of_inv roles req s :
  ∃ evs, fan_inv (plugins (sy_plugins s)) roles (insts (sy_plugins s)) evs (fan_of roles req s).2 ∧
    honest_run roles req evs ∧ returned (fan_of roles req s).2 ≠ None.
Proof. apply drive_start; [apply live_valid|done]. Qed.

Lemma fan_of_valid roles req s : valid_manager (with_insts (heap (fan_of roles req s).2) (sy_plugins s)).
Proof.
  destruct (fan_of_inv roles req s) as (evs & Hinv & _). intros name l Hl.
  cbn [with_insts plugins insts] in Hl |- *.
  apply (elem_of_dom (D := gset nat)). rewrite (fi_heap _ _ _ _ _ Hinv). apply elem_of_dom. by eapply live_valid.
Qed.

(** [Manager.Authorize] on the running system. *)
Definition system_Authorize (roles : list string) (req : HttpRequest) (s : System)
    : (string * string * string) * System :=
  let st := (fan_of roles req s).2 in
  let r := default (mkResult "deny" "" "") (returned st) in
  ((res_decision r, res_plugin r, res_reason r),
   mkSystem (sy_keys s) (sy_limiter s) (mkLive _ (fan_of_valid roles req s)) (sy_script s) (sy_clock s)
     (fan_of roles req s).1 (sy_counted s ++ counted st) (sy_restarts s ++ restarts st) (sy_log s)
     (sy_spans s) (sy_pool s)).

Lemma system_Authorize_allow roles req s plugin reason s' :
  system_Authorize roles req s = (("allow", plugin, reason), s') →
  plugin ∈ roles ∧ policy_allows plugin req = true.
Proof.
  destruct (fan_of_inv roles req s) as (evs & Hinv & Hh & Hret).
  pose proof (fi_ret _ _ _ _ _ Hinv) as Hr. unfold system_Authorize.
  destruct (returned (fan_of roles req s).2) as [[d p rs]|]; [|done].
  cbn [default from_option id res_decision res_plugin res_reason]. intros [= -> -> -> _].
  destruct (proj1 Hr eq_refl) as (i & (o & Ho & Hrpc) & Hrole & _). cbn in *. split.
  - by eapply list_elem_of_lookup_2.
  - eapply process_reply_allow. by eapply Hh.
Qed.

End Authorize.

(** ** The interfaces of the components *)

#[export] Instance System_KeyStore : KeyStore System :=
  {| GetByID := λ id s, ((Memory.GetByID id (sy_keys s)).1, s) |}.
#[export] Instance System_RateLimiter : RateLimiter System :=
  {| limiter_Allow := λ now p s, let '(ok, l) := RateLimit.Allow now p (sy_limiter s) in (ok, set_sy_limiter l s) |}.
#[export] Instance System_Authorizer `{Policies} `{Rpc} : Authorizer System := {| Authorize := system_Authorize |}.
#[export] Instance System_Publisher : Publisher System :=
  {| Publish := λ e s, let '(r, l) := Publish e (sy_log s) in (r, set_sy_log l s) |}.
#[export] Instance System_Reserver : Reserver System :=
  {| Reserve := λ s, let '(ok, l) := Reserve (sy_log s) in (ok, set_sy_log l s);
     commit := λ e s, set_sy_log (commit e (sy_log s)) s |}.
#[export] Instance System_Tracer : Tracer System := {| End := λ sp s, set_sy_spans (sy_spans s ++ [sp]) s |}.
#[export] Program Instance System_HasPool : HasPool System := {| pool := sy_pool; set_pool := set_sy_pool |}.
Next Obligation. done. Qed.

#[export] Program Instance System_Deployment `{Policies} `{Rpc} : Deployment System :=
  {| stored_keys := sy_keys; decides := policy_allows |}.
Next Obligation.
  intros ?? id s rec. cbn. unfold Memory.GetByID. by destruct (sy_keys s !! id) eqn:E; intros [= ->].
Qed.
Next Obligation. intros ?? roles q s plugin reason s'. apply system_Authorize_allow. Qed.
Next Obligation. done. Qed.
Next Obligation. intros. cbn. by destruct (RateLimit.Allow now p (sy_limiter s)). Qed.
Next Obligation. intros. done. Qed.
Next Obligation. intros. cbn. by destruct (Logger_Reserve false (sy_log s)). Qed.
Next Obligation. done. Qed.
Next Obligation. intros. cbn. by destruct (Logger_Publish false e (sy_log s)). Qed.
Next Obligation. done. Qed.

(** ** The shipped plugins *)

(** The policies under the names their directories have; the challenger's JSON decoder
    and resolver are parameters. *)
Definition shipped (json_Parse : string → option json) (LookupHost : string → result (list string))
    (LookupCNAME : string → result string) : Policies := {|
  policy name :=
    if (name =? "admin")%go then Some adminPlugin
    else if (name =? "api_discovery")%go then Some discoveryPlugin
    else if (name =? "read_zones")%go then Some readZonesPlugin
    else if (name =? "zone_notify")%go then Some notifyPlugin
    else if (name =? "letsencrypt_dns_challenger")%go then
      Some (challengerPlugin json_Parse LookupHost LookupCNAME)
    else None |}.

(** The paths a key with the roles read_zones and api_discovery can ask for: the version
    document, the zone list and one zone, by a name without a slash, a capital or an
    escape. *)
Definition readable (path : string) : Prop :=
  path = "/api" ∨ path = "/api/v1/servers/localhost/zones" ∨
  ∃ zone, path = "/api/v1/servers/localhost/zones/" +:+ zone ∧ zone ≠ "" ∧
    ∀ c, c ∈ String.list_ascii_of_string zone →
      c ∈ String.list_ascii_of_string "abcdefghijklmnopqrstuvwxyz0123456789.-".

Lemma zone_char_listed c :
  zone_char c = true → c ∈ String.list_ascii_of_string "abcdefghijklmnopqrstuvwxyz0123456789.-".
Proof.
  intros Hc. apply list_elem_of_In.
  assert (existsb (Ascii.eqb c) (String.list_ascii_of_string "abcdefghijklmnopqrstuvwxyz0123456789.-") = true) as He
    by (revert Hc; destruct c as [[] [] [] [] [] [] [] []]; vm_compute; auto).
  apply existsb_exists in He as (d & Hd & ->%Ascii.eqb_eq). exact Hd.
Qed.

Lemma all_bytes_listed zone c :
  all_bytes zone_char zone = true → c ∈ String.list_ascii_of_string zone →
  c ∈ String.list_ascii_of_string "abcdefghijklmnopqrstuvwxyz0123456789.-".
Proof.
  induction zone as [|d zone IH]; cbn [all_bytes String.list_ascii_of_string]; [by intros _ ?%not_elem_of_nil|].
  intros [Hd Hz]%andb_true_iff [->|Hin]%elem_of_cons; [by apply zone_char_listed|by apply IH].
Qed.

Lemma readZones_allows req :
  ar_Decision (readZonesPlugin req) = ALLOW → pb_Method req = "GET" ∧ readable (pb_Path req).
Proof.
  unfold readZonesPlugin, allowedGetPaths, match_zones, match_zone. cbn [existsb].
  destruct (String.eqb_spec (pb_Method req) "GET") as [Hm|Hm]; cbn [negb]; [|done].
  destruct (String.eqb_spec (pb_Path req) zones_path) as [Hp|Hp]; cbn [orb]; [by split; [|right; left]|].
  destruct (strip_prefix (zones_path +:+ "/") (pb_Path req)) as [rest|] eqn:Es; [|done].
  apply strip_prefix_Some in Es. destruct (String.eqb_spec rest "") as [|Hr]; [done|]. cbn [negb andb orb].
  destruct (all_bytes zone_char rest) eqn:Ea; [|done]. intros _. split; [done|]. right. right. exists rest.
  split_and!; [by rewrite Es|done|]. intros c. by apply all_bytes_listed.
Qed.

Lemma discovery_allows req :
  ar_Decision (discoveryPlugin req) = ALLOW → pb_Method req = "GET" ∧ readable (pb_Path req).
Proof.
  unfold discoveryPlugin. destruct (String.eqb_spec (pb_Method req) "GET"); [|done].
  destruct (String.eqb_spec (pb_Path req) "/api"); [|done]. intros _. split; [done|by left].
Qed.

(** The proxy server on the running system with the shipped plugins. *)
Definition shippedServer JP LH LC `{Rpc} `{JsonLib} (maxBodySize : Z) (auditOpts : Options)
    (secrets : HmacService) (resolver : Resolver) (pluginsHealthy backendHealthy : bool)
    (lb : Handler System) : Handler System :=
  let P := shipped JP LH LC in
  newProxyServer maxBodySize auditOpts secrets resolver pluginsHealthy backendHealthy lb.

(** C7: least privilege, end to end.  On the running system with the shipped plugins,
    when the only keys a request can authenticate with (at the moment of the expiry
    check) have no roles but read_zones and api_discovery, then whatever the goroutines,
    the plugin processes and the backends do, nothing is sent upstream but a GET of the
    very path of the request, behind the base path of a configured backend and written
    so that it decodes to that path, and the request's path is the version document, the zone list or one zone named with the characters
    of the plugin's expression. *)
Theorem read_only_keys JP LH LC `{Rpc} `{JsonLib} reencode env maxBodySize auditOpts secrets resolver
    pluginsHealthy backendHealthy r (w : World System) :
  (0 ≤ maxBodySize < 2 ^ 63 - 1)%Z → canonical (Header r) →
  (∀ rec, holder secrets resolver r (sy_keys (w_state w)) (w_clock w (4 + w_tick w)) rec →
     Roles rec ⊆ ["read_zones"; "api_discovery"]) →
  ∃ l, sent (pool (w_state (shippedServer JP LH LC maxBodySize auditOpts secrets resolver pluginsHealthy
              backendHealthy (Balancer_ServeHTTP reencode env) Background r w).2)) = sent (pool (w_state w)) ++ l ∧
       Forall (λ a, o_Method a.2 = "GET" ∧ readable (URL_Path r) ∧
                      ∃ t key, (t, key) ∈ targets (w_state w) ∧
                        (o_Path a.2, o_RawPath a.2) = joinURLPath (u_Path t) (u_RawPath t) (URL_Path r) (URL_RawPath r) ∧
                        url_unescape (EscapedPath (o_Path a.2) (o_RawPath a.2)) = Some (o_Path a.2)) l.
Proof.
  intros Hm Hc Hro. set (P := shipped JP LH LC). destruct (server_approved reencode env maxBodySize auditOpts secrets resolver pluginsHealthy
    backendHealthy r w Hm) as (l & Hl & Hf).
  exists l. split; [exact Hl|]. eapply Forall_impl; [exact Hf|]. intros a Ha.
  apply approved_mediated in Ha as (rec & role & q & t & key & Hh & Hin & Hd & Ht & _ & _ & Eq & _ & _ & Em & Ep & Ew & _);
    [|done].
  assert (pb_Method q = "GET" ∧ readable (pb_Path q)) as [HG HR].
  { specialize (Hro rec Hh role Hin). cbn [decides System_Deployment] in Hd. unfold policy_allows in Hd.
    repeat (apply elem_of_cons in Hro as [->|Hro]); [| |by apply not_elem_of_nil in Hro]; cbn in Hd.
    - apply readZones_allows. by destruct (ar_Decision _).
    - apply discovery_allows. by destruct (ar_Decision _). }
  rewrite Em, HG. rewrite Eq in HR, Ep. split_and!; [done|done|]. by exists t, key.
Qed.

(** C24: availability.  One role with a working plugin that allows the request is
    enough: the plugin is running with its breaker closed, no other name is mapped to
    its instance, its process allows, and its calls get through.  Then the answer is
    allow, whatever the order of the goroutines and however the plugins of the other
    roles fail, panic, deny or are missing. *)
Theorem system_Authorize_available `{Policies} `{Rpc} roles req (s : System) role l inst reason :
  role ∈ roles → plugins (sy_plugins s) !! role = Some l →
  (∀ role', plugins (sy_plugins s) !! role' = Some l → role' = role) →
  insts (sy_plugins s) !! l = Some inst → failed inst = false → state (breaker inst) = StateClosed →
  process_reply role req = RpcResp 1 reason → (∀ n, dependable roles role (sy_script s n)) →
  ∃ plugin reason', (system_Authorize roles req s).1 = ("allow", plugin, reason').
Proof.
  intros [i Hi]%list_elem_of_lookup_1 Hl Hal Hin Hf Hs Hp Hd.
  destruct (drive_available (sy_script s) (sy_clock s) (plugins (sy_plugins s)) roles req
    (insts (sy_plugins s)) (live_valid (sy_plugins s)) role l reason Hl Hal (4 * length roles) (sy_tick s) i
    Hi Hp Hd) as (r & Hr & Ha); [by exists inst|done|].
  exists (res_plugin r), (res_reason r). unfold system_Authorize, fan_of. rewrite Hr. cbn.
  by apply String.eqb_eq in Ha as ->.
Qed.

(** ** A running instance *)

Definition reader_key : KeyRecord :=
  mkKeyRecord "k1" (Hash ex_gen "pdg_1") "h1" "alice" ["api_discovery"; "read_zones"] [] true None 0 0.

Definition ex_manager : Manager :=
  mkManager {["admin" := 0; "read_zones" := 1]} ex_heap false false.

Lemma ex_manager_valid : valid_manager ex_manager.
Proof.
  intros name l. cbn. intros [[<- <-]|[? [<- <-]%lookup_singleton_Some]]%lookup_insert_Some; by eexists.
Qed.

(** Two roles, one without a plugin; a script that is of no use. *)
Definition ex_system : System :=
  mkSystem {["k1" := reader_key]} (RateLimit.New (mkConfig (Float64.of_Z 1) 2)) (mkLive ex_manager ex_manager_valid)
    (λ n, if Nat.even n then EvSpawn else EvPanic n) (λ n, Z.of_nat n) 0 [] [] (NewLogger 16 0) [] ex_pool.
Definition ex_system_world : World System :=
  mkWorld (mkRW ∅ None "") false (mkCells 0 "" (mkAuthzResult "" "" "") 200) [] 0
    (λ n, Z.of_nat n) 0 (λ _, "req-1") 0 [] ex_system.
Definition ex_system_request : Request :=
  mkRequest "GET" "" (zones_path +:+ "/example.org.") "" "" "h"
    {["X-Api-Key" := ["k1:pdg_1"]; "Cookie" := ["c"]]} NoBody 0 "198.51.100.7:4711".
Definition ex_system_env : Env := mkEnv (λ _ _, RTResponse (Balancer.mkResponse 200 ∅ "{}" false)) (λ _, false) (λ _ _, None).
Definition ex_shipped : Policies := shipped (λ _, None) (λ _, Err (ErrMsg "")) (λ _, Err (ErrMsg "")).

#[local] Existing Instance ex_shipped.

(** What the backends receive. *)
Definition ex_sent : list (nat * nat * outRequest) :=
  sent (pool (w_state (newProxyServer 1024 sys_opts {["h1" := "topsecret"]} [] true true
    (Balancer_ServeHTTP id ex_system_env) Background ex_system_request ex_system_world).2)).

Lemma ex_sent_one : length ex_sent = 1.
Proof. vm_compute. reflexivity. Qed.

Lemma one_sent {A} (l sent : list A) : length sent = 1 → sent = [] ++ l → ∃ a, l = [a].
Proof. intros Hn ->. destruct l as [|a [|]]; [done| |done]. by exists a. Qed.

Lemma ex_canonical : canonical (Header ex_system_request).
Proof.
  intros k. cbn [Header ex_system_request]. rewrite dom_insert, dom_singleton, elem_of_union, !elem_of_singleton.
  intros [->| ->]; reflexivity.
Qed.

(** One request goes out, for which alice's key and the plugin read_zones answer. *)
Lemma gateway_complete_mediation_witness :
  ∃ a, ex_sent = [a] ∧
    mediated id {["h1" := "topsecret"]} [] ex_system_request {["k1" := reader_key]} (targets ex_system) 4%Z a.2.
Proof.
  destruct (gateway_complete_mediation (S := System) id ex_system_env 1024 sys_opts {["h1" := "topsecret"]} []
    true true ex_system_request ex_system_world) as (l & Hl & Hf).
  - split; [discriminate|reflexivity].
  - exact ex_canonical.
  - destruct (one_sent l ex_sent ex_sent_one Hl) as [a ->]. exists a. split; [exact Hl|]. inversion Hf. assumption.
Defined.

Definition ex_read_sent : list (nat * nat * outRequest) :=
  sent (pool (w_state (shippedServer (λ _, None) (λ _, Err (ErrMsg "")) (λ _, Err (ErrMsg "")) 1024 sys_opts
    {["h1" := "topsecret"]} [] true true (Balancer_ServeHTTP id ex_system_env) Background ex_system_request
    ex_system_world).2)).

Lemma ex_read_sent_one : length ex_read_sent = 1.
Proof. vm_compute. reflexivity. Qed.

Lemma read_only_keys_witness :
  ∃ a, ex_read_sent = [a] ∧ o_Method a.2 = "GET" ∧ readable (URL_Path ex_system_request) ∧
    ∃ t key, (t, key) ∈ targets ex_system ∧
      (o_Path a.2, o_RawPath a.2) =
        joinURLPath (u_Path t) (u_RawPath t) (URL_Path ex_system_request) (URL_RawPath ex_system_request) ∧
      url_unescape (EscapedPath (o_Path a.2) (o_RawPath a.2)) = Some (o_Path a.2).
Proof.
  destruct (read_only_keys (λ _, None) (λ _, Err (ErrMsg "")) (λ _, Err (ErrMsg "")) id ex_system_env 1024 sys_opts
    {["h1" := "topsecret"]} [] true true ex_system_request ex_system_world) as (l & Hl & Hf).
  - split; [discriminate|reflexivity].
  - exact ex_canonical.
  - intros rec (keyID & secret & _ & Hk & _). cbn [w_state ex_system_world sy_keys ex_system] in Hk.
    apply lookup_singleton_Some in Hk as [_ <-]. intros role. cbn [Roles reader_key].
    rewrite !elem_of_cons. intros [->|[->|[]%not_elem_of_nil]]; tauto.
  - destruct (one_sent l ex_read_sent ex_read_sent_one Hl) as [a ->]. exists a. split; [exact Hl|]. inversion Hf. assumption.
Defined.

Lemma system_Authorize_available_witness :
  ∃ plugin reason, (system_Authorize ["ghost"; "admin"; "read_zones"] (pluginRequest Background ex_system_request)
    ex_system).1 = ("allow", plugin, reason).
Proof.
  apply (system_Authorize_available ["ghost"; "admin"; "read_zones"] (pluginRequest Background ex_system_request)
    ex_system "read_zones" 1 (PluginManager.ex_inst (NewCircuitBreaker "reader" 2 1 (10 * Second)))
    "read_zones: GET on zones endpoint").
  - repeat constructor.
  - reflexivity.
  - intros role'. cbn. intros [[_ E]|[_ [E _]%lookup_singleton_Some]]%lookup_insert_Some; [discriminate|done].
  - reflexivity.
  - reflexivity.
  - reflexivity.
  - vm_compute. reflexivity.
  - intros n. cbn. destruct (Nat.even n) eqn:E; [exact I|]. cbn. destruct n as [|[|[|n]]]; try discriminate.
Defined.
