(* ===== verification/Revocation.v ===== *)
(** * Withdrawing a key through the admin API shuts its holder out

    The admin server and the proxy server share the key store: the one changes it, the
    other reads it on every request.  The theorem joins the admin handlers, over any store
    that meets the contract of Store, with the whole path of a request of Mediation, over
    any deployment whose keys are those the admin operation left.  The two states may be
    one and the same, or those of two processes on one database. *)

From S2P Require Import Prelude GoStrings GoNet GoUrl GoCrypto Http ServeMux Store MemoryStore Spans ClientIP Authn RateLimit.
From S2P Require Import Authz AuditTrail AuditFile Gateway Admin CircuitBreaker PluginManager.
From S2P Require Import Balancer Mediation Plugins Sdk Driver System.

(** ** The admin side *)

Section Admin.
Context {S C : Type} `{KeyManagerSpec S C} `{AdminCodec}.

Lemma run_op_outcome op id (w : World S) :
  rw_sent (w_rw w) = None → ∃ w', run_op op id w = (Returned, w') ∧ op_outcome op id w w'.
Proof.
  destruct op; cbn [run_op]; auto using deleteKey_outcome, setEnabled_outcome, setExpiry_outcome,
    updateRoles_outcome, updateAllowedCIDRs_outcome, rotateKey_outcome.
Qed.

(** An operation that answers with its success code has had its effect. *)
Lemma op_applied op id (w w' : World S) :
  rw_sent (w_rw w) = None → run_op op id w = (Returned, w') → status w' = Some (success op) →
  ∃ g, effect op id w g ∧ keys (w_state w') = g (keys (w_state w)).
Proof.
  intros Hn Hr Hs. destruct (run_op_outcome op id w Hn) as (w1 & E & Ho). rewrite Hr in E. injection E as <-.
  assert (success op = 204%Z ∨ success op = 200%Z) as Hc by (destruct op; auto).
  destruct Ho as [(Hb & _)|[(_ & (_ & g & Hg & Hk) & _)|[(Hb & _)|(Hb & _)]]]; [| |destruct Hc; congruence..].
  - destruct Hc; congruence.
  - by exists g.
Qed.
End Admin.

(** ** Withdrawal *)

(** The operation takes the key away from whoever presents [secret]: it deletes or
    disables the key, or gives it a new secret with another HMAC. *)
Definition withdraws (secrets : HmacService) (secret : string) (op : admin_op) : Prop :=
  match op with
  | OpDelete => True
  | OpEnabled b => b = false
  | OpRotate keygen random => ∀ new k, GenerateSecret random = Ok new → secrets !! hmacKeyID keygen = Some k →
      hmac_Sum k secret ≠ hmac_Sum (hmacSecret keygen) new
  | _ => False
  end.

Lemma withdrawn_no_holder {S C} `{KeyManagerSpec S C} `{AdminCodec} secrets resolver op id secret (w : World S) g r T rec :
  withdraws secrets secret op → effect op id w g → credentials r id secret →
  ¬ holder secrets resolver r (g (keys (w_state w))) T rec.
Proof.
  intros Hw He (Hc & _) (id' & secret' & (Hc' & _) & Hk & (k & Hs & _ & Hv) & (Hen & _)).
  rewrite Hc in Hc'. injection Hc' as <- <-.
  destruct op as [|b|r'|r'|r'|keygen random]; cbn in Hw; try done; cbn in He.
  - subst g. by rewrite lookup_delete_eq in Hk.
  - destruct He as (t & ->). rewrite lookup_alter_eq in Hk. subst b.
    apply fmap_Some in Hk as (rec0 & _ & ->). done.
  - destruct He as (new & t & Hnew & ->). rewrite lookup_alter_eq in Hk.
    apply fmap_Some in Hk as (rec0 & _ & ->). cbn in Hs, Hv. unfold Hash in Hv.
    rewrite hex_Decode_Encode in Hv by apply hmac_Sum_bytes. injection Hv as Hv. by destruct (Hw new k Hnew Hs).
Qed.

(** C8: withdrawal is effective at once.  When the admin API has answered a request
    to delete a key, to disable it or to rotate its secret with success, then from that
    state of the keys on nothing is sent upstream for a request that presents the key's
    ID with any secret (after a rotation: with any secret that has not the HMAC of the
    new one), in any deployment and whatever the plugins and the backends do. *)
Theorem withdrawn_key_locked_out {S1 C} `{KeyManagerSpec S1 C} `{AdminCodec} {S} `{Deployment S} `{JsonLib}
    reencode env maxBodySize auditOpts secrets resolver pluginsHealthy backendHealthy
    op id secret (w w' : World S1) r (w2 : World S) :
  rw_sent (w_rw w) = None → run_op op id w = (Returned, w') → status w' = Some (success op) →
  withdraws secrets secret op → stored_keys (w_state w2) = keys (w_state w') →
  credentials r id secret → (0 ≤ maxBodySize < 2 ^ 63 - 1)%Z →
  sent (pool (w_state (newProxyServer maxBodySize auditOpts secrets resolver pluginsHealthy backendHealthy
          (Balancer_ServeHTTP reencode env) Background r w2).2)) = sent (pool (w_state w2)).
Proof.
  intros Hn Hr Hs Hw Hk Hc Hm. destruct (op_applied op id w w' Hn Hr Hs) as (g & Hg & Ek).
  destruct (server_approved reencode env maxBodySize auditOpts secrets resolver pluginsHealthy backendHealthy r w2 Hm)
    as (l & -> & Hf).
  destruct Hf as [|a l (ctx & r' & t & key & (b & n & rec & role & _ & _ & (Hh & _) & _) & _) _]; [by rewrite app_nil_r|].
  rewrite Hk, Ek in Hh. by apply (withdrawn_no_holder secrets resolver op id secret w g r _ rec Hw Hg Hc) in Hh.
Qed.

(** ** Alice's key is disabled *)

#[local] Existing Instance ex_shipped.
#[local] Existing Instance Admin.ex_codec.

Definition ex_admin_world : World Memory.Store := set_state {["k1" := reader_key]} ex_authn_world.
Definition ex_disabled : World Memory.Store := (run_op (OpEnabled false) "k1" ex_admin_world).2.

(** The system of System, on the keys an admin operation left. *)
Definition with_keys (m : Memory.Store) (s : System) : System :=
  mkSystem m (sy_limiter s) (sy_plugins s) (sy_script s) (sy_clock s) (sy_tick s) (sy_counted s)
    (sy_restarts s) (sy_log s) (sy_spans s) (sy_pool s).
Definition ex_locked_world : World System := set_state (with_keys (w_state ex_disabled) ex_system) ex_system_world.

Lemma withdrawn_key_locked_out_witness :
  sent (pool (w_state (newProxyServer 1024 sys_opts {["h1" := "topsecret"]} [] true true
    (Balancer_ServeHTTP id ex_system_env) Background ex_system_request ex_locked_world).2)) = sent (pool (w_state ex_locked_world)).
Proof.
  apply (withdrawn_key_locked_out (S1 := Memory.Store) (C := list string) (S := System) id ex_system_env 1024 sys_opts
    {["h1" := "topsecret"]} [] true true (OpEnabled false) "k1" "pdg_1" ex_admin_world ex_disabled
    ex_system_request ex_locked_world).
  - reflexivity.
  - vm_compute. reflexivity.
  - vm_compute. reflexivity.
  - reflexivity.
  - reflexivity.
  - split; [reflexivity|]. split; discriminate.
  - split; [discriminate|reflexivity].
Defined.
