(* ===== verification/Accountability.v ===== *)
(** * No request goes upstream unrecorded

    The audit log of the running system.  A handler behind the audit middleware is
    accountable when it leaves the log alone and sends nothing unless the decision
    recorded in the shared cell is allow; every middleware keeps that, and the load
    balancer neither writes the cell nor the log.  In fail-closed mode the audit
    middleware commits the entry it has reserved, whatever becomes of the response. *)

From S2P Require Import Prelude GoStrings GoNet GoUrl Http ServeMux Store MemoryStore Spans ClientIP Authn RateLimit.
From S2P Require Import Authz AuditTrail AuditFile Gateway PluginManager Balancer Mediation Plugins Sdk.
From S2P Require Import Driver System.

Section Accountability.

Context `{Policies} `{Rpc} `{JsonLib}.
Context (reencode : string → string) (env : Env).
Context (maxBodySize : Z) (auditOpts : Options) (secrets : HmacService) (resolver : Resolver).

(** ** What a step leaves alone *)

(** The log and the recorded decision. *)
Definition silent (w w' : World System) : Prop :=
  sy_log (w_state w') = sy_log (w_state w) ∧ authzResult (w_cells w') = authzResult (w_cells w).

#[local] Instance silent_preorder : PreOrder silent.
Proof.
  split; [by intros w; split|]. intros w1 w2 w3 [E1 E2] [E3 E4]. split; congruence.
Qed.

Lemma same_view_silent (w w' : World System) : same_view w w' → silent w w'.
Proof. intros [E1 E2]. split; [by rewrite E1|done]. Qed.

Lemma reject_silent msg code (w : World System) : silent w (reject msg code w).2.
Proof. apply (reject_step silent same_view_silent). Qed.

Lemma balancer_silent ctx r (w : World System) : silent w (Balancer_ServeHTTP reencode env ctx r w).2.
Proof. by apply (balancer_step reencode env silent same_view_silent). Qed.

(** ** Accountable handlers *)

(** Nothing was sent, or the cell says that it was allowed. *)
Definition accounted (w w' : World System) : Prop :=
  sy_log (w_state w') = sy_log (w_state w) ∧
  (sent (sy_pool (w_state w')) = sent (sy_pool (w_state w)) ∨ Http.Decision (authzResult (w_cells w')) = "allow").

Definition accountable (h : Handler System) : Prop :=
  ∀ ctx r w, authzResultKey ctx = true → accounted w (h ctx r w).2.

(** A world with the same log and pool, from which the rest is accounted for. *)
Lemma accounted_trans w w1 w2 :
  sy_log (w_state w1) = sy_log (w_state w) → sy_pool (w_state w1) = sy_pool (w_state w) →
  accounted w1 w2 → accounted w w2.
Proof. intros El Ep [E1 E2]. split; [congruence|]. destruct E2; [left|by right]. congruence. Qed.

Lemma accounted_reject msg code (w w1 : World System) :
  sy_log (w_state w1) = sy_log (w_state w) → sy_pool (w_state w1) = sy_pool (w_state w) →
  accounted w (reject msg code w1).2.
Proof.
  intros El Ep. apply (accounted_trans w w1); [done..|]. destruct (reject_silent msg code w1) as [E _].
  split; [done|]. left. by rewrite reject_state.
Qed.

Lemma accountable_authz h : (∀ ctx r w, silent w (h ctx r w).2) → accountable (authz_Middleware h).
Proof.
  intros Hh ctx r w Hk. unfold authz_Middleware.
  case_bool_decide; [apply accounted_reject; unfold writeResult; by rewrite Hk|].
  cbn [Authorize System_Authorizer].
  destruct (system_Authorize (GetRoles ctx) (pluginRequest ctx r) (w_state w)) as [[[d p] rs] s] eqn:Ea.
  assert (sy_log s = sy_log (w_state w) ∧ sy_pool s = sy_pool (w_state w)) as [El Ep].
  { by injection Ea as <- <- <- <-. }
  set (w1 := writeResult ctx d p rs (set_state s w)).
  assert (sy_log (w_state w1) = sy_log (w_state w) ∧ sy_pool (w_state w1) = sy_pool (w_state w) ∧
          Http.Decision (authzResult (w_cells w1)) = d) as (El1 & Ep1 & Hd) by (unfold w1, writeResult; by rewrite Hk).
  destruct (String.eqb_spec d "allow") as [->|_]; cbn [negb]; [|by apply accounted_reject].
  destruct (Hh ctx r w1) as [E1 E2]. split; [congruence|]. right. by rewrite E2.
Qed.

Lemma accountable_body h : accountable h → accountable (BodyBuffer maxBodySize h).
Proof.
  intros Hh ctx r w Hk. unfold BodyBuffer. destruct (Body r) as [|content err]; [by apply Hh|].
  destruct (_ && _); [by apply accounted_reject|].
  destruct (ReadAll_limited _ _ _) as [body|]; [|by apply accounted_reject].
  destruct (_ <? _)%Z; [by apply accounted_reject|].
  set (w1 := set_cells _ w). by apply (accounted_trans w w1), Hh.
Qed.

Lemma accountable_rate h : accountable h → accountable (ratelimit_Middleware h).
Proof.
  intros Hh ctx r w Hk. unfold ratelimit_Middleware, time_Now. destruct (_ =? _)%go; [by apply Hh|].
  cbn [w_state limiter_Allow System_RateLimiter].
  destruct (RateLimit.Allow _ _ (sy_limiter (w_state w))) as [ok lim].
  destruct ok; cbn [negb]; [|by apply accounted_reject].
  set (w1 := set_state _ _). by apply (accounted_trans w w1), Hh.
Qed.

Lemma accountable_authn h :
  accountable h → accountable (authn_Middleware (NewHmacService secrets) resolver h).
Proof.
  intros Hh ctx r w Hk.
  destruct (authn_cases secrets resolver ctx r w) as [rec w' _ _ (i & s & _ & Hw) Hn|w0 msg code _ _ _ Hw Hn _];
    rewrite Hn.
  - apply (accounted_trans w w'); [by rewrite Hw..|]. by apply Hh.
  - apply accounted_reject; destruct Hw as [->|(i & s & _ & ->)]; done.
Qed.

(** ** The audit middleware *)

(** Something was sent only if the log has one entry more, for this request and with the
    decision allow; every permit is still accounted for. *)
Definition recorded (r : Request) (w w' : World System) : Prop :=
  reservation_inv (sy_log (w_state w')) ∧
  (sent (sy_pool (w_state w')) = sent (sy_pool (w_state w)) ∨
   ∃ e, ch (sy_log (w_state w')) = ch (sy_log (w_state w)) ++ [e] ∧
     (e_Method e, e_Path e, e_Query e) = (Method r, URL_Path r, RawQuery r) ∧ e_AuthzDecision e = "allow").

(** A reservation that is granted can be committed. *)
Lemma reserve_commit l :
  reservation_inv l →
  let '(ok, l1) := Logger_Reserve false l in
  if ok then ∀ e, ∃ l2, Logger_commit e l1 = Some l2 ∧ ch l2 = ch l ++ [e] ∧ reservation_inv l2
  else reservation_inv l1.
Proof.
  intros [E1 E2]. unfold busy in E1. unfold Logger_Reserve. destruct (AuditFile.closed l); [done|].
  unfold has_room. case_bool_decide as Hlt; cbn [andb negb]; [|done].
  intros e. unfold Logger_commit. cbn. rewrite bool_decide_true by lia. eexists. split; [done|]. split; [done|].
  unfold reservation_inv, busy. cbn. rewrite length_app. cbn. lia.
Qed.

Definition records (h : Handler System) : Prop :=
  ∀ ctx r w, reservation_inv (sy_log (w_state w)) → recorded r w (h ctx r w).2.

Lemma recorded_trans r w w1 w2 :
  sy_log (w_state w1) = sy_log (w_state w) → sy_pool (w_state w1) = sy_pool (w_state w) →
  recorded r w1 w2 → recorded r w w2.
Proof. intros El Ep. unfold recorded. by rewrite El, Ep. Qed.

Lemma records_audit h :
  FailClosed auditOpts = true → accountable h → records (audit_Middleware auditOpts resolver h).
Proof.
  intros Hfc Hh ctx r w Hinv. unfold audit_Middleware, time_Now, audit_enter. rewrite Hfc.
  cbn [w_state set_cells Reserve System_Reserver]. cbn [Reserve Logger_Reserver].
  pose proof (reserve_commit _ Hinv) as Hrc. destruct (Logger_Reserve false (sy_log (w_state w))) as [ok l1].
  set (ctx' := if LogBody auditOpts then _ else _).
  assert (authzResultKey ctx' = true) as Hk by (unfold ctx'; by destruct (LogBody auditOpts)).
  destruct ok; cbn [negb].
  - set (w1 := set_state _ _). destruct (Hh ctx' r w1 Hk) as [El Es]. destruct (h ctx' r w1) as [o w2].
    cbn [snd] in *. unfold buildEntry, time_Now. cbn. set (e := AuditTrail.mkEntry _ _ _ _ _ _ _ _ _ _ _ _ _ _ _).
    rewrite El. cbn. destruct (Hrc e) as (l2 & E2 & Ech & Hinv2). unfold recorded. cbn. rewrite E2. cbn.
    split; [done|]. destruct Es as [Es|Es]; [by left|right]. by exists e.
  - unfold recorded. rewrite !reject_state. split; [exact Hrc|by left].
Qed.

(** ** The server *)

Lemma records_spans h : records h → records (Spans.Middleware h).
Proof.
  intros Hh ctx r w Hinv. unfold Spans.Middleware. specialize (Hh ctx r w Hinv). destruct (h ctx r w). exact Hh.
Qed.

Lemma records_metrics h : records h → records (metrics_Middleware h).
Proof.
  intros Hh ctx r w Hinv. unfold metrics_Middleware, time_Now.
  set (ctx' := WithStatusCodePtr _). set (w1 := set_cells _ _). specialize (Hh ctx' r w1 Hinv).
  by destruct (h ctx' r w1) as [[] w2].
Qed.

Lemma records_id h : records h → records (RequestID h).
Proof.
  intros Hh ctx r w Hinv. unfold RequestID, uuid_New. cbv zeta. eapply recorded_trans; [| |by apply Hh]; done.
Qed.

Lemma records_same r (w w' : World System) :
  reservation_inv (sy_log (w_state w)) → w_state w' = w_state w → recorded r w w'.
Proof. intros Hinv E. unfold recorded. rewrite E. by split; [|left]. Qed.

Lemma records_probe h : (∀ ctx r w, w_state (h ctx r w).2 = w_state w) → records (probeChain h).
Proof.
  intros Hh. unfold probeChain. rewrite !Chain_cons. apply records_id, records_metrics.
  intros ctx r w Hinv. by apply records_same.
Qed.

Lemma healthz_state ctx r (w : World System) : w_state (healthz ctx r w).2 = w_state w.
Proof. unfold healthz, WriteHeader. cbn. by destruct (w_recorder w). Qed.

Lemma readiness_state ph bh ctx r (w : World System) : w_state (readinessCheck ph bh ctx r w).2 = w_state w.
Proof.
  unfold readinessCheck. cbn [GetByID System_KeyStore]. destruct (Memory.GetByID _ _).1; [|by rewrite reject_state].
  destruct ph, bh; cbn [negb]; rewrite ?reject_state; try done. unfold WriteHeader. cbn. by destruct (w_recorder w).
Qed.

Lemma records_server ph bh :
  FailClosed auditOpts = true →
  records (newProxyServer maxBodySize auditOpts secrets resolver ph bh (Balancer_ServeHTTP reencode env)).
Proof.
  intros Hfc ctx r w Hinv. unfold newProxyServer. mux_split Hm Hown.
  2:{ destruct (Hown (λ _ _ _ w, (Returned, w))) as (w' & _ & -> & Hs & _). by apply records_same. }
  destruct (_ && _); [by apply (records_probe _ healthz_state)|].
  destruct (_ && _); [by apply (records_probe _ (readiness_state ph bh))|].
  destruct (bool_decide _); [apply records_same; [done|apply reject_state]|].
  rewrite proxy_handler_eq.
  exact (records_id _ (records_metrics _ (records_spans _ (records_audit _ Hfc (accountable_authn _ (accountable_rate _
    (accountable_body _ (accountable_authz _ balancer_silent))))))) ctx r w Hinv).
Qed.
End Accountability.

(** C6: accountability.  In fail-closed mode, and with every permit of the logger accounted
    for, no request goes upstream unrecorded: if anything was sent to a backend while the
    server handled a request, also when the handler panicked half-way through the
    response, the audit queue holds exactly one new entry, with the method, path and
    query of the request and the decision allow; and the permits are accounted for again. *)
Theorem system_accountability `{Policies} `{Rpc} `{JsonLib} reencode env maxBodySize auditOpts secrets resolver
    pluginsHealthy backendHealthy r (w : World System) :
  FailClosed auditOpts = true → reservation_inv (sy_log (w_state w)) →
  let w' := (newProxyServer maxBodySize auditOpts secrets resolver pluginsHealthy backendHealthy
               (Balancer_ServeHTTP reencode env) Background r w).2 in
  reservation_inv (sy_log (w_state w')) ∧
  (sent (sy_pool (w_state w')) ≠ sent (sy_pool (w_state w)) →
   ∃ e, ch (sy_log (w_state w')) = ch (sy_log (w_state w)) ++ [e] ∧
     (e_Method e, e_Path e, e_Query e) = (Method r, URL_Path r, RawQuery r) ∧ e_AuthzDecision e = "allow").
Proof.
  intros Hfc Hinv w'. destruct (records_server reencode env maxBodySize auditOpts secrets resolver pluginsHealthy
    backendHealthy Hfc Background r w Hinv) as [Hinv' Hrec].
  split; [done|]. intros Hne. by destruct Hrec.
Qed.

#[local] Existing Instance ex_shipped.

(** The backend's answer breaks off: the handler panics, and the entry is there. *)
Definition ex_broken_env : Env :=
  mkEnv (λ _ _, RTResponse (Balancer.mkResponse 200 ∅ "{" true)) (λ _, false) (λ _ _, None).
Abbreviation ex_broken := (newProxyServer 1024 sys_opts {["h1" := "topsecret"]} [] true true
  (Balancer_ServeHTTP id ex_broken_env) Background ex_system_request ex_system_world).
Example ex_broken_panics : ex_broken.1 = Panicked ∧ length (sent (sy_pool (w_state ex_broken.2))) = 1.
Proof. vm_compute. split; reflexivity. Qed.

Lemma system_accountability_witness :
  ∃ e, ch (sy_log (w_state ex_broken.2)) = ch (sy_log ex_system) ++ [e] ∧ e_AuthzDecision e = "allow".
Proof.
  destruct (system_accountability id ex_broken_env 1024 sys_opts {["h1" := "topsecret"]} [] true true
    ex_system_request ex_system_world eq_refl) as [_ Hrec].
  - split; [reflexivity|]. vm_compute. lia.
  - destruct Hrec as (e & E & _ & Hd).
    + intros E. apply (f_equal length) in E. rewrite (proj2 ex_broken_panics) in E. discriminate E.
    + exists e. split; [exact E|exact Hd].
Defined.
