(* ===== verification/Protocol.v ===== *)
(** * What one request asks of the rest of the gateway, call by call

    Requests are handled concurrently: between two calls that the handler of one
    request makes on the shared components, other requests, the admin API and the flush
    loop of the audit log make theirs.  The state [Thread] is the gateway as one such
    handler sees it: the answers it is going to get, whatever the other goroutines do
    meanwhile, and the calls it has made with the answers it got.  Each call is one
    atomic step of its component (a method under its mutex, or one SQL statement).

    [advance] is the protocol of these calls: reserve an audit slot, look the presented
    key up, charge its principal, ask the plugins of its roles, send, and commit the
    entry.  The lemmas show that the proxy server of cmd/pdag/serve.go keeps to the
    protocol, whatever it is answered; Concurrent interleaves such threads. *)

From Stdlib Require Import Ascii.
From S2P Require Import Prelude GoStrings GoNet GoUrl Http ServeMux Store MemoryStore Spans ClientIP Authn RateLimit.
From S2P Require Import Authz AuditTrail Gateway PluginManager Balancer Mediation Plugins Sdk Driver.

(** ** Calls *)

Inductive event :=
  | EvReserve (ok : bool)
  | EvLookup (id : string) (res : result (option KeyRecord))
  | EvLimit (now : Time) (principal : string) (ok : bool)
  | EvAuth (roles : list string) (q : HttpRequest) (answer : string * string * string)
  | EvSend (a : nat * nat * outRequest)
  | EvCommit (e : Entry)
  | EvPublish (e : Entry) (res : result unit).

(** The requests sent to the backends among the calls. *)
Definition sends_of (tr : list event) : list (nat * nat * outRequest) :=
  omap (λ ev, match ev with EvSend a => Some a | _ => None end) tr.

Lemma sends_of_app tr1 tr2 : sends_of (tr1 ++ tr2) = sends_of tr1 ++ sends_of tr2.
Proof. apply omap_app. Qed.

Lemma sends_of_sent l : sends_of (EvSend <$> l) = l.
Proof. induction l as [|a l IH]; [done|]. cbn. f_equal. exact IH. Qed.

(** ** One goroutine's view of the gateway *)

Section Thread.
Context `{Policies}.

(** An answer of the plugin manager is allow only when the plugin of a role allows. *)
Definition honest_verdict (v : list string → HttpRequest → string * string * string) : Prop :=
  ∀ roles q plugin reason, v roles q = ("allow", plugin, reason) → plugin ∈ roles ∧ policy_allows plugin q = true.

Record Thread := mkThread {
  th_keys : gmap string KeyRecord;       (** the keys when this request looks its key up *)
  th_down : option gerror;               (** the error of that lookup *)
  th_allow : bool;
  th_verdict : list string → HttpRequest → string * string * string;
  th_honest : honest_verdict th_verdict;
  th_reserve : bool;
  th_publish : result unit;
  th_pool : Pool;                        (** the backends, and what this request has sent *)
  th_calls : list event;
}.

Definition th_record (evs : list event) (p : Pool) (s : Thread) : Thread :=
  mkThread (th_keys s) (th_down s) (th_allow s) (th_verdict s) (th_honest s) (th_reserve s) (th_publish s)
    p (th_calls s ++ evs).
Definition th_call (ev : event) (s : Thread) : Thread := th_record [ev] (th_pool s) s.

Definition th_lookup (id : string) (s : Thread) : result (option KeyRecord) :=
  match th_down s with Some e => Err e | None => Ok (th_keys s !! id) end.

(** The answer in a call is the one this thread was going to get. *)
Definition genuine (s : Thread) (ev : event) : Prop :=
  match ev with
  | EvReserve ok => ok = th_reserve s
  | EvLookup id res => res = th_lookup id s
  | EvLimit _ _ ok => ok = th_allow s
  | EvAuth roles q answer => answer = th_verdict s roles q
  | EvPublish _ res => res = th_publish s
  | EvSend _ | EvCommit _ => True
  end.

#[export] Instance Thread_KeyStore : KeyStore Thread :=
  {| GetByID id s := (th_lookup id s, th_call (EvLookup id (th_lookup id s)) s) |}.
#[export] Instance Thread_RateLimiter : RateLimiter Thread :=
  {| limiter_Allow now p s := (th_allow s, th_call (EvLimit now p (th_allow s)) s) |}.
#[export] Instance Thread_Authorizer : Authorizer Thread :=
  {| Authorize roles q s := (th_verdict s roles q, th_call (EvAuth roles q (th_verdict s roles q)) s) |}.
#[export] Instance Thread_Publisher : Publisher Thread :=
  {| Publish e s := (th_publish s, th_call (EvPublish e (th_publish s)) s) |}.
#[export] Instance Thread_Reserver : Reserver Thread :=
  {| Reserve s := (th_reserve s, th_call (EvReserve (th_reserve s)) s);
     commit e s := th_call (EvCommit e) s |}.
#[export] Instance Thread_Tracer : Tracer Thread := {| End _ s := s |}.

(** The pool's flags and counter are this goroutine's reading of them ([stored] of [Env]
    has the stores of the others); a request that goes out is a call. *)
#[export] Program Instance Thread_HasPool : HasPool Thread :=
  {| pool := th_pool;
     set_pool p s := th_record (EvSend <$> drop (length (sent (th_pool s))) (sent p)) p s |}.
Next Obligation. done. Qed.

#[export] Program Instance Thread_Deployment : Deployment Thread :=
  {| stored_keys := th_keys; decides := policy_allows |}.
Next Obligation.
  intros id s rec. cbn. unfold th_lookup. destruct (th_down s); [done|]. by intros [= ->].
Qed.
Next Obligation. intros roles q s plugin reason s' [= E _]. by eapply th_honest. Qed.
Next Obligation. done. Qed.
Next Obligation. done. Qed.
Next Obligation. done. Qed.
Next Obligation. done. Qed.
Next Obligation. done. Qed.
Next Obligation. done. Qed.
Next Obligation. done. Qed.
End Thread.
Arguments Thread {_}.

(** ** The protocol *)

Inductive stage :=
  | Idle
  | Entered                     (** an audit slot is reserved *)
  | Known (rec : KeyRecord)     (** the presented key was found *)
  | Metered (rec : KeyRecord)   (** its principal was charged *)
  | Cleared                     (** a plugin allowed the request *)
  | Refused
  | Settled (allowed : bool).   (** the entry is in the log, or no slot was to be had *)

Section Protocol.
Context (failClosed : bool) (r : Request).

Definition key_id : option string := fst <$> Cut (Header_Get (Header r) "X-API-Key") ":".

Definition is_readyz : bool :=
  ((Method r =? "GET")%go || (Method r =? "HEAD")%go) && bool_decide (mux_segments r = ["readyz"]).

(** The request can be authenticated now: the audit middleware has let it in. *)
Definition starts (st : stage) : bool :=
  match st with Entered => true | Idle => negb failClosed | _ => false end.

(** The entry is still to be written. *)
Definition in_flight (st : stage) : bool :=
  match st with Idle => negb failClosed | Settled _ => false | _ => true end.

Definition is_cleared (st : stage) : bool := match st with Cleared => true | _ => false end.

(** The plugins are asked about the request line of [r]. *)
Definition asks (q : HttpRequest) : bool :=
  (pb_Method q =? Method r)%go && (pb_Path q =? URL_Path r)%go && (pb_RawQuery q =? RawQuery r)%go.

(** The entry is that of [r], and says allow if and only if it was allowed. *)
Definition reports (allowed : bool) (e : Entry) : bool :=
  (e_Method e =? Method r)%go && (e_Path e =? URL_Path r)%go && (e_Query e =? RawQuery r)%go &&
  Bool.eqb (e_AuthzDecision e =? "allow")%go allowed.

(** A principal without a name is not charged. *)
Definition admissible (st : stage) : option KeyRecord :=
  match st with
  | Metered rec => Some rec
  | Known rec => if (Principal rec =? "")%go then Some rec else None
  | _ => None
  end.

Definition advance (ev : event) (st : stage) : option stage :=
  match ev with
  | EvReserve ok =>
      match st with
      | Idle => if failClosed then Some (if ok then Entered else Settled false) else None
      | _ => None
      end
  | EvLookup id res =>
      if is_readyz then
        match st with Idle => if (id =? "__healthcheck__")%go then Some (Settled false) else None | _ => None end
      else if starts st && bool_decide (key_id = Some id) then
        Some (match res with Ok (Some rec) => Known rec | _ => Refused end)
      else None
  | EvLimit _ p ok =>
      match st with
      | Known rec => if (p =? Principal rec)%go then Some (if ok then Metered rec else Refused) else None
      | _ => None
      end
  | EvAuth roles q (decision, _, _) =>
      rec ← admissible st;
      if bool_decide (roles = Roles rec) && asks q then
        Some (if (decision =? "allow")%go then Cleared else Refused)
      else None
  | EvSend _ => if is_cleared st then Some Cleared else None
  | EvCommit e =>
      if failClosed && in_flight st && reports (is_cleared st) e then Some (Settled (is_cleared st)) else None
  | EvPublish e _ =>
      if negb failClosed && in_flight st && reports (is_cleared st) e then Some (Settled (is_cleared st)) else None
  end.

(** The same protocol as rules. *)
Inductive advances : event → stage → stage → Prop :=
  | adv_reserve ok :
      failClosed = true → advances (EvReserve ok) Idle (if ok then Entered else Settled false)
  | adv_probe res : is_readyz = true → advances (EvLookup "__healthcheck__" res) Idle (Settled false)
  | adv_lookup id res st :
      is_readyz = false → starts st = true → key_id = Some id →
      advances (EvLookup id res) st (match res with Ok (Some rec) => Known rec | _ => Refused end)
  | adv_limit now rec ok :
      advances (EvLimit now (Principal rec) ok) (Known rec) (if ok then Metered rec else Refused)
  | adv_auth rec st q d p rs :
      admissible st = Some rec → asks q = true →
      advances (EvAuth (Roles rec) q (d, p, rs)) st (if (d =? "allow")%go then Cleared else Refused)
  | adv_send a : advances (EvSend a) Cleared Cleared
  | adv_commit e st :
      failClosed = true → in_flight st = true → reports (is_cleared st) e = true →
      advances (EvCommit e) st (Settled (is_cleared st))
  | adv_publish e res st :
      failClosed = false → in_flight st = true → reports (is_cleared st) e = true →
      advances (EvPublish e res) st (Settled (is_cleared st)).

Lemma advance_advances ev st st' : advance ev st = Some st' → advances ev st st'.
Proof.
  destruct ev as [ok|id res|now p ok|roles q [[d p] rs]|a|e|e res]; cbn [advance]; intros Ha.
  - destruct st, failClosed eqn:Ef; simplify_eq. by constructor.
  - destruct is_readyz eqn:Ez.
    + destruct st; try done. destruct (String.eqb_spec id "__healthcheck__"); by simplify_eq; constructor.
    + destruct (starts st) eqn:Es; [|done]. cbn [andb] in Ha. case_bool_decide; simplify_eq. by constructor.
  - destruct st; try done. destruct (String.eqb_spec p (Principal rec)); simplify_eq. constructor.
  - apply bind_Some in Ha as (rec & Hr & Ha). case_bool_decide; [|done]. cbn [andb] in Ha.
    destruct (asks q) eqn:Eq; simplify_eq. by constructor.
  - destruct st; simplify_eq/=. constructor.
  - destruct failClosed eqn:Ef; [|done]. destruct (in_flight st) eqn:Ei; [|done].
    destruct (reports (is_cleared st) e) eqn:Er; simplify_eq/=. by constructor.
  - destruct failClosed eqn:Ef; [done|]. destruct (in_flight st) eqn:Ei; [|done].
    destruct (reports (is_cleared st) e) eqn:Er; simplify_eq/=. by constructor.
Qed.

Fixpoint path (tr : list event) (st : stage) : option stage :=
  match tr with
  | [] => Some st
  | ev :: tr => st ← advance ev st; path tr st
  end.

Lemma path_app tr1 tr2 st : path (tr1 ++ tr2) st = path tr1 st ≫= path tr2.
Proof.
  revert st. induction tr1 as [|ev tr1 IH]; intros st; [done|]. cbn [path app].
  destruct (advance ev st); [apply IH|done].
Qed.

(** Where a path first gets to the stages of [P]. *)
Lemma path_crossing (P : stage → bool) tr st st' :
  path tr st = Some st' → P st = false → P st' = true →
  ∃ tr1 ev tr2 st1 st2, tr = tr1 ++ ev :: tr2 ∧ path tr1 st = Some st1 ∧ advances ev st1 st2 ∧
    P st1 = false ∧ P st2 = true ∧ path tr2 st2 = Some st'.
Proof.
  revert st. induction tr as [|ev tr IH]; intros st; cbn [path]; [intros [= ->]; congruence|].
  intros (st1 & Ha & Hp)%bind_Some Hst Hst'. destruct (P st1) eqn:E1.
  - exists [], ev, tr, st, st1. by split_and!; try apply advance_advances.
  - destruct (IH st1 Hp E1 Hst') as (tr1 & ev' & tr2 & s1 & s2 & -> & H1 & H2).
    exists (ev :: tr1), ev', tr2, s1, s2. cbn [path app]. by rewrite Ha.
Qed.

End Protocol.

(** ** The server keeps to the protocol *)

Section Conformance.

Context `{Policies} `{JsonLib} (reencode : string → string) (env : Env).
Context (maxBodySize : Z) (auditOpts : Options) (secrets : HmacService) (resolver : Resolver).

(** The request that came in. *)
Context (r0 : Request).
Abbreviation fc := (FailClosed auditOpts).
Abbreviation decision w := (Http.Decision (authzResult (w_cells w))).

(** From [w] to [w'] the calls lead from [st] to [st'], they got the answers of the
    thread, and the pool has what was sent. *)
Definition moves (st : stage) (w w' : World Thread) (st' : stage) : Prop :=
  ∃ tr, th_calls (w_state w') = th_calls (w_state w) ++ tr ∧
    sent (th_pool (w_state w')) = sent (th_pool (w_state w)) ++ sends_of tr ∧
    path fc r0 tr st = Some st' ∧ Forall (genuine (w_state w)) tr ∧
    (∀ ev, genuine (w_state w') ev ↔ genuine (w_state w) ev).

Lemma moves_same st (w w' : World Thread) : w_state w' = w_state w → moves st w w' st.
Proof. unfold moves. intros ->. exists []. cbn. by rewrite !app_nil_r. Qed.

Lemma moves_record evs st st' (w : World Thread) p (w' : World Thread) :
  w_state w' = th_record evs p (w_state w) → sent p = sent (th_pool (w_state w)) ++ sends_of evs →
  path fc r0 evs st = Some st' → Forall (genuine (w_state w)) evs → moves st w w' st'.
Proof. unfold moves. intros -> Hs Hp Hg. exists evs. by split_and!. Qed.

Lemma moves_trans st1 st2 st3 w1 w2 w3 : moves st1 w1 w2 st2 → moves st2 w2 w3 st3 → moves st1 w1 w3 st3.
Proof.
  intros (tr1 & E1 & S1 & P1 & F1 & G1) (tr2 & E2 & S2 & P2 & F2 & G2). exists (tr1 ++ tr2).
  rewrite E2, E1, S2, S1, sends_of_app, !app_assoc, path_app, P1. split_and!; try done.
  - apply Forall_app. split; [done|]. eapply Forall_impl; [exact F2|]. intros ev. apply G1.
  - intros ev. by rewrite G2, G1.
Qed.

(** One call that sends nothing. *)
Lemma moves_call ev st st' (w w' : World Thread) :
  w_state w' = th_call ev (w_state w) → sends_of [ev] = [] → genuine (w_state w) ev →
  advance fc r0 ev st = Some st' → moves st w w' st'.
Proof.
  intros Hw Hs Hg Ha. eapply moves_record; [exact Hw|by rewrite Hs, app_nil_r| |by apply Forall_singleton].
  cbn [path]. by rewrite Ha.
Qed.

Lemma moves_reject st msg code (w : World Thread) : moves st w (reject msg code w).2 st.
Proof. apply moves_same, reject_state. Qed.

Lemma reject_decision msg code (w : World Thread) : decision (reject msg code w).2 = decision w.
Proof. unfold reject, http_Error, WriteHeader. cbn. by destruct (w_recorder w). Qed.

(** *** Behind the audit middleware *)

(** Started in a stage of [P], the handler stays in the protocol, and the recorded
    decision is allow if and only if the request was cleared. *)
Definition conducts (P : Context → Request → stage → Prop) (h : Handler Thread) : Prop :=
  ∀ ctx r w st, P ctx r st → authzResultKey ctx = true → decision w ≠ "allow" →
    ∃ st', moves st w (h ctx r w).2 st' ∧ in_flight fc st' = true ∧
      (decision (h ctx r w).2 = "allow" ↔ st' = Cleared).

(** The handler refuses after getting to [st'] without clearing the request. *)
Lemma conducts_reject st st' msg code (w w1 : World Thread) :
  moves st w w1 st' → in_flight fc st' = true → st' ≠ Cleared → decision w1 ≠ "allow" →
  ∃ st2, moves st w (reject msg code w1).2 st2 ∧ in_flight fc st2 = true ∧
    (decision (reject msg code w1).2 = "allow" ↔ st2 = Cleared).
Proof.
  intros Hm Hf Hc Hd. exists st'. rewrite reject_decision.
  split; [exact (moves_trans _ _ _ _ _ _ Hm (moves_reject st' msg code w1))|]. done.
Qed.

(** The handler goes on with the next one after getting to [st1]. *)
Lemma conducts_inner P h ctx r st st1 (w w1 : World Thread) :
  conducts P h → moves st w w1 st1 → P ctx r st1 → authzResultKey ctx = true → decision w1 ≠ "allow" →
  ∃ st2, moves st w (h ctx r w1).2 st2 ∧ in_flight fc st2 = true ∧
    (decision (h ctx r w1).2 = "allow" ↔ st2 = Cleared).
Proof.
  intros Hh Hm HP Hk Hd. destruct (Hh ctx r w1 st1 HP Hk Hd) as (st2 & Hm2 & Hf).
  exists st2. split; [by eapply moves_trans|done].
Qed.

(** The balancer only sends. *)
Definition only_sends (w w' : World Thread) : Prop :=
  moves Cleared w w' Cleared ∧ authzResult (w_cells w') = authzResult (w_cells w).

#[local] Instance only_sends_preorder : PreOrder only_sends.
Proof.
  split; [intros w; split; [by apply moves_same|done]|].
  intros w1 w2 w3 [M1 E1] [M2 E2]. split; [by eapply moves_trans|congruence].
Qed.

Lemma balancer_only_sends ctx r (w : World Thread) : only_sends w (Balancer_ServeHTTP reencode env ctx r w).2.
Proof.
  apply (balancer_step reencode env only_sends).
  - intros w1 w2 [E1 E2]. split; [by apply moves_same|done].
  - intros f w1 Hf. split; [|done]. eapply moves_record; [done|..]; cbn [pool Thread_HasPool]; by rewrite Hf, drop_all, ?app_nil_r.
  - intros i idx o w1. split; [|done]. eapply moves_record; [done|..]; cbn; rewrite drop_app_length; [done|done|by repeat constructor].
Qed.

(** The request line, and the key whose roles are in the context. *)
Definition of_key (rec : KeyRecord) (ctx : Context) (r : Request) : Prop :=
  (Method r, URL_Path r, RawQuery r) = (Method r0, URL_Path r0, RawQuery r0) ∧
  GetRoles ctx = Roles rec ∧ GetPrincipal ctx = Principal rec.

Definition at_authz (ctx : Context) (r : Request) (st : stage) : Prop :=
  ∃ rec, admissible st = Some rec ∧ of_key rec ctx r.

Lemma admissible_in_flight st rec : admissible st = Some rec → in_flight fc st = true ∧ st ≠ Cleared.
Proof. by destruct st; cbn; try destruct (_ =? _)%go. Qed.

Lemma advance_auth st rec ctx r d p rs :
  admissible st = Some rec → of_key rec ctx r →
  advance fc r0 (EvAuth (GetRoles ctx) (pluginRequest ctx r) (d, p, rs)) st =
  Some (if (d =? "allow")%go then Cleared else Refused).
Proof.
  intros Ha ([= Em Ep Eq] & Er & _). cbn [advance]. rewrite Ha. cbn [mbind option_bind].
  rewrite bool_decide_true by done. unfold asks, pluginRequest. cbn.
  by rewrite Em, Ep, Eq, !String.eqb_refl.
Qed.

Lemma conducts_authz : conducts at_authz (authz_Middleware (Balancer_ServeHTTP reencode env)).
Proof.
  intros ctx r w st (rec & Ha & Hk) Hkey Hd. unfold authz_Middleware.
  destruct (admissible_in_flight st rec Ha) as [Hf Hc].
  case_bool_decide.
  { apply (conducts_reject st st); try done; unfold writeResult; rewrite Hkey; [by apply moves_same|done]. }
  cbn [Authorize Thread_Authorizer].
  destruct (th_verdict (w_state w) (GetRoles ctx) (pluginRequest ctx r)) as [[d p] rs] eqn:Ev.
  set (w1 := writeResult _ _ _ _ _).
  assert (decision w1 = d) as Hd1 by (unfold w1, writeResult; by rewrite Hkey).
  assert (moves st w w1 (if (d =? "allow")%go then Cleared else Refused)) as Hm.
  { eapply moves_call; [unfold w1, writeResult; by rewrite Hkey|done|done|by eapply advance_auth]. }
  destruct (String.eqb_spec d "allow") as [->|Hda]; cbn [negb].
  - destruct (balancer_only_sends ctx r w1) as [Hb Eb]. exists Cleared.
    split; [by eapply moves_trans|]. split; [done|]. by rewrite Eb, Hd1.
  - by apply (conducts_reject st Refused); rewrite ?Hd1.
Qed.

Lemma conducts_body h : conducts at_authz h → conducts at_authz (BodyBuffer maxBodySize h).
Proof.
  intros Hh ctx r w st HP Hk Hd. pose proof HP as (rec & Ha & Hok).
  destruct (admissible_in_flight st rec Ha) as [Hf Hc]. unfold BodyBuffer.
  destruct (Body r) as [|content err]; [by eapply conducts_inner; [|apply moves_same| | |]|].
  destruct (_ && _); [by apply (conducts_reject st st), Hd; [apply moves_same| |]|].
  destruct (ReadAll_limited _ _ _) as [body|]; [|by apply (conducts_reject st st), Hd; [apply moves_same| |]].
  destruct (_ <? _)%Z; [by apply (conducts_reject st st), Hd; [apply moves_same| |]|].
  eapply conducts_inner; [exact Hh|by apply moves_same|by exists rec|done|].
  cbn. by destruct (bodySizePtrKey ctx), (bodyBytesPtrKey ctx).
Qed.

Definition at_rate (ctx : Context) (r : Request) (st : stage) : Prop :=
  ∃ rec, st = Known rec ∧ of_key rec ctx r.

Lemma conducts_rate h : conducts at_authz h → conducts at_rate (ratelimit_Middleware h).
Proof.
  intros Hh ctx r w st (rec & -> & Hok) Hk Hd. pose proof Hok as (_ & _ & Hp).
  unfold ratelimit_Middleware, time_Now. rewrite Hp. destruct (Principal rec =? "")%go eqn:Ep.
  - eapply conducts_inner; [exact Hh|by apply moves_same| |done|done]. exists rec. cbn. by rewrite Ep.
  - cbn [w_state limiter_Allow Thread_RateLimiter]. set (w1 := set_state _ _).
    assert (moves (Known rec) w w1 (if th_allow (w_state w) then Metered rec else Refused)) as Hm.
    { eapply moves_call; [done|done|done|]. cbn. by rewrite String.eqb_refl. }
    destruct (th_allow (w_state w)); cbn [negb].
    + eapply conducts_inner; [exact Hh|exact Hm|by exists rec|done|done].
    + by apply (conducts_reject _ Refused).
Qed.

Definition at_authn (ctx : Context) (r : Request) (st : stage) : Prop :=
  r = r0 ∧ starts fc st = true ∧ is_readyz r0 = false.

Lemma advance_lookup st id secret res :
  starts fc st = true → is_readyz r0 = false → credentials r0 id secret →
  advance fc r0 (EvLookup id res) st = Some (match res with Ok (Some rec) => Known rec | _ => Refused end).
Proof.
  intros Hs Hz (Hc & _). cbn [advance]. rewrite Hz, Hs. cbn [andb].
  rewrite bool_decide_true; [done|]. unfold key_id. by rewrite Hc.
Qed.

Lemma conducts_authn h :
  conducts at_rate h → conducts at_authn (authn_Middleware (NewHmacService secrets) resolver h).
Proof.
  intros Hh ctx r w st (-> & Hs & Hz) Hk Hd.
  destruct (authn_cases secrets resolver ctx r0 w) as
    [rec w' (i & s & Hc & Hg & _) (_ & Hcell & _) (i' & s' & Hc' & Hw) Hn|w0 msg code _ _ (_ & Hcell & _) Hw Hn _];
    rewrite Hn.
  - assert (i' = i) as -> by (destruct Hc as [Hc _], Hc' as [Hc' _]; congruence). cbn in Hg, Hw.
    apply (conducts_inner at_rate h (identify rec ctx) r0 st (Known rec) w w' Hh); [|by exists rec|done|by rewrite Hcell].
    eapply moves_call; [exact Hw|done|done|]. by rewrite (advance_lookup st i s), Hg.
  - destruct Hw as [Hw|(i & s & Hc & Hw)].
    + apply (conducts_reject st st); [by apply moves_same| | |by rewrite Hcell]; by destruct st.
    + eapply (conducts_reject st); [eapply moves_call; [exact Hw|done|done|by eapply advance_lookup]| | |by rewrite Hcell];
        cbn; by destruct (th_lookup i (w_state w)) as [[]|].
Qed.

(** *** The audit middleware and what is around it *)

(** The handler runs the protocol from its start; in fail-closed mode to its end, or it
    makes no call at all. *)
Definition completes (w w' : World Thread) : Prop :=
  ∃ st, moves Idle w w' st ∧
    (fc = true → (∃ b, st = Settled b) ∨ th_calls (w_state w') = th_calls (w_state w)).

Definition follows (h : Handler Thread) : Prop := ∀ ctx w, completes w (h ctx r0 w).2.

Lemma follows_same (w w' : World Thread) : w_state w' = w_state w → completes w w'.
Proof. intros E. exists Idle. split; [by apply moves_same|]. intros _. right. by rewrite E. Qed.

Lemma reports_entry start ctx (w : World Thread) b :
  (decision w = "allow" ↔ b = true) → reports r0 b (buildEntry auditOpts resolver start ctx r0 w).1 = true.
Proof.
  intros Hb. unfold reports, buildEntry, time_Now. cbn. rewrite !String.eqb_refl. cbn [andb].
  destruct (String.eqb_spec (decision w) "allow") as [E|E], b; try done; exfalso; naive_solver.
Qed.

(** The entry after a handler that stayed in the protocol. *)
Lemma advance_entry start ctx (w : World Thread) st :
  in_flight fc st = true → (decision w = "allow" ↔ st = Cleared) →
  advance fc r0 (if fc then EvCommit (buildEntry auditOpts resolver start ctx r0 w).1
                 else EvPublish (buildEntry auditOpts resolver start ctx r0 w).1 (th_publish (w_state w))) st =
  Some (Settled (is_cleared st)).
Proof.
  intros Hf Hd. assert (reports r0 (is_cleared st) (buildEntry auditOpts resolver start ctx r0 w).1 = true) as Hr.
  { apply reports_entry. rewrite Hd. by destruct st. }
  destruct fc eqn:E; cbn [advance]; by rewrite Hf, Hr.
Qed.

Lemma follows_audit h :
  is_readyz r0 = false → conducts at_authn h → follows (audit_Middleware auditOpts resolver h).
Proof.
  intros Hz Hh ctx w. unfold audit_Middleware, time_Now, audit_enter.
  set (ctx' := if LogBody auditOpts then _ else _). cbn [w_state set_cells Reserve Thread_Reserver].
  assert (authzResultKey ctx' = true) as Hk by (unfold ctx'; by destruct (LogBody auditOpts)).
  set (start := w_clock w (w_tick w)). set (w0 := set_cells _ _).
  pose proof (λ w st, advance_entry start ctx' w st) as Hadv. destruct fc eqn:Hfc.
  - set (w1 := set_state _ w0).
    assert (moves Idle w w1 (if th_reserve (w_state w) then Entered else Settled false)) as Hm.
    { eapply moves_call; [done|done|done|]. cbn. by rewrite Hfc. }
    destruct (th_reserve (w_state w)); cbn [negb].
    + destruct (conducts_inner at_authn h ctx' r0 Idle Entered w w1 Hh Hm) as (st & Hm2 & Hf & Hd); [by split_and!|done|done|].
      destruct (h ctx' r0 w1) as [o w2]. cbn [snd] in Hm2, Hf, Hd. exists (Settled (is_cleared st)).
      rewrite Hfc in Hf. split; [|intros _; left; by eexists]. specialize (Hadv w2 st Hf Hd).
      destruct (buildEntry auditOpts resolver start ctx' r0 w2) as [e w3] eqn:Ee. cbn [fst] in Hadv.
      eapply moves_trans; [exact Hm2|]. apply (moves_call (EvCommit e)); [|done|done|by rewrite Hfc].
      unfold buildEntry, time_Now in Ee. by injection Ee as <- <-.
    + exists (Settled false). split; [|intros _; left; by eexists].
      eapply moves_trans; [exact Hm|]. exact (moves_reject _ _ _ (Inc _ _ w1)).
  - destruct (conducts_inner at_authn h ctx' r0 Idle Idle w w0 Hh) as (st & Hm2 & Hf & Hd);
      [by apply moves_same|split_and!; [done|cbn; by rewrite Hfc|done]|done|done|].
    destruct (h ctx' r0 w0) as [[] w2]; cbn [snd] in Hm2, Hf, Hd; rewrite Hfc in Hf.
    + specialize (Hadv w2 st Hf Hd). exists (Settled (is_cleared st)). split; [|by rewrite Hfc].
      destruct (buildEntry auditOpts resolver start ctx' r0 w2) as [e w3] eqn:Ee. cbn [fst] in Hadv.
      eapply moves_trans; [exact Hm2|]. apply (moves_call (EvPublish e (th_publish (w_state w2)))); [|done|done|by rewrite Hfc].
      unfold buildEntry, time_Now in Ee. by injection Ee as <- <-.
    + exists st. split; [exact Hm2|]. by rewrite Hfc.
Qed.

(** A handler around [h] that does nothing to the state of its own. *)
Lemma completes_same (w w1 w2 w3 : World Thread) :
  w_state w1 = w_state w → w_state w3 = w_state w2 → completes w1 w2 → completes w w3.
Proof. unfold completes, moves. by intros -> ->. Qed.

Lemma follows_spans h : follows h → follows (Spans.Middleware h).
Proof.
  intros Hh ctx w. unfold Spans.Middleware. specialize (Hh ctx w). by destruct (h ctx r0 w).
Qed.

Lemma follows_metrics h : follows h → follows (metrics_Middleware h).
Proof.
  intros Hh ctx w. unfold metrics_Middleware, time_Now. set (ctx' := WithStatusCodePtr _). set (w1 := set_cells _ _).
  specialize (Hh ctx' w1). destruct (h ctx' r0 w1) as [[] w2]; by apply (completes_same w w1 w2).
Qed.

Lemma follows_id h : follows h → follows (RequestID h).
Proof.
  intros Hh ctx w. unfold RequestID, uuid_New. cbv zeta. set (ctx' := WithRequestID _ _). set (w1 := rw_Set _ _ _).
  by apply (completes_same w w1 (h ctx' r0 w1).2).
Qed.

Lemma follows_probe h : follows h → follows (probeChain h).
Proof. intros Hh. unfold probeChain. rewrite !Chain_cons. by apply follows_id, follows_metrics. Qed.

Lemma follows_healthz : follows healthz.
Proof.
  intros ctx w. unfold healthz, WriteHeader. cbn [snd].
  exists Idle. split; [apply moves_same|intros _; right]; cbn; by destruct (w_recorder w).
Qed.

Lemma follows_readiness ph bh : is_readyz r0 = true → follows (readinessCheck ph bh).
Proof.
  intros Hz ctx w. unfold readinessCheck. cbn [GetByID Thread_KeyStore]. set (s := th_call _ _).
  exists (Settled false). split; [|intros _; left; by eexists].
  apply (moves_trans _ (Settled false) _ _ (set_state s w)).
  { eapply moves_call; [done|done|done|]. cbn [advance]. by rewrite Hz. }
  apply moves_same. destruct (th_lookup _ _); [|apply reject_state].
  destruct ph, bh; cbn [negb]; try apply reject_state. unfold WriteHeader. cbn. by destruct (w_recorder w).
Qed.

Lemma follows_server ph bh :
  follows (newProxyServer maxBodySize auditOpts secrets resolver ph bh (Balancer_ServeHTTP reencode env)).
Proof.
  intros ctx w. unfold newProxyServer.
  mux_split Hm Hown.
  2:{ destruct (Hown (λ _ _ _ w, (Returned, w))) as (w' & _ & -> & Hs & _). by apply follows_same. }
  destruct (_ && bool_decide (mux_segments r0 = ["healthz"])) eqn:E1; [by apply (follows_probe _ follows_healthz)|].
  destruct (_ && bool_decide (mux_segments r0 = ["readyz"])) eqn:E2; [by apply (follows_probe _ (follows_readiness ph bh E2))|].
  destruct (bool_decide (mux_segments r0 = [])); [by apply follows_same, reject_state|].
  rewrite proxy_handler_eq.
  exact (follows_id _ (follows_metrics _ (follows_spans _ (follows_audit _ E2 (conducts_authn _ (conducts_rate _
    (conducts_body _ conducts_authz)))))) ctx w).
Qed.
End Conformance.
