(* ===== verification/Concurrent.v ===== *)
(** * Requests handled at the same time

    Any number of requests, the admin API on the key store, the cleanup of the rate
    limiter and the flush loop of the audit log, interleaved in any order.  A trace is a
    list of labels: a call of one of the requests with the answer it got, or a step of
    the background.  The limiter takes the steps of TokenBuckets: a request loads its
    bucket in one step and locks it in a later one, that of its call.  [exec] runs a trace on the shared components and checks every
    answer against the component's own operation; [interleaves] says that the calls of
    each request in the trace are those its handler makes, as far as it has come
    ([Protocol] shows what they are).  The key store is any implementation of the
    contract of Store.  The answers of the plugin manager are any that its contract
    allows, so that nothing is assumed about how fan-outs of different requests meet.

    The theorems carry the guarantees of the gateway over to every interleaving: what is
    sent was judged on the keys of the moment of the lookup, every request sent is
    recorded and no request gets stuck on the audit log, and a withdrawn key is of no
    use to any request that had not been looked up before. *)

From S2P Require Import Prelude GoStrings GoNet GoUrl GoCrypto Http ServeMux Store MemoryStore Spans ClientIP Authn RateLimit TokenBuckets.
From S2P Require Import Authz AuditTrail AuditFile Gateway CircuitBreaker PluginManager Balancer Mediation.
From S2P Require Import Plugins Sdk Driver System Protocol.

(** ** Lists of labels *)

Inductive label (C : Type) :=
  | Call (t : nat) (ev : event)
  | Manage (op : key_call C)     (** the admin API and the command line *)
  | Limit (a : laction)          (** a bucket loaded by a request, the clean-up *)
  | Maintain (ev : levent).      (** the flush loop, a reopen, the shutdown *)
Arguments Call {C}. Arguments Manage {C}. Arguments Limit {C}. Arguments Maintain {C}.

Section Traces.
Context {C : Type}.
Implicit Types tr : list (label C).

(** The calls of the request [t]. *)
Definition calls_of (t : nat) tr : list event :=
  omap (λ l, match l with Call t' ev => if decide (t' = t) then Some ev else None | _ => None end) tr.

Lemma calls_of_app t tr1 tr2 : calls_of t (tr1 ++ tr2) = calls_of t tr1 ++ calls_of t tr2.
Proof. apply omap_app. Qed.

Lemma calls_of_call t ev tr : calls_of t (Call t ev :: tr) = ev :: calls_of t tr.
Proof. unfold calls_of. cbn. by rewrite decide_True. Qed.

(** A call in the projection, back in the trace. *)
Lemma calls_of_split t tr evs1 ev evs2 :
  calls_of t tr = evs1 ++ ev :: evs2 →
  ∃ tr1 tr2, tr = tr1 ++ Call t ev :: tr2 ∧ calls_of t tr1 = evs1 ∧ calls_of t tr2 = evs2.
Proof.
  revert evs1. induction tr as [|l tr IH]; intros evs1 E; [by destruct evs1|].
  assert ((∃ ev', l = Call t ev') ∨ calls_of t (l :: tr) = calls_of t tr) as [[ev' ->]|Hs].
  { destruct l as [t' ev'| | |]; try by right. destruct (decide (t' = t)) as [->|Hn]; [left; by eexists|].
    right. unfold calls_of. cbn. by rewrite decide_False. }
  - rewrite calls_of_call in E. destruct evs1 as [|ev1 evs1]; injection E as <- E.
    + exists [], tr. by rewrite E.
    + destruct (IH evs1 E) as (tr1 & tr2 & -> & E1 & E2). exists (Call t ev' :: tr1), tr2.
      by rewrite calls_of_call, E1.
  - rewrite Hs in E. destruct (IH evs1 E) as (tr1 & tr2 & -> & E1 & E2). exists (l :: tr1), tr2.
    split_and!; [done| |done]. rewrite <- E1. destruct l as [t' ev'| | |]; try done.
    unfold calls_of in Hs |- *. cbn in Hs |- *. destruct (decide (t' = t)); [|done].
    apply (f_equal length) in Hs. cbn in Hs. lia.
Qed.

(** Two splits of one trace, the second at a label the first part does not have. *)
Lemma split_after (P : label C → Prop) tr1 l1 tr2 tl l2 tr3 :
  tr1 ++ l1 :: tr2 = tl ++ l2 :: tr3 → Forall (λ l, ¬ P l) (tr1 ++ [l1]) → P l2 →
  ∃ mid, tl = tr1 ++ l1 :: mid ∧ tr2 = mid ++ l2 :: tr3.
Proof.
  intros E Hf Hp. replace (tr1 ++ l1 :: tr2) with ((tr1 ++ [l1]) ++ tr2) in E by by rewrite <- app_assoc.
  apply app_eq_inv in E as [(mid & E1 & E2)|(mid & -> & E2)].
  - destruct mid as [|l mid].
    + rewrite app_nil_r in E1. by exists [].
    + injection E2 as <- _. rewrite E1 in Hf. apply Forall_app in Hf as [_ Hf]. by inversion Hf.
  - exists mid. split; [by rewrite <- app_assoc|done].
Qed.
End Traces.

(** ** The shared components *)

Section Shared.
Context {St C : Type} `{KeyManagerSpec St C} {F : Type} `{Arith F}.

Record Shared := mkShared { sh_store : St; sh_limiter : Buckets F; sh_log : Logger }.

Definition with_log (l : Logger) (s : Shared) : Shared := mkShared (sh_store s) (sh_limiter s) l.

(** The steps of the audit log that no request makes. *)
Definition is_background (ev : levent) : bool :=
  match ev with LPublish _ _ | LReserve _ | LCommit _ => false | _ => true end.

(** The steps of the limiter outside the lock of a call's bucket. *)
Definition is_lock (a : laction) : bool := match a with ALock _ _ _ _ => true | _ => false end.

(** One step; a call only with the answer the component gives.  A reservation or a
    publication that fails although there is room has timed out. *)
Definition sstep (l : label C) (s : Shared) : option Shared :=
  match l with
  | Call _ (EvLookup id res) =>
      let '(res', st) := GetByID id (sh_store s) in
      if bool_decide (res' = res) then Some (mkShared st (sh_limiter s) (sh_log s)) else None
  | Call t (EvLimit now p ok) =>
      lim ← lim_step (ALock t now p ok) (sh_limiter s); Some (mkShared (sh_store s) lim (sh_log s))
  | Call _ (EvReserve ok) =>
      let '(ok', l) := Logger_Reserve (negb ok) (sh_log s) in
      if bool_decide (ok' = ok) then Some (with_log l s) else None
  | Call _ (EvPublish e res) =>
      let '(res', l) := Logger_Publish (negb (is_Ok res)) e (sh_log s) in
      if bool_decide (res' = res) then Some (with_log l s) else None
  | Call _ (EvCommit e) => l ← Logger_commit e (sh_log s); Some (with_log l s)
  | Call _ (EvAuth _ _ _) | Call _ (EvSend _) => Some s
  | Manage op => Some (mkShared (run_call op (sh_store s)).2 (sh_limiter s) (sh_log s))
  | Limit a =>
      if is_lock a then None
      else lim ← lim_step a (sh_limiter s); Some (mkShared (sh_store s) lim (sh_log s))
  | Maintain ev =>
      if is_background ev then '(_, l) ← lstep ev (sh_log s); Some (with_log l s) else None
  end.

Fixpoint exec (tr : list (label C)) (s : Shared) : option Shared :=
  match tr with
  | [] => Some s
  | l :: tr => s ← sstep l s; exec tr s
  end.

Lemma exec_app tr1 tr2 s : exec (tr1 ++ tr2) s = exec tr1 s ≫= exec tr2.
Proof.
  revert s. induction tr1 as [|l tr1 IH]; intros s; [done|]. cbn [exec app]. destruct (sstep l s); [apply IH|done].
Qed.

Abbreviation shared_keys s := (keys (sh_store s)).

(** Only the operations on the key store change the keys. *)
Lemma sstep_keys l s s' :
  sstep l s = Some s' → (∀ op, l ≠ Manage op) → shared_keys s' = shared_keys s.
Proof.
  intros Hs Hm. destruct l as [t [ok|id res|now p ok|roles q a|a|e|e res]|op|a|ev]; cbn [sstep] in Hs.
  - destruct (Logger_Reserve _ _). case_bool_decide; by simplify_eq.
  - destruct (GetByID id (sh_store s)) as [res' st] eqn:E. case_bool_decide; simplify_eq.
    by apply GetByID_spec in E as [E _].
  - by apply bind_Some in Hs as (lim & _ & [= <-]).
  - by simplify_eq.
  - by simplify_eq.
  - apply bind_Some in Hs as (l & _ & [= <-]). done.
  - destruct (Logger_Publish _ _ _). case_bool_decide; by simplify_eq.
  - by destruct (Hm op).
  - destruct (is_lock a); [done|]. by apply bind_Some in Hs as (lim & _ & [= <-]).
  - destruct (is_background ev); [|done]. by apply bind_Some in Hs as ([o l] & _ & [= <-]).
Qed.

(** A lookup answers what is stored at that moment. *)
Lemma sstep_lookup t id rec s s' :
  sstep (Call t (EvLookup id (Ok (Some rec)))) s = Some s' → shared_keys s !! id = Some rec.
Proof.
  cbn. destruct (GetByID id (sh_store s)) as [res' st] eqn:E. case_bool_decide as Hr; [|done]. intros _.
  apply GetByID_spec in E as [_ E]. symmetry. by apply E.
Qed.
End Shared.
Arguments Shared : clear implicits.

(** ** The requests *)

Record Job `{Policies} := mkJob {
  j_request : Request;
  j_env : Env;
  j_pluginsHealthy : bool;
  j_backendHealthy : bool;
  j_world : World Thread;    (** as the server hands it to the handler *)
}.
Arguments Job {_}.

Section Jobs.
Context `{Policies} `{JsonLib} (reencode : string → string).
Context (maxBodySize : Z) (auditOpts : Options) (secrets : HmacService) (resolver : Resolver).
Abbreviation fc := (FailClosed auditOpts).

(** What the proxy server does for a request. *)
Definition serve (j : Job) : outcome * World Thread :=
  newProxyServer maxBodySize auditOpts secrets resolver (j_pluginsHealthy j) (j_backendHealthy j)
    (Balancer_ServeHTTP reencode (j_env j)) Background (j_request j) (j_world j).

(** All its calls. *)
Definition history (j : Job) : list event := th_calls (w_state (serve j).2).

(** Nothing has been done for it yet. *)
Definition starting (j : Job) : Prop :=
  th_calls (w_state (j_world j)) = [] ∧ sent (th_pool (w_state (j_world j))) = [].

(** The calls in the trace are the first of those the handlers make. *)
Definition interleaves {C} (jobs : list Job) (tr : list (label C)) : Prop :=
  ∀ t, match jobs !! t with
       | Some j => starting j ∧ calls_of t tr `prefix_of` history j
       | None => calls_of t tr = []
       end.

Definition key_backends (j : Job) : list (URL * string) := targets (w_state (j_world j)).

Lemma history_path j :
  starting j → ∃ st, path fc (j_request j) (history j) Idle = Some st ∧
    Forall (genuine (w_state (j_world j))) (history j) ∧
    (fc = true → (∃ b, st = Settled b) ∨ history j = []) ∧
    sent (th_pool (w_state (serve j).2)) = sends_of (history j).
Proof.
  intros [E1 E2]. destruct (follows_server reencode (j_env j) maxBodySize auditOpts secrets resolver (j_request j)
    (j_pluginsHealthy j) (j_backendHealthy j) Background (j_world j)) as (st & (tr & Et & Es & Hp & Hg & _) & Hc).
  rewrite E1 in Et, Hc. rewrite E2 in Es. exists st. unfold history, serve. rewrite Et. rewrite Et in Hc. by split_and!.
Qed.

(** What the clock says when the expiry of the presented key is checked: the fifth
    reading of the request. *)
Definition expiry_check (j : Job) : Time := w_clock (j_world j) (4 + w_tick (j_world j)).

(** Everything a request sends is approved, on the keys its thread saw. *)
Lemma history_approved j a :
  (0 ≤ maxBodySize < 2 ^ 63 - 1)%Z → starting j → EvSend a ∈ history j →
  approved reencode secrets resolver (j_request j) (th_keys (w_state (j_world j))) (key_backends j) (expiry_check j) a.2.
Proof.
  intros Hm Hst Ha. destruct (server_approved reencode (j_env j) maxBodySize auditOpts secrets resolver
    (j_pluginsHealthy j) (j_backendHealthy j) (j_request j) (j_world j) Hm) as (l & Hl & Hf).
  destruct (history_path j Hst) as (_ & _ & _ & _ & Hsent). destruct Hst as [_ E2].
  cbn [pool Thread_HasPool] in Hl. rewrite E2 in Hl. unfold serve in Hsent. rewrite Hsent in Hl. cbn [app] in Hl.
  rewrite <- Hl in Hf. rewrite Forall_forall in Hf. apply Hf. apply list_elem_of_omap. by exists (EvSend a).
Qed.

(** The presented key of a request that sends is usable, with the presented secret. *)
Lemma history_usable j a id secret rec :
  (0 ≤ maxBodySize < 2 ^ 63 - 1)%Z → starting j → EvSend a ∈ history j →
  credentials (j_request j) id secret → th_keys (w_state (j_world j)) !! id = Some rec →
  Enabled rec = true ∧ verifies secrets rec secret.
Proof.
  intros Hm Hst Ha [Hc _] Hk.
  destruct (history_approved j a Hm Hst Ha) as (ctx & r & t & key & (b & n & rec' & role & _ & _ & (Hh & _) & _) & _).
  destruct Hh as (i & secret' & (Hc' & _) & Hk' & Hv & (He & _)).
  rewrite Hc in Hc'. injection Hc' as <- <-. rewrite Hk in Hk'. by injection Hk' as <-.
Qed.
End Jobs.

(** ** Stages of a request *)

Section Stages.
Context (failClosed : bool) (r : Request).

(** The presented key was found, and the request not refused since. *)
Definition past_lookup (st : stage) : bool :=
  match st with Known _ | Metered _ | Cleared | Settled true => true | _ => false end.

Lemma advances_past_lookup ev st st' :
  advances failClosed r ev st st' → past_lookup st = false → past_lookup st' = true →
  starts failClosed st = true ∧ ∃ id rec, ev = EvLookup id (Ok (Some rec)) ∧ key_id r = Some id ∧ st' = Known rec.
Proof.
  intros [ok _|res _|id res st0 _ Hs Hk|now rec ok|rec st0 q d p rs Ha _|a|e st0 _ _ _|e res st0 _ _ _]; cbn; try done.
  - by destruct ok.
  - destruct res as [[rec|]|]; try done. intros _ _. split; [done|]. by exists id, rec.
  - by destruct st0.
  - by destruct st0.
  - by destruct st0.
Qed.

(** The rest of the path is about the key that was found. *)
Definition concerns (rec : KeyRecord) (st : stage) : Prop :=
  match st with Idle | Entered => False | Known rec' | Metered rec' => rec' = rec | _ => True end.

Lemma path_concerns rec tr st st' : path failClosed r tr st = Some st' → concerns rec st → concerns rec st'.
Proof.
  revert st. induction tr as [|ev tr IH]; intros st; cbn; [by intros [= ->]|].
  intros (st1 & Ha%advance_advances & Hp)%bind_Some Hc. apply (IH st1 Hp).
  destruct Ha as [|res|id res st0 _ Hs|now rec' []|rec' st0 q d p rs|a|e st0|e res st0]; try done.
  - by destruct st0.
  - by destruct (_ =? _)%go.
Qed.

(** A request is cleared by the plugins of the roles of that key. *)
Lemma path_cleared rec tr :
  path failClosed r tr (Known rec) = Some Cleared →
  ∃ q plugin reason, EvAuth (Roles rec) q ("allow", plugin, reason) ∈ tr.
Proof.
  intros Hp. destruct (path_crossing failClosed r is_cleared tr (Known rec) Cleared Hp eq_refl eq_refl)
    as (tr1 & ev & tr2 & st1 & st2 & -> & H1%(path_concerns rec) & Ha & Hn & Hc & _); [|done].
  destruct Ha as [[]|res|id [[]|] st0|now rec' []|rec' st0 q d p rs Ha _|a|e st0|e res st0]; try done.
  assert (rec' = rec) as -> by (destruct st0; try done; cbn in *; [destruct (_ =? _)%go|]; congruence).
  destruct (String.eqb_spec d "allow") as [->|]; [|done]. exists q, p, rs.
  apply elem_of_app. right. apply list_elem_of_here.
Qed.

Definition is_entered (st : stage) : bool := match st with Entered => true | _ => false end.

Lemma path_entered tr : path failClosed r tr Idle = Some Entered → EvReserve true ∈ tr.
Proof.
  intros Hp. destruct (path_crossing failClosed r is_entered tr Idle Entered Hp eq_refl eq_refl)
    as (tr1 & ev & tr2 & st1 & st2 & -> & _ & Ha & Hn & Hc & _).
  destruct Ha as [[]|res|id [[]|] st0|now rec' []|rec' st0 q d p rs|a|e st0|e res st0]; try done.
  - apply elem_of_app. right. apply list_elem_of_here.
  - by destruct (_ =? _)%go.
Qed.
End Stages.

(** ** Every interleaving *)

Section Interleavings.
Context {St C : Type} `{KeyManagerSpec St C} {F : Type} `{Arith F} `{Policies} `{JsonLib}.
Context (reencode : string → string).
Context (maxBodySize : Z) (auditOpts : Options) (secrets : HmacService) (resolver : Resolver).
Abbreviation fc := (FailClosed auditOpts).
Abbreviation interleaves := (interleaves reencode maxBodySize auditOpts secrets resolver).
Abbreviation history := (history reencode maxBodySize auditOpts secrets resolver).
Implicit Types tr : list (label C).

(** The calls of a request in a trace follow the protocol, with its thread's answers. *)
Lemma interleaved_path jobs tr t j :
  interleaves jobs tr → jobs !! t = Some j →
  ∃ st, path fc (j_request j) (calls_of t tr) Idle = Some st ∧ Forall (genuine (w_state (j_world j))) (calls_of t tr).
Proof.
  intros Hi Hj. specialize (Hi t). rewrite Hj in Hi. destruct Hi as [Hst [rest Hr]].
  destruct (history_path reencode maxBodySize auditOpts secrets resolver j Hst) as (st & Hp & Hg & _).
  rewrite Hr in Hp, Hg. rewrite path_app in Hp. apply bind_Some in Hp as (st1 & Hp & _).
  exists st1. split; [done|]. by apply Forall_app in Hg as [Hg _].
Qed.

(** A request that sends has looked up the key it presents and was cleared since. *)
Lemma send_looked_up jobs tr1 tr2 t j a s0 s :
  interleaves jobs (tr1 ++ Call t (EvSend a) :: tr2) → jobs !! t = Some j →
  exec (F := F) (tr1 ++ Call t (EvSend a) :: tr2) s0 = Some s →
  ∃ tl id rec mid s1 st, tr1 = tl ++ Call t (EvLookup id (Ok (Some rec))) :: mid ∧ exec tl s0 = Some s1 ∧
    keys (sh_store s1) !! id = Some rec ∧ th_keys (w_state (j_world j)) !! id = Some rec ∧
    key_id (j_request j) = Some id ∧ starts fc st = true ∧
    path fc (j_request j) (calls_of t tl) Idle = Some st ∧
    path fc (j_request j) (calls_of t mid) (Known rec) = Some Cleared.
Proof.
  intros Hi Hj He. destruct (interleaved_path _ _ t j Hi Hj) as (st & Hp & Hg).
  rewrite calls_of_app, calls_of_call in Hp, Hg. rewrite path_app in Hp.
  apply bind_Some in Hp as (st1 & Hp & (st2 & Ha%advance_advances & _)%bind_Some).
  inversion Ha; subst. clear Ha.
  destruct (path_crossing fc (j_request j) past_lookup _ Idle Cleared Hp eq_refl eq_refl)
    as (e1 & ev & e2 & sa & sb & Hc & Hpa & Hadv & Hn & Hy & Hpb).
  destruct (advances_past_lookup _ _ _ _ _ Hadv Hn Hy) as (Hs & id & rec & -> & Hk & ->).
  destruct (calls_of_split t tr1 e1 _ e2 Hc) as (tl & mid & -> & <- & <-).
  rewrite <- app_assoc in He. cbn [app] in He. rewrite exec_app in He.
  apply bind_Some in He as (s1 & He1 & (s2 & Hl & _)%bind_Some).
  exists tl, id, rec, mid, s1, sa. split_and!; try done; [by eapply sstep_lookup|].
  rewrite Hc in Hg. apply Forall_app in Hg as [Hg _]. apply Forall_app in Hg as [_ Hg].
  inversion Hg as [|?? Hgen _]. cbn in Hgen. unfold th_lookup in Hgen. destruct (th_down _); [done|]. congruence.
Qed.

(** The keys matter only at the key that is presented. *)
Lemma mediated_keys r K K' B T id o :
  key_id r = Some id → K' !! id = K !! id →
  mediated reencode secrets resolver r K B T o → mediated reencode secrets resolver r K' B T o.
Proof.
  intros Hk E (rec & role & q & t & key & (i & secret & Hc & Hi & Hv) & Hrest).
  exists rec, role, q, t, key. split; [|done]. exists i, secret. split; [done|]. split; [|done].
  destruct Hc as [Hc _]. unfold key_id in Hk. rewrite Hc in Hk. injection Hk as ->. by rewrite E.
Qed.

Lemma elem_of_calls_of t ev tr : ev ∈ calls_of t tr → Call t ev ∈ tr.
Proof.
  intros (e1 & e2 & E)%list_elem_of_split. destruct (calls_of_split t tr e1 ev e2 E) as (tr1 & tr2 & -> & _).
  apply elem_of_app. right. apply list_elem_of_here.
Qed.
End Interleavings.

(** C2: complete mediation under concurrency.  In every interleaving of any number of
    requests with one another, with the admin API and with the background work, each
    request sent to a backend is mediated on the keys as they were at one moment before
    it, when its handler looked the presented key up: the client presented the secret of
    that key, then stored, enabled and open to the client's address, the key had not
    expired at the clock reading of the handler's own check, and between the lookup and the sending a plugin of
    one of that key's roles allowed exactly what is sent on.  In fail-closed mode an
    audit slot had been reserved before. *)
Theorem concurrent_mediation {St C} `{KeyManagerSpec St C} {F} `{Arith F} `{Policies} `{JsonLib}
    reencode maxBodySize auditOpts secrets resolver jobs (tr1 tr2 : list (label C)) t j a (s0 s : Shared St F) :
  (0 ≤ maxBodySize < 2 ^ 63 - 1)%Z → canonical (Header (j_request j)) → jobs !! t = Some j →
  interleaves reencode maxBodySize auditOpts secrets resolver jobs (tr1 ++ Call t (EvSend a) :: tr2) →
  exec (tr1 ++ Call t (EvSend a) :: tr2) s0 = Some s →
  ∃ tl id rec mid s1, tr1 = tl ++ Call t (EvLookup id (Ok (Some rec))) :: mid ∧ exec tl s0 = Some s1 ∧
    mediated reencode secrets resolver (j_request j) (keys (sh_store s1)) (key_backends j) (expiry_check j) a.2 ∧
    (∃ q plugin reason, Call t (EvAuth (Roles rec) q ("allow", plugin, reason)) ∈ mid) ∧
    (FailClosed auditOpts = true → Call t (EvReserve true) ∈ tl).
Proof.
  intros Hm Hcan Hj Hi He. pose proof (Hi t) as Ht. rewrite Hj in Ht. destruct Ht as [Hst [rest Hr]].
  destruct (send_looked_up reencode maxBodySize auditOpts secrets resolver jobs tr1 tr2 t j a s0 s Hi Hj He)
    as (tl & id & rec & mid & s1 & st & -> & E1 & Hk1 & Hk2 & Hid & Hs & Hp & Hp').
  exists tl, id, rec, mid, s1. split_and!; try done.
  - apply (mediated_keys reencode secrets resolver _ (th_keys (w_state (j_world j))) _ _ _ id); [done|congruence|].
    apply approved_mediated, (history_approved reencode maxBodySize auditOpts); try done.
    rewrite Hr, calls_of_app, calls_of_call. apply elem_of_app. left. apply elem_of_app. right. apply list_elem_of_here.
  - apply path_cleared in Hp' as (q & p & rs & Ha). exists q, p, rs. by apply elem_of_calls_of.
  - intros Hfc. rewrite Hfc in Hs, Hp. destruct st; try done. by apply elem_of_calls_of, (path_entered true (j_request j)).
Qed.

(** ** Withdrawal *)

Section Withdrawal.
Context {C : Type} (secrets : HmacService) (id secret : string).
Implicit Types op : key_call C.

(** [secret] is of no use with the key [id]. *)
Definition shut (K : gmap string KeyRecord) : Prop :=
  ∀ rec, K !! id = Some rec → Enabled rec = true → ¬ verifies secrets rec secret.

(** The call deletes or disables the key, or gives it the hash of another secret. *)
Definition withdrawing op : Prop :=
  match op with
  | CDelete id' => id' = id
  | CSetEnabled _ id' b => id' = id ∧ b = false
  | CUpdateHash _ id' h k =>
      id' = id ∧ ∀ key, secrets !! k = Some key → hex_DecodeString h ≠ Ok (hmac_Sum key secret)
  | _ => False
  end.

(** The calls that can make the key usable again. *)
Definition revives op : Prop :=
  match op with
  | CCreate _ rec => ID rec = id
  | CSetEnabled _ id' b => id' = id ∧ b = true
  | CUpdateHash _ id' _ _ => id' = id
  | _ => False
  end.

Context (storable : string → Prop) (stamp : Time → Time).

Lemma withdrawing_shuts op K K' :
  key_step storable stamp op K (Ok VDone) K' → withdrawing op → shut K'.
Proof.
  intros Hs Hw rec Hk He (key & Hkey & _ & Hv). remember (Ok VDone) as v eqn:Ev.
  destruct Hs as [op m e Hf|id0 m|now rec0 rec' m Hn Hsame|op c l m limit Hop Hl Hlen|op id0 F f r m Hu HF Hr
    |id0 r m Hr|before m|ev m]; try done.
  - destruct op as [| | | | |? ? b| | |? ? h k| | | |]; try done; cbn in Hu, Hw; simplify_eq;
      destruct Hw as [<- Hw], HF as [tm ->]; rewrite lookup_insert_eq in Hk; simplify_eq/=. by eapply Hw.
  - cbn in Hw. subst. by rewrite lookup_delete_eq in Hk.
Qed.

(** An update of the key that does not revive it. *)
Lemma update_keeps_shut op F f r :
  call_update storable stamp op = Some (id, F) → F f → ¬ revives op → Enabled (f r) = true →
  verifies secrets (f r) secret → Enabled r = true ∧ verifies secrets r secret.
Proof.
  intros Hu HF Hr He Hv. destruct op; try done; cbn in Hu, Hr; simplify_eq; destruct HF as [tm HF];
    try destruct HF as (l' & _ & ->); subst; try done. by destruct b; [destruct Hr|].
Qed.

Lemma shut_step op K v K' : key_step storable stamp op K v K' → ¬ revives op → shut K → shut K'.
Proof.
  intros Hs Hr HK rec Hk He Hv.
  destruct Hs as [op m e Hf|id0 m|now rec0 rec' m Hn Hsame|op c l m limit Hop Hl Hlen|op id0 F f r m Hu HF Hin
    |id0 r m Hin|before m|ev m]; try by eapply HK.
  - cbn in Hr. rewrite lookup_insert_ne in Hk by done. by eapply HK.
  - destruct (decide (id0 = id)) as [->|Hne]; [|rewrite lookup_insert_ne in Hk by done; by eapply HK].
    rewrite lookup_insert_eq in Hk. injection Hk as <-.
    destruct (update_keeps_shut op F f r Hu HF Hr He Hv) as [He' Hv']. by apply (HK r Hin He').
  - apply lookup_delete_Some in Hk as [_ Hk]. by eapply HK.
  - apply map_lookup_filter_Some in Hk as [Hk _]. by eapply HK.
Qed.
End Withdrawal.

(** The key stays shut through any trace that does not revive it. *)
Lemma exec_shut {St C} `{KeyManagerSpec St C} {F} `{Arith F} secrets id secret (tr : list (label C)) (s s' : Shared St F) :
  exec tr s = Some s' → Forall (λ l, ∀ op, l = Manage op → ¬ revives id op) tr →
  shut secrets id secret (keys (sh_store s)) → shut secrets id secret (keys (sh_store s')).
Proof.
  intros He Hf. revert s He. induction Hf as [|l tr Hl _ IH]; intros s; cbn [exec]; [by intros [= <-]|].
  intros (s1 & Hs & He)%bind_Some Hsh. apply (IH s1 He). destruct l as [t ev|op|now|ev].
  - by rewrite (sstep_keys _ _ _ Hs).
  - cbn in Hs. injection Hs as <-. eapply shut_step; [|by apply Hl|exact Hsh].
    eapply run_call_refines, surjective_pairing.
  - by rewrite (sstep_keys _ _ _ Hs).
  - by rewrite (sstep_keys _ _ _ Hs).
Qed.

(** C4: withdrawal under concurrency.  In every interleaving, once a call on the key
    store that deletes the key, disables it or replaces its hash has succeeded, and as
    long as no later one creates the key again, enables it or replaces its hash again,
    nothing is sent upstream for a request that presents the key's ID with the old secret
    and had not been looked up by then: not even for one that was already on its way. *)
Theorem concurrent_withdrawal {St C} `{KeyManagerSpec St C} {F} `{Arith F} `{Policies} `{JsonLib}
    reencode maxBodySize auditOpts secrets resolver jobs (tr1 tr2 : list (label C)) op id secret t j
    (s0 s1 s : Shared St F) :
  (0 ≤ maxBodySize < 2 ^ 63 - 1)%Z → jobs !! t = Some j → credentials (j_request j) id secret →
  interleaves reencode maxBodySize auditOpts secrets resolver jobs (tr1 ++ Manage op :: tr2) →
  exec (tr1 ++ Manage op :: tr2) s0 = Some s →
  withdrawing secrets id secret op → exec tr1 s0 = Some s1 → (run_call op (sh_store s1)).1 = Ok VDone →
  Forall (λ l, ∀ op', l = Manage op' → ¬ revives id op') tr2 →
  (∀ id' res, Call t (EvLookup id' res) ∉ tr1) →
  ∀ a, Call t (EvSend a) ∉ tr1 ++ Manage op :: tr2.
Proof.
  intros Hm Hj Hc Hi He Hw He1 Hok Hrev Hno a Ha.
  apply list_elem_of_split in Ha as (ta & tb & E). pose proof Hi as Hi'. rewrite E in Hi', He.
  destruct (send_looked_up reencode maxBodySize auditOpts secrets resolver jobs ta tb t j a s0 s Hi' Hj He)
    as (tl & id' & rec & mid & s2 & st & -> & E2 & Hk & Hth & Hid & _).
  assert (id' = id) as -> by (destruct Hc as [Hc _]; unfold key_id in Hid; rewrite Hc in Hid; by injection Hid).
  pose proof (Hi t) as Ht. rewrite Hj in Ht. destruct Ht as [Hst [rest Hr]].
  destruct (history_usable reencode maxBodySize auditOpts secrets resolver j a id secret rec Hm Hst) as [Hen Hv]; try done.
  { rewrite Hr, E, calls_of_app, calls_of_call. apply elem_of_app. left. apply elem_of_app. right. apply list_elem_of_here. }
  rewrite <- app_assoc in E. cbn [app] in E.
  destruct (split_after (λ l, ∃ id' res, l = Call t (EvLookup id' res)) _ _ _ _ _ _ E) as (md & -> & ->); [|by eauto|].
  { apply Forall_app. split; [|apply Forall_singleton; by intros (? & ? & [=])].
    apply Forall_forall. intros l Hl (i & r & ->). by apply (Hno i r). }
  rewrite exec_app, He1 in E2. cbn in E2. apply Forall_app in Hrev as [Hrev _].
  refine (exec_shut secrets id secret _ _ _ E2 Hrev _ rec Hk Hen Hv).
  eapply withdrawing_shuts; [|exact Hw]. rewrite <- Hok. eapply run_call_refines, surjective_pairing.
Qed.

(** ** The audit log *)

(** A request's entries. *)
Definition commits_of (evs : list event) : list Entry :=
  omap (λ ev, match ev with EvCommit e => Some e | _ => None end) evs.

Lemma commits_of_app evs1 evs2 : commits_of (evs1 ++ evs2) = commits_of evs1 ++ commits_of evs2.
Proof. apply omap_app. Qed.

Section Settling.
Context (r : Request).
Abbreviation path := (path true r).
Abbreviation advances := (advances true r).

Definition is_settled (st : stage) : bool := match st with Settled _ => true | _ => false end.

(** The entry is the last call. *)
Lemma settled_stuck ev b st : ¬ advances ev (Settled b) st.
Proof. inversion 1; try done. Qed.

Lemma path_settled_nil tr b st : path tr (Settled b) = Some st → tr = [].
Proof. destruct tr; [done|]. cbn. intros (st1 & Ha%advance_advances & _)%bind_Some. by apply settled_stuck in Ha. Qed.

Lemma path_no_commit tr st st' : path tr st = Some st' → is_settled st' = false → commits_of tr = [].
Proof.
  revert st. induction tr as [|ev tr IH]; intros st; [done|]. cbn [Protocol.path].
  intros (st1 & Ha%advance_advances & Hp)%bind_Some Hs. pose proof (IH _ Hp Hs) as E.
  destruct ev; try exact E. inversion Ha; subst.
  pose proof (path_settled_nil _ _ _ Hp) as ->. by injection Hp as <-.
Qed.

(** Cleared, or recorded as allowed. *)
Definition was_cleared (st : stage) : bool := match st with Cleared | Settled true => true | _ => false end.

Lemma path_was_cleared tr st st' : path tr st = Some st' → was_cleared st = true → was_cleared st' = true.
Proof.
  revert st. induction tr as [|ev tr IH]; intros st; cbn [Protocol.path]; [by intros [= ->]|].
  intros (st1 & Ha%advance_advances & Hp)%bind_Some Hc. apply (IH st1 Hp).
  destruct Ha as [| |id res st _ Hs| |rec st q d p rs Ha| |e st _ Hf|]; try done; by destruct st.
Qed.

(** A complete path on which something was sent ends with the one entry that says so. *)
Lemma path_recorded tr b a :
  path tr Idle = Some (Settled b) → EvSend a ∈ tr → ∃ e, commits_of tr = [e] ∧ reports r true e = true.
Proof.
  intros Hp (tr1 & tr2 & E)%list_elem_of_split.
  assert (b = true) as ->.
  { rewrite E, path_app in Hp. apply bind_Some in Hp as (st & _ & (st1 & Ha%advance_advances & Hp)%bind_Some).
    inversion Ha; subst. apply path_was_cleared in Hp; [|done]. by destruct b. }
  destruct (path_crossing true r is_settled tr Idle (Settled true) Hp eq_refl eq_refl)
    as (t1 & ev & t2 & st1 & st2 & -> & Hp1 & Ha & Hn & Hs & Hp2).
  destruct st2 as [| | | | | |b]; try done. pose proof (path_settled_nil _ _ _ Hp2) as ->. injection Hp2 as ->.
  rewrite commits_of_app, (path_no_commit _ _ _ Hp1 Hn). cbn [app].
  clear Hp. remember (Settled true) as st2 eqn:E2.
  destruct Ha as [[]|res|id [[]|] st|now rec []|rec st q d p rs|a0|e st _ Hf Hr|]; try done.
  - by destruct (_ =? _)%go.
  - exists e. injection E2 as E2. by rewrite E2 in Hr.
Qed.
End Settling.

(** The steps of the logger in a trace. *)
Definition log_event {C} (l : label C) : option levent :=
  match l with
  | Call _ (EvReserve ok) => Some (LReserve (negb ok))
  | Call _ (EvCommit e) => Some (LCommit e)
  | Call _ (EvPublish e res) => Some (LPublish (negb (is_Ok res)) e)
  | Maintain ev => Some ev
  | _ => None
  end.

(** The entries committed in a trace, in order. *)
Definition committed {C} (tr : list (label C)) : list Entry :=
  omap (λ l, match l with Call _ (EvCommit e) => Some e | _ => None end) tr.

Definition publishes {C} (l : label C) : bool :=
  match l with Call _ (EvPublish _ _) => true | _ => false end.

Section Log.
Context {St C : Type} `{KeyManagerSpec St C} {F : Type} `{Arith F}.
Implicit Types (s : Shared St F) (tr : list (label C)).

Lemma background_accepts ev l os l' : is_background ev = true → lstep ev l = Some (os, l') → accepted os = [].
Proof.
  intros Hb Hs. destruct ev as [t e|t|e| |ok| | |ok| |]; try done; cbn in Hs.
  - destruct (done l), (flush l), (ch l); by simplify_eq.
  - destruct (flush l); simplify_eq. by destruct ok.
  - destruct (flush l); by simplify_eq.
  - by simplify_eq.
  - destruct (reopen l), (done l), (flush l); by simplify_eq.
  - destruct (AuditFile.closed l); by simplify_eq.
  - destruct (stop l), (done l), (flush l), (ch l); by simplify_eq.
Qed.

(** A step of a trace is a step of the logger, or leaves it alone. *)
Lemma sstep_log l s s' :
  sstep l s = Some s' → publishes l = false →
  match log_event l with
  | Some ev => ∃ os, lstep ev (sh_log s) = Some (os, sh_log s') ∧ accepted os = committed [l] ∧ is_publish ev = false
  | None => sh_log s' = sh_log s ∧ committed [l] = []
  end.
Proof.
  intros Hs Hp. destruct l as [t [ok|id res|now p ok|roles q a|a|e|e res]|op|a|ev]; cbn [sstep] in Hs; cbn.
  - destruct (Logger_Reserve _ _) as [ok' l]. case_bool_decide; simplify_eq. by exists [].
  - destruct (GetByID _ _). case_bool_decide; by simplify_eq.
  - by apply bind_Some in Hs as (lim & _ & [= <-]).
  - by simplify_eq.
  - by simplify_eq.
  - apply bind_Some in Hs as (l & -> & [= <-]). by exists [Accepted e].
  - done.
  - by simplify_eq.
  - destruct (is_lock a); [done|]. by apply bind_Some in Hs as (lim & _ & [= <-]).
  - destruct (is_background ev) eqn:Eb; [|done]. apply bind_Some in Hs as ([os l] & Hl & [= <-]).
    exists os. split_and!; [done|by eapply background_accepts|by destruct ev].
Qed.

Lemma exec_log tr s s' :
  exec tr s = Some s' → Forall (λ l, publishes l = false) tr →
  ∃ os, lrun (omap log_event tr) (sh_log s) = Some (os, sh_log s') ∧ accepted os = committed tr.
Proof.
  intros He Hf. revert s He. induction Hf as [|l tr Hl _ IH]; intros s; cbn [exec].
  { intros [= <-]. by exists []. }
  intros (s1 & Hs & He)%bind_Some. destruct (IH s1 He) as (os & Hr & Ha). pose proof (sstep_log l s s1 Hs Hl) as Hlog.
  assert (committed (l :: tr) = committed [l] ++ committed tr) as -> by apply (omap_app _ [l] tr).
  cbn [omap list_omap]. destruct (log_event l) as [ev|].
  - destruct Hlog as (o & Ho & Hao & _). exists (o ++ os). cbn [lrun]. rewrite Ho. cbn. rewrite Hr. cbn.
    by rewrite accepted_app, Hao, Ha.
  - destruct Hlog as [E Ec]. rewrite <- E, Ec. by exists os.
Qed.

(** How many slots are held: a reservation takes one, a commit gives it up. *)
Lemma lstep_reserved ev l os l' :
  lstep ev l = Some (os, l') → is_publish ev = false →
  match ev with
  | LReserve t => reserved l' = reserved l + (if (Logger_Reserve t l).1 then 1 else 0)
  | LCommit _ => reserved l = S (reserved l')
  | _ => reserved l' = reserved l
  end.
Proof.
  intros Hs Hp. destruct ev as [t e|t|e| |ok| | |ok| |]; cbn in Hs; try done.
  - simplify_eq. unfold Logger_Reserve. destruct (AuditFile.closed l); [cbn; lia|]. destruct (has_room _ _ _ _); cbn; lia.
  - apply bind_Some in Hs as (l1 & Hc & [= <- <-]). unfold Logger_commit in Hc.
    destruct (reserved l) eqn:Er; [done|]. case_bool_decide; by simplify_eq.
  - destruct (done l), (flush l), (ch l); by simplify_eq.
  - destruct (flush l); simplify_eq. by destruct ok.
  - destruct (flush l); by simplify_eq.
  - by simplify_eq.
  - destruct (reopen l), (done l), (flush l); simplify_eq. by destruct ok.
  - destruct (AuditFile.closed l); by simplify_eq.
  - destruct (stop l), (done l), (flush l), (ch l); by simplify_eq.
Qed.

(** 1 for a request that holds a slot. *)
Definition slot (st : stage) : nat := if in_flight true st then 1 else 0.

(** A call moves the slots of the logger and those of the request together. *)
Lemma call_slots r t ev st st' s s' :
  advances true r ev st st' → sstep (C := C) (Call t ev) s = Some s' →
  reserved (sh_log s') + slot st = reserved (sh_log s) + slot st' ∧ publishes (C := C) (Call t ev) = false.
Proof.
  intros Ha Hs.
  assert (publishes (C := C) (Call t ev) = false) as Hp by (destruct Ha; done). split; [|done].
  pose proof (sstep_log _ _ _ Hs Hp) as Hl.
  destruct Ha as [ok _|res _|id res st _ Hst _|now rec ok|rec st q d p rs Hadm _|a|e st _ Hf _|e res st]; cbn [log_event] in Hl; try done;
    try (destruct Hl as [-> _]).
  - destruct Hl as (os & Hl & _). apply lstep_reserved in Hl; [|done]. cbn in Hs.
    destruct (Logger_Reserve (negb ok) (sh_log s)) as [ok' l]. case_bool_decide; simplify_eq. cbn in Hl |- *. rewrite Hl.
    destruct ok; cbn; lia.
  - done.
  - destruct st, res as [[]|]; done.
  - by destruct ok.
  - destruct st, (d =? "allow")%go; done.
  - done.
  - destruct Hl as (os & Hl & _). apply lstep_reserved in Hl; [|done]. unfold slot. rewrite Hf. cbn. lia.
Qed.
End Log.

(** Two sums over a list that differ in one place. *)
Lemma sum_imap_change {A} (f g : nat → A → nat) (l : list A) t x :
  l !! t = Some x → (∀ i y, i ≠ t → f i y = g i y) →
  sum_list (imap f l) + g t x = sum_list (imap g l) + f t x.
Proof.
  revert f g t. induction l as [|y l IH]; intros f g t Hl Hfg; [done|]. cbn [imap sum_list].
  destruct t as [|t]; cbn in Hl.
  - injection Hl as ->. assert (imap (f ∘ S) l = imap (g ∘ S) l) as ->; [|cbn; lia].
    apply imap_ext. intros i y _. by apply Hfg.
  - specialize (IH (f ∘ S) (g ∘ S) t Hl). cbn in IH. pose proof (Hfg 0 y) as H0. rewrite H0 by lia.
    assert (∀ i y, i ≠ t → f (S i) y = g (S i) y) as Hs by (intros i z Hi; apply Hfg; lia).
    specialize (IH Hs). cbn. lia.
Qed.

Section Accounting.
Context {St C : Type} `{KeyManagerSpec St C} {F : Type} `{Arith F} `{Policies} `{JsonLib}.
Context (reencode : string → string).
Context (maxBodySize : Z) (auditOpts : Options) (secrets : HmacService) (resolver : Resolver).
Abbreviation interleaves := (interleaves reencode maxBodySize auditOpts secrets resolver).
Abbreviation history := (history reencode maxBodySize auditOpts secrets resolver).
Implicit Types tr : list (label C).

(** The slots the requests hold after a trace. *)
Definition holds (tr : list (label C)) (t : nat) (j : Job) : nat :=
  from_option slot 0 (path true (j_request j) (calls_of t tr) Idle).
Definition held_slots (jobs : list Job) tr : nat := sum_list (imap (holds tr) jobs).

Lemma interleaves_app jobs tr1 tr2 : interleaves jobs (tr1 ++ tr2) → interleaves jobs tr1.
Proof.
  intros Hi t. specialize (Hi t). rewrite calls_of_app in Hi. destruct (jobs !! t).
  - destruct Hi as [Hs Hp]. split; [done|]. etrans; [|exact Hp]. by eexists.
  - by apply app_nil in Hi as [-> _].
Qed.

Lemma holds_other tr l t j : (∀ ev, l ≠ Call t ev) → holds (tr ++ [l]) t j = holds tr t j.
Proof.
  intros Hl. unfold holds. rewrite calls_of_app. replace (calls_of t [l]) with (@nil event); [by rewrite app_nil_r|].
  destruct l as [t' ev| | |]; try done. unfold calls_of. cbn. rewrite decide_False; [done|]. intros ->. by apply (Hl ev).
Qed.

Lemma held_slots_start jobs : held_slots jobs [] = 0.
Proof.
  assert (∀ t j, holds [] t j = 0) as Hz by done. unfold held_slots. generalize (holds []) Hz.
  induction jobs as [|j jobs IH]; intros f Hf; [done|]. cbn. rewrite Hf, (IH (f ∘ S)); [done|]. intros t. apply Hf.
Qed.

Lemma held_slots_other jobs tr l : (∀ t ev, l ≠ Call t ev) → held_slots jobs (tr ++ [l]) = held_slots jobs tr.
Proof. intros Hl. unfold held_slots. f_equal. apply imap_ext. intros t j _. by apply holds_other. Qed.

Lemma held_slots_call jobs tr t ev j st st' :
  jobs !! t = Some j → path true (j_request j) (calls_of t tr) Idle = Some st →
  path true (j_request j) (calls_of t (tr ++ [Call t ev])) Idle = Some st' →
  held_slots jobs tr + slot st' = held_slots jobs (tr ++ [Call t ev]) + slot st.
Proof.
  intros Hj Hp Hp'. pose proof (sum_imap_change (holds tr) (holds (tr ++ [Call t ev])) jobs t j Hj) as Hsum.
  assert (holds tr t j = slot st ∧ holds (tr ++ [Call t ev]) t j = slot st') as [E1 E2]
    by (unfold holds; by rewrite Hp, Hp').
  rewrite E1, E2 in Hsum. apply Hsum. intros i y Hne. symmetry. apply holds_other. intros ev' [=]. by destruct Hne.
Qed.

(** A request in flight holds one of the slots. *)
Lemma held_slots_positive jobs tr t j : jobs !! t = Some j → holds tr t j ≤ held_slots jobs tr.
Proof.
  unfold held_slots. generalize (holds tr). revert t. induction jobs as [|j' jobs IH]; intros t f Hj; [done|].
  cbn. destruct t as [|t]; cbn in Hj; [injection Hj as ->; lia|]. specialize (IH t (f ∘ S) Hj). cbn in IH. lia.
Qed.

Hypothesis fail_closed : FailClosed auditOpts = true.

(** A call in a trace is the next step of its request in the protocol. *)
Lemma interleaved_call jobs tr t ev :
  interleaves jobs (tr ++ [Call t ev]) →
  ∃ j st st', jobs !! t = Some j ∧ path true (j_request j) (calls_of t tr) Idle = Some st ∧
    advances true (j_request j) ev st st' ∧ path true (j_request j) (calls_of t (tr ++ [Call t ev])) Idle = Some st'.
Proof.
  intros Hi. destruct (jobs !! t) as [j|] eqn:Ej.
  2: { specialize (Hi t). rewrite Ej, calls_of_app, calls_of_call in Hi. by apply app_nil in Hi as [_ ?]. }
  destruct (interleaved_path reencode maxBodySize auditOpts secrets resolver jobs _ t j Hi Ej) as (st' & Hp & _).
  rewrite fail_closed in Hp. pose proof Hp as Hp'. rewrite calls_of_app, calls_of_call, path_app in Hp'.
  apply bind_Some in Hp' as (st & Hp1 & (st2 & Ha%advance_advances & [= ->])%bind_Some). by exists j, st, st'.
Qed.

(** One step keeps the slots of the logger equal to those of the requests. *)
Lemma sstep_slots jobs tr l (s s' : Shared St F) :
  interleaves jobs (tr ++ [l]) → sstep l s = Some s' → reserved (sh_log s) = held_slots jobs tr →
  reserved (sh_log s') = held_slots jobs (tr ++ [l]) ∧ publishes l = false.
Proof.
  intros Hi Hs Hr. destruct l as [t ev|op|now|ev].
  - destruct (interleaved_call jobs tr t ev Hi) as (j & st & st' & Hj & Hp & Ha & Hp').
    destruct (call_slots (j_request j) t ev st st' s s' Ha Hs) as [E Hpub]. split; [|done].
    pose proof (held_slots_call jobs tr t ev j st st' Hj Hp Hp'). lia.
  - rewrite held_slots_other by done. by pose proof (sstep_log _ _ _ Hs eq_refl) as [-> _].
  - rewrite held_slots_other by done. by pose proof (sstep_log _ _ _ Hs eq_refl) as [-> _].
  - rewrite held_slots_other by done. split; [|done]. rewrite <- Hr.
    pose proof (sstep_log _ _ _ Hs eq_refl) as (os & Hlg & _ & Hnp). apply lstep_reserved in Hlg; [|done].
    cbn in Hs. by destruct ev.
Qed.

(** Every slot of the logger is held by a request in flight. *)
Lemma exec_slots jobs tr (s0 s : Shared St F) :
  interleaves jobs tr → exec tr s0 = Some s → reservation_inv (sh_log s0) → reserved (sh_log s0) = 0 →
  reserved (sh_log s) = held_slots jobs tr ∧ reservation_inv (sh_log s) ∧ Forall (λ l, publishes l = false) tr.
Proof.
  intros Hi He Hinv Hz. revert s Hi He. induction tr as [|l tr IH] using rev_ind; intros s Hi He.
  { injection He as <-. by rewrite Hz, held_slots_start. }
  rewrite exec_app in He. apply bind_Some in He as (s1 & He & (s2 & Hs & [= ->])%bind_Some).
  destruct (IH s1 (interleaves_app _ _ _ Hi) He) as (Hr & Hinv1 & Hpub).
  destruct (sstep_slots jobs tr l s1 s Hi Hs Hr) as [Hres Hl].
  split_and!; [done| |by apply Forall_app; split; [|apply Forall_singleton]].
  pose proof (sstep_log _ _ _ Hs Hl) as Hlog. destruct (log_event l).
  - destruct Hlog as (os & Hst & _ & Hnp). by eapply lstep_reservation.
  - by destruct Hlog as [-> _].
Qed.

(** A request about to commit is in flight. *)
Lemma commit_pending j evs e rest :
  starting j → history j = evs ++ EvCommit e :: rest →
  from_option slot 0 (path true (j_request j) evs Idle) = 1.
Proof.
  intros Hst Hh. destruct (history_path reencode maxBodySize auditOpts secrets resolver j Hst) as (st & Hp & _).
  rewrite fail_closed, Hh, path_app in Hp.
  apply bind_Some in Hp as (st1 & -> & (st2 & Ha%advance_advances & _)%bind_Some).
  inversion Ha as [| | | | | |? ? _ Hf _|]; subst. cbn. unfold slot. by rewrite Hf.
Qed.

(** A request that sends commits one entry. *)
Lemma history_recorded j a :
  starting j → EvSend a ∈ history j → ∃ e, commits_of (history j) = [e] ∧ reports (j_request j) true e = true.
Proof.
  intros Hst Ha. destruct (history_path reencode maxBodySize auditOpts secrets resolver j Hst) as (st & Hp & _ & Hc & _).
  rewrite fail_closed in Hp. destruct (Hc fail_closed) as [[b ->]|Hn]; [by eapply path_recorded|].
  rewrite Hn in Ha. by apply not_elem_of_nil in Ha.
Qed.

Lemma calls_of_elem t ev tr : Call t ev ∈ tr → ev ∈ calls_of t tr.
Proof. intros Hin. apply list_elem_of_omap. exists (Call t ev). by rewrite decide_True. Qed.

Lemma committed_of t tr e : e ∈ commits_of (calls_of t tr) → e ∈ committed tr.
Proof.
  intros (ev & Hin & Hev)%list_elem_of_omap. destruct ev; try done. injection Hev as ->.
  apply list_elem_of_omap. exists (Call t (EvCommit e)). split; [by apply elem_of_calls_of|done].
Qed.
End Accounting.

(** C3: accountability under concurrency.  In fail-closed mode, in every interleaving
    that starts with an empty audit log: a request that is about to commit its entry can
    do so at once, however full the log is and whatever the other requests hold; and when
    a request that sent anything is done, it has committed exactly one entry, with its own
    method, path and query and the decision allow, which has been handed to the
    encoder, is in the hand of the flush loop or waits in the queue. *)
Theorem concurrent_accountability {St C} `{KeyManagerSpec St C} {F} `{Arith F} `{Policies} `{JsonLib}
    reencode maxBodySize auditOpts secrets resolver jobs (tr : list (label C)) bufSize timeout (s0 s : Shared St F) :
  FailClosed auditOpts = true → sh_log s0 = NewLogger bufSize timeout →
  interleaves reencode maxBodySize auditOpts secrets resolver jobs tr → exec tr s0 = Some s →
  (∀ t j e rest, jobs !! t = Some j →
     history reencode maxBodySize auditOpts secrets resolver j = calls_of t tr ++ EvCommit e :: rest →
     is_Some (exec (tr ++ [Call t (EvCommit e)]) s0)) ∧
  ∃ os, lrun (omap log_event tr) (NewLogger bufSize timeout) = Some (os, sh_log s) ∧
    ∀ t j a, jobs !! t = Some j → calls_of t tr = history reencode maxBodySize auditOpts secrets resolver j →
      Call t (EvSend a) ∈ tr →
      ∃ e, commits_of (calls_of t tr) = [e] ∧ reports (j_request j) true e = true ∧ e ∈ processed os ++ pending (sh_log s).
Proof.
  intros Hfc Hlog Hi He.
  destruct (exec_slots reencode maxBodySize auditOpts secrets resolver Hfc jobs tr s0 s Hi He) as (Hr & [Hi1 Hi2] & Hpub);
    [rewrite Hlog; split; [done|apply Nat.le_0_l]|by rewrite Hlog|].
  split.
  - intros t j e rest Hj Hh. specialize (Hi t). rewrite Hj in Hi. destruct Hi as [Hst _].
    pose proof (commit_pending reencode maxBodySize auditOpts secrets resolver Hfc j _ e rest Hst Hh) as Hslot.
    pose proof (held_slots_positive jobs tr t j Hj) as Hpos. rewrite exec_app, He. cbn. unfold Logger_commit.
    unfold holds in Hpos. rewrite Hslot in Hpos. destruct (reserved (sh_log s)) as [|n] eqn:En; [lia|].
    rewrite bool_decide_true by lia. by eexists.
  - destruct (exec_log tr s0 s He Hpub) as (os & Hrun & Hacc). rewrite Hlog in Hrun. exists os. split; [done|].
    intros t j a Hj Hh Ha. pose proof (lrun_fifo _ _ _ _ Hrun) as Hf. cbn in Hf. rewrite <- Hf, Hacc.
    specialize (Hi t). rewrite Hj in Hi. destruct Hi as [Hst _].
    destruct (history_recorded reencode maxBodySize auditOpts secrets resolver Hfc j a Hst) as (e & Ec & Hrep).
    + rewrite <- Hh. by apply calls_of_elem.
    + exists e. rewrite Hh. split_and!; [done|done|]. apply (committed_of t). rewrite Hh, Ec. apply list_elem_of_here.
Qed.

(** ** Alice's key is disabled while two of her requests are on their way *)

#[local] Existing Instance ex_shipped.
#[local] Existing Instance Sys_JsonLib.

Definition ex_verdict (roles : list string) (q : HttpRequest) : string * string * string :=
  if bool_decide ("read_zones" ∈ roles) && policy_allows "read_zones" q then ("allow", "read_zones", "")
  else ("deny", "", "").

Lemma ex_verdict_honest : honest_verdict ex_verdict.
Proof.
  intros roles q plugin reason. unfold ex_verdict. case_bool_decide; [|done].
  destruct (policy_allows "read_zones" q) eqn:E; [|done]. cbn. intros [= <- <-]. done.
Qed.

Definition ex_thread (m : gmap string KeyRecord) : Thread :=
  mkThread m None true ex_verdict ex_verdict_honest true (Ok ()) ex_pool [].
Definition ex_disabled_key : KeyRecord := set_Enabled false 5 reader_key.
Definition ex_job (m : gmap string KeyRecord) : Job :=
  mkJob _ ex_system_request ex_system_env true true (mkWorld (mkRW ∅ None "") false
    (mkCells 0 "" (mkAuthzResult "" "" "") 200) [] 0 (λ n, Z.of_nat n) 0 (λ _, "req-1") 0 [] (ex_thread m)).
Definition ex_secrets : HmacService := {["h1" := "topsecret"]}.
Definition ex_job_1 : Job := ex_job {["k1" := reader_key]}.
Definition ex_job_2 : Job := ex_job {["k1" := ex_disabled_key]}.

(** Their calls, computed once. *)
Definition ex_first : list event := Eval vm_compute in history id 1024 sys_opts ex_secrets [] ex_job_1.
Definition ex_second : list event := Eval vm_compute in history id 1024 sys_opts ex_secrets [] ex_job_2.
Lemma ex_first_eq : history id 1024 sys_opts ex_secrets [] ex_job_1 = ex_first.
Proof. vm_compute. reflexivity. Qed.
Lemma ex_second_eq : history id 1024 sys_opts ex_secrets [] ex_job_2 = ex_second.
Proof. vm_compute. reflexivity. Qed.
Definition ex_out : nat * nat * outRequest :=
  (0, 0, outbound id (mkURL "http" "a:8081" "/" "" "") "ka" ex_system_request).

(** The first request has been looked up, the second only let in, when the key goes;
    the second then overtakes the first. *)
Definition ex_before : list (label (list string)) := (Call 0 <$> take 2 ex_first) ++ (Call 1 <$> take 1 ex_second).
Definition ex_withdraw : key_call (list string) := CSetEnabled 5 "k1" false.
Definition ex_between : list (label (list string)) :=
  Limit (ALoad 0 4 "alice") :: (Call 1 <$> drop 1 ex_second) ++ (Call 0 <$> take 2 (drop 2 ex_first)).
Definition ex_after : list (label (list string)) := (Call 0 <$> drop 5 ex_first) ++ [Maintain LReceive; Maintain (LWrite true); Maintain LRelease].
Definition ex_later : list (label (list string)) := ex_between ++ Call 0 (EvSend ex_out) :: ex_after.
Definition ex_shared : Shared Memory.Store Float64.t :=
  mkShared {["k1" := reader_key]} (NewBuckets (mkConfig (Float64.of_Z 1) 2)) (NewLogger 16 0).

Lemma ex_split :
  (ex_before ++ Manage ex_withdraw :: ex_between) ++ Call 0 (EvSend ex_out) :: ex_after =
  ex_before ++ Manage ex_withdraw :: ex_later.
Proof. unfold ex_later. rewrite <- app_assoc, <- app_comm_cons. reflexivity. Qed.

Definition looks_up {C} (t : nat) (l : label C) : bool :=
  match l with Call t' (EvLookup _ _) => (t' =? t)%nat | _ => false end.
Lemma ex_not_looked_up : existsb (looks_up 1) ex_before = false.
Proof. vm_compute. reflexivity. Qed.

Lemma ex_withdrawn :
  ∃ s1, exec ex_before ex_shared = Some s1 ∧ (run_call ex_withdraw (sh_store s1)).1 = Ok VDone.
Proof. vm_compute. eexists. split; reflexivity. Qed.

Definition manages {C} (l : label C) : bool := match l with Manage _ => true | _ => false end.

Lemma not_managed {C} id (tr : list (label C)) :
  existsb manages tr = false → Forall (λ l, ∀ op, l = Manage op → ¬ revives id op) tr.
Proof.
  induction tr as [|l tr IH]; [done|]. cbn. intros [Hl Hr]%orb_false_iff. constructor; [|by apply IH].
  by intros op ->.
Qed.

Lemma ex_not_managed : existsb manages ex_later = false.
Proof. vm_compute. reflexivity. Qed.

Lemma ex_calls_0 : calls_of 0 (ex_before ++ Manage ex_withdraw :: ex_later) = ex_first.
Proof. vm_compute. reflexivity. Qed.
Lemma ex_calls_1 : calls_of 1 (ex_before ++ Manage ex_withdraw :: ex_later) = ex_second.
Proof. vm_compute. reflexivity. Qed.
Lemma ex_calls_other t : calls_of (S (S t)) (ex_before ++ Manage ex_withdraw :: ex_later) = [].
Proof. vm_compute. reflexivity. Qed.
Lemma ex_exec : is_Some (exec (ex_before ++ Manage ex_withdraw :: ex_later) ex_shared).
Proof. vm_compute. eexists. reflexivity. Qed.

(** Two requests that are done. *)
Lemma interleaves_two `{Policies} `{JsonLib} {C} reencode maxBodySize auditOpts secrets resolver j1 j2 (tr : list (label C)) :
  starting j1 → calls_of 0 tr = history reencode maxBodySize auditOpts secrets resolver j1 →
  starting j2 → calls_of 1 tr = history reencode maxBodySize auditOpts secrets resolver j2 →
  (∀ t, calls_of (S (S t)) tr = []) →
  interleaves reencode maxBodySize auditOpts secrets resolver [j1; j2] tr.
Proof. intros S1 E1 S2 E2 E3 [|[|t]]; cbn; [by rewrite E1|by rewrite E2|apply E3]. Qed.

Lemma ex_interleaves :
  interleaves id 1024 sys_opts ex_secrets [] [ex_job_1; ex_job_2] (ex_before ++ Manage ex_withdraw :: ex_later).
Proof.
  apply interleaves_two; [by split|rewrite ex_first_eq; exact ex_calls_0|by split|
    rewrite ex_second_eq; exact ex_calls_1|exact ex_calls_other].
Qed.

(** The first request goes out after the key was disabled, on the keys of its lookup. *)
Lemma concurrent_mediation_witness :
  ∃ tl id' rec mid s1,
    ex_before ++ Manage ex_withdraw :: ex_between = tl ++ Call 0 (EvLookup id' (Ok (Some rec))) :: mid ∧
    exec tl ex_shared = Some s1 ∧
    mediated id ex_secrets [] (j_request ex_job_1) (keys (sh_store s1)) (key_backends ex_job_1)
      (expiry_check ex_job_1) ex_out.2.
Proof.
  destruct ex_exec as [s Hs].
  destruct (concurrent_mediation id 1024 sys_opts ex_secrets [] [ex_job_1; ex_job_2] (ex_before ++ Manage ex_withdraw :: ex_between)
    ex_after 0 ex_job_1 ex_out ex_shared s) as (tl & id' & rec & mid & s1 & E & He & Hm & _).
  - split; [discriminate|reflexivity].
  - exact ex_canonical.
  - reflexivity.
  - rewrite ex_split. exact ex_interleaves.
  - rewrite ex_split. exact Hs.
  - exists tl, id', rec, mid, s1. split; [exact E|]. split; [exact He|exact Hm].
Defined.

(** The first is sent, the second is not. *)
Lemma concurrent_withdrawal_witness :
  Call 0 (EvSend ex_out) ∈ ex_before ++ Manage ex_withdraw :: ex_later ∧
  Call 1 (EvSend ex_out) ∉ ex_before ++ Manage ex_withdraw :: ex_later.
Proof.
  split; [rewrite <- ex_split; apply elem_of_app; right; apply list_elem_of_here|].
  destruct ex_exec as [s Hs].
  destruct ex_withdrawn as (s1 & E1 & Hok).
  apply (concurrent_withdrawal id 1024 sys_opts ex_secrets [] [ex_job_1; ex_job_2] ex_before ex_later ex_withdraw "k1" "pdg_1" 1
    ex_job_2 ex_shared s1 s).
  - split; [discriminate|reflexivity].
  - reflexivity.
  - split; [reflexivity|]. split; discriminate.
  - exact ex_interleaves.
  - exact Hs.
  - split; reflexivity.
  - exact E1.
  - exact Hok.
  - exact (not_managed "k1" _ ex_not_managed).
  - intros id' res Hin%list_elem_of_In.
    assert (existsb (looks_up 1) ex_before = true) as Hb by (apply existsb_exists; eexists; split; [exact Hin|reflexivity]).
    rewrite ex_not_looked_up in Hb. discriminate Hb.
Defined.

(** When both are done, the first has its entry. *)
Lemma concurrent_accountability_witness :
  ∃ os e l, lrun (omap log_event (ex_before ++ Manage ex_withdraw :: ex_later)) (NewLogger 16 0) = Some (os, l) ∧
    reports ex_system_request true e = true ∧ e ∈ processed os ++ pending l.
Proof.
  destruct ex_exec as [s Hs].
  destruct (concurrent_accountability id 1024 sys_opts ex_secrets [] [ex_job_1; ex_job_2]
    (ex_before ++ Manage ex_withdraw :: ex_later) 16 0 ex_shared s) as [_ (os & Hr & Hall)].
  - reflexivity.
  - reflexivity.
  - exact ex_interleaves.
  - exact Hs.
  - destruct (Hall 0 ex_job_1 ex_out) as (e & _ & Hrep & Hin).
    + reflexivity.
    + rewrite ex_first_eq. exact ex_calls_0.
    + rewrite <- ex_split. apply elem_of_app. right. apply list_elem_of_here.
    + exists os, e, (sh_log s). split; [exact Hr|]. split; [exact Hrep|exact Hin].
Defined.
