(* ===== verification/RateBound.v ===== *)
(** * How many requests of one principal go upstream

    The bound of TokenBuckets on the rate limiter, carried over to what the backends
    receive: in every interleaving of Concurrent the requests of a principal that were
    sent upstream are at most as many as the limiter let through, and those are bounded
    by the burst and the rate, with one more burst for every time the clean-up deletes
    the principal's bucket.  The arithmetic is exact. *)

From S2P Require Import Prelude GoStrings GoNet GoUrl GoCrypto Http ServeMux Store MemoryStore Spans ClientIP Authn RateLimit TokenBuckets.
From S2P Require Import Authz AuditTrail AuditFile Gateway CircuitBreaker PluginManager Balancer Mediation.
From S2P Require Import Plugins Sdk Driver System Protocol Concurrent.
From Stdlib Require Import QArith.
#[local] Open Scope nat_scope.

(** ** The limiter in a trace *)

(** A call that the limiter lets through for [p]. *)
Definition lets_through (p : string) (ev : event) : bool :=
  match ev with EvLimit _ q ok => (q =? p)%go && ok | _ => false end.

Definition is_send (ev : event) : bool := match ev with EvSend _ => true | _ => false end.
Definition finds (p : string) (ev : event) : bool :=
  match ev with EvLookup _ (Ok (Some rec)) => (Principal rec =? p)%go | _ => false end.

(** The request was sent, with a key of [p]. *)
Definition sent_for (p : string) (evs : list event) : bool := existsb (finds p) evs && existsb is_send evs.

Definition passes (p : string) (evs : list event) : nat := length (filter (λ ev, lets_through p ev = true) evs).

Lemma passes_app p evs1 evs2 : passes p (evs1 ++ evs2) = passes p evs1 + passes p evs2.
Proof. unfold passes. by rewrite filter_app, length_app. Qed.

Section Trace.
Context {C : Type}.
Implicit Types tr : list (label C).

(** The steps of the limiter. *)
Definition limiter_steps tr : list laction :=
  omap (λ l, match l with
             | Call t (EvLimit now q ok) => Some (ALock t now q ok)
             | Limit a => Some a
             | _ => None
             end) tr.

(** How many calls the limiter lets through for [p]. *)
Definition total_passes (p : string) tr : nat :=
  length (filter (λ l, match l with Call _ ev => lets_through p ev | _ => false end = true) tr).

Lemma total_passes_app p tr1 tr2 : total_passes p (tr1 ++ tr2) = total_passes p tr1 + total_passes p tr2.
Proof. unfold total_passes. by rewrite filter_app, length_app. Qed.

(** They are among the steps in which [p] gets a token. *)
Lemma total_passes_granted p tr : total_passes p tr ≤ granted p (limiter_steps tr).
Proof.
  induction tr as [|l tr IH]; [done|]. unfold total_passes in *. rewrite filter_cons.
  destruct l as [t [ok|id res|now q ok|roles q a|a|e|e res]|op|a|ev]; cbn [lets_through];
    try (rewrite decide_False by done; exact IH).
  - change (limiter_steps (Call t (EvLimit now q ok) :: tr)) with (ALock t now q ok :: limiter_steps tr).
    rewrite granted_cons. cbn [lets]. destruct ((q =? p)%go && ok); case_decide; try done; cbn [length]; lia.
  - rewrite decide_False by done. change (limiter_steps (Limit a :: tr)) with (a :: limiter_steps tr).
    rewrite granted_cons. lia.
Qed.
End Trace.

Section Limiter.
Context {St C : Type} `{KeyManagerSpec St C} {F : Type} `{Arith F}.

(** A step of a trace is a step of the limiter, or leaves it alone. *)
Lemma sstep_limiter (l : label C) (s s' : Shared St F) :
  sstep l s = Some s' → lim_run (limiter_steps [l]) (sh_limiter s) = Some (sh_limiter s').
Proof.
  intros Hs. destruct l as [t [ok|id res|now q ok|roles q a|a|e|e res]|op|a|ev]; cbn [sstep] in Hs.
  - destruct (Logger_Reserve _ _). case_bool_decide; by simplify_eq.
  - destruct (GetByID _ _). case_bool_decide; by simplify_eq.
  - apply bind_Some in Hs as (lim & Hl & [= <-]). change (limiter_steps _) with [ALock t now q ok].
    cbn [lim_run]. by rewrite Hl.
  - by simplify_eq.
  - by simplify_eq.
  - by apply bind_Some in Hs as (l & _ & [= <-]).
  - destruct (Logger_Publish _ _ _). case_bool_decide; by simplify_eq.
  - by simplify_eq.
  - destruct (is_lock a); [done|]. apply bind_Some in Hs as (lim & Hl & [= <-]).
    change (limiter_steps _) with [a]. cbn [lim_run]. by rewrite Hl.
  - destruct (is_background ev); [|done]. by apply bind_Some in Hs as ([os l] & _ & [= <-]).
Qed.

Lemma exec_limiter (tr : list (label C)) (s s' : Shared St F) :
  exec tr s = Some s' → lim_run (limiter_steps tr) (sh_limiter s) = Some (sh_limiter s').
Proof.
  revert s. induction tr as [|l tr IH]; intros s; cbn [exec]; [by intros [= ->]|].
  intros (s1 & Hs%sstep_limiter & He)%bind_Some. specialize (IH s1 He). change (l :: tr) with ([l] ++ tr).
  assert (limiter_steps ([l] ++ tr) = limiter_steps [l] ++ limiter_steps tr) as -> by apply omap_app.
  by rewrite lim_run_app, Hs.
Qed.
End Limiter.

(** ** A request that is sent was charged *)

Section Charged.
Context (failClosed : bool) (r : Request).
Abbreviation path := (path failClosed r).

(** The lookups among the calls: at most one. *)
Definition lookups (evs : list event) : list (result (option KeyRecord)) :=
  omap (λ ev, match ev with EvLookup _ res => Some res | _ => None end) evs.

Definition is_lookup (ev : event) : bool := match ev with EvLookup _ _ => true | _ => false end.

Lemma lookups_cons ev evs : length (lookups (ev :: evs)) = (if is_lookup ev then 1 else 0) + length (lookups evs).
Proof. by destruct ev. Qed.

Definition fresh (st : stage) : bool := match st with Idle | Entered => true | _ => false end.

Lemma path_lookups evs st st' :
  path evs st = Some st' → length (lookups evs) ≤ if fresh st then 1 else 0.
Proof.
  revert st. induction evs as [|ev evs IH]; intros st; cbn [Protocol.path]; [intros _; cbn; lia|].
  intros (st1 & Ha%advance_advances & Hp)%bind_Some. specialize (IH st1 Hp). rewrite lookups_cons.
  destruct Ha as [[]|res|id res st0 Hz Hst _|now rec []|rec st0 q d p rs Hadm|a|e st0 _ Hf|e res st0 _ Hf];
    cbn [is_lookup fresh] in IH |- *; try lia.
  - assert (fresh st0 = true) as -> by by destruct st0. destruct res as [[]|]; cbn [fresh] in IH; lia.
  - destruct (d =? "allow")%go; cbn [fresh] in IH; destruct (fresh st0); lia.
Qed.

Lemma lookup_once evs st id id' rec rec' :
  path evs Idle = Some st → EvLookup id (Ok (Some rec)) ∈ evs → EvLookup id' (Ok (Some rec')) ∈ evs → rec = rec'.
Proof.
  intros Hp%path_lookups H1 H2.
  assert (Ok (Some rec) ∈ lookups evs ∧ Ok (Some rec') ∈ lookups evs) as [I1 I2].
  { split; apply list_elem_of_omap; eauto. }
  destruct (lookups evs) as [|x [|y l]]; [by apply not_elem_of_nil in I1| |cbn in Hp; lia].
  apply list_elem_of_singleton in I1, I2. congruence.
Qed.

(** The principal was charged. *)
Definition charged (st : stage) : bool := match st with Metered _ | Cleared => true | _ => false end.

Lemma path_charged rec evs :
  path evs (Known rec) = Some Cleared → Principal rec ≠ "" → ∃ now, EvLimit now (Principal rec) true ∈ evs.
Proof.
  intros Hp Hne. destruct (path_crossing failClosed r charged evs (Known rec) Cleared Hp eq_refl eq_refl)
    as (tr1 & ev & tr2 & st1 & st2 & -> & H1%(path_concerns failClosed r rec) & Ha & Hn & Hc & _); [|done].
  destruct Ha as [[]|res|id [[]|] st0|now rec' []|rec' st0 q d p rs Ha _|a|e st0|e res st0]; try done.
  - cbn in H1. subst rec'. exists now. apply elem_of_app. right. apply list_elem_of_here.
  - destruct st0; try done. cbn in H1, Ha. subst. apply String.eqb_neq in Hne. by rewrite Hne in Ha.
Qed.

Lemma sent_charged p evs st :
  path evs Idle = Some st → p ≠ "" → sent_for p evs = true → 1 ≤ passes p evs.
Proof.
  intros Hp Hne [Hf Hs]%andb_true_iff. apply existsb_exists in Hf as (evf & Hf%list_elem_of_In & Ef).
  apply existsb_exists in Hs as (evs' & Hs%list_elem_of_In & Es).
  destruct evf as [|id' [[rec'|]|]| | | | |]; try done. apply String.eqb_eq in Ef. destruct evs' as [| | | |a| |]; try done.
  apply list_elem_of_split in Hs as (e1 & e2 & E). pose proof Hp as Hp'. rewrite E, path_app in Hp'.
  apply bind_Some in Hp' as (st1 & Hp1 & (st2 & Ha%advance_advances & _)%bind_Some). inversion Ha; subst. clear Ha.
  destruct (path_crossing failClosed r past_lookup e1 Idle Cleared Hp1 eq_refl eq_refl)
    as (x1 & ev & x2 & sa & sb & -> & _ & Hadv & Hn & Hy & Hpb).
  destruct (advances_past_lookup _ _ _ _ _ Hadv Hn Hy) as (_ & id & rec & -> & _ & ->).
  assert (rec = rec') as ->.
  { eapply lookup_once; [exact Hp| |exact Hf]. apply elem_of_app. left. apply elem_of_app. right. apply list_elem_of_here. }
  destruct (path_charged rec' x2 Hpb Hne) as [now Hin]. rewrite passes_app.
  assert (EvLimit now (Principal rec') true ∈ filter (λ ev, lets_through (Principal rec') ev = true)
    (x1 ++ EvLookup id (Ok (Some rec')) :: x2)) as Hfi.
  { apply list_elem_of_filter. cbn. rewrite String.eqb_refl. split; [done|]. apply elem_of_app. right.
    by apply list_elem_of_further. }
  unfold passes at 1. destruct (filter _ _); [by apply not_elem_of_nil in Hfi|cbn; lia].
Qed.
End Charged.

(** ** The bound *)

Section Bound.
Context {St C : Type} `{KeyManagerSpec St C} {F : Type} `{Arith F} `{Policies} `{JsonLib}.
Context (reencode : string → string).
Context (maxBodySize : Z) (auditOpts : Options) (secrets : HmacService) (resolver : Resolver).
Abbreviation interleaves := (interleaves reencode maxBodySize auditOpts secrets resolver).
Implicit Types tr : list (label C).

(** How many of the requests were sent with a key of [p]. *)
Definition senders (p : string) (jobs : list Job) tr : nat :=
  sum_list (imap (λ t _, if sent_for p (calls_of t tr) then 1 else 0) jobs).

Definition job_passes (p : string) (jobs : list Job) tr : nat :=
  sum_list (imap (λ t _, passes p (calls_of t tr)) jobs).

Lemma sum_imap_le {A} (f g : nat → A → nat) (l : list A) :
  (∀ i x, l !! i = Some x → f i x ≤ g i x) → sum_list (imap f l) ≤ sum_list (imap g l).
Proof.
  revert f g. induction l as [|x l IH]; intros f g Hfg; [done|]. cbn. apply Nat.add_le_mono; [by apply (Hfg 0)|].
  apply IH. intros i y Hy. by apply (Hfg (S i)).
Qed.

Lemma senders_passes p jobs tr : interleaves jobs tr → p ≠ "" → senders p jobs tr ≤ job_passes p jobs tr.
Proof.
  intros Hi Hne. apply sum_imap_le. intros t j Hj. destruct (sent_for p (calls_of t tr)) eqn:E; [|lia].
  destruct (interleaved_path reencode maxBodySize auditOpts secrets resolver jobs tr t j Hi Hj) as (st & Hp & _).
  by eapply sent_charged.
Qed.

Lemma passes_single p t ev : passes p (ev :: calls_of t (@nil (label C))) = total_passes p [Call (C := C) t ev].
Proof. unfold passes, total_passes. cbn [calls_of omap list_omap]. rewrite !filter_cons. by destruct (lets_through p ev). Qed.

(** Every call on the limiter is one of a request. *)
Lemma job_passes_total p jobs tr : interleaves jobs tr → job_passes p jobs tr = total_passes p tr.
Proof.
  induction tr as [|l tr IH] using rev_ind; intros Hi.
  { assert (∀ n, sum_list (imap (λ t (_ : Job), passes p (calls_of (n + t) (@nil (label C)))) jobs) = 0) as Hz; [|exact (Hz 0)].
    clear. induction jobs as [|j jobs IH]; intros n; [done|]. cbn. exact (IH n). }
  specialize (IH (interleaves_app _ _ _ _ _ _ _ _ Hi)). rewrite total_passes_app, <- IH. unfold job_passes.
  destruct l as [t ev|op|now|ev].
  2-4: rewrite Nat.add_0_r; f_equal; apply imap_ext; intros i j _; by rewrite calls_of_app, app_nil_r.
  destruct (jobs !! t) as [j|] eqn:Ej.
  2: { specialize (Hi t). rewrite Ej, calls_of_app, calls_of_call in Hi. by apply app_nil in Hi as [_ ?]. }
  pose proof (sum_imap_change (λ i (_ : Job), passes p (calls_of i tr))
    (λ i _, passes p (calls_of i (tr ++ [Call t ev]))) jobs t j Ej) as Hsum. cbn beta in Hsum.
  rewrite (calls_of_app t tr), calls_of_call, passes_app in Hsum. rewrite passes_single in Hsum.
  enough (∀ i (_ : Job), i ≠ t → passes p (calls_of i tr) = passes p (calls_of i (tr ++ [Call t ev]))) as Hs
    by (specialize (Hsum Hs); lia).
  intros i _ Hne. rewrite calls_of_app. unfold calls_of at 3. cbn. rewrite decide_False by done. by rewrite app_nil_r.
Qed.
End Bound.

(** C5: the rate limit, end to end.  In exact arithmetic and in every interleaving, the
    clean-up of the limiter and calls between loading and locking a bucket included:
    over a period from [t0] to [t1] since the start in which the clean-up deletes a
    principal's bucket [E] times and its clock readings come in order up to a lag
    [delta], at most [(1 + E) * burst + rate * (t1 - t0 + E * delta)] requests are sent
    upstream with a key of that principal, whatever keys, connections and orders the
    client uses; and [E] deletions take at least [E] times the five minutes of
    [staleThreshold], less twice the lag.  Without a deletion this is
    [burst + rate * (t1 - t0)], for any lag. *)
Theorem concurrent_rate_bound {St C} `{KeyManagerSpec St C} `{Policies} `{JsonLib}
    reencode maxBodySize auditOpts secrets resolver (cfg : Config Q) jobs (tr : list (label C)) p delta t0 t1
    (s0 s : Shared St Q) :
  p ≠ "" → (0 <= Rate cfg)%Q → (0 ≤ Burst cfg)%Z → (0 ≤ delta)%Z → (0 ≤ t0 ≤ t1)%Z → (t1 < 2 ^ 63)%Z →
  sh_limiter s0 = NewBuckets cfg →
  interleaves reencode maxBodySize auditOpts secrets resolver jobs tr → exec tr s0 = Some s →
  timely delta t0 t1 (readings p (limiter_steps tr)) →
  let E := Z.of_nat (evictions p (limiter_steps tr) (NewBuckets cfg)) in
  (inject_Z (Z.of_nat (senders p jobs tr)) <=
   inject_Z (1 + E) * inject_Z (Burst cfg) + Rate cfg * secs (t1 - t0 + E * delta))%Q ∧
  (E * (staleThreshold - 2 * delta) ≤ t1 - t0)%Z.
Proof.
  intros Hne Hrt Hb Hd [Ht0 Ht] Ht1 Hlim Hi He%exec_limiter Htl E. rewrite Hlim in He.
  destruct (granted_bound p cfg delta t0 t1 Hrt Hb Hd Ht0 Ht1 _ _ He Htl Ht) as [Hg HE]. split; [|exact HE].
  eapply Qle_trans; [|exact Hg]. rewrite <- Zle_Qle. apply inj_le.
  etrans; [exact (senders_passes reencode maxBodySize auditOpts secrets resolver p jobs tr Hi Hne)|].
  rewrite (job_passes_total reencode maxBodySize auditOpts secrets resolver p jobs tr Hi). apply total_passes_granted.
Qed.

(** ** The trace of Concurrent, and then the clean-up: one request of alice is sent *)

#[local] Existing Instance ex_shipped.
#[local] Existing Instance Sys_JsonLib.

Definition ex_rate_trace : list (label (list string)) :=
  (ex_before ++ Manage ex_withdraw :: ex_later) ++
  [Limit (AInspect (10 * Minute) "alice"); Limit AEvict].
Definition ex_rate_shared : Shared Memory.Store Q :=
  mkShared {["k1" := reader_key]} (NewBuckets RateLimit.ex_cfg) (NewLogger 16 0).

Lemma ex_rate_exec : is_Some (exec ex_rate_trace ex_rate_shared).
Proof. vm_compute. eexists. reflexivity. Qed.
Lemma ex_rate_calls_0 : calls_of 0 ex_rate_trace = ex_first.
Proof. vm_compute. reflexivity. Qed.
Lemma ex_rate_calls_1 : calls_of 1 ex_rate_trace = ex_second.
Proof. vm_compute. reflexivity. Qed.
Lemma ex_rate_calls_other t : calls_of (S (S t)) ex_rate_trace = [].
Proof. vm_compute. reflexivity. Qed.
Lemma ex_rate_readings : readings "alice" (limiter_steps ex_rate_trace) = [4; 10 * Minute]%Z.
Proof. vm_compute. reflexivity. Qed.
Lemma ex_rate_evictions : evictions "alice" (limiter_steps ex_rate_trace) (NewBuckets RateLimit.ex_cfg) = 1.
Proof. vm_compute. reflexivity. Qed.

Lemma ex_rate_interleaves :
  interleaves id 1024 sys_opts ex_secrets [] [ex_job_1; ex_job_2] ex_rate_trace.
Proof.
  apply interleaves_two; [by split|rewrite ex_first_eq; exact ex_rate_calls_0|by split|
    rewrite ex_second_eq; exact ex_rate_calls_1|exact ex_rate_calls_other].
Qed.

Lemma concurrent_rate_bound_witness :
  evictions "alice" (limiter_steps ex_rate_trace) (NewBuckets RateLimit.ex_cfg) = 1 ∧
  let E := Z.of_nat (evictions "alice" (limiter_steps ex_rate_trace) (NewBuckets RateLimit.ex_cfg)) in
  (inject_Z (Z.of_nat (senders "alice" [ex_job_1; ex_job_2] ex_rate_trace)) <=
   inject_Z (1 + E) * inject_Z (Burst RateLimit.ex_cfg) +
   Rate RateLimit.ex_cfg * secs (10 * Minute - 4 + E * 0))%Q ∧
  (E * (staleThreshold - 2 * 0) ≤ 10 * Minute - 4)%Z.
Proof.
  split; [exact ex_rate_evictions|]. destruct ex_rate_exec as [s Hs].
  apply (concurrent_rate_bound id 1024 sys_opts ex_secrets [] RateLimit.ex_cfg [ex_job_1; ex_job_2] ex_rate_trace
    "alice" 0 4 (10 * Minute) ex_rate_shared s).
  - discriminate.
  - vm_compute. discriminate.
  - vm_compute. discriminate.
  - reflexivity.
  - split; vm_compute; discriminate.
  - vm_compute. reflexivity.
  - reflexivity.
  - exact ex_rate_interleaves.
  - exact Hs.
  - rewrite ex_rate_readings. split; repeat constructor; vm_compute; discriminate.
Defined.
