(* ===== verification/Config.v ===== *)
(** * internal/config and the opening of components in cmd/pdag/serve.go

    [Load] (viper's reading and decoding is a parameter), the resolution of secret files, the validation, the
    lookups with defaults, and what serve.go derives from it for the components: the
    HMAC secrets of the authentication, the generator of the admin API, the resolved
    plugin configurations, the limiter and the choice of the backend.  The file system
    is a parameter.  Errors carry the field and the rule; the offending numbers are
    left out of their texts.  The theorems characterize the validation and show what
    the components may rely on, and what not. *)

From S2P Require Import Prelude GoStrings GoNet GoCrypto Store ClientIP Authn RateLimit PluginManager.
From Stdlib Require Import SpecFloat Ascii.

(** ** The configuration *)

Record UpstreamBackend := mkUpstreamBackend { ub_URL : string; ub_APIKey : string; ub_APIKeyFile : string }.
Record HealthCheckConfig := mkHealthCheck { hc_Interval : Duration; hc_Timeout : Duration; hc_Path : string }.
Record HmacSecret := mkHmacSecret { hs_ID : string; hs_Secret : string; hs_SecretFile : string }.
Record CircuitBreakerConfig := mkCBConfig { cb_Failure : Z; cb_Success : Z; cb_Cooldown : Duration }.
Record PluginEntry := mkPluginEntry {
  pe_Path : string; pe_SHA256 : string; pe_Timeout : Duration; pe_Breaker : CircuitBreakerConfig;
}.
Record PluginDefaults := mkPluginDefaults { pd_Timeout : Duration; pd_Breaker : CircuitBreakerConfig }.
Record RateLimitConfig := mkRateLimit { rl_Enabled : bool; rl_Rate : Float64.t; rl_Burst : Z }.
Record TracingConfig := mkTracing { tr_Enabled : bool; tr_Endpoint : string; tr_Insecure : bool; tr_SampleRate : Float64.t }.

Record Config := mkConfig {
  Listen : string; MaxBodySize : Z; AuditLog : string; AuditLogBody : bool; AuditFailClosed : bool;
  AuditBufferSize : Z; AuditEnqueueTimeout : Duration; AuditBodyMaxBytes : Z; AuditRedactFields : list string;
  AdminToken : string; AdminTokenFile : string;
  ShutdownWait : Duration; KeyCleanupInterval : Duration; TrustedProxies : list string;
  Backends : list UpstreamBackend; HealthCheck : HealthCheckConfig;
  DB_Driver : string; DB_DSN : string; Metrics_Listen : string; Admin_Listen : string;
  HmacSecrets : list HmacSecret; RateLimitOpts : RateLimitConfig; Tracing : TracingConfig;
  Defaults : PluginDefaults; Plugins : gmap string PluginEntry;
}.

(** ** Secret files *)

Definition trimSecret (data : string) : string := TrimRight data (bytes [13%Z; 10%Z]).

Section Files.

(** [os.ReadFile], and what [os.Stat] says of a path: directory and mode bits. *)
Context (ReadFile : string → result string) (Stat : string → result (bool * Z)).

Definition resolve (value filePath name : string) : result string :=
  if (filePath =? "")%go then Ok value
  else if negb (value =? "")%go then
    Err (ErrMsg (name +:+ " is set but the inline value is also set; specify only one"))
  else match ReadFile filePath with
       | Err e => Err (ErrWrap name e)
       | Ok data => Ok (trimSecret data)
       end.

Fixpoint mapM_i {A} (f : nat → A → result A) (i : nat) (l : list A) : result (list A) :=
  match l with
  | [] => Ok []
  | a :: l' => a' ← f i a; rest ← mapM_i f (S i) l'; mret (a' :: rest)
  end.

Definition with_secrets (token : string) (bs : list UpstreamBackend) (hs : list HmacSecret) (c : Config) : Config :=
  mkConfig (Listen c) (MaxBodySize c) (AuditLog c) (AuditLogBody c) (AuditFailClosed c) (AuditBufferSize c) (AuditEnqueueTimeout c) (AuditBodyMaxBytes c)
    (AuditRedactFields c) token (AdminTokenFile c) (ShutdownWait c) (KeyCleanupInterval c) (TrustedProxies c)
    bs (HealthCheck c) (DB_Driver c) (DB_DSN c) (Metrics_Listen c) (Admin_Listen c) hs (RateLimitOpts c)
    (Tracing c) (Defaults c) (Plugins c).

Definition resolveSecretFiles (c : Config) : result Config :=
  token ← resolve (AdminToken c) (AdminTokenFile c) "admin_token_file";
  bs ← mapM_i (λ i b, key ← resolve (ub_APIKey b) (ub_APIKeyFile b)
                             ("upstreams.backends[" +:+ pretty i +:+ "].api_key_file");
                      mret (mkUpstreamBackend (ub_URL b) key (ub_APIKeyFile b))) 0 (Backends c);
  hs ← mapM_i (λ i s, sec ← resolve (hs_Secret s) (hs_SecretFile s)
                             ("hmac_secrets[" +:+ pretty i +:+ "].secret_file");
                      mret (mkHmacSecret (hs_ID s) sec (hs_SecretFile s))) 0 (HmacSecrets c);
  mret (with_secrets token bs hs c).

(** ** Validation *)

Definition ensure (b : bool) (msg : string) : result unit := if b then Ok () else Err (ErrMsg msg).

Fixpoint each {A} (f : nat → A → result unit) (i : nat) (l : list A) : result unit :=
  match l with [] => Ok () | a :: l' => _ ← f i a; each f (S i) l' end.

Definition normalizeListenAddr (addr : string) : string :=
  match SplitHostPort addr with
  | None => addr
  | Some (host, port) =>
      let host := if (host =? "")%go || (host =? "0.0.0.0")%go || (host =? "::")%go then "*" else host in
      host +:+ ":" +:+ port
  end.

Definition listenAddrs (c : Config) : list (string * string) :=
  [("listen", Listen c); ("metrics.listen", Metrics_Listen c); ("admin.listen", Admin_Listen c)].

Fixpoint portConflicts (seen : gmap string string) (l : list (string * string)) : result unit :=
  match l with
  | [] => Ok ()
  | (name, value) :: l' =>
      let norm := normalizeListenAddr value in
      match seen !! norm with
      | Some other => Err (ErrMsg (other +:+ " and " +:+ name +:+ " share the same listen address " +:+ value))
      | None => portConflicts (<[norm := name]> seen) l'
      end
  end.

Definition validateCircuitBreaker (cb : CircuitBreakerConfig) (prefix : string) : result unit :=
  _ ← ensure (0 <=? cb_Failure cb)%Z (prefix +:+ ".circuit_breaker.failure_threshold must be >= 0");
  _ ← ensure (0 <=? cb_Success cb)%Z (prefix +:+ ".circuit_breaker.success_threshold must be >= 0");
  ensure (0 <=? cb_Cooldown cb)%Z (prefix +:+ ".circuit_breaker.cooldown must be >= 0").

Definition validateBackend (i : nat) (b : UpstreamBackend) : result unit :=
  let field := "upstreams.backends[" +:+ pretty i +:+ "]" in
  _ ← ensure (negb (ub_URL b =? "")%go) (field +:+ ".url is required");
  ensure (negb (ub_APIKey b =? "")%go) (field +:+ ".api_key is required").

Definition validatePlugin (i : nat) (p : string * PluginEntry) : result unit :=
  let '(name, pc) := p in
  match Stat (pe_Path pc) with
  | Err e => Err (ErrWrap ("plugin " +:+ name +:+ ": path " +:+ pe_Path pc) e)
  | Ok (isDir, mode) =>
      _ ← ensure (negb isDir) ("plugin " +:+ name +:+ ": path " +:+ pe_Path pc +:+ " is a directory");
      _ ← ensure (negb (Z.land mode 73 =? 0)%Z)
            ("plugin " +:+ name +:+ ": path " +:+ pe_Path pc +:+ " is not executable");
      _ ← validateCircuitBreaker (pe_Breaker pc) ("plugins." +:+ name);
      _ ← ensure (0 <=? pe_Timeout pc)%Z ("plugins." +:+ name +:+ ".timeout must be >= 0");
      if (pe_SHA256 pc =? "")%go then Ok ()
      else
        _ ← ensure (slen (pe_SHA256 pc) =? 64)%Z ("plugins." +:+ name +:+ ".sha256 must be 64 hex characters");
        ensure (is_Ok (hex_DecodeString (pe_SHA256 pc))) ("plugins." +:+ name +:+ ".sha256 is not valid hex")
  end.

Definition validateHmac (i : nat) (s : HmacSecret) : result unit :=
  let field := "hmac_secrets[" +:+ pretty i +:+ "]" in
  _ ← ensure (negb ((hs_ID s =? "")%go || (hs_Secret s =? "")%go)) (field +:+ ": id and secret are required");
  ensure (16 <=? slen (hs_Secret s))%Z (field +:+ ": secret must be at least 16 bytes").

Definition fpos (x : Float64.t) : bool := negb (SFleb x (Float64.of_Z 0)).

Definition validateRate (rl : RateLimitConfig) : result unit :=
  if rl_Enabled rl then
    _ ← ensure (fpos (rl_Rate rl)) "rate_limit.rate must be > 0 when enabled";
    ensure (0 <? rl_Burst rl)%Z "rate_limit.burst must be > 0 when enabled"
  else Ok ().

Definition validateHealth (c : Config) : result unit :=
  if bool_decide (1 < length (Backends c)) then
    let hc := HealthCheck c in
    _ ← ensure (0 <? hc_Interval hc)%Z "upstreams.health_check.interval must be > 0";
    _ ← ensure (0 <? hc_Timeout hc)%Z "upstreams.health_check.timeout must be > 0";
    ensure (hc_Timeout hc <? hc_Interval hc)%Z "upstreams.health_check.timeout must be less than interval"
  else Ok ().

Definition validateTracing (t : TracingConfig) : result unit :=
  if tr_Enabled t then
    _ ← ensure (negb (tr_Endpoint t =? "")%go) "tracing.endpoint is required when tracing is enabled";
    ensure (negb (SFltb (tr_SampleRate t) (Float64.of_Z 0) || SFltb (Float64.of_Z 1) (tr_SampleRate t)))
      "tracing.sample_rate must be between 0.0 and 1.0"
  else Ok ().

(** [order] is the iteration order of the plugin map. *)
Definition validate (order : list (string * PluginEntry)) (c : Config) : result unit :=
  _ ← ensure (negb (bool_decide (length (Backends c) = 0))) "upstreams.backends is required";
  _ ← each validateBackend 0 (Backends c);
  _ ← each (λ _ a, ensure (bool_decide (is_Some (SplitHostPort a.2))) (a.1 +:+ ": invalid address " +:+ a.2))
        0 (listenAddrs c);
  _ ← portConflicts ∅ (listenAddrs c);
  _ ← ensure (0 <? MaxBodySize c)%Z "max_body_size must be > 0";
  _ ← ensure (0 <=? KeyCleanupInterval c)%Z "key_cleanup_interval must be >= 0";
  _ ← ensure (0 <? ShutdownWait c)%Z "shutdown_wait must be > 0";
  _ ← ensure (0 <? AuditBufferSize c)%Z "audit_buffer_size must be > 0";
  _ ← ensure (0 <=? AuditEnqueueTimeout c)%Z "audit_enqueue_timeout must be >= 0";
  _ ← ensure (0 <=? AuditBodyMaxBytes c)%Z "audit_body_max_bytes must be >= 0";
  _ ← each (λ i p, ensure (bool_decide (is_Some (ParseCIDR (TrimSpace p))))
                     ("trusted_proxies[" +:+ pretty i +:+ "]: invalid CIDR " +:+ p)) 0 (TrustedProxies c);
  _ ← each validatePlugin 0 order;
  _ ← ensure (0 <? pd_Timeout (Defaults c))%Z "plugin_defaults.timeout must be > 0";
  _ ← validateCircuitBreaker (pd_Breaker (Defaults c)) "plugin_defaults";
  _ ← ensure (negb (bool_decide (length (HmacSecrets c) = 0)))
        "hmac_secrets is required: at least one HMAC secret must be configured";
  _ ← each validateHmac 0 (HmacSecrets c);
  _ ← validateRate (RateLimitOpts c);
  _ ← validateHealth c;
  _ ← validateTracing (Tracing c);
  ensure (negb ((DB_Driver c =? "postgres")%go && (DB_DSN c =? "")%go))
    "db.dsn is required when db.driver is postgres".

(** [Load] from viper's part on. *)
Definition Load (decoded : result Config) (order : list (string * PluginEntry)) : result Config :=
  match decoded with
  | Err e => Err e
  | Ok c =>
      match resolveSecretFiles c with
      | Err e => Err (ErrWrap "resolve secret files" e)
      | Ok c =>
          match validate order c with
          | Err e => Err (ErrWrap "validate config" e)
          | Ok _ => Ok c
          end
      end
  end.

End Files.

(** ** Viper's part of [Load] *)

(** Where the file is looked for: at a given path, or by name in two directories. *)
Inductive configSource := ConfigFile (path : string) | ConfigSearch (name ext : string) (dirs : list string).

Definition config_source (configPath : string) : configSource :=
  if negb (configPath =? "")%go then ConfigFile configPath else ConfigSearch "pdag" "yaml" ["."; "/etc/pdag"].

Inductive readResult := ReadOk | ReadNotFound | ReadFailed (e : gerror).

(** [ReadInConfig], and [Unmarshal] of the defaults, the file and the environment. *)
Record viper := mkViper {
  ReadInConfig : configSource → readResult;
  Unmarshal : configSource → result Config;
}.

(** A file that is not found is no error: the environment may provide everything. *)
Definition viper_decode (v : viper) (configPath : string) : result Config :=
  let src := config_source configPath in
  match ReadInConfig v src with
  | ReadFailed e => Err (ErrWrap "read config" e)
  | ReadOk | ReadNotFound =>
      match Unmarshal v src with
      | Err e => Err (ErrWrap "unmarshal config" e)
      | Ok c => Ok c
      end
  end.

(** The defaults [Load] registers with viper. *)
Definition default_config : Config :=
  mkConfig ":8080" 1048576 "" false false 4096 (250 * Second / 1000) 8192 ["privatekey"; "key"; "secret"; "tsig"]
    "" "" (30 * Second) 0 [] [] (mkHealthCheck (10 * Second) (2 * Second) "/api/v1/servers") "postgres" ""
    ":9090" ":9091" [] (mkRateLimit false (Float64.of_Z 100) 200)
    (mkTracing false "localhost:4317" false (Float64.of_Z 1))
    (mkPluginDefaults (500 * Second / 1000) (mkCBConfig 5 2 (30 * Second))) ∅.

(** ** Lookups *)

Definition CurrentHmacSecret (c : Config) : result HmacSecret :=
  match HmacSecrets c with
  | [] => Err (ErrMsg "no hmac_secrets configured")
  | s :: _ => Ok s
  end.

Fixpoint findSecret (id : string) (l : list HmacSecret) : result HmacSecret :=
  match l with
  | [] => Err (ErrMsg ("hmac secret " +:+ id +:+ " not found"))
  | s :: l' => if (hs_ID s =? id)%go then Ok s else findSecret id l'
  end.
Definition HmacSecretByID (id : string) (c : Config) : result HmacSecret := findSecret id (HmacSecrets c).

Definition orDefault (z d : Z) : Z := if (z =? 0)%Z then d else z.

Definition PluginConfigResolved (name : string) (c : Config) : result PluginEntry :=
  match Plugins c !! name with
  | None => Err (ErrMsg ("plugin " +:+ name +:+ " not configured"))
  | Some pc =>
      let d := Defaults c in let cb := pe_Breaker pc in
      Ok (mkPluginEntry (pe_Path pc) (pe_SHA256 pc) (orDefault (pe_Timeout pc) (pd_Timeout d))
            (mkCBConfig (orDefault (cb_Failure cb) (cb_Failure (pd_Breaker d)))
               (orDefault (cb_Success cb) (cb_Success (pd_Breaker d)))
               (orDefault (cb_Cooldown cb) (cb_Cooldown (pd_Breaker d)))))
  end.

(** ** cmd/pdag/serve.go: what the components get *)

(** The map for the authentication service; a later secret replaces an earlier one
    with the same ID. *)
Definition hmacSecretMap (c : Config) : gmap string string :=
  foldl (λ m s, <[hs_ID s := hs_Secret s]> m) ∅ (HmacSecrets c).

Definition adminGenerator (c : Config) : result Generator :=
  s ← CurrentHmacSecret c; mret (mkGenerator (hs_ID s) (hs_Secret s)).

Definition knownRoles (c : Config) : gset string := dom (Plugins c).

Definition openRateLimiter (c : Config) : option (Limiter Float64.t) :=
  let rl := RateLimitOpts c in
  if negb (rl_Enabled rl) then None
  else Some (RateLimit.New (RateLimit.mkConfig (rl_Rate rl) (rl_Burst rl))).

Definition toManager (pc : PluginEntry) : PluginConfig :=
  mkPluginConfig (pe_Path pc) (pe_SHA256 pc) (pe_Timeout pc) (cb_Failure (pe_Breaker pc))
    (cb_Success (pe_Breaker pc)) (cb_Cooldown (pe_Breaker pc)).

(** The configurations [openPluginManager] hands to the manager. *)
Definition openPluginManager (order : list (string * PluginEntry)) (c : Config)
    : result (list (string * PluginConfig)) :=
  if bool_decide (length order = 0) then
    Err (ErrMsg "no plugins configured: at least one authorization plugin is required")
  else
    (fix go l := match l with
       | [] => mret []
       | (name, _) :: l' =>
           match PluginConfigResolved name c with
           | Err e => Err (ErrWrap ("resolve plugin " +:+ name +:+ " config") e)
           | Ok pc => rest ← go l'; mret ((name, toManager pc) :: rest)
           end
       end) order.

(** [openBackend]: one backend is proxied to directly, several are balanced. *)
Inductive backendChoice := Single (url key : string) | Balanced (l : list (string * string)).
Definition openBackend (c : Config) : backendChoice :=
  match Backends c with
  | [b] => Single (ub_URL b) (ub_APIKey b)
  | bs => Balanced ((λ b, (ub_URL b, ub_APIKey b)) <$> bs)
  end.

(** ** Lemmas *)

Lemma unit_bind_Ok (a : result unit) (b : result unit) : (_ ← a; b) = Ok () ↔ a = Ok () ∧ b = Ok ().
Proof. destruct a as [[]|]; cbn; split; [done|by intros [_ ?]|done|by intros [? _]]. Qed.

Lemma ensure_Ok b msg : ensure b msg = Ok () ↔ b = true.
Proof. unfold ensure. by destruct b. Qed.

Lemma each_Ok {A} (f : nat → A → result unit) (P : A → Prop) i l :
  (∀ i a, f i a = Ok () ↔ P a) → each f i l = Ok () ↔ Forall P l.
Proof.
  intros Hf. revert i. induction l as [|a l IH]; intros i; cbn [each]; [by rewrite Forall_nil|].
  by rewrite unit_bind_Ok, Forall_cons, Hf, IH.
Qed.

Lemma portConflicts_Ok seen l :
  portConflicts seen l = Ok () ↔
  NoDup (normalizeListenAddr <$> l.*2) ∧ Forall (λ a, seen !! normalizeListenAddr a = None) l.*2.
Proof.
  revert seen. induction l as [|[name value] l IH]; intros seen; cbn [portConflicts].
  { split; [intros _; split; constructor|done]. }
  cbn [fmap list_fmap snd]. rewrite NoDup_cons, Forall_cons.
  destruct (seen !! normalizeListenAddr value) eqn:E; [split; [done|by intros (_ & ? & _)]|].
  rewrite IH. rewrite !Forall_forall.
  assert (normalizeListenAddr value ∉ normalizeListenAddr <$> l.*2 ↔
    ∀ a, a ∈ l.*2 → normalizeListenAddr a ≠ normalizeListenAddr value) as ->.
  { rewrite list_elem_of_fmap. split; [|naive_solver]. intros Hn a Ha E'. apply Hn. by exists a. }
  split.
  - intros [Hnd Hs]. split_and!; try done.
    + intros a Ha E'. specialize (Hs a Ha). rewrite E', lookup_insert_eq in Hs. done.
    + intros a Ha. specialize (Hs a Ha). rewrite lookup_insert in Hs. by case_decide.
  - intros ([Hn Hnd] & _ & Hs). split; [done|]. intros a Ha. rewrite lookup_insert_ne; [by apply Hs|].
    intros E'. by apply (Hn a Ha).
Qed.

Definition valid_breaker (cb : CircuitBreakerConfig) : Prop :=
  (0 ≤ cb_Failure cb ∧ 0 ≤ cb_Success cb ∧ 0 ≤ cb_Cooldown cb)%Z.

Lemma validateCircuitBreaker_Ok cb prefix : validateCircuitBreaker cb prefix = Ok () ↔ valid_breaker cb.
Proof. unfold validateCircuitBreaker, valid_breaker. rewrite !unit_bind_Ok, !ensure_Ok. lia. Qed.

(** An executable file, sane limits and a well-formed digest. *)
Definition valid_plugin (Stat : string → result (bool * Z)) (pc : PluginEntry) : Prop :=
  (∃ mode, Stat (pe_Path pc) = Ok (false, mode) ∧ Z.land mode 73 ≠ 0%Z) ∧
  valid_breaker (pe_Breaker pc) ∧ (0 ≤ pe_Timeout pc)%Z ∧
  (pe_SHA256 pc = "" ∨ slen (pe_SHA256 pc) = 64%Z ∧ ∃ b, hex_DecodeString (pe_SHA256 pc) = Ok b).

Lemma validatePlugin_Ok Stat i name pc : validatePlugin Stat i (name, pc) = Ok () ↔ valid_plugin Stat pc.
Proof.
  unfold validatePlugin, valid_plugin.
  destruct (Stat (pe_Path pc)) as [[isDir mode]|]; [|naive_solver].
  rewrite !unit_bind_Ok, validateCircuitBreaker_Ok, !ensure_Ok.
  assert (((if (pe_SHA256 pc =? "")%go then Ok ()
    else _ ← ensure (slen (pe_SHA256 pc) =? 64)%Z ("plugins." +:+ name +:+ ".sha256 must be 64 hex characters");
      ensure (is_Ok (hex_DecodeString (pe_SHA256 pc))) ("plugins." +:+ name +:+ ".sha256 is not valid hex"))
      = Ok ()) ↔
    (pe_SHA256 pc = "" ∨ slen (pe_SHA256 pc) = 64%Z ∧ ∃ b, hex_DecodeString (pe_SHA256 pc) = Ok b)) as ->.
  { destruct (String.eqb_spec (pe_SHA256 pc) ""); [naive_solver|].
    rewrite unit_bind_Ok, !ensure_Ok, Z.eqb_eq.
    destruct (hex_DecodeString (pe_SHA256 pc)); naive_solver. }
  rewrite !negb_true_iff, Z.eqb_neq, Z.leb_le. naive_solver.
Qed.

(** ** What a valid configuration is *)

(** Two listen addresses name the same listener: the ports are the same text, and the
    hosts are the same or both stand for every address. *)
Definition any_host (h : string) : Prop := h = "" ∨ h = "0.0.0.0" ∨ h = "::" ∨ h = "*".
Definition same_listener (a b : string) : Prop :=
  ∃ h1 h2 port, SplitHostPort a = Some (h1, port) ∧ SplitHostPort b = Some (h2, port) ∧
    (h1 = h2 ∨ any_host h1 ∧ any_host h2).

Record valid (Stat : string → result (bool * Z)) (c : Config) : Prop := {
  valid_backends : Backends c ≠ [] ∧ Forall (λ b, ub_URL b ≠ "" ∧ ub_APIKey b ≠ "") (Backends c);
  valid_addrs : is_Some (SplitHostPort (Listen c)) ∧ is_Some (SplitHostPort (Metrics_Listen c)) ∧
    is_Some (SplitHostPort (Admin_Listen c));
  valid_ports : ¬ same_listener (Listen c) (Metrics_Listen c) ∧ ¬ same_listener (Listen c) (Admin_Listen c) ∧
    ¬ same_listener (Metrics_Listen c) (Admin_Listen c);
  valid_limits : (0 < MaxBodySize c ∧ 0 ≤ KeyCleanupInterval c ∧ 0 < ShutdownWait c ∧ 0 < AuditBufferSize c ∧
                  0 ≤ AuditEnqueueTimeout c ∧ 0 ≤ AuditBodyMaxBytes c)%Z;
  valid_proxies : Forall (λ p, is_Some (ParseCIDR (TrimSpace p))) (TrustedProxies c);
  valid_plugins : map_Forall (λ _, valid_plugin Stat) (Plugins c);
  valid_defaults : (0 < pd_Timeout (Defaults c))%Z ∧ valid_breaker (pd_Breaker (Defaults c));
  valid_hmac : HmacSecrets c ≠ [] ∧ Forall (λ s, hs_ID s ≠ "" ∧ (16 ≤ slen (hs_Secret s))%Z) (HmacSecrets c);
  valid_rate : rl_Enabled (RateLimitOpts c) = true →
    fpos (rl_Rate (RateLimitOpts c)) = true ∧ (0 < rl_Burst (RateLimitOpts c))%Z;
  valid_health : 1 < length (Backends c) →
    (0 < hc_Timeout (HealthCheck c) < hc_Interval (HealthCheck c))%Z;
  valid_tracing : tr_Enabled (Tracing c) = true → tr_Endpoint (Tracing c) ≠ "" ∧
    SFltb (tr_SampleRate (Tracing c)) (Float64.of_Z 0) = false ∧
    SFltb (Float64.of_Z 1) (tr_SampleRate (Tracing c)) = false;
  valid_db : DB_Driver c = "postgres" → DB_DSN c ≠ "";
}.

Lemma LastIndexByte_tail c s i : LastIndexByte s c = Some i → has_char c (str_drop (S i) s) = false.
Proof.
  revert i. induction s as [|d s IH]; intros i; [done|]. cbn [LastIndexByte].
  destruct (LastIndexByte s c) as [j|] eqn:E; [intros [= <-]; apply (IH j eq_refl)|].
  destruct (Ascii.eqb_spec d c) as [->|]; [|done]. intros [= <-]. cbn [str_drop]. clear IH.
  induction s as [|d s IH]; [done|]. cbn [LastIndexByte] in E. cbn [has_char].
  destruct (LastIndexByte s c); [done|]. destruct (Ascii.eqb_spec d c) as [->|Hn]; [done|].
  rewrite IH by done. apply orb_false_iff. split; [by apply Ascii.eqb_neq; congruence|done].
Qed.

Lemma SplitHostPort_port a h p : SplitHostPort a = Some (h, p) → has_char ":"%char p = false.
Proof.
  unfold SplitHostPort. intros (i & Hi & ([[host j] k] & _ & Hp)%bind_Some)%bind_Some.
  destruct (_ || _); [done|]. simplify_eq. rewrite Nat.add_1_r. by apply LastIndexByte_tail.
Qed.

(** The last colon separates the host from the port. *)
Lemma host_port_inj h1 h2 p1 p2 :
  has_char ":"%char p1 = false → has_char ":"%char p2 = false →
  h1 +:+ ":" +:+ p1 = h2 +:+ ":" +:+ p2 → h1 = h2 ∧ p1 = p2.
Proof.
  intros H1 H2. revert h2. induction h1 as [|c h1 IH]; intros [|d h2]; cbn.
  - by intros [= ->].
  - intros [= <- ->]. by rewrite has_char_app in H1; cbn in H1; rewrite orb_true_r in H1.
  - intros [= -> <-]. by rewrite has_char_app in H2; cbn in H2; rewrite orb_true_r in H2.
  - intros [= -> E]. destruct (IH _ E) as [-> ->]. done.
Qed.

Lemma wildcard_host h :
  (if (h =? "")%go || (h =? "0.0.0.0")%go || (h =? "::")%go then "*" else h) = "*" ∧ any_host h ∨
  (if (h =? "")%go || (h =? "0.0.0.0")%go || (h =? "::")%go then "*" else h) = h ∧ ¬ any_host h.
Proof.
  unfold any_host. destruct (String.eqb_spec h ""), (String.eqb_spec h "0.0.0.0"), (String.eqb_spec h "::"),
    (decide (h = "*")); cbn; naive_solver.
Qed.

Lemma normalize_same a b :
  is_Some (SplitHostPort a) → is_Some (SplitHostPort b) →
  normalizeListenAddr a = normalizeListenAddr b ↔ same_listener a b.
Proof.
  intros [[h1 p1] Ha] [[h2 p2] Hb]. unfold normalizeListenAddr, same_listener. rewrite Ha, Hb.
  pose proof (SplitHostPort_port _ _ _ Ha) as Hp1. pose proof (SplitHostPort_port _ _ _ Hb) as Hp2. split.
  - intros [Eh ->]%host_port_inj; try done. exists h1, h2, p2. split_and!; try done.
    destruct (wildcard_host h1) as [[E1 W1]|[E1 W1]], (wildcard_host h2) as [[E2 W2]|[E2 W2]];
      rewrite E1, E2 in Eh; subst; auto; exfalso; [apply W2|apply W1]; right; right; by right.
  - intros (? & ? & port & [= <- ->] & [= <- ->] & [->|[W1 W2]]); [done|]. f_equal.
    destruct (wildcard_host h1) as [[-> _]|[_ N]]; [|done]. by destruct (wildcard_host h2) as [[-> _]|[_ N]].
Qed.

Lemma ports_distinct c :
  is_Some (SplitHostPort (Listen c)) → is_Some (SplitHostPort (Metrics_Listen c)) →
  is_Some (SplitHostPort (Admin_Listen c)) →
  NoDup (normalizeListenAddr <$> (listenAddrs c).*2) ↔
  ¬ same_listener (Listen c) (Metrics_Listen c) ∧ ¬ same_listener (Listen c) (Admin_Listen c) ∧
  ¬ same_listener (Metrics_Listen c) (Admin_Listen c).
Proof.
  intros. cbn [listenAddrs fmap list_fmap snd].
  rewrite !NoDup_cons, !not_elem_of_cons, !normalize_same by done.
  pose proof (NoDup_nil_2 (A := string)). pose proof (not_elem_of_nil (A := string)). naive_solver.
Qed.

Lemma negb_eqb_true (a b : string) : negb (a =? b)%go = true ↔ a ≠ b.
Proof. by rewrite negb_true_iff, String.eqb_neq. Qed.

Lemma not_empty_list {A} (l : list A) : negb (bool_decide (length l = 0)) = true ↔ l ≠ [].
Proof. rewrite negb_true_iff, bool_decide_eq_false, length_zero_iff_nil. done. Qed.

Lemma validateBackend_Ok i b : validateBackend i b = Ok () ↔ ub_URL b ≠ "" ∧ ub_APIKey b ≠ "".
Proof. unfold validateBackend. by rewrite unit_bind_Ok, !ensure_Ok, !negb_eqb_true. Qed.

Lemma validateHmac_Ok i s : validateHmac i s = Ok () ↔ hs_ID s ≠ "" ∧ (16 ≤ slen (hs_Secret s))%Z.
Proof.
  unfold validateHmac. rewrite unit_bind_Ok, !ensure_Ok, negb_orb, andb_true_iff, !negb_eqb_true, Z.leb_le.
  split; [tauto|]. intros [? Hl]. split_and!; try done. intros E. rewrite E in Hl. done.
Qed.

Lemma validateRate_Ok rl :
  validateRate rl = Ok () ↔ (rl_Enabled rl = true → fpos (rl_Rate rl) = true ∧ (0 < rl_Burst rl)%Z).
Proof.
  unfold validateRate. destruct (rl_Enabled rl); [|naive_solver].
  rewrite unit_bind_Ok, !ensure_Ok, Z.ltb_lt. naive_solver.
Qed.

Lemma validateHealth_Ok c :
  validateHealth c = Ok () ↔
  (1 < length (Backends c) → (0 < hc_Timeout (HealthCheck c) < hc_Interval (HealthCheck c))%Z).
Proof.
  unfold validateHealth. case_bool_decide; [|naive_solver].
  rewrite !unit_bind_Ok, !ensure_Ok, !Z.ltb_lt. split; [lia|]. intros Hh. specialize (Hh H). lia.
Qed.

Lemma validateTracing_Ok t :
  validateTracing t = Ok () ↔ (tr_Enabled t = true → tr_Endpoint t ≠ "" ∧
    SFltb (tr_SampleRate t) (Float64.of_Z 0) = false ∧ SFltb (Float64.of_Z 1) (tr_SampleRate t) = false).
Proof.
  unfold validateTracing. destruct (tr_Enabled t); [|naive_solver].
  rewrite unit_bind_Ok, !ensure_Ok, negb_eqb_true, negb_true_iff, orb_false_iff. naive_solver.
Qed.

Lemma addrs_split c :
  Forall (λ a : string * string, is_Some (SplitHostPort a.2)) (listenAddrs c) ↔
  is_Some (SplitHostPort (Listen c)) ∧ is_Some (SplitHostPort (Metrics_Listen c)) ∧ is_Some (SplitHostPort (Admin_Listen c)).
Proof. unfold listenAddrs. rewrite !Forall_cons, Forall_nil. cbn. tauto. Qed.

Lemma validate_valid Stat order c :
  order ≡ₚ map_to_list (Plugins c) → validate Stat order c = Ok () ↔ valid Stat c.
Proof.
  intros Ho. unfold validate. rewrite !unit_bind_Ok.
  rewrite (each_Ok validateBackend (λ b, ub_URL b ≠ "" ∧ ub_APIKey b ≠ "")) by apply validateBackend_Ok.
  rewrite (each_Ok validateHmac (λ s, hs_ID s ≠ "" ∧ (16 ≤ slen (hs_Secret s))%Z)) by apply validateHmac_Ok.
  rewrite (each_Ok (validatePlugin Stat) (λ p, valid_plugin Stat p.2)) by (intros i [name pc]; apply validatePlugin_Ok).
  rewrite (each_Ok _ (λ p, is_Some (ParseCIDR (TrimSpace p)))) by (intros; by rewrite ensure_Ok, bool_decide_eq_true).
  rewrite (each_Ok _ (λ a : string * string, is_Some (SplitHostPort a.2))) by (intros; by rewrite ensure_Ok, bool_decide_eq_true).
  rewrite portConflicts_Ok, validateCircuitBreaker_Ok, validateRate_Ok, validateHealth_Ok, validateTracing_Ok.
  rewrite !ensure_Ok, !not_empty_list, !Z.ltb_lt, !Z.leb_le, negb_true_iff, andb_false_iff, !String.eqb_neq.
  assert (Forall (λ p, valid_plugin Stat p.2) order ↔ map_Forall (λ _, valid_plugin Stat) (Plugins c)) as ->.
  { rewrite Ho, map_Forall_to_list. apply Forall_iff. by intros []. }
  assert (Forall (λ a, @lookup _ string (gmap string string) _ (normalizeListenAddr a) ∅ = None) (listenAddrs c).*2) as Hemp.
  { apply Forall_true. intros a. apply lookup_empty. }
  rewrite addrs_split. pose proof (ports_distinct c) as Hpd. split.
  - intros. destruct_and!. split; tauto.
  - intros [[] [? []] ? ? ? ? [] [] ? ? ? Hdb]. split_and!; try tauto.
    destruct (decide (DB_Driver c = "postgres")); [right; auto|by left].
Qed.

Lemma resolve_Plugins ReadFile c c' :
  resolveSecretFiles ReadFile c = Ok c' →
  Plugins c' = Plugins c ∧ hs_ID <$> HmacSecrets c' = hs_ID <$> HmacSecrets c.
Proof.
  unfold resolveSecretFiles. intros (token & _ & (bs & _ & (hs & Hhs & [= <-])%bind_Ok)%bind_Ok)%bind_Ok.
  split; [done|]. cbn. revert hs Hhs. generalize 0 at 1. induction (HmacSecrets c) as [|s l IH]; intros i hs.
  - by intros [= <-].
  - cbn [mapM_i]. intros (s' & (sec & _ & [= <-])%bind_Ok & (rest & Hr & [= <-])%bind_Ok)%bind_Ok.
    cbn. f_equal. by eapply IH.
Qed.

Lemma hmacSecretMap_lookup l (m : gmap string string) s :
  NoDup (hs_ID <$> l) → s ∈ l → foldl (λ m s, <[hs_ID s := hs_Secret s]> m) m l !! hs_ID s = Some (hs_Secret s).
Proof.
  revert m. induction l as [|t l IH]; intros m; [by intros _ ?%not_elem_of_nil|].
  rewrite fmap_cons, NoDup_cons. intros [Hn Hnd] [->|Hs]%elem_of_cons; cbn [foldl]; [|by apply IH].
  clear IH. assert (∀ (m : gmap string string), m !! hs_ID t = Some (hs_Secret t) →
    foldl (λ m s, <[hs_ID s := hs_Secret s]> m) m l !! hs_ID t = Some (hs_Secret t)) as Hk.
  { clear Hnd. induction l as [|u l IH]; intros m0 Hm; [done|]. cbn [foldl].
    rewrite fmap_cons, not_elem_of_cons in Hn. destruct Hn as [Hu Hn]. apply IH; [done|].
    by rewrite lookup_insert_ne. }
  apply Hk, lookup_insert_eq.
Qed.

Lemma New_resolver l :
  Forall (λ p, is_Some (ParseCIDR (TrimSpace p))) l → ∃ r, ClientIP.New l = Ok r ∧ length r = length l.
Proof.
  induction 1 as [|p l [n Hn] _ (r & Hr & Hl)]; [by exists []|]. exists (n :: r).
  cbn [ClientIP.New]. rewrite Hn, Hr. split; [done|]. cbn. by rewrite Hl.
Qed.

(** A plugin configuration the manager can work with. *)
Definition ready (pc : PluginConfig) : Prop :=
  (0 < Timeout pc ∧ 0 ≤ FailureThreshold pc ∧ 0 ≤ SuccessThreshold pc ∧ 0 ≤ Cooldown pc)%Z.

Lemma PluginConfigResolved_ready Stat c name pc :
  valid Stat c → Plugins c !! name = Some pc →
  ∃ pc', PluginConfigResolved name c = Ok pc' ∧ ready (toManager pc') ∧ pe_Path pc' = pe_Path pc ∧
         pe_SHA256 pc' = pe_SHA256 pc.
Proof.
  intros Hv Hp. unfold PluginConfigResolved. rewrite Hp. eexists. split; [done|].
  destruct (valid_plugins _ _ Hv name pc Hp) as (_ & (? & ? & ?) & ? & _).
  destruct (valid_defaults _ _ Hv) as [? (? & ? & ?)].
  split; [|done]. unfold ready, toManager, orDefault. cbn.
  repeat match goal with |- context [(?z =? 0)%Z] => destruct (Z.eqb_spec z 0) end; lia.
Qed.

(** What an operator has to add to the defaults: the backends, the secrets and the
    database. *)
Definition with_required (bs : list UpstreamBackend) (hs : list HmacSecret) (dsn : string) (c : Config) : Config :=
  mkConfig (Listen c) (MaxBodySize c) (AuditLog c) (AuditLogBody c) (AuditFailClosed c) (AuditBufferSize c)
    (AuditEnqueueTimeout c) (AuditBodyMaxBytes c) (AuditRedactFields c) (AdminToken c) (AdminTokenFile c)
    (ShutdownWait c) (KeyCleanupInterval c) (TrustedProxies c) bs (HealthCheck c) (DB_Driver c) dsn
    (Metrics_Listen c) (Admin_Listen c) hs (RateLimitOpts c) (Tracing c) (Defaults c) (Plugins c).

Lemma defaults_valid Stat bs hs dsn :
  bs ≠ [] → Forall (λ b, ub_URL b ≠ "" ∧ ub_APIKey b ≠ "") bs →
  hs ≠ [] → Forall (λ s, hs_ID s ≠ "" ∧ (16 ≤ slen (hs_Secret s))%Z) hs → dsn ≠ "" →
  valid Stat (with_required bs hs dsn default_config).
Proof.
  intros. split; try done.
  - cut (NoDup (normalizeListenAddr <$> (listenAddrs (with_required bs hs dsn default_config)).*2)).
    + apply ports_distinct; by eexists.
    + apply (bool_decide_unpack _). vm_compute. exact I.
Qed.

(** ** What reading the secret files does *)

(** A line terminator an editor appends: CR or LF. *)
Definition line_end (c : ascii) : Prop := c = "013"%char ∨ c = "010"%char.

(** The secret a value and a file give: the value when no file is named, and the
    content of the file without the line terminators at its end when there is no
    value; both together give none. *)
Inductive secret_from (ReadFile : string → result string) : string → string → string → Prop :=
  | secret_inline v : secret_from ReadFile v "" v
  | secret_file path s nl :
      path ≠ "" → ReadFile path = Ok (s +:+ nl) → Forall line_end (String.list_ascii_of_string nl) →
      (∀ s' c, s = s' +:+ String c "" → ¬ line_end c) → secret_from ReadFile "" path s.

(** Everything of a configuration but the three kinds of secrets. *)
Definition plain_fields (c : Config) :=
  (Listen c, MaxBodySize c, (AuditLog c, AuditLogBody c, AuditFailClosed c, AuditBufferSize c,
   AuditEnqueueTimeout c, AuditBodyMaxBytes c, AuditRedactFields c), AdminTokenFile c,
   (ShutdownWait c, KeyCleanupInterval c, TrustedProxies c), HealthCheck c, (DB_Driver c, DB_DSN c),
   (Metrics_Listen c, Admin_Listen c), RateLimitOpts c, Tracing c, Defaults c, Plugins c).

Record secrets_read (ReadFile : string → result string) (c0 c : Config) : Prop := {
  read_token : secret_from ReadFile (AdminToken c0) (AdminTokenFile c0) (AdminToken c);
  read_backends : Forall2 (λ b0 b, ub_URL b = ub_URL b0 ∧ ub_APIKeyFile b = ub_APIKeyFile b0 ∧
    secret_from ReadFile (ub_APIKey b0) (ub_APIKeyFile b0) (ub_APIKey b)) (Backends c0) (Backends c);
  read_hmac : Forall2 (λ h0 h, hs_ID h = hs_ID h0 ∧ hs_SecretFile h = hs_SecretFile h0 ∧
    secret_from ReadFile (hs_Secret h0) (hs_SecretFile h0) (hs_Secret h)) (HmacSecrets c0) (HmacSecrets c);
  read_rest : plain_fields c = plain_fields c0;
}.

Lemma has_line_end c : has_char c (bytes [13%Z; 10%Z]) = true ↔ line_end c.
Proof.
  unfold line_end. change (bytes [13%Z; 10%Z]) with (String "013"%char (String "010"%char "")). cbn [has_char].
  destruct (Ascii.eqb_spec c "013"%char), (Ascii.eqb_spec c "010"%char); naive_solver.
Qed.

Lemma trimSecret_cuts s nl :
  Forall line_end (String.list_ascii_of_string nl) → (∀ s' c, s = s' +:+ String c "" → ¬ line_end c) →
  trimSecret (s +:+ nl) = s.
Proof.
  intros Hnl. unfold trimSecret. induction s as [|c s IH]; intros Hs; cbn [String.append].
  - induction nl as [|c nl IH]; [done|]. apply Forall_cons in Hnl as [Hc Hnl]. cbn [TrimRight].
    change (""%string +:+ nl) with nl in IH. rewrite (IH Hnl). by rewrite (proj2 (has_line_end c) Hc).
  - change (String c s +:+ nl) with (String c (s +:+ nl)). cbn [TrimRight].
    rewrite IH by (intros s' d ->; by apply (Hs (String c s') d)). destruct s; [|done].
    destruct (has_char c _) eqn:E; [|done]. apply has_line_end in E. by destruct (Hs "" c eq_refl).
Qed.

Lemma trimSecret_splits data : ∃ nl, data = trimSecret data +:+ nl ∧
  Forall line_end (String.list_ascii_of_string nl) ∧ (∀ s' c, trimSecret data = s' +:+ String c "" → ¬ line_end c).
Proof.
  unfold trimSecret. induction data as [|c data (nl & E & Hnl & Hl)].
  { exists "". split_and!; [done|constructor|]. by intros []. }
  cbn [TrimRight]. destruct (TrimRight data _) as [|d r] eqn:Et.
  - destruct (has_char c _) eqn:Ec.
    + exists (String c nl). rewrite E. split_and!; [done| |by intros []].
      constructor; [by apply has_line_end|done].
    + exists nl. rewrite E. split_and!; [done..|]. intros [|? []] e; [|done..]. intros [= <-].
      intros Hc. apply has_line_end in Hc. congruence.
  - exists nl. rewrite E. split_and!; [done..|]. intros [|c' s'] e; [done|]. intros [= -> H']. by eapply Hl.
Qed.

Lemma resolve_Ok ReadFile v path name s : resolve ReadFile v path name = Ok s ↔ secret_from ReadFile v path s.
Proof.
  unfold resolve. destruct (String.eqb_spec path "") as [->|Hp].
  { split; [intros [= <-]; constructor|]. inversion 1; by subst. }
  destruct (String.eqb_spec v "") as [->|Hv]; cbn [negb].
  2: { split; [done|]. inversion 1; by subst. }
  split.
  - destruct (ReadFile path) as [data|] eqn:Er; [|done]. intros [= <-].
    destruct (trimSecret_splits data) as (nl & E & Hnl & Hl). apply (secret_file _ _ _ nl); try done. by rewrite <- E.
  - inversion 1 as [|? ? nl _ Er Hnl Hl]; subst; [done|]. rewrite Er. by rewrite trimSecret_cuts.
Qed.

Lemma mapM_i_Ok {A} (f : nat → A → result A) (R : A → A → Prop) i l l' :
  (∀ i a a', f i a = Ok a' ↔ R a a') → mapM_i f i l = Ok l' ↔ Forall2 R l l'.
Proof.
  intros Hf. revert i l'. induction l as [|a l IH]; intros i l'; cbn [mapM_i].
  { split; [intros [= <-]; constructor|]. by inversion 1. }
  split.
  - intros (a' & Ha%Hf & (rest & Hr%IH & [= <-])%bind_Ok)%bind_Ok. by constructor.
  - inversion 1 as [|? a' ? rest Ha Hr]; subst. by rewrite (proj2 (Hf i a a') Ha), (proj2 (IH (S i) rest) Hr).
Qed.

Lemma resolveSecretFiles_Ok ReadFile c0 c : resolveSecretFiles ReadFile c0 = Ok c ↔ secrets_read ReadFile c0 c.
Proof.
  assert (∀ i b b', (key ← resolve ReadFile (ub_APIKey b) (ub_APIKeyFile b)
      ("upstreams.backends[" +:+ pretty (i : nat) +:+ "].api_key_file");
      mret (mkUpstreamBackend (ub_URL b) key (ub_APIKeyFile b))) = Ok b' ↔
    ub_URL b' = ub_URL b ∧ ub_APIKeyFile b' = ub_APIKeyFile b ∧
    secret_from ReadFile (ub_APIKey b) (ub_APIKeyFile b) (ub_APIKey b')) as Hb.
  { intros i b [u k kf]. split; [by intros (key & Hk%resolve_Ok & [= <- <- <-])%bind_Ok|].
    cbn. intros (-> & -> & Hk). by rewrite (proj2 (resolve_Ok _ _ _ _ _) Hk). }
  assert (∀ i s s', (sec ← resolve ReadFile (hs_Secret s) (hs_SecretFile s)
      ("hmac_secrets[" +:+ pretty (i : nat) +:+ "].secret_file");
      mret (mkHmacSecret (hs_ID s) sec (hs_SecretFile s))) = Ok s' ↔
    hs_ID s' = hs_ID s ∧ hs_SecretFile s' = hs_SecretFile s ∧
    secret_from ReadFile (hs_Secret s) (hs_SecretFile s) (hs_Secret s')) as Hh.
  { intros i s [u k kf]. split; [by intros (key & Hk%resolve_Ok & [= <- <- <-])%bind_Ok|].
    cbn. intros (-> & -> & Hk). by rewrite (proj2 (resolve_Ok _ _ _ _ _) Hk). }
  unfold resolveSecretFiles. split.
  - intros (token & Ht%resolve_Ok & (bs & Hbs%(mapM_i_Ok _ _ _ _ _ Hb) &
      (hs & Hhs%(mapM_i_Ok _ _ _ _ _ Hh) & [= <-])%bind_Ok)%bind_Ok)%bind_Ok. by split.
  - intros [Ht Hbs Hhs Hr].
    apply bind_Ok. exists (AdminToken c). split; [by apply resolve_Ok|].
    apply bind_Ok. exists (Backends c). split; [by apply (mapM_i_Ok _ _ 0 _ _ Hb)|].
    apply bind_Ok. exists (HmacSecrets c). split; [by apply (mapM_i_Ok _ _ 0 _ _ Hh)|].
    unfold mret. cbn. f_equal.
    destruct c. unfold plain_fields in Hr. cbn in *. unfold with_secrets. by simplify_eq/=.
Qed.

Lemma Load_valid ReadFile Stat order c0 c :
  order ≡ₚ map_to_list (Plugins c0) →
  Load ReadFile Stat (Ok c0) order = Ok c ↔ secrets_read ReadFile c0 c ∧ valid Stat c.
Proof.
  intros Ho. rewrite <- resolveSecretFiles_Ok. unfold Load.
  destruct (resolveSecretFiles ReadFile c0) as [c1|] eqn:E; [|naive_solver].
  destruct (resolve_Plugins _ _ _ E) as [Hp _]. rewrite <- Hp in Ho.
  pose proof (validate_valid Stat order c1 Ho) as Hv.
  destruct (validate Stat order c1) as [[]|]; naive_solver.
Qed.

(** The keys of the admin API's generator are accepted by the authentication service. *)
Lemma generator_verifies Stat c :
  valid Stat c → NoDup (hs_ID <$> HmacSecrets c) →
  ∃ g, adminGenerator c = Ok g ∧ ∀ secret rec, KeyHash rec = Hash g secret → HmacKeyID rec = hmacKeyID g →
     Authenticate (NewHmacService (hmacSecretMap c)) secret rec = Ok ().
Proof.
  intros Hv Hnd. destruct (valid_hmac _ _ Hv) as [Hne Hf]. unfold adminGenerator, CurrentHmacSecret, hmacSecretMap.
  destruct (HmacSecrets c) as [|s l] eqn:El; [done|]. eexists. split; [done|].
  intros secret rec Hh Hid. rewrite Authenticate_Hmac. apply HmacService_Authenticate_ok.
  exists (hs_Secret s). cbn in Hid, Hh. rewrite Hid, hmacSecretMap_lookup by (done || apply list_elem_of_here).
  split; [done|]. apply Forall_cons in Hf as [[_ Hl] _]. split; [intros E; by rewrite E in Hl|].
  rewrite Hh. apply hex_Decode_Encode, hmac_Sum_bytes.
Qed.

(** ** Properties *)

(** C34: loading accepts exactly the configurations that are valid once the secret
    files are read, and returns them so: every secret is the inline value when no file
    is named, and otherwise, when the inline value is empty, the content of the file
    without the line terminators at its end; nothing else changes; and every rule of
    the validation holds, whatever order the plugins are visited in.  Two listen
    addresses with the same port text and the same host, or with hosts that both
    stand for every address, are refused, not only warned about. *)
Theorem config_Load_iff ReadFile Stat order c0 c :
  order ≡ₚ map_to_list (Plugins c0) →
  Load ReadFile Stat (Ok c0) order = Ok c ↔ secrets_read ReadFile c0 c ∧ valid Stat c.
Proof. apply Load_valid. Qed.

(** A valid configuration whose HMAC secrets have distinct IDs gives every
    component what it needs: the client-IP resolver builds; the admin API's generator
    exists, and every key it makes is accepted by the authentication service;
    every configured plugin resolves to its own binary and digest with a positive
    timeout and non-negative breaker limits. *)
Theorem config_components_ready Stat c :
  valid Stat c → NoDup (hs_ID <$> HmacSecrets c) →
  (∃ r, ClientIP.New (TrustedProxies c) = Ok r ∧ length r = length (TrustedProxies c)) ∧
  (∃ g, adminGenerator c = Ok g ∧ ∀ secret rec, KeyHash rec = Hash g secret → HmacKeyID rec = hmacKeyID g →
     Authenticate (NewHmacService (hmacSecretMap c)) secret rec = Ok ()) ∧
  (∀ name pc, Plugins c !! name = Some pc → ∃ pc', PluginConfigResolved name c = Ok pc' ∧
     ready (toManager pc') ∧ pe_Path pc' = pe_Path pc ∧ pe_SHA256 pc' = pe_SHA256 pc).
Proof.
  intros Hv Hnd. split; [by apply New_resolver, (valid_proxies _ _ Hv)|]. split.
  - by eapply generator_verifies.
  - intros name pc Hp. by eapply PluginConfigResolved_ready.
Qed.

Definition ex_hs (id sec : string) : HmacSecret := mkHmacSecret id sec "".
Definition ex_config (hs : list HmacSecret) : Config :=
  mkConfig ":8080" 1048576 "" false false 4096 0 8192 [] "tok" "" (30 * Second) 0 ["10.0.0.0/8"]
    [mkUpstreamBackend "http://a:8081" "ka" ""] (mkHealthCheck 0 0 "") "memory" "" ":9090" ":9091" hs
    (mkRateLimit true (Float64.of_Z 10) 5) (mkTracing false "" false (Float64.of_Z 1))
    (mkPluginDefaults Second (mkCBConfig 5 2 Second))
    {["admin" := mkPluginEntry "/p" "" 0 (mkCBConfig 0 0 0)]}.
Definition ex_stat (_ : string) : result (bool * Z) := Ok (false, 493%Z).

(** An HMAC secret kept in a file that ends in a line terminator. *)
Definition ex_file (p : string) : result string :=
  if (p =? "/run/h2")%go then Ok ("0123456789abcdef" +:+ bytes [13%Z; 10%Z]) else Err (ErrMsg "no such file").

Lemma config_Load_iff_witness :
  secrets_read ex_file (ex_config [mkHmacSecret "h2" "" "/run/h2"])
    (ex_config [mkHmacSecret "h2" "0123456789abcdef" "/run/h2"]) ∧
  valid ex_stat (ex_config [mkHmacSecret "h2" "0123456789abcdef" "/run/h2"]).
Proof.
  refine (proj1 (config_Load_iff ex_file ex_stat
    [("admin", mkPluginEntry "/p" "" 0 (mkCBConfig 0 0 0))] (ex_config [mkHmacSecret "h2" "" "/run/h2"])
    (ex_config [mkHmacSecret "h2" "0123456789abcdef" "/run/h2"]) _) _).
  - vm_compute. reflexivity.
  - vm_compute. reflexivity.
Defined.

Lemma config_components_ready_witness :
  ∃ g, adminGenerator (ex_config [ex_hs "h2" "0123456789abcdef"; ex_hs "h1" "fedcba9876543210"]) = Ok g.
Proof.
  destruct (config_components_ready ex_stat
    (ex_config [ex_hs "h2" "0123456789abcdef"; ex_hs "h1" "fedcba9876543210"])) as (_ & (g & Hg & _) & _).
  - apply (validate_valid ex_stat [("admin", mkPluginEntry "/p" "" 0 (mkCBConfig 0 0 0))]);
      vm_compute; reflexivity.
  - apply (bool_decide_unpack _). vm_compute. exact I.
  - exists g. exact Hg.
Defined.

(** A repeated ID is accepted and locks out new keys: the generator uses the first
    secret of the ID, the authentication service knows only the last. *)
Theorem config_duplicate_ids_lock_out :
  let c := ex_config [ex_hs "h1" "0123456789abcdef"; ex_hs "h1" "fedcba9876543210"] in
  valid ex_stat c ∧
  ∃ g, adminGenerator c = Ok g ∧ ∀ rec, KeyHash rec = Hash g "pdg_1" → HmacKeyID rec = hmacKeyID g →
    Authenticate (NewHmacService (hmacSecretMap c)) "pdg_1" rec = Err ErrInvalidCredentials.
Proof.
  intros c. split.
  - apply (validate_valid ex_stat [("admin", mkPluginEntry "/p" "" 0 (mkCBConfig 0 0 0))]);
      vm_compute; reflexivity.
  - eexists. split; [reflexivity|]. intros rec Hh Hid. rewrite Authenticate_Hmac.
    unfold HmacService_Authenticate, HmacService_run. rewrite Hid, Hh. vm_compute. reflexivity.
Qed.

(** A rate that is not a number passes the validation, and then no call is ever
    refused. *)
Theorem config_nan_rate_unlimited :
  validateRate (mkRateLimit true S754_nan 1) = Ok () ∧
  ∀ bst now (b : bucket Float64.t), (take_token (F := Float64.t) S754_nan bst now b).1 = true.
Proof.
  split; [reflexivity|]. intros bst now b. unfold take_token. cbn [fadd fmul fltb Float64.Float64_Arith].
  destruct (seconds _), (tokens b), (of_int bst); reflexivity.
Qed.
