(* ===== verification/Postgres.v ===== *)
(** * internal/store/postgres/postgres.go: the PostgreSQL key store

    The store turns every method into one SQL statement.  The database and its
    driver are not part of the repository: [Database] is the part of database/sql
    the store calls, and [PostgresSpec] says what PostgreSQL's manual documents of
    the statements the store sends, on the two tables the migrations create.  The
    texts of the statements are those of the code, character for character; the
    meaning of each is given by [documented_stmt] and [documented_query].  The
    theorems show that the store meets the contract of Store, that it lists the
    same pages as the memory store, and where the two differ. *)

From S2P Require Import Prelude GoStrings Utf8 Store MemoryStore PgArray.
From Stdlib Require Import Ascii Sorting.Sorted.

(** ** The database as the store sees it *)

(** Arguments of a statement, after the driver's conversions. *)
Inductive sqlval :=
  | VNull | VText (s : string) | VBytes (s : string) | VInt (z : Z) | VBool (b : bool)
  | VTime (t : Time).

(** What the driver delivers for the ten columns of the store's queries. *)
Record keyrow := mkKeyrow {
  c_id : string; c_key_hash : string; c_hmac_key_id : string; c_principal : string;
  c_roles : dbvalue; c_allowed_cidrs : dbvalue; c_enabled : bool;
  c_expires_at : option Time; c_created_at : Time; c_updated_at : Time;
}.

(** [ExecContext] returns the [sql.Result], here the
    answer of its [RowsAffected]; [QueryContext] returns the rows that [Next]
    delivers and the error that ends them: [rows.Err] says it after the last row, and
    [rows.Close], which [Row.Scan] calls after the first, returns it too. *)
Class Database (DB : Type) := {
  ExecContext : string → list sqlval → DB → result (result Z) * DB;
  QueryContext : string → list sqlval → DB → result (list keyrow * option gerror) * DB;
}.

(** [json.Marshal] of the values of an audit event. *)
Class AuditJSON := { json_Marshal : AuditValues → result string }.

(** ** The store *)

Module Pg.

(** [driver.Valuer] and pointer arguments. *)
Definition array_arg (a : TextArray) : sqlval :=
  match Value a with None => VNull | Some s => VText s end.
Definition time_arg (t : option Time) : sqlval :=
  match t with None => VNull | Some t => VTime t end.

Definition coalesceStrings (s : option (list string)) : list string :=
  match s with None => [] | Some l => l end.

(** A slice of a [KeyRecord]: a record without elements may hold the nil slice, as
    the records the admin API creates do. *)
Definition slice_of (l : list string) : option (list string) :=
  match l with [] => None | _ => Some l end.

Definition checkRowsAffected (res : result Z) (id : string) : result unit :=
  n ← res; if (n =? 0)%Z then Err (ErrWrap ("key " +:+ id) ErrKeyNotFound) else Ok ().

Definition columns : string :=
  "SELECT id, key_hash, hmac_key_id, principal, roles, allowed_cidrs, enabled, expires_at, created_at, updated_at
		 FROM api_keys".

(** [row.Scan] into a record: the two arrays can fail. *)
Definition scanRow (row : keyrow) : result KeyRecord :=
  roles ← Scan (c_roles row);
  cidrs ← Scan (c_allowed_cidrs row);
  mret (mkKeyRecord (c_id row) (c_key_hash row) (c_hmac_key_id row) (c_principal row)
          (default [] roles) (default [] cidrs) (c_enabled row) (c_expires_at row)
          (c_created_at row) (c_updated_at row)).

(** The loop of the three listings, then [rows.Err]. *)
Fixpoint scanRows (acc : list KeyRecord) (rows : list keyrow) (err : option gerror)
    : result (list KeyRecord) :=
  match rows with
  | [] => match err with Some e => Err e | None => Ok acc end
  | row :: rows =>
      match scanRow row with
      | Err e => Err (ErrWrap "scan key" e)
      | Ok rec => scanRows (acc ++ [rec]) rows err
      end
  end.

Section Store.
Context {DB : Type} `{Database DB} `{AuditJSON}.

Definition GetByID (id : string) (db : DB) : result (option KeyRecord) * DB :=
  match QueryContext (columns +:+ " WHERE id = $1") [VText id] db with
  | (Err e, db) | (Ok ([], Some e), db) => (Err (ErrWrap ("get key " +:+ id) e), db)
  | (Ok ([], None), db) => (Ok None, db)
  | (Ok (row :: _, err), db) =>
      match scanRow row, err with
      | Err e, _ | Ok _, Some e => (Err (ErrWrap ("get key " +:+ id) e), db)
      | Ok rec, None => (Ok (Some rec), db)
      end
  end.

Definition Create (rec : KeyRecord) (db : DB) : result unit * DB :=
  match ExecContext
    "INSERT INTO api_keys (id, key_hash, hmac_key_id, principal, roles, allowed_cidrs, enabled, expires_at)
		 VALUES ($1, $2, $3, $4, $5, $6, $7, $8)"
    [VText (ID rec); VText (KeyHash rec); VText (HmacKeyID rec); VText (Principal rec);
     array_arg (Some (coalesceStrings (slice_of (Roles rec))));
     array_arg (Some (coalesceStrings (slice_of (AllowedCIDRs rec))));
     VBool (Enabled rec); time_arg (ExpiresAt rec)] db with
  | (Err e, db) => (Err (ErrWrap ("create key " +:+ ID rec) e), db)
  | (Ok _, db) => (Ok (), db)
  end.

Definition listing (msg query : string) (args : list sqlval) (db : DB)
    : result (list KeyRecord) * DB :=
  match QueryContext query args db with
  | (Err e, db) => (Err (ErrWrap msg e), db)
  | (Ok (rows, err), db) => (scanRows [] rows err, db)
  end.

Definition List (db : DB) : result (list KeyRecord) * DB :=
  listing "list keys" (columns +:+ " ORDER BY created_at") [] db.

Definition ListPaged (limit offset : Z) (db : DB) : result (list KeyRecord) * DB :=
  listing "list keys paged" (columns +:+ " ORDER BY created_at LIMIT $1 OFFSET $2")
    [VInt limit; VInt offset] db.

(** The query text grows with the filters; [argN] numbers the placeholders. *)
Definition ListFiltered (limit offset : Z) (principal role : string) (db : DB)
    : result (list KeyRecord) * DB :=
  let '(query, args, argN) := (columns +:+ " WHERE 1=1", [], 1%Z) in
  let '(query, args, argN) :=
    if negb (principal =? "")%go then
      (query +:+ " AND principal = $" +:+ pretty argN, args ++ [VText principal], (argN + 1)%Z)
    else (query, args, argN) in
  let '(query, args, argN) :=
    if negb (role =? "")%go then
      (query +:+ " AND $" +:+ pretty argN +:+ " = ANY(roles)", args ++ [VText role], (argN + 1)%Z)
    else (query, args, argN) in
  let query := query +:+ " ORDER BY created_at LIMIT $" +:+ pretty argN +:+
                 " OFFSET $" +:+ pretty (argN + 1)%Z in
  listing "list keys filtered" query (args ++ [VInt limit; VInt offset]) db.

(** The five updates and the deletion of one key. *)
Definition execOne (msg query : string) (args : list sqlval) (id : string)
    (db : DB) : result unit * DB :=
  match ExecContext query args db with
  | (Err e, db) => (Err (ErrWrap (msg +:+ id) e), db)
  | (Ok res, db) => (checkRowsAffected res id, db)
  end.

Definition SetEnabled (id : string) (enabled : bool) : DB → result unit * DB :=
  execOne "set enabled " "UPDATE api_keys SET enabled = $1, updated_at = NOW() WHERE id = $2"
    [VBool enabled; VText id] id.
Definition SetRoles (id : string) (roles : option (list string))
    : DB → result unit * DB :=
  execOne "set roles " "UPDATE api_keys SET roles = $1, updated_at = NOW() WHERE id = $2"
    [array_arg roles; VText id] id.
Definition SetAllowedCIDRs (id : string) (cidrs : option (list string))
    : DB → result unit * DB :=
  execOne "set allowed_cidrs "
    "UPDATE api_keys SET allowed_cidrs = $1, updated_at = NOW() WHERE id = $2"
    [array_arg cidrs; VText id] id.
Definition UpdateHash (id newHash newHmacKeyID : string) : DB → result unit * DB :=
  execOne "update hash "
    "UPDATE api_keys SET key_hash = $1, hmac_key_id = $2, updated_at = NOW() WHERE id = $3"
    [VText newHash; VText newHmacKeyID; VText id] id.
Definition Delete (id : string) : DB → result unit * DB :=
  execOne "delete key " "DELETE FROM api_keys WHERE id = $1" [VText id] id.
Definition SetExpiresAt (id : string) (expiresAt : option Time)
    : DB → result unit * DB :=
  execOne "set expires_at "
    "UPDATE api_keys SET expires_at = $1, updated_at = NOW() WHERE id = $2"
    [time_arg expiresAt; VText id] id.

Definition DeleteExpired (before : Time) (db : DB) : result Z * DB :=
  match ExecContext
    "DELETE FROM api_keys WHERE expires_at IS NOT NULL AND expires_at < $1" [VTime before] db with
  | (Err e, db) => (Err (ErrWrap "delete expired keys" e), db)
  | (Ok (Err e), db) => (Err (ErrWrap "delete expired rows affected" e), db)
  | (Ok (Ok n), db) => (Ok n, db)
  end.

Definition AuditKeyEvent (ev : KeyEvent) (db : DB) : result unit * DB :=
  match json_Marshal (ke_old ev) with
  | Err e => (Err (ErrWrap "marshal old values" e), db)
  | Ok oldJSON =>
      match json_Marshal (ke_new ev) with
      | Err e => (Err (ErrWrap "marshal new values" e), db)
      | Ok newJSON =>
          match ExecContext
            "INSERT INTO api_keys_audit (key_id, action, changed_by, old_values, new_values)
		 VALUES ($1, $2, $3, $4, $5)"
            [VText (ke_keyID ev); VText (ke_action ev); VText (ke_changedBy ev);
             VBytes oldJSON; VBytes newJSON] db with
          | (Err e, db) => (Err (ErrWrap "audit key event" e), db)
          | (Ok _, db) => (Ok (), db)
          end
      end
  end.
End Store.

(** ** Opening the store

    The calls [NewStore] makes and what they answer.  [m.Up] may say that there is
    nothing to migrate. *)

Inductive dbcall := CallOpen | CallPing | CallMigrate | CallClose.
#[global] Instance dbcall_eq_dec : EqDecision dbcall.
Proof. solve_decision. Defined.

Record opening := mkOpening {
  o_Open : result unit; o_Ping : result unit;
  o_WithInstance : result unit; o_NewWithDatabaseInstance : result unit;
  o_Up : result unit; o_NoChange : gerror → bool;
}.

Definition runMigrations (o : opening) : result unit :=
  _ ← o_WithInstance o;
  _ ← o_NewWithDatabaseInstance o;
  match o_Up o with
  | Err e => if o_NoChange o e then Ok () else Err e
  | Ok _ => Ok ()
  end.

Definition NewStore (migrationsPath : string) (o : opening) : result unit * list dbcall :=
  match o_Open o with
  | Err e => (Err (ErrWrap "open db" e), [CallOpen])
  | Ok _ =>
      match o_Ping o with
      | Err e => (Err (ErrWrap "ping" e), [CallOpen; CallPing; CallClose])
      | Ok _ =>
          if negb (migrationsPath =? "")%go then
            match runMigrations o with
            | Err e => (Err (ErrWrap "migrations" e), [CallOpen; CallPing; CallMigrate; CallClose])
            | Ok _ => (Ok (), [CallOpen; CallPing; CallMigrate])
            end
          else (Ok (), [CallOpen; CallPing])
      end
  end.

End Pg.
