(* ===== verification/PostgresSpec.v ===== *)
(** * The PostgreSQL key store against its contract

    [PostgresSpec] lists what the PostgreSQL manual documents of the statements
    the store of Postgres sends: the syntax of array literals (section 8.15.6), the
    microsecond resolution of timestamptz, primary keys and NOT NULL columns of the
    migrations, the rows a SELECT with WHERE, ORDER BY, LIMIT and OFFSET returns, and
    that a statement that raises an error has no effect.  A connection that is lost
    between the statement and its answer is outside the hypotheses.  Under them the
    store refines the abstract key machine of Store and lists the same pages as the
    memory store; two theorems record inputs on which the stores differ.  The end of
    the file builds a small database that has every documented property. *)

From S2P Require Import Prelude GoStrings Utf8 Store MemoryStore PgArray Postgres.
From Stdlib Require Import Ascii Sorting.Sorted.

(** ** Array literals, as documented *)

Definition special : string := bytes [123; 125; 44; 34; 92]%Z.
Definition white : string := bytes [32; 9; 10; 13; 11; 12]%Z.

(** Quotes and backslashes are escaped by a backslash. *)
Fixpoint escape (s : string) : string :=
  match s with
  | "" => ""
  | String c s' =>
      if Ascii.eqb c quote_char || Ascii.eqb c backslash
      then String backslash (String c (escape s')) else String c (escape s')
  end.
Definition quote (e : string) : string := String quote_char (escape e +:+ String quote_char "").

(** The texts of an element.  [bare] says which elements stand unquoted; an unquoted
    NULL, in any case, is the null element. *)
Inductive element_text (bare : string → Prop) : string → option string → Prop :=
  | el_quoted e : element_text bare (quote e) (Some e)
  | el_bare e : bare e → EqualFold e "NULL" = false → element_text bare e (Some e)
  | el_null e : EqualFold e "NULL" = true → element_text bare e None.

(** Input ignores white space around an unquoted element; output quotes every
    element that is empty or contains white space or a special character. *)
Definition bare_in (e : string) : Prop :=
  e ≠ "" ∧ ContainsAny e special = false ∧ TrimSpace e = e.
Definition bare_out (e : string) : Prop :=
  e ≠ "" ∧ ContainsAny e special = false ∧ ContainsAny e white = false.

Definition array_text (parts : list string) : string := "{" +:+ Join parts "," +:+ "}".

(** ** Tables and statements, as documented *)

Record pgrow := mkPgrow {
  pg_key_hash : string; pg_hmac_key_id : string; pg_principal : string;
  pg_roles : list (option string); pg_allowed_cidrs : list (option string);
  pg_enabled : bool; pg_expires_at : option Time; pg_created_at : Time; pg_updated_at : Time;
}.
Abbreviation Table := (gmap string pgrow).

(** The resolution of timestamptz. *)
Definition micros (t : Time) : Time := (t `div` 1000 * 1000)%Z.

Definition arg_time (v : sqlval) : option Time :=
  match v with VTime t => Some (micros t) | _ => None end.

(** The statements. *)
Definition sql_insert : string :=
  "INSERT INTO api_keys (id, key_hash, hmac_key_id, principal, roles, allowed_cidrs, enabled, expires_at)
		 VALUES ($1, $2, $3, $4, $5, $6, $7, $8)".
Definition sql_enabled : string :=
  "UPDATE api_keys SET enabled = $1, updated_at = NOW() WHERE id = $2".
Definition sql_roles : string :=
  "UPDATE api_keys SET roles = $1, updated_at = NOW() WHERE id = $2".
Definition sql_cidrs : string :=
  "UPDATE api_keys SET allowed_cidrs = $1, updated_at = NOW() WHERE id = $2".
Definition sql_hash : string :=
  "UPDATE api_keys SET key_hash = $1, hmac_key_id = $2, updated_at = NOW() WHERE id = $3".
Definition sql_expires : string :=
  "UPDATE api_keys SET expires_at = $1, updated_at = NOW() WHERE id = $2".
Definition sql_delete : string :=
  "DELETE FROM api_keys WHERE id = $1".
Definition sql_purge : string :=
  "DELETE FROM api_keys WHERE expires_at IS NOT NULL AND expires_at < $1".

(** [expires_at IS NOT NULL AND expires_at < t] *)
Definition past (t : Time) (e : option Time) : bool :=
  match e with None => false | Some e => (e <? t)%Z end.

Section Documented.
Variable array_in : string → option (list (option string)).

(** An argument for a column of type text[] NOT NULL. *)
Definition arg_array (v : sqlval) : option (list (option string)) :=
  match v with VText s => array_in s | _ => None end.

(** UPDATE of the row [id]: no row, a violated constraint, or one row. *)
Definition update_row (id : string) (f : pgrow → option pgrow) (t : Table) : option (Table * Z) :=
  match t !! id with
  | None => Some (t, 0%Z)
  | Some row => row' ← f row; Some (<[id := row']> t, 1%Z)
  end.

(** The meaning of a statement at the server's time [now]: the new table and the
    number of affected rows, or [None] when it violates a constraint. *)
Inductive documented_stmt (now : Time) : string → list sqlval → (Table → option (Table * Z)) → Prop :=
  | doc_insert id h k p roles cidrs b e :
      documented_stmt now
        sql_insert
        [VText id; VText h; VText k; VText p; roles; cidrs; VBool b; e]
        (λ t, match t !! id with
              | Some _ => None
              | None => rl ← arg_array roles; cl ← arg_array cidrs;
                        Some (<[id := mkPgrow h k p rl cl b (arg_time e) (micros now) (micros now)]> t, 1%Z)
              end)
  | doc_enabled b id :
      documented_stmt now sql_enabled
        [VBool b; VText id]
        (update_row id (λ r, Some (mkPgrow (pg_key_hash r) (pg_hmac_key_id r) (pg_principal r) (pg_roles r)
           (pg_allowed_cidrs r) b (pg_expires_at r) (pg_created_at r) (micros now))))
  | doc_roles v id :
      documented_stmt now sql_roles
        [v; VText id]
        (update_row id (λ r, l ← arg_array v;
           Some (mkPgrow (pg_key_hash r) (pg_hmac_key_id r) (pg_principal r) l
           (pg_allowed_cidrs r) (pg_enabled r) (pg_expires_at r) (pg_created_at r) (micros now))))
  | doc_cidrs v id :
      documented_stmt now sql_cidrs
        [v; VText id]
        (update_row id (λ r, l ← arg_array v;
           Some (mkPgrow (pg_key_hash r) (pg_hmac_key_id r) (pg_principal r) (pg_roles r) l
           (pg_enabled r) (pg_expires_at r) (pg_created_at r) (micros now))))
  | doc_hash h k id :
      documented_stmt now
        sql_hash
        [VText h; VText k; VText id]
        (update_row id (λ r, Some (mkPgrow h k (pg_principal r) (pg_roles r)
           (pg_allowed_cidrs r) (pg_enabled r) (pg_expires_at r) (pg_created_at r) (micros now))))
  | doc_expires v id :
      documented_stmt now sql_expires
        [v; VText id]
        (update_row id (λ r, Some (mkPgrow (pg_key_hash r) (pg_hmac_key_id r) (pg_principal r) (pg_roles r)
           (pg_allowed_cidrs r) (pg_enabled r) (arg_time v) (pg_created_at r) (micros now))))
  | doc_delete id :
      documented_stmt now sql_delete [VText id]
        (λ t, Some (delete id t, if decide (is_Some (t !! id)) then 1%Z else 0%Z))
  | doc_purge before :
      documented_stmt now sql_purge
        [VTime before]
        (λ t, let kept := filter (λ kr, past (micros before) (pg_expires_at kr.2) = false) t in
              Some (kept, (Z.of_nat (size t) - Z.of_nat (size kept))%Z)).
End Documented.

(** The selected columns of the store's queries. *)
Definition select : string :=
  "SELECT id, key_hash, hmac_key_id, principal, roles, allowed_cidrs, enabled, expires_at, created_at, updated_at
		 FROM api_keys".

Definition has_principal (p : string) (r : pgrow) : bool := (pg_principal r =? p)%go.
(** [$n = ANY(roles)]; comparing with a null element is not true. *)
Definition has_role (role : string) (r : pgrow) : bool := bool_decide (Some role ∈ pg_roles r).

(** The meaning of a query: the condition on a row, and the LIMIT and OFFSET.  The
    rows of every query but the first are ordered by created_at. *)
Inductive documented_query :
    string → list sqlval → (string → pgrow → bool) → option (Z * Z) → Prop :=
  | doc_by_id id :
      documented_query (select +:+ " WHERE id = $1") [VText id] (λ k _, (k =? id)%go) None
  | doc_all :
      documented_query (select +:+ " ORDER BY created_at") [] (λ _ _, true) None
  | doc_paged l o :
      documented_query (select +:+ " ORDER BY created_at LIMIT $1 OFFSET $2")
        [VInt l; VInt o] (λ _ _, true) (Some (l, o))
  | doc_filtered l o :
      documented_query (select +:+ " WHERE 1=1 ORDER BY created_at LIMIT $1 OFFSET $2")
        [VInt l; VInt o] (λ _ _, true) (Some (l, o))
  | doc_filtered_p p l o :
      documented_query (select +:+ " WHERE 1=1 AND principal = $1 ORDER BY created_at LIMIT $2 OFFSET $3")
        [VText p; VInt l; VInt o] (λ _, has_principal p) (Some (l, o))
  | doc_filtered_r r l o :
      documented_query (select +:+ " WHERE 1=1 AND $1 = ANY(roles) ORDER BY created_at LIMIT $2 OFFSET $3")
        [VText r; VInt l; VInt o] (λ _, has_role r) (Some (l, o))
  | doc_filtered_pr p r l o :
      documented_query
        (select +:+ " WHERE 1=1 AND principal = $1 AND $2 = ANY(roles) ORDER BY created_at LIMIT $3 OFFSET $4")
        [VText p; VText r; VInt l; VInt o] (λ _ row, has_principal p row && has_role r row) (Some (l, o)).

(** A negative LIMIT or OFFSET is an error. *)
Definition window {A} (w : option (Z * Z)) (l : list A) : list A :=
  match w with None => l | Some (limit, offset) => take (Z.to_nat limit) (drop (Z.to_nat offset) l) end.
Definition legal_window (w : option (Z * Z)) : Prop :=
  match w with None => True | Some (limit, offset) => (0 ≤ limit ∧ 0 ≤ offset)%Z end.

Definition audit_insert : string :=
  "INSERT INTO api_keys_audit (key_id, action, changed_by, old_values, new_values)
		 VALUES ($1, $2, $3, $4, $5)".

Definition older (a b : string * pgrow) : Prop := (pg_created_at a.2 ≤ pg_created_at b.2)%Z.

(** What the driver delivers for a row; arrays come as text. *)
Definition keyrow_of (array_out : list (option string) → string) (kr : string * pgrow) : keyrow :=
  mkKeyrow kr.1 (pg_key_hash kr.2) (pg_hmac_key_id kr.2) (pg_principal kr.2)
    (DBString (array_out (pg_roles kr.2))) (DBString (array_out (pg_allowed_cidrs kr.2)))
    (pg_enabled kr.2) (pg_expires_at kr.2) (pg_created_at kr.2) (pg_updated_at kr.2).

Class PostgresSpec (DB : Type) `{Database DB} := {
  table : DB → Table;
  audit_table : DB → list (list sqlval);
  clock : DB → Time;
  array_in : string → option (list (option string));
  array_out : list (option string) → string;
  array_in_spec parts elems :
    Forall2 (element_text bare_in) parts elems → array_in (array_text parts) = Some elems;
  array_out_spec elems :
    ∃ parts, Forall2 (element_text bare_out) parts elems ∧ array_out elems = array_text parts;
  exec_ok q args F db n db' :
    documented_stmt array_in (clock db) q args F → ExecContext q args db = (Ok n, db') →
    audit_table db' = audit_table db ∧ ∃ k, F (table db) = Some (table db', k) ∧ n = Ok k;
  exec_audit args db n db' :
    ExecContext audit_insert args db = (Ok n, db') →
    table db' = table db ∧ audit_table db' = audit_table db ++ [args];
  exec_err q args db e db' :
    ExecContext q args db = (Err e, db') →
    table db' = table db ∧ audit_table db' = audit_table db ∧ errors_Is e ErrKeyNotFound = false;
  query_spec q args P w db r db' :
    documented_query q args P w → QueryContext q args db = (r, db') →
    table db' = table db ∧ audit_table db' = audit_table db ∧
    ∀ rows err, r = Ok (rows, err) → legal_window w ∧
      ∃ l, l ≡ₚ filter (λ kr, P kr.1 kr.2 = true) (map_to_list (table db)) ∧
        StronglySorted older l ∧
        let all := keyrow_of array_out <$> window w l in
        rows `prefix_of` all ∧ (err = None → rows = all);
}.

(** ** Lemmas: reading and writing arrays *)

Lemma ploop_escape e st :
  inQuote st = true → escaped st = false →
  ploop (escape e) st = Ok (mkPstate (p_result st) (current st +:+ e) true false (quoted st)).
Proof.
  revert st. induction e as [|c e IH]; intros st Hq He; cbn [escape].
  { rewrite sapp_nil_r. destruct st; cbn in *; by subst. }
  assert (∀ s, ploop s (addByte c st) = ploop s (mkPstate (p_result st) (current st +:+ String c "") true
    false (quoted st))) as Hadd by (intros; unfold addByte; by rewrite Hq).
  destruct (Ascii.eqb c quote_char || Ascii.eqb c backslash) eqn:Ec.
  - assert (pstep backslash st = Ok (mkPstate (p_result st) (current st) true true (quoted st))) as Hb
      by (unfold pstep; by rewrite He, Hq).
    cbn [ploop]. rewrite Hb. cbn [mbind result_bind]. unfold pstep. cbn [escaped mbind result_bind].
    unfold addByte. cbn [p_result current inQuote quoted]. rewrite IH by done. cbn [p_result current quoted].
    by rewrite sapp_assoc.
  - apply orb_false_iff in Ec as [E1 E2]. cbn [ploop]. unfold pstep. rewrite He, E1, E2, Hq.
    rewrite andb_false_r. cbn [mbind result_bind]. rewrite Hadd, IH by done.
    cbn [p_result current quoted]. by rewrite sapp_assoc.
Qed.

Lemma ploop_quote e acc :
  ploop (quote e) (mkPstate acc "" false false false) = Ok (mkPstate acc e false false true).
Proof.
  unfold quote. cbn [ploop].
  change (pstep quote_char (mkPstate acc "" false false false)) with (Ok (mkPstate acc "" true false true)).
  cbn [mbind result_bind]. by rewrite ploop_app, ploop_escape.
Qed.

Lemma reads_quote e : reads_as (quote e) e.
Proof. split; [done|]. intros acc. by rewrite ploop_quote. Qed.

Lemma special_plain e : ContainsAny e special = false → all_plain false e = true.
Proof.
  induction e as [|c e IH]; [done|]. cbn [ContainsAny all_plain].
  intros [H1 H2]%orb_false_iff. rewrite (IH H2), andb_true_r.
  change (Ascii.eqb c lbrace || (Ascii.eqb c rbrace || (Ascii.eqb c comma ||
    (Ascii.eqb c quote_char || (Ascii.eqb c backslash || false)))) = false) in H1.
  apply orb_false_iff in H1 as [_ [_ [Hc [Hq [Hb _]%orb_false_iff]%orb_false_iff]%orb_false_iff
    ]%orb_false_iff].
  unfold plain. by rewrite Hc, Hq, Hb.
Qed.

Lemma ploop_bare e acc :
  ContainsAny e special = false →
  ploop e (mkPstate acc "" false false false) = Ok (mkPstate acc e false false false).
Proof. intros He. by rewrite (ploop_plain false) by (done || by apply special_plain). Qed.

Lemma white_three e :
  ContainsAny e white = false → ContainsAny e (bytes [32; 9; 10]%Z) = false.
Proof.
  induction e as [|c e IH]; [done|]. cbn [ContainsAny]. intros [H1 H2]%orb_false_iff.
  rewrite (IH H2), orb_false_r. cbn in H1 |- *.
  repeat (apply orb_false_iff in H1 as [? H1]). repeat (apply orb_false_iff; split); done.
Qed.

Lemma bare_out_unquoted e : bare_out e → needsQuote e = false.
Proof.
  intros (Hne & Hs & Hw). unfold needsQuote. rewrite (white_three _ Hw), orb_false_r.
  apply orb_false_iff. split; [by apply String.eqb_neq|exact Hs].
Qed.

(** What the server prints for a storable element is read back by the store. *)
Lemma reads_out part e :
  element_text bare_out part (Some e) → PgArray.storable e = true → reads_as part e.
Proof.
  intros Ht. inversion Ht as [|e' Hb Hn|]; subst; [intros; apply reads_quote|].
  unfold PgArray.storable. rewrite bare_out_unquoted by done.
  intros [Htr%String.eqb_eq _]%andb_true_iff. destruct Hb as (Hne & Hs & _). split; [done|].
  intros acc. rewrite ploop_bare by done. cbn [mbind result_bind]. unfold flush.
  cbn [quoted current p_result inQuote escaped]. by rewrite Htr, Hn.
Qed.

Lemma escape_plain s t : all_plain true s = true → escape (s +:+ t) = s +:+ escape t.
Proof.
  induction s as [|c s IH]; [done|]. cbn [all_plain]. intros [Hc Hs]%andb_true_iff.
  cbn [String.append escape]. unfold plain in Hc.
  apply andb_true_iff in Hc as [[H1%negb_true_iff H2%negb_true_iff]%andb_true_iff _].
  rewrite H1, H2. cbn. by rewrite IH.
Qed.

(** On valid UTF-8 the store's quoting is the documented one. *)
Lemma quoteArrayElement_quote e :
  needsQuote e = true → ValidString e = true → quoteArrayElement e = quote e.
Proof.
  intros Hq Hv. unfold quoteArrayElement, quote. rewrite Hq. f_equal. clear Hq.
  pattern e. apply valid_string_ind; [done| |exact Hv]. clear e Hv.
  intros c s1 r rest Hd _ IH. rewrite (range_runes_cons _ _ _ _ _ Hd). cbn [foldr]. rewrite IH.
  pose proof (decode_encode _ _ _ _ Hd) as He. pose proof (decode_nonneg _ _ _ _ Hd) as H0.
  rewrite <- He. unfold quoteRune.
  destruct (Z.eqb_spec r 34) as [->|H1]; [done|]. destruct (Z.eqb_spec r 92) as [->|H2]; [done|].
  cbn [orb]. rewrite escape_plain by (by apply encode_rune_plain). cbn [String.append].
  by rewrite !sapp_assoc.
Qed.

(** What the store writes for a storable element denotes the element. *)
Lemma storable_text e :
  PgArray.storable e = true → element_text bare_in (quoteArrayElement e) (Some e).
Proof.
  unfold PgArray.storable. destruct (needsQuote e) eqn:Hq.
  - intros Hv. rewrite quoteArrayElement_quote by done. constructor.
  - intros [Ht%String.eqb_eq Hn%negb_true_iff]%andb_true_iff. unfold quoteArrayElement. rewrite Hq.
    constructor; [|done]. unfold needsQuote in Hq.
    apply orb_false_iff in Hq as [[?%String.eqb_neq ?]%orb_false_iff _]. done.
Qed.

Lemma element_not_nil bare part o :
  (∀ e, bare e → e ≠ "") → element_text bare part o → part ≠ "".
Proof. intros Hb. destruct 1 as [e|e He _|e He]; [done|by apply Hb|by intros ->]. Qed.

(** After any element the parser is outside quotes; at a null element it stops. *)
Lemma ploop_element_text part o acc :
  element_text bare_out part o →
  ∃ st, ploop part (mkPstate acc "" false false false) = Ok st ∧ inQuote st = false ∧
        escaped st = false ∧ (o = None → is_Ok (flush st) = false) ∧
        (∀ st', flush st = Ok st' → ∃ acc', st' = mkPstate acc' "" false false false).
Proof.
  assert (∀ cur q st', flush (mkPstate acc cur false false q) = Ok st' →
    ∃ acc', st' = mkPstate acc' "" false false false) as Hfl.
  { intros cur q st'. unfold flush. cbn. repeat split_if; intros; simplify_eq; eauto. }
  destruct 1 as [e|e (_ & Hs & _) _|e He].
  - exists (mkPstate acc e false false true). rewrite ploop_quote. split_and!; try done. apply Hfl.
  - exists (mkPstate acc e false false false). rewrite ploop_bare by done. split_and!; try done. apply Hfl.
  - destruct (EqualFold_NULL e He) as [Hq Ht]. exists (mkPstate acc e false false false).
    rewrite (ploop_plain false) by (done || by apply needsQuote_plain).
    split_and!; try done; [|apply Hfl]. intros _. unfold flush.
    cbn [quoted current p_result inQuote escaped String.append]. by rewrite Ht, He.
Qed.

Lemma Scan_null parts elems :
  Forall2 (element_text bare_out) parts elems → None ∈ elems →
  is_Ok (Scan_text (array_text parts)) = false.
Proof.
  intros Hf Hin. assert (∀ acc, is_Ok (st ← ploop (Join parts ",") (mkPstate acc "" false false false);
    flush st) = false) as Hp.
  { induction Hf as [|p o parts elems Ht Hf IH]; intros acc; [by apply elem_of_nil in Hin|].
    destruct (ploop_element_text p o acc Ht) as (st & E & Hq & He & Hnone & Hok).
    destruct parts as [|p' parts].
    - change (Join [p] ",") with p. rewrite E. cbn [mbind result_bind]. inversion Hf; subst.
      apply elem_of_cons in Hin as [<-|Hin]; [by apply Hnone|by apply elem_of_nil in Hin].
    - rewrite Join_cons2, ploop_app, E. cbn [mbind result_bind]. rewrite ploop_comma by done.
      apply elem_of_cons in Hin as [<-|Hin].
      { specialize (Hnone eq_refl). by destruct (flush st). }
      destruct (flush st) as [st'|]; [|done]. destruct (Hok st' eq_refl) as [acc' ->]. by apply IH. }
  destruct parts as [|p parts]; [by inversion Hf; subst; apply elem_of_nil in Hin|].
  unfold array_text. rewrite Scan_parse.
  2:{ apply Join_not_nil. inversion Hf; subst. eapply element_not_nil; [|done]. by intros e []. }
  specialize (Hp []). unfold parseArrayElements, pinit.
  destruct (ploop _ _) as [st|]; [|done]. cbn [mbind result_bind] in *. by destruct (flush st).
Qed.

(** ** The keys of a database *)

#[export] Instance Pg_KeyStore `{Database DB} : KeyStore DB := {| GetByID := Pg.GetByID |}.

(** The server stamps the records, so the caller's time is not used. *)
#[export] Instance Pg_KeyManager `{Database DB} `{AuditJSON} : KeyManager DB unit := {|
  Create := λ _, Pg.Create;
  List := λ _, Pg.List;
  ListPaged := λ _, Pg.ListPaged;
  ListFiltered := λ _, Pg.ListFiltered;
  SetEnabled := λ _, Pg.SetEnabled;
  SetRoles := λ _, Pg.SetRoles;
  SetAllowedCIDRs := λ _, Pg.SetAllowedCIDRs;
  UpdateHash := λ _, Pg.UpdateHash;
  Delete := Pg.Delete;
  DeleteExpired := Pg.DeleteExpired;
  SetExpiresAt := λ _, Pg.SetExpiresAt;
  AuditKeyEvent := Pg.AuditKeyEvent;
|}.

Definition pg_storable (e : string) : Prop := PgArray.storable e = true.

Section Keys.
Context {DB : Type} `{PostgresSpec DB}.

(** The texts the store reads from an array column, if it can read it. *)
Definition decode_array (l : list (option string)) : list string :=
  match Scan_text (array_out l) with Ok (Some l') => l' | _ => omap id l end.

Definition record_of (id : string) (r : pgrow) : KeyRecord :=
  mkKeyRecord id (pg_key_hash r) (pg_hmac_key_id r) (pg_principal r) (decode_array (pg_roles r))
    (decode_array (pg_allowed_cidrs r)) (pg_enabled r) (pg_expires_at r) (pg_created_at r) (pg_updated_at r).

Definition pg_keys (db : DB) : gmap string KeyRecord :=
  map_imap (λ id r, Some (record_of id r)) (table db).

Lemma pg_keys_lookup db id : pg_keys db !! id = record_of id <$> table db !! id.
Proof. unfold pg_keys. rewrite map_lookup_imap. by destruct (table db !! id). Qed.

Lemma pg_keys_same db db' : table db' = table db → pg_keys db' = pg_keys db.
Proof. unfold pg_keys. by intros ->. Qed.

Lemma decode_array_storable l : Forall pg_storable l → decode_array (Some <$> l) = l.
Proof.
  intros Hl. unfold decode_array. destruct (array_out_spec (Some <$> l)) as (parts & Hf & ->).
  unfold array_text. rewrite (Scan_parts parts l); [done|].
  clear -Hf Hl. revert parts Hf. induction Hl as [|e l He Hl IH]; intros parts Hf;
    inversion Hf; subst; constructor; [by apply reads_out|by apply IH].
Qed.

Lemma array_arg_storable l :
  Forall pg_storable l → arg_array array_in (Pg.array_arg (Some l)) = Some (Some <$> l).
Proof.
  intros Hl. cbn. apply array_in_spec. rewrite Forall2_fmap.
  induction Hl; constructor; [by apply storable_text|done].
Qed.

(** A written array is read back when the store can hold its elements. *)
Lemma written_held a rl :
  arg_array array_in (Pg.array_arg a) = Some rl → held pg_storable (default [] a) (decode_array rl).
Proof.
  intros Ha Hl. destruct a as [l|]; [|done]. rewrite array_arg_storable in Ha by done.
  injection Ha as <-. by apply decode_array_storable.
Qed.

Lemma scanRow_record kr r : Pg.scanRow (keyrow_of array_out kr) = Ok r → r = record_of kr.1 kr.2.
Proof.
  unfold Pg.scanRow, record_of, decode_array. cbn [c_roles c_allowed_cidrs keyrow_of Scan].
  intros (roles & Hr & (cidrs & Hc & [= <-])%bind_Ok)%bind_Ok. rewrite Hr, Hc. cbn.
  assert (∀ l a, Scan_text (array_out l) = Ok a → is_Some a) as Hsome.
  { intros l a. unfold Scan_text. repeat split_if; intros Hq; simplify_eq; [by eexists|].
    apply bind_Ok in Hq as (es & _ & [= <-]). by eexists. }
  destruct (Hsome _ _ Hr) as [? ->]. by destruct (Hsome _ _ Hc) as [? ->].
Qed.

Lemma scanRows_Ok acc rows err l :
  Pg.scanRows acc rows err = Ok l ↔
  err = None ∧ ∃ l', Forall2 (λ row r, Pg.scanRow row = Ok r) rows l' ∧ l = acc ++ l'.
Proof.
  revert acc. induction rows as [|row rows IH]; intros acc; cbn [Pg.scanRows].
  - destruct err; [naive_solver|]. split.
    + intros [= <-]. split; [done|]. exists []. by rewrite app_nil_r.
    + intros (_ & l' & Hf & ->). inversion Hf. by rewrite app_nil_r.
  - destruct (Pg.scanRow row) as [r|e] eqn:E.
    + rewrite IH. split; intros (-> & l' & Hf & ->); (split; [done|]).
      * exists (r :: l'). split; [by constructor|]. by rewrite <- app_assoc.
      * inversion Hf as [|? r' ? l'' Hr Hl]; subst. rewrite E in Hr. injection Hr as <-.
        exists l''. split; [done|]. by rewrite <- app_assoc.
    + split; [done|]. intros (_ & l' & Hf & _). inversion Hf. congruence.
Qed.

(** The answers of the three listings. *)
Lemma listing_records msg q args P w db o db' :
  documented_query q args P w → Pg.listing msg q args db = (o, db') →
  table db' = table db ∧ ∀ l, o = Ok l → legal_window w ∧
    ∃ L, L ≡ₚ filter (λ kr, P kr.1 kr.2 = true) (map_to_list (table db)) ∧ StronglySorted older L ∧
      l = (λ kr, record_of kr.1 kr.2) <$> window w L ∧
      Forall (λ kr, is_Ok (Pg.scanRow (keyrow_of array_out kr)) = true) (window w L).
Proof.
  intros Hq. unfold Pg.listing. destruct (QueryContext q args db) as [r db1] eqn:E.
  destruct (query_spec _ _ _ _ _ _ _ Hq E) as (Ht & _ & Hr). destruct r as [[rows err]|e].
  2:{ intros [= <- <-]. done. }
  intros [= <- <-]. split; [done|]. intros l (-> & l' & Hf & ->)%scanRows_Ok.
  destruct (Hr rows None eq_refl) as (Hw & L & HL & Hs & _ & Hrows). split; [done|].
  exists L. split; [done|]. split; [done|]. rewrite (Hrows eq_refl) in Hf. clear -Hf.
  cbn [app]. revert l' Hf. induction (window w L) as [|kr W IH]; intros l' Hf;
    inversion Hf as [|? r ? l'' Hr Hl]; subst; [done|].
  destruct (IH _ Hl) as [IH1 IH2]. rewrite (scanRow_record _ _ Hr). cbn.
  split; [by f_equal|]. constructor; [exact (f_equal is_Ok Hr)|done].
Qed.

Lemma window_elem {A} w (x : A) (l : list A) : x ∈ window w l → x ∈ l.
Proof.
  destruct w as [[lim off]|]; [|done]. cbn. intros Hin. eapply elem_of_submseteq; [done|].
  etrans; [apply sublist_submseteq, sublist_take|]. apply sublist_submseteq, sublist_drop.
Qed.

Lemma listing_stored P w L db :
  L ≡ₚ filter (λ kr, P kr.1 kr.2 = true) (map_to_list (table db)) →
  Forall (λ k, ∃ id, pg_keys db !! id = Some k) ((λ kr, record_of kr.1 kr.2) <$> window w L).
Proof.
  intros HL. apply Forall_fmap, Forall_forall. intros kr Hkr.
  assert (kr ∈ L) as Hin by (by apply (window_elem w)).
  rewrite HL, list_elem_of_filter in Hin. destruct kr as [id r].
  destruct Hin as [_ Hin%elem_of_map_to_list]. exists id. by rewrite pg_keys_lookup, Hin.
Qed.

Lemma window_length {A} limit offset (l : list A) :
  legal_window (Some (limit, offset)) → (Z.of_nat (length (window (Some (limit, offset)) l)) ≤ Z.max 0 limit)%Z.
Proof. cbn. intros [??]. rewrite length_take. lia. Qed.
End Keys.

(** The text and the meaning of a filtered query. *)
Definition filter_row (principal role : string) (r : pgrow) : bool :=
  ((principal =? "")%go || has_principal principal r) && ((role =? "")%go || has_role role r).

Lemma ListFiltered_query `{Database DB} limit offset principal role (db : DB) :
  ∃ q args P, Pg.ListFiltered limit offset principal role db = Pg.listing "list keys filtered" q args db ∧
    documented_query q args P (Some (limit, offset)) ∧ ∀ id r, P id r = filter_row principal role r.
Proof.
  unfold Pg.ListFiltered, filter_row.
  destruct (principal =? "")%go, (role =? "")%go; cbn [negb orb andb app].
  - do 3 eexists. split; [done|]. split; [apply (doc_filtered limit offset)|done].
  - do 3 eexists. split; [done|]. split; [apply (doc_filtered_r role limit offset)|done].
  - do 3 eexists. split; [done|]. split; [apply (doc_filtered_p principal limit offset)|].
    intros. by rewrite andb_true_r.
  - do 3 eexists. split; [done|]. split; [apply (doc_filtered_pr principal role limit offset)|done].
Qed.

(** ** The store meets its contract *)

Section Contract.
Context {DB : Type} `{PostgresSpec DB} `{AuditJSON}.

Lemma pg_GetByID_spec id (db : DB) o db' :
  Pg.GetByID id db = (o, db') → pg_keys db' = pg_keys db ∧ ∀ r, o = Ok r → r = pg_keys db !! id.
Proof.
  unfold Pg.GetByID. destruct (QueryContext _ _ db) as [r db1] eqn:E.
  destruct (query_spec _ _ _ _ _ _ _ (doc_by_id id) E) as (Ht & _ & Hr).
  assert (∀ kr, kr ∈ filter (λ kr, (kr.1 =? id)%go = true) (map_to_list (table db)) ↔
    kr.1 = id ∧ table db !! id = Some kr.2) as Hin.
  { intros [k row]. rewrite list_elem_of_filter, elem_of_map_to_list, String.eqb_eq. cbn. naive_solver. }
  destruct r as [[[|row rows] err]|e].
  - destruct (Hr [] err eq_refl) as (_ & L & HL & _ & _ & Hrows).
    destruct err as [e|]; intros [= <- <-]; (split; [by apply pg_keys_same|]); [done|].
    intros r [= <-]. rewrite pg_keys_lookup. destruct (table db !! id) as [row|] eqn:Et; [|done].
    exfalso. specialize (Hrows eq_refl). destruct L as [|kr L]; [|done].
    apply (not_elem_of_nil (id, row)). rewrite HL. by apply Hin.
  - destruct (Hr (row :: rows) err eq_refl) as (_ & L & HL & _ & Hpre & _).
    destruct L as [|kr L]; [by apply prefix_nil_inv in Hpre|].
    apply prefix_cons_inv_1 in Hpre as ->.
    assert (kr ∈ filter (λ kr, (kr.1 =? id)%go = true) (map_to_list (table db))) as Hk.
    { rewrite <- HL. constructor. }
    apply Hin in Hk as [Hid Hrow].
    destruct (Pg.scanRow _) as [rec|e] eqn:Es, err as [e'|]; intros [= <- <-];
      (split; [by apply pg_keys_same|]); try done.
    intros r [= <-]. rewrite (scanRow_record _ _ Es), pg_keys_lookup, Hrow, Hid. done.
  - intros [= <- <-]. split; [by apply pg_keys_same|done].
Qed.

Lemma slice_of_coalesce l : Pg.coalesceStrings (Pg.slice_of l) = l.
Proof. by destruct l. Qed.

Lemma pg_Create_spec rec (db : DB) o db' :
  Pg.Create rec db = (o, db') →
  match o with
  | Ok _ => pg_keys db !! ID rec = None ∧
            ∃ rec', same_key pg_storable micros rec rec' ∧ pg_keys db' = <[ID rec := rec']> (pg_keys db)
  | Err _ => pg_keys db' = pg_keys db
  end.
Proof.
  unfold Pg.Create. rewrite !slice_of_coalesce. destruct (ExecContext _ _ db) as [[n|e] db1] eqn:E.
  2:{ intros [= <- <-]. apply pg_keys_same. by destruct (exec_err _ _ _ _ _ E). }
  intros [= <- <-]. destruct (exec_ok _ _ _ _ _ _ (doc_insert _ _ _ _ _ _ _ _ _ _) E) as (_ & k & HF & _).
  rewrite pg_keys_lookup. destruct (table db !! ID rec) eqn:Et; [done|]. split; [done|].
  destruct (arg_array _ (Pg.array_arg (Some (Roles rec)))) as [rl|] eqn:Er; [|done].
  destruct (arg_array _ (Pg.array_arg (Some (AllowedCIDRs rec)))) as [cl|] eqn:Ec; [|done].
  cbn [mbind option_bind] in HF. injection HF as HF _.
  eexists (record_of (ID rec) _). split.
  2:{ apply map_eq. intros j. rewrite pg_keys_lookup, <- HF.
      destruct (decide (j = ID rec)) as [->|Hj]; [by rewrite !lookup_insert_eq|].
      by rewrite !lookup_insert_ne, pg_keys_lookup by done. }
  unfold same_key, record_of. cbn. split_and!; try done.
  - by apply (written_held (Some (Roles rec))).
  - by apply (written_held (Some (AllowedCIDRs rec))).
  - by destruct (ExpiresAt rec).
Qed.

(** The five updates, from the meaning of their statements. *)
Lemma pg_update_spec (g : KeyRecord → KeyRecord) f msg q args id (db : DB) o db' :
  documented_stmt array_in (clock db) q args (update_row id f) →
  (∀ row row', f row = Some row' → record_of id row' = g (record_of id row)) →
  Pg.execOne msg q args id db = (o, db') →
  update_spec g id (pg_keys db) o (pg_keys db').
Proof.
  intros Hd Hg. unfold Pg.execOne. destruct (ExecContext q args db) as [[n|e] db1] eqn:E.
  2:{ destruct (exec_err _ _ _ _ _ E) as (Ht & _ & He). intros [= <- <-]. cbn.
      split; [by apply pg_keys_same|]. rewrite He. by case_bool_decide. }
  destruct (exec_ok _ _ _ _ _ _ Hd E) as (_ & k & HF & ->). intros [= <- <-]. unfold update_row in HF.
  destruct (table db !! id) as [row|] eqn:Et.
  - destruct (f row) as [row'|] eqn:Ef; [|done]. injection HF as HF <-. cbn. rewrite pg_keys_lookup, Et.
    split; [done|]. apply map_eq. intros j. rewrite pg_keys_lookup, <- HF, lookup_alter, lookup_insert.
    case_decide as Hj; rewrite pg_keys_lookup; [|done]. subst j. rewrite Et. cbn. f_equal. by apply Hg.
  - injection HF as HF <-. cbn. split; [by apply pg_keys_same|]. by rewrite pg_keys_lookup, Et.
Qed.

Lemma pg_array_update (set : list string → Time → KeyRecord → KeyRecord) (setrow : list (option string) → pgrow → pgrow)
    msg q id (l : option (list string)) (db : DB) o db' :
  documented_stmt array_in (clock db) q [Pg.array_arg l; VText id]
    (update_row id (λ r, rl ← arg_array array_in (Pg.array_arg l); Some (setrow rl r))) →
  (∀ rl row, record_of id (setrow rl row) = set (decode_array rl) (micros (clock db)) (record_of id row)) →
  Pg.execOne msg q [Pg.array_arg l; VText id] id db = (o, db') →
  ∃ t l', held pg_storable (default [] l) l' ∧ update_spec (set l' t) id (pg_keys db) o (pg_keys db').
Proof.
  intros Hd Hset Ho. exists (micros (clock db)).
  destruct (arg_array array_in (Pg.array_arg l)) as [rl|] eqn:Ea.
  - exists (decode_array rl). split; [by apply written_held|].
    eapply pg_update_spec; [exact Hd| |done]. cbn. intros row row' [= <-]. apply Hset.
  - exists (default [] l). split; [by intros|].
    eapply pg_update_spec; [exact Hd|done|done].
Qed.

Lemma pg_SetRoles_spec id l (db : DB) o db' :
  Pg.SetRoles id l db = (o, db') →
  ∃ t l', held pg_storable (default [] l) l' ∧ update_spec (set_Roles l' t) id (pg_keys db) o (pg_keys db').
Proof. intros Ho. by eapply pg_array_update; [apply doc_roles| |exact Ho]. Qed.

Lemma pg_SetAllowedCIDRs_spec id l (db : DB) o db' :
  Pg.SetAllowedCIDRs id l db = (o, db') →
  ∃ t l', held pg_storable (default [] l) l' ∧ update_spec (set_AllowedCIDRs l' t) id (pg_keys db) o (pg_keys db').
Proof. intros Ho. by eapply pg_array_update; [apply doc_cidrs| |exact Ho]. Qed.

Lemma pg_Delete_spec id (db : DB) o db' :
  Pg.Delete id db = (o, db') →
  match o with
  | Ok _ => is_Some (pg_keys db !! id) ∧ pg_keys db' = delete id (pg_keys db)
  | Err e => pg_keys db' = pg_keys db ∧ (errors_Is e ErrKeyNotFound = true → pg_keys db !! id = None)
  end.
Proof.
  unfold Pg.Delete, Pg.execOne. destruct (ExecContext _ _ db) as [[n|e] db1] eqn:E.
  2:{ destruct (exec_err _ _ _ _ _ E) as (Ht & _ & He). intros [= <- <-]. cbn.
      split; [by apply pg_keys_same|]. rewrite He. by case_bool_decide. }
  destruct (exec_ok _ _ _ _ _ _ (doc_delete _ _ id) E) as (_ & k & [= HF <-] & ->). intros [= <- <-].
  rewrite pg_keys_lookup. destruct (table db !! id) as [row|] eqn:Et; cbn.
  - split; [done|]. apply map_eq. intros j.
    rewrite pg_keys_lookup, <- HF. destruct (decide (j = id)) as [->|Hj]; [by rewrite !lookup_delete_eq|].
    by rewrite !lookup_delete_ne, pg_keys_lookup by done.
  - split; [|done]. apply pg_keys_same. by rewrite <- HF, delete_id.
Qed.

Lemma pg_keys_size (db : DB) : size (pg_keys db) = size (table db).
Proof.
  rewrite <- !size_dom. f_equal. apply set_eq. intros id.
  rewrite !elem_of_dom, pg_keys_lookup. by rewrite fmap_is_Some.
Qed.

Lemma pg_DeleteExpired_spec before (db : DB) o db' :
  Pg.DeleteExpired before db = (o, db') →
  match o with
  | Ok n => pg_keys db' = filter (λ kr, expired (micros before) kr.2 = false) (pg_keys db) ∧
            n = (Z.of_nat (size (pg_keys db)) - Z.of_nat (size (pg_keys db')))%Z
  | Err _ => pg_keys db' = pg_keys db
  end.
Proof.
  unfold Pg.DeleteExpired. destruct (ExecContext _ _ db) as [[n|e] db1] eqn:E.
  2:{ intros [= <- <-]. apply pg_keys_same. by destruct (exec_err _ _ _ _ _ E). }
  destruct (exec_ok _ _ _ _ _ _ (doc_purge _ _ before) E) as (_ & k & [= HF <-] & ->). intros [= <- <-].
  rewrite !pg_keys_size. split; [|by rewrite HF]. apply map_eq. intros j.
  rewrite map_lookup_filter, !pg_keys_lookup, <- HF, map_lookup_filter.
  destruct (table db !! j) as [row|]; [|done]. cbn. unfold expired, past, time_Before. cbn.
  destruct (pg_expires_at row) as [t|]; cbn; by repeat case_guard.
Qed.

Lemma pg_AuditKeyEvent_spec ev (db : DB) o db' :
  Pg.AuditKeyEvent ev db = (o, db') → pg_keys db' = pg_keys db.
Proof.
  unfold Pg.AuditKeyEvent. repeat (destruct (json_Marshal _); [|by intros [= <- <-]]).
  destruct (ExecContext _ _ db) as [[n|e] db1] eqn:E; intros [= <- <-]; apply pg_keys_same.
  - by destruct (exec_audit _ _ _ _ E).
  - by destruct (exec_err _ _ _ _ _ E).
Qed.

Lemma pg_ListFiltered_spec limit offset p r (db : DB) o db' :
  Pg.ListFiltered limit offset p r db = (o, db') → pg_keys db' = pg_keys db ∧
  ∀ l, o = Ok l → Forall (λ k, ∃ id, pg_keys db !! id = Some k) l ∧
                (Z.of_nat (length l) ≤ Z.max 0 limit)%Z.
Proof.
  destruct (ListFiltered_query limit offset p r db) as (q & args & P & -> & Hd & _). intros Ho.
  destruct (listing_records _ _ _ _ _ _ _ _ Hd Ho) as [Ht Hl].
  split; [by apply pg_keys_same|]. intros l Hol. destruct (Hl l Hol) as (Hw & L & HL & _ & -> & _).
  split; [by eapply listing_stored|]. rewrite length_fmap. by apply window_length.
Qed.

Lemma pg_ListPaged_spec limit offset (db : DB) o db' :
  Pg.ListPaged limit offset db = (o, db') → pg_keys db' = pg_keys db ∧
  ∀ l, o = Ok l → Forall (λ k, ∃ id, pg_keys db !! id = Some k) l ∧
                (Z.of_nat (length l) ≤ Z.max 0 limit)%Z.
Proof.
  intros Ho. destruct (listing_records _ _ _ _ _ _ _ _ (doc_paged limit offset) Ho) as [Ht Hl].
  split; [by apply pg_keys_same|]. intros l Hol. destruct (Hl l Hol) as (Hw & L & HL & _ & -> & _).
  split; [by eapply (listing_stored (λ _ _, true))|]. rewrite length_fmap. by apply window_length.
Qed.

Lemma pg_List_spec (db : DB) o db' :
  Pg.List db = (o, db') → pg_keys db' = pg_keys db ∧
  ∀ l, o = Ok l → Forall (λ k, ∃ id, pg_keys db !! id = Some k) l.
Proof.
  intros Ho. destruct (listing_records _ _ _ _ _ _ _ _ doc_all Ho) as [Ht Hl].
  split; [by apply pg_keys_same|]. intros l Hol. destruct (Hl l Hol) as (Hw & L & HL & _ & -> & _).
  by eapply (listing_stored (λ _ _, true)).
Qed.

#[local] Obligation Tactic := idtac.
#[export] Program Instance Pg_KeyManagerSpec : KeyManagerSpec DB unit :=
  {| keys := pg_keys; Store.storable := pg_storable; stamp := micros |}.
Next Obligation. exact pg_GetByID_spec. Qed.
Next Obligation. intros now. exact pg_Create_spec. Qed.
Next Obligation. intros c. exact pg_List_spec. Qed.
Next Obligation. intros c. exact pg_ListPaged_spec. Qed.
Next Obligation. intros c. exact pg_ListFiltered_spec. Qed.
Next Obligation.
  intros now id b s o s' Ho. exists (micros (clock s)).
  eapply pg_update_spec; [apply doc_enabled| |exact Ho]. by intros row row' [= <-].
Qed.
Next Obligation. intros now. exact pg_SetRoles_spec. Qed.
Next Obligation. intros now. exact pg_SetAllowedCIDRs_spec. Qed.
Next Obligation.
  intros now id h k s o s' Ho. exists (micros (clock s)).
  eapply pg_update_spec; [apply doc_hash| |exact Ho]. by intros row row' [= <-].
Qed.
Next Obligation.
  intros now id e s o s' Ho. exists (micros (clock s)).
  eapply pg_update_spec; [apply doc_expires| |exact Ho]. intros row row' [= <-]. by destruct e.
Qed.
Next Obligation. exact pg_Delete_spec. Qed.
Next Obligation. exact pg_DeleteExpired_spec. Qed.
Next Obligation. exact pg_AuditKeyEvent_spec. Qed.
End Contract.

(** ** Properties *)

Section Properties.
Context {DB : Type} `{PostgresSpec DB} `{AuditJSON}.

(** C19: the PostgreSQL store refines the abstract key machine: whatever calls are
    made, in whatever order and with whatever answers of the database, the answers of
    the store and the keys it then holds are those of a run of the machine on the map
    of keys.  Texts an array cannot hold are the only ones that may come back changed,
    and expiry times keep microseconds. *)
Theorem postgres_refines_machine (calls : list (key_call unit)) (db : DB) :
  key_run pg_storable micros calls (pg_keys db)
    (run_calls calls db).1 (pg_keys (run_calls calls db).2).
Proof.
  exact (run_calls_refine (S := DB) (C := unit) calls db _ _ (surjective_pairing _)).
Qed.

(** *** Listings of both stores *)

(** Every element of the row's roles is read as it is stored. *)
Definition readable (r : pgrow) : Prop := pg_roles r = Some <$> decode_array (pg_roles r).

Lemma pg_keys_to_list (db : DB) :
  map_to_list (pg_keys db) ≡ₚ (λ kr, (kr.1, record_of kr.1 kr.2)) <$> map_to_list (table db).
Proof.
  apply NoDup_Permutation; [apply NoDup_map_to_list| |].
  - apply (NoDup_fmap_1 fst). rewrite <- list_fmap_compose. apply NoDup_fst_map_to_list.
  - intros [id r]. rewrite elem_of_map_to_list, pg_keys_lookup, list_elem_of_fmap. split.
    + intros (row & Hrow & ->)%fmap_Some. exists (id, row). by rewrite elem_of_map_to_list.
    + intros ([id' row] & [= -> ->] & Hrow%elem_of_map_to_list). cbn in Hrow |- *. by rewrite Hrow.
Qed.

Lemma filter_row_matches principal role id (r : pgrow) :
  readable r → filter_row principal role r = Memory.matches principal role (record_of id r).
Proof.
  intros Hr. unfold filter_row, Memory.matches, has_principal, has_role. cbn [Principal Roles record_of].
  assert (bool_decide (Some role ∈ pg_roles r) = existsb (String.eqb role) (decode_array (pg_roles r))) as ->.
  { unfold readable in Hr. remember (decode_array (pg_roles r)) as l eqn:El. clear El.
    apply eq_true_iff_eq. rewrite bool_decide_eq_true, existsb_exists, Hr. setoid_rewrite String.eqb_eq.
    rewrite list_elem_of_fmap. split.
    - intros (y & [= ->] & ?%list_elem_of_In). eauto.
    - intros (y & ?%list_elem_of_In & ->). eauto. }
  destruct (principal =? "")%go, (role =? "")%go, (pg_principal r =? principal)%go; done.
Qed.

Lemma selected_rows principal role (db : DB) L :
  map_Forall (λ _, readable) (table db) →
  L ≡ₚ filter (λ kr, filter_row principal role kr.2 = true) (map_to_list (table db)) →
  (λ kr, record_of kr.1 kr.2) <$> L ≡ₚ Memory.selected principal role (pg_keys db).
Proof.
  intros Hrd ->. unfold Memory.selected. rewrite pg_keys_to_list, <- list_fmap_compose.
  assert (Forall (λ kr, readable kr.2) (map_to_list (table db))) as Hall.
  { apply map_Forall_to_list in Hrd. eapply Forall_impl; [done|]. by intros [id r]. }
  clear Hrd. apply reflexive_eq. induction Hall as [|[id r] l Hr Hall IH]; [done|].
  rewrite filter_cons. cbn [snd fmap list_fmap compose fst]. rewrite filter_cons.
  pose proof (filter_row_matches principal role id r Hr) as Hm. cbn in Hm |- *.
  rewrite Hm. destruct (decide _); [|exact IH]. cbn. f_equal. exact IH.
Qed.

Lemma page_window limit offset (l : list KeyRecord) :
  legal_window (Some (limit, offset)) → Memory.page limit offset l = window (Some (limit, offset)) l.
Proof.
  intros [Hl Ho]. unfold Memory.page. cbn. destruct (Z.leb_spec (Z.of_nat (length l)) offset).
  { by rewrite drop_ge, take_nil by lia. }
  destruct (Z.ltb_spec limit (Z.of_nat (length (drop (Z.to_nat offset) l)))); [done|].
  by rewrite take_ge by lia.
Qed.

Lemma window_fmap {A B} (f : A → B) w l : f <$> window w l = window w (f <$> l).
Proof. destruct w as [[limit offset]|]; [|done]. cbn. by rewrite fmap_take, fmap_drop. Qed.

Lemma older_sorted (L : list (string * pgrow)) :
  StronglySorted older L →
  StronglySorted (λ a b, CreatedAt a ≤ CreatedAt b)%Z ((λ kr, record_of kr.1 kr.2) <$> L).
Proof.
  induction 1 as [|kr L Hs IH Hf]; cbn; constructor; [done|]. apply Forall_fmap.
  eapply Forall_impl; [done|]. by intros kr'.
Qed.

(** C38: the page PostgreSQL answers to a filtered listing is the page the memory
    store answers when it holds the same keys, whatever order it visits them in,
    provided no two of the selected keys have the same creation time and the roles of
    the rows are read as they are stored. *)
Theorem listings_agree ord limit offset principal role (db : DB) l db' :
  map_Forall (λ _, readable) (table db) → Memory.iterates ord (pg_keys db) →
  NoDup (CreatedAt <$> Memory.selected principal role (pg_keys db)) →
  Pg.ListFiltered limit offset principal role db = (Ok l, db') →
  Memory.ListFiltered ord limit offset principal role (pg_keys db) = (Ok l, pg_keys db).
Proof.
  intros Hrd Ho Hnd. destruct (ListFiltered_query limit offset principal role db) as (q & args & P & -> & Hd & HP).
  intros Hq. destruct (listing_records _ _ _ _ _ _ _ _ Hd Hq) as [_ Hl].
  destruct (Hl l eq_refl) as (Hw & L & HL & Hs & -> & _).
  assert (L ≡ₚ filter (λ kr, filter_row principal role kr.2 = true) (map_to_list (table db))) as HL'.
  { rewrite HL. apply reflexive_eq, list_filter_iff. intros kr. by rewrite HP. }
  destruct Hw as [Hw1 Hw2]. rewrite Memory.ListFiltered_listing by done.
  rewrite window_fmap, page_window by done.
  rewrite (Memory.listing_determined ord principal role (pg_keys db) ((λ kr, record_of kr.1 kr.2) <$> L));
    [done..|by apply selected_rows|by apply older_sorted].
Qed.

(** *** Where the stores differ *)

(** Setting the ranges of an existing key to the nil slice, which the admin API
    does for a request without the field, is refused by the database (the column is
    NOT NULL); the memory store clears the ranges. *)
Theorem postgres_nil_cidrs_refused now id (db : DB) m r :
  pg_keys db !! id = Some r → m !! id = Some r →
  is_Ok (Pg.SetAllowedCIDRs id None db).1 = false ∧
  Memory.SetAllowedCIDRs now id None m = (Ok (), <[id := set_AllowedCIDRs [] now r]> m).
Proof.
  rewrite pg_keys_lookup. intros (row & Hrow & _)%fmap_Some Hm. split.
  - unfold Pg.SetAllowedCIDRs, Pg.execOne. destruct (ExecContext _ _ db) as [[n|e] db1] eqn:E; [|done].
    destruct (exec_ok _ _ _ _ _ _ (doc_cidrs _ _ VNull id) E) as (_ & k & HF & _).
    unfold update_row in HF. by rewrite Hrow in HF.
  - unfold Memory.SetAllowedCIDRs, Memory.update. by rewrite Hm.
Qed.

(** How the database reads a written role: NULL in any spelling is the null value. *)
Definition role_stored (x : string) : option string := if EqualFold x "NULL" then None else Some x.

Lemma null_array roles :
  Forall (λ x, pg_storable x ∨ EqualFold x "NULL" = true) roles →
  arg_array array_in (Pg.array_arg (Some roles)) = Some (role_stored <$> roles).
Proof.
  intros Hf. cbn. apply array_in_spec. rewrite Forall2_fmap.
  induction Hf as [|x l Hx Hl IH]; constructor; [|done]. unfold role_stored.
  destruct (EqualFold x "NULL") eqn:En; [|destruct Hx as [Hx|]; [by apply storable_text|done]].
  destruct (EqualFold_NULL x En) as [Hq _]. unfold quoteArrayElement. rewrite Hq. by constructor.
Qed.

Lemma null_unreadable kr : None ∈ pg_roles kr.2 → is_Ok (Pg.scanRow (keyrow_of array_out kr)) = false.
Proof.
  intros Hin. unfold Pg.scanRow. cbn [c_roles keyrow_of Scan].
  destruct (array_out_spec (pg_roles kr.2)) as (parts & Hf & ->).
  pose proof (Scan_null _ _ Hf Hin) as Hs. by destruct (Scan_text _).
Qed.

Lemma GetByID_unreadable id row (db : DB) :
  table db !! id = Some row → None ∈ pg_roles row → is_Ok (Pg.GetByID id db).1 = false.
Proof.
  intros Hrow Hn. unfold Pg.GetByID. destruct (QueryContext _ _ db) as [r db2] eqn:E2.
  destruct (query_spec _ _ _ _ _ _ _ (doc_by_id id) E2) as (_ & _ & Hr).
  assert (∀ kr, kr ∈ filter (λ kr, (kr.1 =? id)%go = true) (map_to_list (table db)) ↔ kr = (id, row)) as Hin.
  { intros [k row']. rewrite list_elem_of_filter, elem_of_map_to_list, String.eqb_eq. cbn. naive_solver. }
  destruct r as [[[|c rows] [e|]]|e]; try done.
  1: { destruct (Hr [] None eq_refl) as (_ & L & HL & _ & _ & Hrows). specialize (Hrows eq_refl).
       destruct L; [|done]. exfalso. apply (not_elem_of_nil (id, row)). rewrite HL. by apply Hin. }
  all: destruct (Hr _ _ eq_refl) as (_ & L & HL & _ & Hpre & _);
    (destruct L as [|kr L]; [by apply prefix_nil_inv in Hpre|]);
    apply prefix_cons_inv_1 in Hpre as ->;
    (assert (kr = (id, row)) as -> by (apply Hin; rewrite <- HL; constructor));
    pose proof (null_unreadable (id, row) Hn) as Hs; by destruct (Pg.scanRow _).
Qed.

(** A listing that succeeds does not contain an unreadable row, so one that selects the
    row and has room for every row fails. *)
Lemma listing_excludes msg q args P w id row (db : DB) l db' :
  documented_query q args P w → Pg.listing msg q args db = (Ok l, db') →
  table db !! id = Some row → None ∈ pg_roles row →
  id ∉ ID <$> l ∧
  (P id row = true → (∀ L : list (string * pgrow), length L ≤ size (table db) → window w L = L) → False).
Proof.
  intros Hd Hq Hrow Hn. destruct (listing_records _ _ _ _ _ _ _ _ Hd Hq) as [_ Hl].
  destruct (Hl l eq_refl) as (_ & L & HL & _ & -> & Hok). rewrite Forall_forall in Hok.
  assert ((id, row) ∉ window w L) as Hnin.
  { intros Hin. specialize (Hok _ Hin). cbn beta in Hok. by rewrite null_unreadable in Hok. }
  split.
  - intros (? & -> & ([k r] & -> & Hin)%list_elem_of_fmap)%list_elem_of_fmap. cbn in *.
    assert (table db !! k = Some r) as Hk.
    { assert ((k, r) ∈ L) as HinL.
      { by apply (window_elem w). }
      rewrite HL, list_elem_of_filter in HinL. by apply elem_of_map_to_list, HinL. }
    rewrite Hk in Hrow. injection Hrow as ->. done.
  - intros HP Hw. apply Hnin. rewrite Hw.
    + rewrite HL, list_elem_of_filter. split; [done|by apply elem_of_map_to_list].
    + rewrite HL, <- length_map_to_list. apply length_filter.
Qed.

(** The calls that leave the roles of [id] and its row alone. *)
Definition leaves_roles (id : string) (op : key_call unit) : Prop :=
  match op with
  | CSetRoles _ id' _ | CDelete id' => id' ≠ id
  | CDeleteExpired _ => False
  | _ => True
  end.

(** The row of [id] has these roles and this principal. *)
Definition has_row (id : string) (rl : list (option string)) (p : string) (t : Table) : Prop :=
  ∃ row, t !! id = Some row ∧ pg_roles row = rl ∧ pg_principal row = p.

Lemma update_has_row id rl p msg q args id' f (db : DB) :
  documented_stmt array_in (clock db) q args (update_row id' f) →
  (id' = id → ∀ r r', f r = Some r' → pg_roles r' = pg_roles r ∧ pg_principal r' = pg_principal r) →
  has_row id rl p (table db) → has_row id rl p (table (Pg.execOne msg q args id' db).2).
Proof.
  intros Hd Hf (row & Hrow & Hrl & Hp). unfold Pg.execOne. destruct (ExecContext q args db) as [[n|e] db1] eqn:E; cbn.
  2:{ destruct (exec_err _ _ _ _ _ E) as [-> _]. by exists row. }
  destruct (exec_ok _ _ _ _ _ _ Hd E) as (_ & k & HF & _). unfold update_row in HF.
  destruct (table db !! id') as [r|] eqn:Er; [|injection HF as <- _; by exists row].
  destruct (f r) as [r'|] eqn:Ef; [|done]. injection HF as <- _.
  destruct (decide (id' = id)) as [->|Hne].
  - rewrite Hrow in Er. injection Er as <-. destruct (Hf eq_refl _ _ Ef) as [Hr' Hp'].
    exists r'. rewrite lookup_insert_eq. by rewrite Hr', Hp'.
  - exists row. by rewrite lookup_insert_ne.
Qed.

Lemma create_has_row id rl p rec (db : DB) :
  has_row id rl p (table db) → has_row id rl p (table (Pg.Create rec db).2).
Proof.
  intros (row & Hrow & Hr). unfold Pg.Create. destruct (ExecContext _ _ db) as [[n|e] db1] eqn:E; cbn.
  2:{ destruct (exec_err _ _ _ _ _ E) as [-> _]. by exists row. }
  destruct (exec_ok _ _ _ _ _ _ (doc_insert _ _ _ _ _ _ _ _ _ _) E) as (_ & k & HF & _).
  destruct (table db !! ID rec) eqn:Ei; [done|].
  apply bind_Some in HF as (r & _ & (c & _ & [= <- _])%bind_Some).
  exists row. rewrite lookup_insert_ne; [by split|congruence].
Qed.

Lemma query_has_row id rl p q args P w (db : DB) :
  documented_query q args P w → has_row id rl p (table db) → has_row id rl p (table (QueryContext q args db).2).
Proof.
  intros Hd. destruct (QueryContext q args db) as [r db1] eqn:E. cbn.
  by destruct (query_spec _ _ _ _ _ _ _ Hd E) as [-> _].
Qed.

Lemma listing_has_row id rl p msg q args P w (db : DB) :
  documented_query q args P w → has_row id rl p (table db) → has_row id rl p (table (Pg.listing msg q args db).2).
Proof.
  intros Hd Hr. apply (query_has_row _ _ _ _ _ _ _ _ Hd) in Hr. unfold Pg.listing.
  by destruct (QueryContext q args db) as [[[]|] ?].
Qed.

Lemma call_has_row id rl p op (db : DB) :
  leaves_roles id op → has_row id rl p (table db) → has_row id rl p (table (run_call op db).2).
Proof.
  intros Hop Hr. destruct op as [i|? r|?|? lim off|? lim off pr ro|? i b|? i l|? i l|? i h k|i|t|? i e|ev];
    cbn [leaves_roles] in Hop; try done.
  - change (has_row id rl p (table (Pg.GetByID i db).2)).
    apply (query_has_row _ _ _ _ _ _ _ _ (doc_by_id i)) in Hr. unfold Pg.GetByID.
    change (Pg.columns) with select. destruct (QueryContext _ _ db) as [[[[|c rows] [e|]]|e] db1]; try done;
      by destruct (Pg.scanRow c).
  - by apply create_has_row.
  - by eapply listing_has_row; [apply doc_all|].
  - by eapply listing_has_row; [apply doc_paged|].
  - change (has_row id rl p (table (Pg.ListFiltered lim off pr ro db).2)).
    destruct (ListFiltered_query lim off pr ro db) as (q & args & P & -> & Hd & _). by eapply listing_has_row.
  - by eapply update_has_row; [apply doc_enabled|intros _ r r' [= <-]|].
  - by eapply update_has_row; [apply doc_roles| |].
  - eapply update_has_row; [apply doc_cidrs| |done]. intros _ r r' Hf. by apply bind_Some in Hf as (? & _ & [= <-]).
  - by eapply update_has_row; [apply doc_hash|intros _ r r' [= <-]|].
  - change (has_row id rl p (table (Pg.Delete i db).2)). destruct Hr as (row & Hrow & Hr).
    unfold Pg.Delete, Pg.execOne. destruct (ExecContext _ _ db) as [[n|e] db1] eqn:E; cbn.
    + destruct (exec_ok _ _ _ _ _ _ (doc_delete _ _ i) E) as (_ & k & [= <- _] & _).
      exists row. by rewrite lookup_delete_ne.
    + destruct (exec_err _ _ _ _ _ E) as [-> _]. by exists row.
  - by eapply update_has_row; [apply doc_expires|intros _ r r' [= <-]|].
  - change (has_row id rl p (table (Pg.AuditKeyEvent ev db).2)). unfold Pg.AuditKeyEvent.
    repeat (destruct (json_Marshal _); [|done]). destruct (ExecContext _ _ db) as [[n|e] db1] eqn:E; cbn.
    + by destruct (exec_audit _ _ _ _ E) as [-> _].
    + by destruct (exec_err _ _ _ _ _ E) as [-> _].
Qed.

Lemma calls_have_row id rl p calls (db : DB) :
  Forall (leaves_roles id) calls → has_row id rl p (table db) → has_row id rl p (table (run_calls calls db).2).
Proof.
  intros Hc. revert db. induction Hc as [|op calls Hop Hc IH]; intros db Hr; [done|]. cbn [run_calls].
  pose proof (call_has_row _ _ _ _ _ Hop Hr) as Hr'. destruct (run_call op db) as [v db1].
  specialize (IH db1 Hr'). by destruct (run_calls calls db1).
Qed.

Lemma create_null_row rec (db db' : DB) :
  Forall (λ x, pg_storable x ∨ EqualFold x "NULL" = true) (Roles rec) → Pg.Create rec db = (Ok (), db') →
  has_row (ID rec) (role_stored <$> Roles rec) (Principal rec) (table db').
Proof.
  intros Hf. unfold Pg.Create. rewrite !slice_of_coalesce.
  destruct (ExecContext _ _ db) as [[n|e] db1] eqn:E; intros [= <-].
  destruct (exec_ok _ _ _ _ _ _ (doc_insert _ _ _ _ _ _ _ _ _ _) E) as (_ & k & HF & _).
  rewrite (null_array (Roles rec)) in HF by done. destruct (table db !! ID rec); [done|]. cbn [mbind option_bind] in HF.
  destruct (arg_array _ (Pg.array_arg (Some (AllowedCIDRs rec)))); [|done]. injection HF as <- _.
  eexists. rewrite lookup_insert_eq. by split_and!.
Qed.

Lemma null_row_selected rec p r row :
  pg_roles row = role_stored <$> Roles rec → pg_principal row = Principal rec →
  p = "" ∨ p = Principal rec → r = "" ∨ r ∈ Roles rec ∧ EqualFold r "NULL" = false → filter_row p r row = true.
Proof.
  intros Hrl Hp Hpr Hro. unfold filter_row, has_principal, has_role. rewrite Hp, Hrl. apply andb_true_iff. split.
  - destruct Hpr as [->| ->]; [done|]. by rewrite String.eqb_refl, orb_true_r.
  - destruct Hro as [->|[Hr Hn]]; [done|]. apply orb_true_iff. right. apply bool_decide_eq_true, list_elem_of_fmap.
    exists r. unfold role_stored. by rewrite Hn.
Qed.

Lemma take_all {A} limit (L : list A) n : length L ≤ n → (Z.of_nat n ≤ limit)%Z → window (Some (limit, 0%Z)) L = L.
Proof. intros. cbn. apply take_ge. lia. Qed.

(** C39: a key created with a role spelled NULL is stored, and whatever calls follow,
    as long as they neither set its roles nor delete it nor purge expired keys, it
    cannot be read: looking it up fails, listing all keys fails, no page, filtered or
    not, that is answered contains it, and a page from the start with room for every
    key fails when its filters, if any, are the key's principal and one of its other
    roles. *)
Theorem postgres_null_role_breaks_reads rec (db db' : DB) (calls : list (key_call unit)) :
  Forall (λ x, pg_storable x ∨ EqualFold x "NULL" = true) (Roles rec) →
  Exists (λ x, EqualFold x "NULL" = true) (Roles rec) →
  Pg.Create rec db = (Ok (), db') → Forall (leaves_roles (ID rec)) calls →
  let now := (run_calls calls db').2 in
  is_Ok (Pg.GetByID (ID rec) now).1 = false ∧ is_Ok (Pg.List now).1 = false ∧
  (∀ limit offset l, (Pg.ListPaged limit offset now).1 = Ok l → ID rec ∉ ID <$> l) ∧
  (∀ limit offset p r l, (Pg.ListFiltered limit offset p r now).1 = Ok l → ID rec ∉ ID <$> l) ∧
  (∀ limit p r, (Z.of_nat (size (table now)) ≤ limit)%Z → p = "" ∨ p = Principal rec →
     r = "" ∨ r ∈ Roles rec ∧ EqualFold r "NULL" = false →
     is_Ok (Pg.ListPaged limit 0 now).1 = false ∧ is_Ok (Pg.ListFiltered limit 0 p r now).1 = false).
Proof.
  intros Hf Hex Hc Hcalls now.
  destruct (calls_have_row _ _ _ _ _ Hcalls (create_null_row _ _ _ Hf Hc)) as (row & Hrow & Hrl & Hp).
  fold now in Hrow. assert (None ∈ pg_roles row) as Hn.
  { rewrite Hrl. apply Exists_exists in Hex as (x & Hx & HN). apply list_elem_of_fmap. exists x.
    unfold role_stored. by rewrite HN. }
  assert (∀ msg q args P w l, documented_query q args P w → (Pg.listing msg q args now).1 = Ok l →
    ID rec ∉ ID <$> l ∧ (P (ID rec) row = true →
      (∀ L : list (string * pgrow), length L ≤ size (table now) → window w L = L) → False)) as Hlist.
  { intros msg q args P w l Hd Hl. destruct (Pg.listing msg q args now) as [o db2] eqn:E. cbn in Hl. subst o.
    by eapply listing_excludes. }
  split; [by eapply GetByID_unreadable|]. split_and!.
  - destruct ((Pg.List now).1) as [l|e] eqn:E; [|done]. exfalso. by eapply (Hlist _ _ _ _ None); [apply doc_all|..].
  - intros limit offset l Hl. by eapply Hlist; [apply doc_paged|].
  - intros limit offset p r l Hl. destruct (ListFiltered_query limit offset p r now) as (q & args & P & Eq & Hd & _).
    rewrite Eq in Hl. by eapply Hlist.
  - intros limit p r Hlim Hpr Hro. split.
    + destruct ((Pg.ListPaged limit 0 now).1) as [l|e] eqn:E; [|done]. exfalso.
      eapply Hlist; [apply doc_paged|exact E|done|]. intros. by eapply take_all.
    + destruct (ListFiltered_query limit 0 p r now) as (q & args & P & Eq & Hd & HP). rewrite Eq.
      destruct ((Pg.listing _ q args now).1) as [l|e] eqn:E; [|done]. exfalso.
      eapply Hlist; [exact Hd|exact E| |intros; by eapply take_all]. rewrite HP.
      by apply (null_row_selected rec).
Qed.

(** A successful audit write adds exactly one row with the event to the audit table. *)
Lemma postgres_audit_written ev (db db' : DB) :
  Pg.AuditKeyEvent ev db = (Ok (), db') →
  ∃ old new, json_Marshal (ke_old ev) = Ok old ∧ json_Marshal (ke_new ev) = Ok new ∧
    audit_table db' = audit_table db ++
      [[VText (ke_keyID ev); VText (ke_action ev); VText (ke_changedBy ev); VBytes old; VBytes new]].
Proof.
  unfold Pg.AuditKeyEvent. destruct (json_Marshal (ke_old ev)) as [old|]; [|done].
  destruct (json_Marshal (ke_new ev)) as [new|]; [|done].
  destruct (ExecContext _ _ db) as [[n|e] db1] eqn:E; intros [= <-].
  exists old, new. split_and!; [done..|]. by destruct (exec_audit _ _ _ _ E).
Qed.

End Properties.

(** ** A database with the documented behaviour

    An executable table with a parser and a printer for array literals, for the
    witnesses. *)

Fixpoint split_parts (inq esc : bool) (cur s : string) : list string :=
  match s with
  | "" => [cur]
  | String c s' =>
      if esc then split_parts inq false (cur +:+ String c "") s'
      else if Ascii.eqb c backslash then split_parts inq true (cur +:+ String c "") s'
      else if Ascii.eqb c quote_char then split_parts (negb inq) false (cur +:+ String c "") s'
      else if Ascii.eqb c comma && negb inq then cur :: split_parts false false "" s'
      else split_parts inq false (cur +:+ String c "") s'
  end.

Fixpoint unescape (s : string) : string :=
  match s with
  | "" => ""
  | String c s' =>
      if Ascii.eqb c backslash then match s' with "" => "" | String d s'' => String d (unescape s'') end
      else String c (unescape s')
  end.

Definition decode_part (p : string) : option string :=
  if bool_decide (shead p = Some quote_char) then Some (unescape (sinit (stail p)))
  else if EqualFold p "NULL" then None else Some p.

Definition sim_array_in (s : string) : option (list (option string)) :=
  if (s =? "{}")%go then Some [] else Some (decode_part <$> split_parts false false "" (sinit (stail s))).

Definition sim_element (o : option string) : string :=
  match o with
  | None => "NULL"
  | Some e => if (e =? "")%go || ContainsAny e special || ContainsAny e white || EqualFold e "NULL"
              then quote e else e
  end.
Definition sim_array_out (l : list (option string)) : string := array_text (sim_element <$> l).

Lemma split_plain q s t cur :
  all_plain q s = true → split_parts q false cur (s +:+ t) = split_parts q false (cur +:+ s) t.
Proof.
  revert cur. induction s as [|c s IH]; intros cur; cbn [all_plain]; [by rewrite sapp_nil_r|].
  intros [Hc Hs]%andb_true_iff. unfold plain in Hc.
  apply andb_true_iff in Hc as [[H1%negb_true_iff H2%negb_true_iff]%andb_true_iff H3].
  cbn [String.append split_parts]. rewrite H1, H2.
  assert (Ascii.eqb c comma && negb q = false) as ->.
  { destruct q; cbn in H3; [by rewrite andb_false_r|]. by apply negb_true_iff in H3 as ->. }
  rewrite IH by done. by rewrite sapp_assoc.
Qed.

Lemma split_escape e t cur :
  split_parts true false cur (escape e +:+ t) = split_parts true false (cur +:+ escape e) t.
Proof.
  revert cur. induction e as [|c e IH]; intros cur; cbn [escape]; [by rewrite sapp_nil_r|].
  destruct (Ascii.eqb c quote_char || Ascii.eqb c backslash) eqn:Ec.
  - cbn [String.append split_parts]. rewrite Ascii.eqb_refl, IH, !sapp_assoc. done.
  - apply orb_false_iff in Ec as [E1 E2]. cbn [String.append split_parts].
    rewrite E1, E2, andb_false_r, IH, !sapp_assoc. done.
Qed.

Lemma split_text part o t cur :
  element_text bare_in part o →
  split_parts false false cur (part +:+ t) = split_parts false false (cur +:+ part) t.
Proof.
  destruct 1 as [e|e (_ & Hs & _) _|e He].
  - unfold quote. cbn [String.append split_parts].
    change (Ascii.eqb quote_char backslash) with false. rewrite Ascii.eqb_refl. cbn [negb].
    rewrite sapp_assoc, split_escape. cbn [String.append split_parts].
    change (Ascii.eqb quote_char backslash) with false. rewrite Ascii.eqb_refl. cbn [negb].
    by rewrite !sapp_assoc.
  - by apply split_plain, special_plain.
  - apply split_plain, needsQuote_plain. by destruct (EqualFold_NULL e He).
Qed.

Lemma unescape_escape e : unescape (escape e) = e.
Proof.
  induction e as [|c e IH]; [done|]. cbn [escape].
  destruct (Ascii.eqb c quote_char || Ascii.eqb c backslash) eqn:Ec.
  - cbn [unescape]. by rewrite Ascii.eqb_refl, IH.
  - apply orb_false_iff in Ec as [_ E2]. cbn [unescape]. by rewrite E2, IH.
Qed.

Lemma all_plain_head e : all_plain false e = true → shead e ≠ Some quote_char.
Proof.
  destruct e as [|c e]; [done|]. cbn [all_plain]. intros [Hc _]%andb_true_iff [= ->]. by vm_compute in Hc.
Qed.

Lemma decode_text part o : element_text bare_in part o → decode_part part = o.
Proof.
  unfold decode_part. destruct 1 as [e|e (_ & Hs & _) He|e He].
  - unfold quote. cbn [shead stail]. rewrite bool_decide_true by done. by rewrite sinit_snoc, unescape_escape.
  - rewrite bool_decide_false by (by apply all_plain_head, special_plain). by rewrite He.
  - rewrite bool_decide_false, He; [done|]. apply all_plain_head, needsQuote_plain.
    by destruct (EqualFold_NULL e He).
Qed.

Lemma split_Join p ps os :
  Forall2 (element_text bare_in) (p :: ps) os →
  split_parts false false "" (Join (p :: ps) ",") = p :: ps.
Proof.
  revert p os. induction ps as [|p' ps IH]; intros p os Hf; inversion Hf as [|? o ? os' Ht Hf']; subst.
  - change (Join [p] ",") with p. rewrite <- (sapp_nil_r p) at 1. by rewrite (split_text p o) by done.
  - rewrite Join_cons2, (split_text p o) by done. cbn [String.append split_parts].
    change (Ascii.eqb "," backslash) with false. change (Ascii.eqb "," quote_char) with false.
    change (Ascii.eqb "," comma) with true. cbn [andb negb]. f_equal. by eapply IH.
Qed.

Lemma sim_array_in_spec parts elems :
  Forall2 (element_text bare_in) parts elems → sim_array_in (array_text parts) = Some elems.
Proof.
  intros Hf. assert (decode_part <$> parts = elems) as Hd.
  { clear -Hf. induction Hf; [done|]. cbn. f_equal; [by apply decode_text|done]. }
  destruct parts as [|p ps]; [by inversion Hf|]. unfold sim_array_in, array_text.
  destruct (String.eqb_spec ("{" +:+ Join (p :: ps) "," +:+ "}") "{}") as [E|_].
  { exfalso. assert (Join (p :: ps) "," ≠ "") as Hne.
    { apply Join_not_nil. inversion Hf; subst. eapply element_not_nil; [|done]. by intros e []. }
    revert Hne E. generalize (Join (p :: ps) ","). by intros [|? [|]]. }
  change ("{" +:+ Join (p :: ps) "," +:+ "}") with (String lbrace (Join (p :: ps) "," +:+ String rbrace "")).
  cbn [stail]. rewrite sinit_snoc. erewrite split_Join by done. by rewrite Hd.
Qed.

Lemma sim_element_text o : element_text bare_out (sim_element o) o.
Proof.
  destruct o as [e|]; cbn; [|by constructor]. destruct (_ || _) eqn:E; [constructor|].
  apply orb_false_iff in E as [[[?%String.eqb_neq ?]%orb_false_iff ?]%orb_false_iff ?]. by constructor.
Qed.

Lemma sim_array_out_spec elems :
  ∃ parts, Forall2 (element_text bare_out) parts elems ∧ sim_array_out elems = array_text parts.
Proof.
  exists (sim_element <$> elems). split; [|done]. induction elems; constructor; [apply sim_element_text|done].
Qed.

Record simdb := mkSim { sim_table : Table; sim_audit : list (list sqlval); sim_now : Time }.

Definition sim_stmt (now : Time) (q : string) (args : list sqlval) : option (Table → option (Table * Z)) :=
  match args with
  | [VText id; VText h; VText k; VText p; roles; cidrs; VBool b; e] =>
      if (q =? sql_insert)%go then
        Some (λ t, match t !! id with
              | Some _ => None
              | None => rl ← arg_array sim_array_in roles; cl ← arg_array sim_array_in cidrs;
                        Some (<[id := mkPgrow h k p rl cl b (arg_time e) (micros now) (micros now)]> t, 1%Z)
              end)
      else None
  | [VText h; VText k; VText id] =>
      if (q =? sql_hash)%go then
        Some (update_row id (λ r, Some (mkPgrow h k (pg_principal r) (pg_roles r)
           (pg_allowed_cidrs r) (pg_enabled r) (pg_expires_at r) (pg_created_at r) (micros now))))
      else None
  | [v; VText id] =>
      if (q =? sql_enabled)%go then
        match v with
        | VBool b => Some (update_row id (λ r, Some (mkPgrow (pg_key_hash r) (pg_hmac_key_id r) (pg_principal r)
            (pg_roles r) (pg_allowed_cidrs r) b (pg_expires_at r) (pg_created_at r) (micros now))))
        | _ => None
        end
      else if (q =? sql_roles)%go then
        Some (update_row id (λ r, l ← arg_array sim_array_in v;
           Some (mkPgrow (pg_key_hash r) (pg_hmac_key_id r) (pg_principal r) l
           (pg_allowed_cidrs r) (pg_enabled r) (pg_expires_at r) (pg_created_at r) (micros now))))
      else if (q =? sql_cidrs)%go then
        Some (update_row id (λ r, l ← arg_array sim_array_in v;
           Some (mkPgrow (pg_key_hash r) (pg_hmac_key_id r) (pg_principal r) (pg_roles r) l
           (pg_enabled r) (pg_expires_at r) (pg_created_at r) (micros now))))
      else if (q =? sql_expires)%go then
        Some (update_row id (λ r, Some (mkPgrow (pg_key_hash r) (pg_hmac_key_id r) (pg_principal r) (pg_roles r)
           (pg_allowed_cidrs r) (pg_enabled r) (arg_time v) (pg_created_at r) (micros now))))
      else None
  | [VText id] =>
      if (q =? sql_delete)%go then
        Some (λ t, Some (delete id t, if decide (is_Some (t !! id)) then 1%Z else 0%Z))
      else None
  | [VTime before] =>
      if (q =? sql_purge)%go then
        Some (λ t, let kept := filter (λ kr, past (micros before) (pg_expires_at kr.2) = false) t in
              Some (kept, (Z.of_nat (size t) - Z.of_nat (size kept))%Z))
      else None
  | _ => None
  end.

Definition sim_exec (q : string) (args : list sqlval) (db : simdb) : result (result Z) * simdb :=
  if (q =? audit_insert)%go then
    (Ok (Ok 1%Z), mkSim (sim_table db) (sim_audit db ++ [args]) (sim_now db))
  else match F ← sim_stmt (sim_now db) q args; F (sim_table db) with
  | Some (t, k) => (Ok (Ok k), mkSim t (sim_audit db) (sim_now db))
  | None => (Err (ErrMsg "statement failed"), db)
  end.

Definition sim_select (q : string) (args : list sqlval)
    : option ((string → pgrow → bool) * option (Z * Z)) :=
  match args with
  | [] => Some (λ _ _, true, None)
  | [VText id] => Some (λ k _, (k =? id)%go, None)
  | [VInt l; VInt o] => Some (λ _ _, true, Some (l, o))
  | [VText x; VInt l; VInt o] =>
      if (q =? select +:+ " WHERE 1=1 AND principal = $1 ORDER BY created_at LIMIT $2 OFFSET $3")%go
      then Some (λ _, has_principal x, Some (l, o)) else Some (λ _, has_role x, Some (l, o))
  | [VText p; VText r; VInt l; VInt o] =>
      Some (λ _ row, has_principal p row && has_role r row, Some (l, o))
  | _ => None
  end.

#[local] Instance older_dec a b : Decision (older a b).
Proof. unfold older. apply _. Defined.
#[local] Instance legal_window_dec w : Decision (legal_window w).
Proof. destruct w as [[]|]; cbn; apply _. Defined.

Definition sim_query (q : string) (args : list sqlval) (db : simdb)
    : result (list keyrow * option gerror) * simdb :=
  match sim_select q args with
  | None => (Err (ErrMsg "query failed"), db)
  | Some (P, w) =>
      if decide (legal_window w) then
        (Ok (keyrow_of sim_array_out <$> window w (merge_sort older
               (filter (λ kr, P kr.1 kr.2 = true) (map_to_list (sim_table db)))), None), db)
      else (Err (ErrMsg "LIMIT and OFFSET must not be negative"), db)
  end.

#[local] Instance sim_Database : Database simdb := {| ExecContext := sim_exec; QueryContext := sim_query |}.
#[local] Instance sim_JSON : AuditJSON := {| json_Marshal _ := Ok "{}" |}.

Lemma sim_stmt_documented now q args F :
  documented_stmt sim_array_in now q args F → sim_stmt now q args = Some F.
Proof. destruct 1 as [| |v|v| |v| |]; try done; by destruct v. Qed.

Lemma sim_select_documented q args P w : documented_query q args P w → sim_select q args = Some (P, w).
Proof. by destruct 1. Qed.

#[local] Obligation Tactic := idtac.
#[local] Program Instance sim_PostgresSpec : PostgresSpec simdb := {|
  table := sim_table; audit_table := sim_audit; clock := sim_now;
  array_in := sim_array_in; array_out := sim_array_out;
  array_in_spec := sim_array_in_spec; array_out_spec := sim_array_out_spec;
|}.
Next Obligation.
  intros q args F db n db' Hd. cbn. unfold sim_exec.
  destruct (String.eqb_spec q audit_insert) as [->|_]; [by inversion Hd|].
  rewrite (sim_stmt_documented _ _ _ _ Hd). cbn.
  destruct (F (sim_table db)) as [[t k]|]; intros [= <- <-]. split; [done|]. by exists k.
Qed.
Next Obligation.
  intros args db n db'. unfold ExecContext, sim_Database, sim_exec. rewrite String.eqb_refl.
  by intros [= <- <-].
Qed.
Next Obligation.
  intros q args db e db'. cbn. unfold sim_exec. destruct (q =? audit_insert)%go; [done|].
  destruct (F ← _; F _) as [[t k]|]; [done|]. intros [= <- <-]. by split_and!.
Qed.
Next Obligation.
  intros q args P w db r db' Hd. cbn. unfold sim_query. rewrite (sim_select_documented _ _ _ _ Hd).
  destruct (decide (legal_window w)); intros [= <- <-]; (split; [done|]); (split; [done|]); [|done].
  intros rows err [= <- <-]. split; [done|].
  exists (merge_sort older (filter (λ kr, P kr.1 kr.2 = true) (map_to_list (sim_table db)))).
  split; [apply merge_sort_Permutation|]. split; [|done].
  apply StronglySorted_merge_sort; [intros a b c; unfold older; lia|intros a b; unfold older; lia].
Qed.

(** *** Witnesses *)

Definition ex_pg_key (id : string) (roles : list string) : KeyRecord :=
  mkKeyRecord id "h" "hk" "alice" roles [] true (Some 1500%Z) 0 0.
Definition ex_db : simdb := mkSim ∅ [] 2000.

(** Creating two keys, changing one and reading it back, on the example database. *)
Definition ex_calls : list (key_call unit) :=
  [CCreate 0 (ex_pg_key "k1" ["a b"; "viewer"]); CCreate 0 (ex_pg_key "k2" []);
   CSetEnabled 0 "k1" false; CSetAllowedCIDRs 0 "k1" None; CDelete "k2"; CDelete "k2"; CGetByID "k1"].

Lemma postgres_refines_machine_witness :
  key_run pg_storable micros ex_calls (pg_keys ex_db) (run_calls ex_calls ex_db).1
    (pg_keys (run_calls ex_calls ex_db).2) ∧
  (run_calls ex_calls ex_db).1 !! 6 =
    Some (Ok (VKey (Some (mkKeyRecord "k1" "h" "hk" "alice" ["a b"; "viewer"] [] false
                            (Some 1000%Z) 2000 2000)))).
Proof.
  split; [exact (postgres_refines_machine ex_calls ex_db)|]. vm_compute. reflexivity.
Defined.

Definition ex_row (principal : string) (roles : list (option string)) (created : Time) : pgrow :=
  mkPgrow "h" "hk" principal roles [] true None created created.
Definition ex_db2 : simdb :=
  mkSim {[ "k1" := ex_row "alice" [Some "admin"] 3000; "k2" := ex_row "alice" [Some "a b"; Some "admin"] 1000;
           "k3" := ex_row "bob" [Some "admin"] 2000 ]} [] 5000.

Lemma listings_agree_witness :
  Memory.ListFiltered ["k3"; "k1"; "k2"] 2 0 "alice" "admin" (pg_keys ex_db2) =
  (Ok [record_of "k2" (ex_row "alice" [Some "a b"; Some "admin"] 1000);
       record_of "k1" (ex_row "alice" [Some "admin"] 3000)], pg_keys ex_db2).
Proof.
  apply (listings_agree ["k3"; "k1"; "k2"] 2 0 "alice" "admin" ex_db2 _ ex_db2).
  - apply map_Forall_to_list. vm_compute map_to_list. repeat constructor.
  - vm_compute. apply NoDup_Permutation; [by apply (bool_decide_unpack _); vm_compute| by apply (bool_decide_unpack _); vm_compute|].
    intros x. rewrite !elem_of_cons. set_solver.
  - vm_compute. repeat constructor; rewrite list_elem_of_In; cbn; intuition discriminate.
  - vm_compute. reflexivity.
Defined.

Lemma postgres_null_role_breaks_reads_witness :
  is_Ok (Pg.ListFiltered 100 0 "alice" "viewer" (run_calls [CSetEnabled 0 "k4" false; CDelete "k1"]
    (Pg.Create (ex_pg_key "k4" ["viewer"; "Null"]) ex_db2).2).2).1 = false ∧
  is_Ok (Pg.ListFiltered 100 0 "alice" "viewer" ex_db2).1 = true.
Proof.
  split; [|vm_compute; reflexivity].
  refine (proj2 (proj2 (proj2 (proj2 (proj2 (postgres_null_role_breaks_reads (ex_pg_key "k4" ["viewer"; "Null"]) ex_db2
    (Pg.Create (ex_pg_key "k4" ["viewer"; "Null"]) ex_db2).2 [CSetEnabled 0 "k4" false; CDelete "k1"] _ _ _ _))))
    100%Z "alice" "viewer" _ _ _)).
  - constructor; [by left|constructor; [by right|constructor]].
  - right. by left.
  - vm_compute. reflexivity.
  - repeat constructor. discriminate.
  - vm_compute. discriminate.
  - by right.
  - right. split; [constructor|reflexivity].
Defined.

Lemma postgres_nil_cidrs_refused_witness :
  is_Ok (Pg.SetAllowedCIDRs "k1" None ex_db2).1 = false ∧ is_Ok (Pg.SetAllowedCIDRs "k1" (Some []) ex_db2).1 = true.
Proof.
  split; [|vm_compute; reflexivity].
  apply (postgres_nil_cidrs_refused 0 "k1" ex_db2 (pg_keys ex_db2) (record_of "k1" (ex_row "alice" [Some "admin"] 3000)));
    vm_compute; reflexivity.
Defined.

(** Opening the store leaves a connection open exactly when it succeeds. *)
Lemma NewStore_no_leak path o r calls :
  Pg.NewStore path o = (r, calls) →
  if is_Ok r then Pg.CallClose ∉ calls ∧ is_Ok (Pg.o_Ping o) = true ∧
       (path ≠ "" → is_Ok (Pg.runMigrations o) = true)
  else is_Ok (Pg.o_Open o) = true → last calls = Some Pg.CallClose.
Proof.
  unfold Pg.NewStore. destruct (Pg.o_Open o); [|by intros [= <- <-]].
  destruct (Pg.o_Ping o) eqn:Ep; [|by intros [= <- <-]].
  destruct (String.eqb_spec path "") as [->|Hp]; cbn [negb].
  - intros [= <- <-]. split; [by apply (bool_decide_unpack _)|done].
  - destruct (Pg.runMigrations o); intros [= <- <-]; [|done]. split; [by apply (bool_decide_unpack _)|done].
Qed.
