(* ===== verification/CidrText.v ===== *)
(** * Ranges as array elements

    A text that [net.ParseCIDR] accepts consists of hexadecimal digits, dots, colons
    and a slash.  Such a text is written to a text[] column unquoted and read back
    unchanged, so the ranges the admin API accepts survive the PostgreSQL store, and
    its keys stay well formed there too. *)

From S2P Require Import Prelude GoStrings Utf8 GoNet Http Store PgArray Authn Admin AdminKeys Postgres.
From S2P Require Import PostgresSpec.
From Stdlib Require Import Ascii.

Fixpoint sall (P : ascii → bool) (s : string) : bool :=
  match s with "" => true | String c s' => P c && sall P s' end.

Lemma sall_app P s t : sall P (s +:+ t) = sall P s && sall P t.
Proof. induction s as [|c s IH]; [done|]. cbn. by rewrite IH, andb_assoc. Qed.

Lemma sall_mono (P Q : ascii → bool) s :
  (∀ c, P c = true → Q c = true) → sall P s = true → sall Q s = true.
Proof.
  intros HPQ. induction s as [|c s IH]; [done|]. cbn. intros [Hc Hs]%andb_true_iff.
  by rewrite (HPQ c Hc), IH.
Qed.

Lemma sall_srev_app P s acc : sall P (srev_app s acc) = sall P s && sall P acc.
Proof.
  revert acc. induction s as [|c s IH]; intros acc; [done|]. cbn. rewrite IH. cbn.
  by destruct (P c), (sall P s).
Qed.

Definition is_digit (c : ascii) : bool := bool_decide (is_Some (digit c)).
Definition addr_char (c : ascii) : bool :=
  bool_decide (is_Some (hex_val c)) || Ascii.eqb c "." || Ascii.eqb c ":".
Definition cidr_char (c : ascii) : bool := addr_char c || Ascii.eqb c "/".

Lemma digit_addr c : is_digit c = true → addr_char c = true.
Proof.
  unfold is_digit, addr_char, digit, hex_val. destruct ((48 <=? byte c)%Z && (byte c <=? 57)%Z); [done|].
  by rewrite bool_decide_false by (by intros []).
Qed.

(** ** What the parsers consume *)

Lemma parseOctet_digits val n s v : parseOctet val n s = Some v → sall is_digit s = true.
Proof.
  revert val n. induction s as [|c s IH]; intros val n; [done|]. cbn [parseOctet sall].
  unfold is_digit at 1. destruct (digit c) as [d|]; cbn [mbind option_bind]; [|done].
  destruct (_ && _); [done|]. destruct (_ <? _)%Z; [done|]. intros H. by rewrite (IH _ _ H).
Qed.

Lemma octet_addr val n s v : parseOctet val n s = Some v → sall addr_char s = true.
Proof. intros H. eapply sall_mono; [apply digit_addr|by eapply parseOctet_digits]. Qed.

Lemma parseIPv4Fields_addr s ip : parseIPv4Fields s = Some ip → sall addr_char s = true.
Proof.
  unfold parseIPv4Fields. rewrite <- (Join_Split s ".") at 2.
  destruct (Split s ".") as [|a [|b [|c [|d [|]]]]]; try done. intros H.
  apply mapM_Some in H. repeat match goal with
  | H : Forall2 _ (_ :: _) _ |- _ => inversion H as [|? ? ? ? ?%octet_addr ?]; subst; clear H
  end.
  rewrite !Join_cons2, !sall_app. change (sall addr_char ".") with true.
  change (Join [d] ".") with d. repeat (apply andb_true_iff; split); done.
Qed.

Lemma parseGroup_split off acc s off' acc' rest :
  parseGroup off acc s = Some (off', acc', rest) →
  ∃ pre, s = pre +:+ rest ∧ sall addr_char pre = true.
Proof.
  revert off acc. induction s as [|c s IH]; intros off acc; cbn [parseGroup].
  { intros [= <- <- <-]. by exists "". }
  destruct (hex_val c) as [d|] eqn:Ec; [|by intros [= <- <- <-]; exists ""].
  destruct (bool_decide (3 < off)); [done|]. intros (pre & -> & Hp)%IH. exists (String c pre).
  split; [done|]. cbn [sall]. rewrite Hp, andb_true_r. unfold addr_char. by rewrite Ec.
Qed.

Lemma parseGroups_addr fuel ip e s ip' e' :
  parseGroups fuel ip e s = Some (ip', e', "") → sall addr_char s = true.
Proof.
  revert ip e s. induction fuel as [|fuel IH]; intros ip e s; cbn [parseGroups].
  { by intros [= _ _ ->]. }
  destruct (parseGroup 0 0 s) as [[[off acc] rest]|] eqn:Eg; [|done]. cbn [mbind option_bind].
  destruct (parseGroup_split _ _ _ _ _ _ Eg) as (pre & -> & Hp). rewrite sall_app, Hp. cbn [andb].
  destruct (bool_decide (off = 0)); [done|].
  destruct rest as [|c rest]; [done|].
  destruct (decide (c = ".")%char) as [->|Hdot].
  { destruct (_ || _); [done|]. destruct (parseIPv4Fields _) as [v4|] eqn:E4; [|done]. intros _.
    apply parseIPv4Fields_addr in E4. rewrite sall_app, Hp in E4. done. }
  destruct (decide (c = ":")%char) as [->|Hcol].
  { cbn [sall]. change (addr_char ":") with true. cbn [andb].
    destruct rest as [|c2 rest]; [done|]. destruct (decide (c2 = ":")%char) as [->|Hcol2].
    - destruct e as [n|]; [done|]. destruct (String.eqb_spec rest "") as [->|Hr]; [done|].
      intros H%IH. cbn. by rewrite H.
    - intros H. apply (IH (ip ++ [(acc / 256)%Z; (acc `mod` 256)%Z]) e).
      revert H. clear -Hcol2. by destruct c2 as [[] [] [] [] [] [] [] []]. }
  intros H. exfalso. revert H. clear -Hdot Hcol.
  by destruct c as [[] [] [] [] [] [] [] []].
Qed.

(** The part of [parseIPv6] after the zone has been cut off. *)
Lemma parseIPv6_groups s (zone : string) ip z :
  match s with
  | String ":" (String ":" "") => Some (replicate 16 0%Z, zone)
  | _ =>
      '(ip, ellipsis, rest) ← match s with
                              | String ":" (String ":" s') => parseGroups 8 [] (Some 0) s'
                              | _ => parseGroups 8 [] None s
                              end;
      if negb (rest =? "")%go then None
      else ip' ← expandEllipsis ip ellipsis; Some (ip', zone)
  end = Some (ip, z) → z = zone ∧ sall addr_char s = true.
Proof.
  assert (∀ g, (∀ ip' e', g = Some (ip', e', "") → sall addr_char s = true) →
    ('(ip, ellipsis, rest) ← g;
      if negb (rest =? "")%go then None
      else ip' ← expandEllipsis ip ellipsis; Some (ip', zone)) = Some (ip, z) →
    z = zone ∧ sall addr_char s = true) as Hg.
  { intros g Hg. destruct g as [[[ip0 e0] rest]|]; [|done]. cbn [mbind option_bind].
    destruct (String.eqb_spec rest "") as [->|]; [|done]. cbn [negb].
    destruct (expandEllipsis ip0 e0); [|done]. intros [= _ <-]. split; [done|by eapply Hg]. }
  destruct s as [|c s]; [by apply Hg, parseGroups_addr|].
  destruct (decide (c = ":")%char) as [->|Hc].
  2:{ intros H. apply (Hg (parseGroups 8 [] None (String c s))); [apply parseGroups_addr|].
      revert H. clear -Hc. by destruct c as [[] [] [] [] [] [] [] []]. }
  destruct s as [|c s]; [apply Hg, parseGroups_addr|].
  destruct (decide (c = ":")%char) as [->|Hc].
  2:{ intros H. apply (Hg (parseGroups 8 [] None (String ":" (String c s)))); [apply parseGroups_addr|].
      revert H. clear -Hc. by destruct c as [[] [] [] [] [] [] [] []]. }
  destruct s as [|c s]; [by intros [= _ <-]|]. apply Hg.
  intros ip' e' H%parseGroups_addr. exact H.
Qed.

Lemma parseIPv6_addr s ip : parseIPv6 s = Some (ip, "") → sall addr_char s = true.
Proof.
  unfold parseIPv6. destruct (IndexByte s "%") as [i|].
  - destruct (String.eqb_spec (str_drop (S i) s) "") as [|Hz]; [done|]. cbn [mbind option_bind].
    intros [Hz' _]%parseIPv6_groups. by rewrite <- Hz' in Hz.
  - cbn [mbind option_bind]. by intros [_ Hs]%parseIPv6_groups.
Qed.

Lemma ParseAddr_addr s ip : ParseAddr s = Some (ip, "") → sall addr_char s = true.
Proof.
  unfold ParseAddr.
  match goal with |- ?scan s = _ → _ =>
    assert (∀ t, scan t = Some (ip, "") → sall addr_char s = true) as Hscan; [|apply Hscan] end.
  induction t as [|c t IH]; [done|]. destruct (Ascii.eqb c ".").
  { destruct (parseIPv4Fields s) as [v4|] eqn:E4; [|done]. intros _. by eapply parseIPv4Fields_addr. }
  destruct (Ascii.eqb c ":"); [apply parseIPv6_addr|]. destruct (Ascii.eqb c "%"); [done|exact IH].
Qed.

Lemma dtoi_digits n i s v j :
  dtoi n i s = Some (v, j) → i ≤ j ≤ i + String.length s ∧ (j = i + String.length s → sall is_digit s = true).
Proof.
  revert n i. induction s as [|c s IH]; intros n i; cbn [dtoi sall String.length].
  { destruct (bool_decide (i = 0)); [done|]. intros [= _ <-]. split; [lia|done]. }
  unfold is_digit at 1. destruct (digit c) as [d|].
  - destruct (_ <=? _)%Z; [done|]. intros [H1 H2]%IH. split; [lia|]. intros Hj. rewrite H2 by lia. done.
  - destruct (bool_decide (i = 0)); [done|]. intros [= _ <-]. split; lia.
Qed.

Lemma ParseCIDR_text c : is_Some (ParseCIDR c) → sall cidr_char c = true ∧ has_char "/" c = true.
Proof.
  intros [net Hn]. unfold ParseCIDR in Hn.
  destruct (Cut c "/") as [[addr mask]|] eqn:Ec; [|done]. cbn [mbind option_bind] in Hn.
  apply Cut_Some in Ec as [-> _].
  destruct (ParseAddr addr) as [[ip zone]|] eqn:Ea; [|done]. cbn [mbind option_bind] in Hn.
  destruct (dtoi 0 0 mask) as [[n i]|] eqn:Ed; [|done]. cbn [mbind option_bind] in Hn.
  destruct (String.eqb_spec zone "") as [->|]; [|done].
  destruct (bool_decide_reflect (i = String.length mask)) as [->|]; [|done].
  apply ParseAddr_addr in Ea. apply dtoi_digits in Ed as [_ Hd].
  split; [|by rewrite has_char_app, orb_true_r].
  rewrite sall_app. cbn [sall]. apply andb_true_iff. split; [|apply andb_true_iff; split; [done|]].
  - eapply sall_mono; [|exact Ea]. intros x Hx. unfold cidr_char. by rewrite Hx.
  - eapply sall_mono; [|apply Hd; lia]. intros x Hx%digit_addr. unfold cidr_char. by rewrite Hx.
Qed.

(** ** Such texts are stored as they are *)

Lemma cidr_char_plain c :
  cidr_char c = true →
  has_char c (bytes [123; 125; 44; 34; 92]%Z) = false ∧ has_char c (bytes [32; 9; 10]%Z) = false.
Proof. by destruct c as [[] [] [] [] [] [] [] []]; vm_compute. Qed.

Lemma cidr_char_strip c s :
  cidr_char c = true →
  strip_one space_encodings (String c s) = None ∧ strip_one (srev <$> space_encodings) (String c s) = None.
Proof. by destruct c as [[] [] [] [] [] [] [] []]; vm_compute. Qed.

Lemma trim_cidr encs s :
  (∀ c t, cidr_char c = true → strip_one encs (String c t) = None) →
  sall cidr_char s = true → trim_left encs s = s.
Proof.
  intros Hs. destruct s as [|c s]; [done|]. cbn [sall]. intros [Hc _]%andb_true_iff.
  unfold trim_left. cbn [String.length trim_left_fuel]. by rewrite Hs.
Qed.

Lemma TrimSpace_cidr s : sall cidr_char s = true → TrimSpace s = s.
Proof.
  intros Hs. unfold TrimSpace.
  rewrite (trim_cidr space_encodings s (λ c t Hc, proj1 (cidr_char_strip c t Hc)) Hs).
  rewrite (trim_cidr (srev <$> space_encodings) (srev s) (λ c t Hc, proj2 (cidr_char_strip c t Hc))).
  - apply srev_involutive.
  - unfold srev. by rewrite sall_srev_app, Hs.
Qed.

Lemma ContainsAny_cidr s cutset :
  (∀ c, cidr_char c = true → has_char c cutset = false) → sall cidr_char s = true → ContainsAny s cutset = false.
Proof.
  intros Hc. induction s as [|c s IH]; [done|]. cbn [sall ContainsAny]. intros [H1 H2]%andb_true_iff.
  by rewrite (Hc _ H1), (IH H2).
Qed.

(** A range that parses can be held by an array column. *)
Lemma ParseCIDR_storable c : is_Some (ParseCIDR c) → pg_storable c.
Proof.
  intros [Hs Hsl]%ParseCIDR_text. unfold pg_storable, PgArray.storable.
  assert (needsQuote c = false) as ->.
  { unfold needsQuote.
    rewrite (ContainsAny_cidr c _ (λ x Hx, proj1 (cidr_char_plain x Hx)) Hs).
    rewrite (ContainsAny_cidr c _ (λ x Hx, proj2 (cidr_char_plain x Hx)) Hs). by destruct c. }
  rewrite (TrimSpace_cidr _ Hs), String.eqb_refl. cbn [andb].
  destruct (EqualFold c "NULL") eqn:En; [|done]. exfalso. unfold EqualFold in En. apply String.eqb_eq in En.
  destruct c as [|c1 [|c2 [|c3 [|c4 [|]]]]]; try done. cbn [smap] in En. injection En as E1 E2 E3 E4.
  clear -Hsl E1 E2 E3 E4. cbn [has_char] in Hsl. rewrite !orb_true_iff, !Ascii.eqb_eq in Hsl.
  destruct Hsl as [<-|[<-|[<-|[<-|Hsl]]]]; discriminate.
Qed.

(** The invariant of AdminKeys on a database, for requests whose roles an array can hold. *)
Corollary postgres_keys_wellformed {DB} `{PostgresSpec DB} `{AuditJSON} `{AdminCodec} keygen token
    (w0 : World DB) (reqs : list (admin_request (C := unit))) (db : DB) :
  rw_sent (w_rw w0) = None →
  Forall (λ a, roles_storable (S := DB) (C := unit) (ar_request a)) reqs →
  map_Forall wf_key (pg_keys db) →
  map_Forall wf_key (pg_keys (foldl (answer_request keygen token w0) db reqs)).
Proof. exact (wf_requests (S := DB) (C := unit) ParseCIDR_storable keygen token w0 reqs db). Qed.
