(* ===== verification/Serve.v ===== *)
(** * cmd/pdag/serve.go: starting, running and stopping the gateway

    [runServe] opens the components in the order of the code and closes them by
    [defer]: a function is a computation on a frame that logs what was opened and
    keeps the stack of deferred closers, which [returns] runs.  What the outside
    world answers (the file system, the database, the plugin processes, the trace
    exporter's library) is an [environment].  [listenAndServe] with its server goroutines,
    error channel and shutdown is a transition system; the SIGHUP handler and the
    key cleanup are functions of the events they receive.  The theorems: what was opened
    is closed once, in reverse order, on every path, with two exceptions that are named;
    a validated configuration leaves only outside reasons for a failed start; no
    goroutine blocks on the error channel and every server is shut down; the cleanup
    deletes expired keys only.  [http.Server.Shutdown] gives up after the configured time
    while handlers may still run; that and what a handler meets in a closed component is
    not part of this model (a commit to a closed audit log is in AuditFile). *)

From S2P Require Import Prelude GoStrings GoNet Store ClientIP Authn RateLimit AuditTrail AuditFile.
From S2P Require Import Tracing PluginManager Balancer Config Postgres.

(** ** Functions with deferred calls *)

(** [RExporter] is the trace exporter of a [tracing.Init] that failed after creating it
    (with [RTracer] the provider owns it), [RAdminLimiter] the rate limiter of the admin
    server with its clean-up goroutine. *)
Inductive resource :=
  | RExporter | RTracer | RStore | RAudit | RPlugins | RBackend | RLimiter | RAdminLimiter | RSignals.
#[global] Instance resource_eq_dec : EqDecision resource.
Proof. solve_decision. Defined.

(** What [newProxyServer], [newAdminServer] and the goroutines are given. *)
Record wiring := mkWiring {
  w_listen : string; w_maxBody : Z; w_audit : Options; w_limiter : option (Limiter Float64.t);
  w_resolver : Resolver; w_secrets : gmap string string; w_keygen : Generator;
  w_knownRoles : gset string; w_postgres : bool; w_admin : option string; w_cleanup : option Duration;
}.

Inductive event := Opened (r : resource) | Served (w : wiring) | Closed (r : resource).

Record frame := mkFrame { f_log : list event; f_defers : list resource }.
Definition Fn (A : Type) : Type := frame → result A * frame.

#[global] Instance Fn_ret : MRet Fn := λ A a f, (Ok a, f).
#[global] Instance Fn_bind : MBind Fn := λ A B k m f,
  match m f with (Ok a, f) => k a f | (Err e, f) => (Err e, f) end.

(** [x, err := ...; if err != nil { return err }] *)
Definition attempt {A} (x : result A) : Fn A := λ f, (x, f).
(** A component has opened a resource; a statement defers a closing. *)
Definition opening (r : resource) : Fn unit := λ f, (Ok (), mkFrame (f_log f ++ [Opened r]) (f_defers f)).
Definition defer (r : resource) : Fn unit := λ f, (Ok (), mkFrame (f_log f) (r :: f_defers f)).
Definition serving (w : wiring) : Fn unit := λ f, (Ok (), mkFrame (f_log f ++ [Served w]) (f_defers f)).

Definition returns {A} (m : Fn A) : result A * list event :=
  let '(x, f) := m (mkFrame [] []) in (x, f_log f ++ (Closed <$> f_defers f)).

Definition wrap {A} (msg : string) (x : result A) : result A :=
  match x with Err e => Err (ErrWrap msg e) | Ok a => Ok a end.

(** ** Opening the components *)

Record environment := mkEnvironment {
  env_ReadFile : string → result string;
  env_Stat : string → result (bool * Z);
  env_viper : viper;
  env_configPath : string;                    (** the flag -config *)
  env_order : list (string * PluginEntry);    (** the plugin map as [range] visits it *)
  env_otel : Otel;
  env_globals : otelGlobals;
  env_Abs : result string;
  env_StatMigrations : result unit;
  env_Database : Pg.opening;
  env_OpenLog : result unit;
  env_Plugin : string → startEnv;
  env_url_Parse : string → result URL;
  env_Serve : result unit;                    (** what [listenAndServe] returns *)
}.

(** The configuration as viper decodes it. *)
Definition env_Decoded (E : environment) : result Config := viper_decode (env_viper E) (env_configPath E).

Section Serve.
Context `{JsonLib} (E : environment).

(** [tracing.Init] with the values of the configuration: its result, and whether it has
    started an exporter. *)
Definition tracing_run (c : Config) : result TracerProvider * otelGlobals :=
  let t := Config.Tracing c in
  @Init (env_otel E) (mkTracingOptions (tr_Endpoint t) (tr_Insecure t) (tr_SampleRate t)) (env_globals E).
Definition tracing_Init (c : Config) : result TracerProvider := (tracing_run c).1.
Definition exporter_started (c : Config) : bool :=
  bool_decide (length (g_exporters (env_globals E)) < length (g_exporters (tracing_run c).2)).

(** Whether the store is PostgreSQL, which has to be closed. *)
Definition openKeyStore (dsn : string) : result bool :=
  if negb (dsn =? "")%go then
    migrationsPath ← wrap "resolve migrations path" (env_Abs E);
    _ ← wrap ("migrations directory " +:+ migrationsPath) (env_StatMigrations E);
    _ ← wrap "open postgres store" (Pg.NewStore migrationsPath (env_Database E)).1;
    mret true
  else mret false.

(** The logger, or [None] for the no-op publisher. *)
Definition openAuditLog (path : string) (bufSize : Z) (enqueueTimeout : Duration)
    : result (option Logger) :=
  if (path =? "")%go then Ok None
  else match env_OpenLog E with
       | Err e => Err (ErrWrap "open audit log" e)
       | Ok _ => Ok (Some (NewLogger bufSize enqueueTimeout))
       end.

Definition startPlugins (c : Config) : result Manager :=
  pcs ← openPluginManager (env_order E) c;
  match NewManager ((λ p, (p, env_Plugin E p.1)) <$> pcs) with
  | (Err e, _) => Err (ErrWrap "start plugin manager" e)
  | (Ok _, m) => Ok m
  end.

(** The backend; only the balancer has something to close. *)
Definition startBackend (c : Config) : result bool :=
  match openBackend c with
  | Single url _ => _ ← env_url_Parse E url; mret false
  | Balanced l => _ ← Balancer.New (env_url_Parse E) l; mret true
  end.

Definition newAdminServer (listenAddr adminToken : string) : option string :=
  if (adminToken =? "")%go then None else Some listenAddr.

Definition auditOptions (c : Config) : Options :=
  mkOptions (AuditLogBody c) (AuditFailClosed c) (AuditBodyMaxBytes c)
    (list_to_set (ToLower <$> AuditRedactFields c)).

Definition when (b : bool) (m : Fn unit) : Fn unit := if b then m else mret ().

(** Tracing, when it is enabled. *)
Definition openTracing (c : Config) : Fn unit :=
  when (tr_Enabled (Config.Tracing c))
    (_ ← when (exporter_started c && negb (is_Ok (tracing_Init c))) (opening RExporter);
     _ ← attempt (wrap "init tracing" (tracing_Init c));
     _ ← opening RTracer;
     defer RTracer).

Definition runServe : result unit * list event := returns (
  c ← attempt (Load (env_ReadFile E) (env_Stat E) (env_Decoded E) (env_order E));
  _ ← openTracing c;
  postgres ← attempt (openKeyStore (DB_DSN c));
  _ ← when postgres (opening RStore);
  _ ← when postgres (defer RStore);
  logger ← attempt (openAuditLog (AuditLog c) (AuditBufferSize c) (AuditEnqueueTimeout c));
  _ ← when (bool_decide (is_Some logger)) (opening RAudit);
  _ ← when (bool_decide (is_Some logger)) (defer RAudit);
  _ ← attempt (startPlugins c);
  _ ← when true (opening RPlugins);
  _ ← when true (defer RPlugins);
  balanced ← attempt (startBackend c);
  _ ← when balanced (opening RBackend);
  _ ← when balanced (defer RBackend);
  let limiter := openRateLimiter c in
  _ ← when (bool_decide (is_Some limiter)) (opening RLimiter);
  _ ← when (bool_decide (is_Some limiter)) (defer RLimiter);
  resolver ← attempt (wrap "build client IP resolver" (ClientIP.New (TrustedProxies c)));
  keygen ← attempt (wrap "hmac secret" (adminGenerator c));
  let adminSrv := newAdminServer (Admin_Listen c) (AdminToken c) in
  _ ← when (bool_decide (is_Some adminSrv)) (opening RAdminLimiter);
  _ ← when true (opening RSignals);
  _ ← when true (defer RSignals);
  _ ← serving (mkWiring (Listen c) (MaxBodySize c) (auditOptions c) limiter resolver
        (hmacSecretMap c) keygen (knownRoles c) postgres adminSrv
        (if (0 <? KeyCleanupInterval c)%Z then Some (KeyCleanupInterval c) else None));
  attempt (env_Serve E)).

End Serve.

(** ** Signals and timers *)

(** The channel of the SIGHUP handler holds one signal; further ones are merged. *)
Record hangup := mkHangup { h_pending : bool; h_total : nat; h_logger : Logger; h_exited : bool }.

Inductive hupevent := Hup | Received | DoneClosed.

Definition handleSIGHUP (ev : hupevent) (h : hangup) : hangup :=
  if h_exited h then h
  else match ev with
  | Hup => mkHangup true (h_total h) (h_logger h) false
  | Received => if h_pending h then mkHangup false (S (h_total h)) (Reopen (h_logger h)) false else h
  | DoneClosed => mkHangup (h_pending h) (h_total h) (h_logger h) true
  end.

Inductive timer := Tick (now : Time) | Cancelled.

Section Cleanup.
Context {S C : Type} `{KeyManager S C}.

Definition cleanupTick (now : Time) (s : S) : S :=
  match DeleteExpired now s with
  | (Err _, s) => s
  | (Ok n, s) =>
      if (0 <? n)%Z then
        (AuditKeyEvent (mkKeyEvent "" "auto_cleanup" "system" None (Some [("deleted", AInt n)])) s).2
      else s
  end.

Fixpoint runKeyCleanup (evs : list timer) (s : S) : S :=
  match evs with
  | [] | Cancelled :: _ => s
  | Tick now :: evs => runKeyCleanup evs (cleanupTick now s)
  end.
End Cleanup.

(** ** The servers *)

Inductive server := SProxy | SMetrics | SAdmin.
#[global] Instance server_eq_dec : EqDecision server.
Proof. solve_decision. Defined.

Inductive serverState := Running | Failed | ShutDown.

(** Where the main goroutine of [listenAndServe] is. *)
Inductive mainState :=
  | Selecting
  | ShuttingDown (todo : list server) (ret : result unit)
  | Returned (ret : result unit).

Record life := mkLife {
  l_servers : server → serverState;
  l_errCh : list gerror;
  l_cancelled : bool;
  l_shutdowns : list server;
  l_main : mainState;
}.

Definition serverName (s : server) : string :=
  match s with SProxy => "proxy server" | SMetrics => "metrics server" | SAdmin => "admin server" end.

(** [shutdownAll]: the order of the calls of [Shutdown]. *)
Definition shutdownAll (admin : bool) : list server :=
  if admin then [SAdmin; SMetrics; SProxy] else [SMetrics; SProxy].

Definition set_server (s : server) (st : serverState) (f : server → serverState) : server → serverState :=
  λ s', if decide (s' = s) then st else f s'.

(** [errCh] has room for three. *)
Definition errChCap : nat := 3.

Inductive listenAndServe (admin : bool) : life → life → Prop :=
  | life_fails s e l :
      s ∈ shutdownAll admin → l_servers l s = Running → length (l_errCh l) < errChCap →
      listenAndServe admin l
        (mkLife (set_server s Failed (l_servers l)) (l_errCh l ++ [ErrWrap (serverName s) e])
           (l_cancelled l) (l_shutdowns l) (l_main l))
  | life_signal l :
      listenAndServe admin l (mkLife (l_servers l) (l_errCh l) true (l_shutdowns l) (l_main l))
  | life_error e rest l :
      l_main l = Selecting → l_errCh l = e :: rest →
      listenAndServe admin l
        (mkLife (l_servers l) rest (l_cancelled l) (l_shutdowns l) (ShuttingDown (shutdownAll admin) (Err e)))
  | life_done l :
      l_main l = Selecting → l_cancelled l = true →
      listenAndServe admin l
        (mkLife (l_servers l) (l_errCh l) (l_cancelled l) (l_shutdowns l) (ShuttingDown (shutdownAll admin) (Ok ())))
  | life_shutdown s todo ret l :
      l_main l = ShuttingDown (s :: todo) ret →
      listenAndServe admin l
        (mkLife (match l_servers l s with Running => set_server s ShutDown (l_servers l) | _ => l_servers l end)
           (l_errCh l) (l_cancelled l) (l_shutdowns l ++ [s]) (ShuttingDown todo ret))
  | life_returns ret l :
      l_main l = ShuttingDown [] ret →
      listenAndServe admin l
        (mkLife (l_servers l) (l_errCh l) (l_cancelled l) (l_shutdowns l) (Returned ret)).

Definition started : life := mkLife (λ _, Running) [] false [] Selecting.

(** ** Lemmas: deferred calls *)

(** What the code closes: everything but the exporter of a failed [tracing.Init] and the
    admin server's rate limiter. *)
Definition closable (r : resource) : Prop := r ≠ RExporter ∧ r ≠ RAdminLimiter.
#[global] Instance closable_dec r : base.Decision (closable r).
Proof. apply and_dec; apply _. Defined.

(** Resources are opened, perhaps the servers run, and what is closable is closed in
    reverse order. *)
Definition balanced (opened : list resource) (served : option wiring) (log : list event) : Prop :=
  log = (Opened <$> opened) ++ option_list (Served <$> served) ++ (Closed <$> reverse (filter closable opened)).

(** The order of the code. *)
Definition order : list resource :=
  [RTracer; RStore; RAudit; RPlugins; RBackend; RLimiter; RAdminLimiter; RSignals].

(** So far only these were opened, and each closable one has its deferred close. *)
Definition holding (f : frame) (opened : list resource) : Prop :=
  f_log f = Opened <$> opened ∧ f_defers f = reverse (filter closable opened).
Definition frame_ok (k : nat) (f : frame) : Prop := ∃ opened, holding f opened ∧ opened `sublist_of` take k order.

(** How a function ends that was called with the first [k] resources behind it. *)
Inductive ending (x : result unit) (f : frame) : Prop :=
  | end_served w opened :
      f_log f = (Opened <$> opened) ++ [Served w] → f_defers f = reverse (filter closable opened) →
      opened `sublist_of` order → (RAdminLimiter ∈ opened → is_Some (w_admin w)) → ending x f
  | end_failed e opened :
      x = Err e → holding f opened → NoDup opened → RAdminLimiter ∉ opened →
      (RExporter ∈ opened → ∃ e0, e = ErrWrap "init tracing" e0) → ending x f.
Definition ends (k : nat) (m : Fn unit) : Prop := ∀ f, frame_ok k f → ending (m f).1 (m f).2.

Lemma NoDup_order : NoDup order.
Proof. by apply (bool_decide_unpack _). Qed.

Lemma order_before k opened :
  k ≤ 6 → opened `sublist_of` take k order → NoDup opened ∧ RAdminLimiter ∉ opened ∧ RExporter ∉ opened.
Proof.
  intros Hk Hs. split; [eapply sublist_NoDup; [exact NoDup_order|]; etrans; [exact Hs|apply sublist_take]|].
  assert (RAdminLimiter ∉ take k order ∧ RExporter ∉ take k order) as [H1 H2].
  { do 7 (destruct k as [|k]; [split; by apply (bool_decide_unpack _)|]). lia. }
  split; intros Hin; [apply H1|apply H2]; by eapply elem_of_sublist.
Qed.

Lemma ends_attempt {A} k (y : result A) (rest : A → Fn unit) :
  k ≤ 6 → (∀ a, ends k (rest a)) → ends k (attempt y ≫= rest).
Proof.
  intros Hk Hr f Hf. destruct y as [a|e]; [by apply Hr|]. destruct Hf as (opened & Ho & Hs).
  destruct (order_before k opened Hk Hs) as (? & ? & ?). by eapply end_failed.
Qed.

(** A component opens [r], and the next statement defers its closing. *)
Lemma ends_pair k b r (rest : unit → Fn unit) :
  order !! k = Some r → closable r → (∀ u, ends (S k) (rest u)) →
  ends k (_ ← when b (opening r); when b (defer r) ≫= rest).
Proof.
  intros Hk Hc Hr f (opened & [Hl Hd] & Hs).
  assert (take (S k) order = take k order ++ [r]) as Et by by apply take_S_r.
  destruct b; apply Hr.
  - exists (opened ++ [r]). rewrite Et. split; [|by apply sublist_app]. unfold holding. cbn [opening defer f_log f_defers].
    rewrite fmap_app, filter_app, filter_cons_True, reverse_app, Hl, Hd by done. done.
  - exists opened. split; [done|]. rewrite Et. etrans; [exact Hs|apply sublist_inserts_r; done].
Qed.

(** The last statements, with the admin server's limiter. *)
Lemma ends_serving b w (x : result unit) :
  (b = true → is_Some (w_admin w)) →
  ends 6 (_ ← when b (opening RAdminLimiter); _ ← when true (opening RSignals); _ ← when true (defer RSignals);
          _ ← serving w; attempt x).
Proof.
  intros Hb f (opened & [Hl Hd] & Hs). destruct (order_before 6 opened ltac:(done) Hs) as (_ & Hn & _).
  eapply (end_served _ _ w (opened ++ (if b then [RAdminLimiter] else []) ++ [RSignals])).
  - destruct b; unfold when, mbind, Fn_bind, opening, defer, serving, attempt, mret, Fn_ret; cbn [snd f_log f_defers];
      rewrite Hl, !fmap_app, <- !app_assoc; done.
  - rewrite !filter_app, !reverse_app, <- Hd. by destruct b.
  - change order with (take 6 order ++ [RAdminLimiter; RSignals]). apply sublist_app; [done|].
    destruct b; [done|by apply sublist_cons].
  - rewrite !elem_of_app. intros [?|[Hin|Hin]]; [done| |by apply list_elem_of_singleton in Hin].
    destruct b; [by apply Hb|by apply not_elem_of_nil in Hin].
Qed.

Lemma ends_tracing E c (rest : unit → Fn unit) : (∀ u, ends 1 (rest u)) → ends 0 (openTracing E c ≫= rest).
Proof.
  intros Hr f (opened & [Hl Hd] & Hs). assert (opened = []) as -> by by apply sublist_nil_r in Hs.
  unfold openTracing, mbind, Fn_bind. destruct (tr_Enabled (Config.Tracing c)); cbn [when].
  2: { apply Hr. exists []. split; [done|apply sublist_nil_l]. }
  destruct (tracing_Init E c) as [tp|e]; cbn [is_Ok negb]; rewrite ?andb_false_r, ?andb_true_r; cbn [when].
  - apply Hr. exists [RTracer]. split; [|done]. by split; cbn; rewrite ?Hl, ?Hd.
  - destruct (exporter_started E c); cbn [when].
    + eapply (end_failed _ _ _ [RExporter]); [done| | | |].
      * by split; cbn; rewrite ?Hl, ?Hd.
      * apply NoDup_singleton.
      * by apply (bool_decide_unpack _).
      * by eexists.
    + eapply (end_failed _ _ _ []); [done|by split|by apply NoDup_nil_2|by apply not_elem_of_nil|by intros ?%not_elem_of_nil].
Qed.

(** ** Lemmas: a start from a validated configuration *)

Lemma NewManager_loop_Ok todo m :
  Forall (λ t, is_Ok (startPlugin t.1.1 t.1.2 t.2).2 = true) todo → (NewManager_loop todo m).1 = Ok ().
Proof.
  intros Hf. revert m. induction Hf as [|[[name pc] env] todo Hs Hf IH]; intros m; [done|]. cbn in Hs |- *.
  destruct (startPlugin name pc env).2 as [inst|]; [|done]. destruct (alloc inst m). apply IH.
Qed.

Lemma startPlugins_Ok E c pcs :
  openPluginManager (env_order E) c = Ok pcs →
  Forall (λ p, is_Ok (startPlugin p.1 p.2 (env_Plugin E p.1)).2 = true) pcs →
  is_Ok (startPlugins E c) = true.
Proof.
  intros Hp Hf. unfold startPlugins. rewrite Hp. cbn [mbind result_bind]. unfold NewManager.
  match goal with |- context [NewManager_loop ?t ?m] => pose proof (NewManager_loop_Ok t m) as Hl;
    destruct (NewManager_loop t m) as [o m'] end.
  cbn in Hl. rewrite Hl; [done|]. by apply Forall_fmap.
Qed.

(** Every backend's URL parses. *)
Lemma startBackend_Ok E c :
  Forall (λ b, is_Ok (env_url_Parse E (ub_URL b)) = true) (Backends c) → Backends c ≠ [] →
  is_Ok (startBackend E c) = true.
Proof.
  intros Hf Hne. unfold startBackend, openBackend. destruct (Backends c) as [|b [|b' bs]] eqn:Eb; [done| |].
  - apply Forall_cons in Hf as [Hb _]. by destruct (env_url_Parse E (ub_URL b)).
  - unfold Balancer.New. rewrite bool_decide_false by done.
    assert (∀ l, Forall (λ b, is_Ok (env_url_Parse E (ub_URL b)) = true) l →
      ∃ es, (fix go l := match l with
                | [] => mret []
                | (u, key) :: l' => t ← env_url_Parse E u; es ← go l'; mret (mkEntry t u key true :: es)
                end) ((λ b, (ub_URL b, ub_APIKey b)) <$> l) = Ok es) as Hgo.
    { induction 1 as [|x l Hx Hl (es & IH)]; [by eexists|]. cbn. destruct (env_url_Parse E (ub_URL x)); [|done].
      cbn. cbn in IH. rewrite IH. by eexists. }
    destruct (Hgo _ Hf) as (es & ->). done.
Qed.

(** ** Lemmas: the servers *)

#[global] Instance serverState_eq_dec : EqDecision serverState.
Proof. solve_decision. Defined.

Definition failures (admin : bool) (f : server → serverState) : nat :=
  length (filter (λ s, f s = Failed) (shutdownAll admin)).

Definition reported (admin : bool) (f : server → serverState) (e : gerror) : Prop :=
  ∃ s e0, s ∈ shutdownAll admin ∧ f s = Failed ∧ e = ErrWrap (serverName s) e0.

(** The result that was decided on. *)
Definition justified (admin : bool) (l : life) (ret : result unit) : Prop :=
  match ret with Ok _ => l_cancelled l = true | Err e => reported admin (l_servers l) e end.

Record life_inv (admin : bool) (l : life) : Prop := {
  inv_errs : length (l_errCh l) ≤ failures admin (l_servers l);
  inv_reported : Forall (reported admin (l_servers l)) (l_errCh l);
  inv_down s : s ∈ l_shutdowns l → l_servers l s ≠ Running;
  inv_main : match l_main l with
             | Selecting => l_shutdowns l = []
             | ShuttingDown todo ret => l_shutdowns l ++ todo = shutdownAll admin ∧ justified admin l ret
             | Returned ret => l_shutdowns l = shutdownAll admin ∧ justified admin l ret
             end;
}.

Lemma set_server_eq s st f : set_server s st f s = st.
Proof. unfold set_server. by rewrite decide_True. Qed.
Lemma set_server_ne s st f s' : s' ≠ s → set_server s st f s' = f s'.
Proof. intros. unfold set_server. by rewrite decide_False. Qed.

Lemma failed_fails s f (l : list server) :
  NoDup l → s ∈ l → f s = Running →
  length (filter (λ x, set_server s Failed f x = Failed) l) = S (length (filter (λ x, f x = Failed) l)) ∧
  length (filter (λ x, f x = Failed) l) < length l.
Proof.
  assert (∀ l : list server, s ∉ l → filter (λ x, set_server s Failed f x = Failed) l = filter (λ x, f x = Failed) l) as Hno.
  { clear. induction l as [|a l IH]; [done|]. rewrite not_elem_of_cons. intros [Ha Hl].
    rewrite !filter_cons, set_server_ne, (IH Hl) by done. done. }
  intros Hnd Hin Hr. induction Hnd as [|a l Ha Hnd IH]; [by apply elem_of_nil in Hin|].
  rewrite !filter_cons. destruct (decide (a = s)) as [->|Hne].
  - rewrite set_server_eq, decide_True, Hr, decide_False, Hno by done. cbn. split; [done|].
    pose proof (length_filter (λ x, f x = Failed) l). lia.
  - rewrite set_server_ne by done. apply elem_of_cons in Hin as [<-|Hin]; [done|].
    destruct (IH Hin) as [IH1 IH2]. case_decide; cbn; lia.
Qed.

Lemma failures_fails admin s f :
  s ∈ shutdownAll admin → f s = Running →
  failures admin (set_server s Failed f) = S (failures admin f) ∧ failures admin f < length (shutdownAll admin).
Proof. apply failed_fails. destruct admin; by apply (bool_decide_unpack _). Qed.

Lemma failures_down admin s f : f s = Running → failures admin (set_server s ShutDown f) = failures admin f.
Proof.
  intros Hr. unfold failures. f_equal. apply list_filter_iff. intros s'. unfold set_server.
  case_decide; [subst; rewrite Hr; done|done].
Qed.

(** What was reported stays reported. *)
Lemma reported_mono admin f f' e :
  (∀ s, f s = Failed → f' s = Failed) → reported admin f e → reported admin f' e.
Proof. intros Hf (s & e0 & Hs & Hx & ->). exists s, e0. auto. Qed.

Lemma set_server_failed s st f s' : f s = Running → f s' = Failed → set_server s st f s' = Failed.
Proof. unfold set_server. case_decide; congruence. Qed.

Lemma justified_step admin l l' ret :
  (∀ s, l_servers l s = Failed → l_servers l' s = Failed) → (l_cancelled l = true → l_cancelled l' = true) →
  justified admin l ret → justified admin l' ret.
Proof. destruct ret; cbn; [auto|]. intros Hf _. by apply reported_mono. Qed.

Lemma life_inv_step admin l l' : listenAndServe admin l l' → life_inv admin l → life_inv admin l'.
Proof.
  intros Hs [He Hr Hd Hm]. destruct Hs as [s e l Hin Hrun Hcap|l|e rest l Hsel Herr|l Hsel Hc|s todo ret l Hsd|ret l Hsd].
  - assert (∀ s', l_servers l s' = Failed → set_server s Failed (l_servers l) s' = Failed) as Hmono
      by (intros; by apply set_server_failed).
    destruct (failures_fails admin s (l_servers l) Hin Hrun) as [Hf _]. split; cbn.
    + rewrite Hf, length_app. cbn. lia.
    + apply Forall_app. split; [eapply Forall_impl; [done|]; intros; by eapply reported_mono|].
      constructor; [|done]. exists s, e. unfold set_server. by rewrite decide_True.
    + intros s' Hs'. unfold set_server. case_decide; [done|by apply Hd].
    + destruct (l_main l) as [|todo ret|ret]; [done| |]; destruct Hm as [Hm1 Hm2]; (split; [done|]);
        by eapply justified_step; [| |exact Hm2].
  - split; cbn; try done. destruct (l_main l) as [|todo ret|ret]; [done| |]; destruct Hm as [Hm1 Hm2];
      (split; [done|]); by eapply justified_step; [| |exact Hm2].
  - rewrite Hsel in Hm. rewrite Herr in He, Hr. apply Forall_cons in Hr as [Hr1 Hr2].
    split; cbn in *; [lia|done|done|by rewrite Hm].
  - rewrite Hsel in Hm. split; cbn; [done..|by rewrite Hm].
  - rewrite Hsd in Hm. destruct Hm as [Hm1 Hm2].
    assert (∀ s', l_servers l s' = Failed → (match l_servers l s with Running => set_server s ShutDown (l_servers l)
      | _ => l_servers l end) s' = Failed) as Hmono.
    { intros s' Hs'. destruct (l_servers l s) eqn:Es; [by apply set_server_failed|done..]. }
    split; cbn.
    + destruct (l_servers l s) eqn:Es; [|done..]. by rewrite failures_down.
    + eapply Forall_impl; [done|]. intros e. by apply reported_mono.
    + intros s' [Hs'| ->%list_elem_of_singleton]%elem_of_app.
      * destruct (l_servers l s); [|by apply Hd..]. unfold set_server. case_decide; [done|by apply Hd].
      * destruct (l_servers l s) eqn:Es; [|by rewrite Es..]. unfold set_server. by rewrite decide_True.
    + rewrite <- app_assoc. split; [done|]. by eapply justified_step; [| |exact Hm2].
  - rewrite Hsd in Hm. destruct Hm as [Hm1 Hm2]. rewrite app_nil_r in Hm1. by split.
Qed.

Lemma life_inv_reachable admin l : rtc (listenAndServe admin) started l → life_inv admin l.
Proof.
  apply (rtc_ind_r (life_inv admin)).
  - split; cbn; [lia|constructor|intros s Hs; by apply elem_of_nil in Hs|done].
  - intros l1 l2 _ Hs. by apply life_inv_step.
Qed.

(** The steps the main goroutine still has to take. *)
Definition steps_left (admin : bool) (m : mainState) : nat :=
  match m with
  | Selecting => 2 + length (shutdownAll admin)
  | ShuttingDown todo _ => 1 + length todo
  | Returned _ => 0
  end.

Lemma runServe_ends `{JsonLib} (E : environment) :
  ∃ f, ending (runServe E).1 f ∧ (runServe E).2 = f_log f ++ (Closed <$> f_defers f).
Proof.
  unfold runServe, returns. match goal with |- context [?m (mkFrame [] [])] => assert (ends 0 m) as Hm end.
  { apply ends_attempt; [lia|intros c]. apply ends_tracing; intros _.
    apply ends_attempt; [lia|intros pg]. apply ends_pair; [done|done|intros _].
    apply ends_attempt; [lia|intros lg]. apply ends_pair; [done|done|intros _].
    apply ends_attempt; [lia|intros mg]. apply ends_pair; [done|done|intros _].
    apply ends_attempt; [lia|intros bal]. apply ends_pair; [done|done|intros _]. cbv zeta.
    apply ends_pair; [done|done|intros _]. apply ends_attempt; [lia|intros rs]. apply ends_attempt; [lia|intros g].
    apply ends_serving. cbn. apply bool_decide_eq_true_1. }
  specialize (Hm (mkFrame [] [])). match goal with |- context [?m (mkFrame [] [])] => destruct (m (mkFrame [] [])) as [x f] end.
  exists f. split; [|done]. apply Hm. exists []. split; [done|apply sublist_nil_l].
Qed.

Lemma runServe_balanced `{JsonLib} (E : environment) :
  let '(x, log) := runServe E in
  ∃ opened served, balanced opened served log ∧ NoDup opened ∧
    (is_Ok x = true → is_Some served) ∧
    (RAdminLimiter ∈ opened → ∃ w, served = Some w ∧ is_Some (w_admin w)) ∧
    (RExporter ∈ opened → served = None ∧ ∃ e, x = Err (ErrWrap "init tracing" e)).
Proof.
  destruct (runServe_ends E) as (f & He & Hlog). destruct (runServe E) as [x log]. cbn [fst snd] in *. subst log.
  destruct He as [w opened Hl Hd Hs Ha|e opened -> [Hl Hd] Hn Ha Hx]; exists opened.
  - exists (Some w). unfold balanced. rewrite Hl, Hd. cbn. rewrite <- app_assoc. split_and!; try done.
    + eapply sublist_NoDup; [exact NoDup_order|done].
    + intros Hin. exists w. split; [done|by apply Ha].
    + intros Hin. exfalso. assert (RExporter ∉ order) as Hno by by apply (bool_decide_unpack _). apply Hno. by eapply elem_of_sublist.
  - exists None. unfold balanced. rewrite Hl, Hd. cbn. split_and!; try done. intros Hin. destruct (Hx Hin) as [e0 ->]. eauto.
Qed.

(** ** Properties *)

(** C21: however starting and running the gateway ends, everything it has opened is closed
    exactly once, in reverse order of opening and after [listenAndServe] has returned,
    except for two things that are never closed: the trace exporter of a [tracing.Init]
    that fails after creating it, and, once the servers run with an admin server, the rate
    limiter of that server.  Success is reported only when the servers ran. *)
Theorem serve_closes_everything `{JsonLib} (E : environment) :
  let '(x, log) := runServe E in
  ∃ opened served,
    log = (Opened <$> opened) ++ option_list (Served <$> served) ++ (Closed <$> reverse (filter closable opened)) ∧
    NoDup opened ∧ (is_Ok x = true → is_Some served) ∧
    (RAdminLimiter ∈ opened → ∃ w, served = Some w ∧ is_Some (w_admin w)) ∧
    (RExporter ∈ opened → served = None ∧ ∃ e, x = Err (ErrWrap "init tracing" e)).
Proof. exact (runServe_balanced E). Qed.

(** What the outside world has to grant: the exporter, the database with its
    migrations, the log file, the plugin processes and parseable URLs, each as far as the
    configuration asks for it. *)
Record granted (E : environment) (c : Config) : Prop := {
  granted_tracing : tr_Enabled (Config.Tracing c) = true → is_Ok (tracing_Init E c) = true;
  granted_store : is_Ok (openKeyStore E (DB_DSN c)) = true;
  granted_log : AuditLog c ≠ "" → is_Ok (env_OpenLog E) = true;
  granted_plugins : env_order E ≠ [] ∧
    ∀ name pc, PluginConfigResolved name c = Ok pc →
               is_Ok (startPlugin name (toManager pc) (env_Plugin E name)).2 = true;
  granted_urls : Forall (λ b, is_Ok (env_url_Parse E (ub_URL b)) = true) (Backends c);
}.

(** With tracing enabled, and an SDK whose default resource has a schema URL other than
    the one in the code, the gateway never starts: [runServe] fails, and an exporter that
    could be created is left open. *)
Theorem serve_tracing_conflict `{JsonLib} (E : environment) c :
  Load (env_ReadFile E) (env_Stat E) (env_Decoded E) (env_order E) = Ok c →
  tr_Enabled (Config.Tracing c) = true →
  schemas_conflict (@resource_Default (env_otel E)) serviceResource = true →
  ∃ e, runServe E = (Err (ErrWrap "init tracing" e), if exporter_started E c then [Opened RExporter] else []).
Proof.
  intros Hload Ht Hc. unfold runServe, returns, mbind, Fn_bind, attempt, openTracing. rewrite Hload. cbv beta iota.
  rewrite Ht. cbn [when].
  pose proof (@Init_fails (env_otel E) (mkTracingOptions (tr_Endpoint (Config.Tracing c))
    (tr_Insecure (Config.Tracing c)) (tr_SampleRate (Config.Tracing c))) (env_globals E) Hc) as Hi.
  fold (tracing_run E c) in Hi. fold (tracing_Init E c) in Hi.
  destruct (tracing_Init E c) as [tp|e]; [done|]. cbn [is_Ok negb]. rewrite andb_true_r.
  exists e. by destruct (exporter_started E c).
Qed.

Lemma openPluginManager_Ok order c :
  order ≠ [] → Forall (λ p, is_Some (Plugins c !! p.1)) order →
  ∃ pcs, openPluginManager order c = Ok pcs ∧
    Forall (λ p, ∃ pc, PluginConfigResolved p.1 c = Ok pc ∧ p.2 = toManager pc) pcs.
Proof.
  intros Hne Hf. unfold openPluginManager. rewrite bool_decide_false by (by destruct order). clear Hne.
  induction Hf as [|[name pe] order [pc Hpc] Hf (pcs & IH & IHf)]; [by exists []|]. cbn in Hpc.
  assert (∃ r, PluginConfigResolved name c = Ok r) as [r Hr].
  { unfold PluginConfigResolved. rewrite Hpc. eauto. }
  rewrite Hr, IH. exists ((name, toManager r) :: pcs). split; [done|]. constructor; [by eauto|done].
Qed.

Lemma openAuditLog_Ok E path buf timeout :
  (path ≠ "" → is_Ok (env_OpenLog E) = true) → is_Ok (openAuditLog E path buf timeout) = true.
Proof.
  intros Ho. unfold openAuditLog. destruct (String.eqb_spec path ""); [done|].
  specialize (Ho ltac:(done)). by destruct (env_OpenLog E).
Qed.

(** The function gets to the servers with [w] and returns [x]. *)
Definition reaches (w : wiring) (x : result unit) (m : Fn unit) : Prop :=
  ∀ f, ∃ f', m f = (x, f') ∧ Served w ∈ f_log f'.

Lemma reaches_attempt {A} w x (y : result A) a (k : A → Fn unit) :
  y = Ok a → reaches w x (k a) → reaches w x (attempt y ≫= k).
Proof. intros -> Hk f. apply Hk. Qed.

Lemma reaches_bind w x (m : Fn unit) (k : unit → Fn unit) :
  (∀ f, ∃ f', m f = (Ok (), f')) → reaches w x (k ()) → reaches w x (m ≫= k).
Proof. intros Hm Hk f. unfold mbind, Fn_bind. destruct (Hm f) as [f' ->]. apply Hk. Qed.

Lemma opened_Ok b r f : ∃ f', when b (opening r) f = (Ok (), f').
Proof. destruct b; by eexists. Qed.
Lemma deferred_Ok b r f : ∃ f', when b (defer r) f = (Ok (), f').
Proof. destruct b; by eexists. Qed.

Lemma served_balanced opened served w log :
  balanced opened served log → Served w ∈ log → served = Some w.
Proof.
  unfold balanced. intros ->. rewrite !elem_of_app, !list_elem_of_fmap.
  intros [(? & ? & _)|[Hs|(? & ? & _)]]; [done| |done].
  destruct served as [w'|]; cbn in Hs; [|by apply elem_of_nil in Hs].
  apply list_elem_of_singleton in Hs. by injection Hs as ->.
Qed.

(** The plugins of a loaded configuration start when their processes do. *)
Lemma plugins_start E c :
  env_order E ≡ₚ map_to_list (Plugins c) → granted E c → is_Ok (startPlugins E c) = true.
Proof.
  intros Ho Hg. destruct (granted_plugins _ _ Hg) as [Hne Hst].
  destruct (openPluginManager_Ok (env_order E) c Hne) as (pcs & Hpcs & Hf).
  { rewrite Ho. apply Forall_forall. intros [n p] Hp%elem_of_map_to_list. by exists p. }
  eapply startPlugins_Ok; [done|]. eapply Forall_impl; [done|]. intros [n p] (pc & Hr & ->). by apply Hst.
Qed.

Definition wiring_of `{JsonLib} (c : Config) (rs : Resolver) (g : Generator) (pg : bool) : wiring :=
  mkWiring (Listen c) (MaxBodySize c) (auditOptions c) (openRateLimiter c) rs (hmacSecretMap c) g
    (knownRoles c) pg (newAdminServer (Admin_Listen c) (AdminToken c))
    (if (0 <? KeyCleanupInterval c)%Z then Some (KeyCleanupInterval c) else None).

(** When every component opens, the servers run. *)
Lemma runServe_reaches `{JsonLib} E c pg lg mgr bal rs g :
  Load (env_ReadFile E) (env_Stat E) (env_Decoded E) (env_order E) = Ok c → granted E c →
  openKeyStore E (DB_DSN c) = Ok pg →
  openAuditLog E (AuditLog c) (AuditBufferSize c) (AuditEnqueueTimeout c) = Ok lg →
  startPlugins E c = Ok mgr → startBackend E c = Ok bal →
  ClientIP.New (TrustedProxies c) = Ok rs → adminGenerator c = Ok g →
  ∃ log, runServe E = (env_Serve E, log) ∧ Served (wiring_of c rs g pg) ∈ log.
Proof.
  intros Hload Hg Epg Elg Emg Ebk Hrs Hgen. unfold runServe, returns. set (w := wiring_of c rs g pg).
  match goal with |- context [?m (mkFrame [] [])] => assert (reaches w (env_Serve E) m) as Hm end.
  { eapply reaches_attempt; [exact Hload|].
    apply reaches_bind. { unfold openTracing. destruct (tr_Enabled (Config.Tracing c)) eqn:Et; [|by eexists].
      pose proof (granted_tracing _ _ Hg Et) as Ht. intros f. destruct (tracing_Init E c); [|done]. cbn [is_Ok negb].
      rewrite andb_false_r. by eexists. }
    eapply reaches_attempt; [exact Epg|]. apply reaches_bind; [apply opened_Ok|]. apply reaches_bind; [apply deferred_Ok|].
    eapply reaches_attempt; [exact Elg|]. apply reaches_bind; [apply opened_Ok|]. apply reaches_bind; [apply deferred_Ok|].
    eapply reaches_attempt; [exact Emg|]. apply reaches_bind; [apply opened_Ok|]. apply reaches_bind; [apply deferred_Ok|].
    eapply reaches_attempt; [exact Ebk|]. apply reaches_bind; [apply opened_Ok|]. apply reaches_bind; [apply deferred_Ok|].
    cbv zeta. apply reaches_bind; [apply opened_Ok|]. apply reaches_bind; [apply deferred_Ok|].
    eapply reaches_attempt; [by rewrite Hrs|]. eapply reaches_attempt; [by rewrite Hgen|].
    apply reaches_bind; [apply opened_Ok|]. apply reaches_bind; [apply opened_Ok|]. apply reaches_bind; [apply deferred_Ok|].
    intros f. eexists. split; [done|]. cbn. apply elem_of_app. right. by apply list_elem_of_singleton. }
  destruct (Hm (mkFrame [] [])) as (f' & -> & Hin). eexists. split; [done|]. apply elem_of_app. by left.
Qed.

(** A configuration that passed the validation leaves only outside reasons for
    a failed start.  When the exporter, the database, the log file, the plugins and
    the URLs are there, the servers run on the configured addresses, with the limits, the
    audit options, the secrets and the roles of the configuration, the trusted networks in
    order, an admin server exactly when a token is set, and a key generator whose keys the
    authentication accepts; and [serve] returns what the servers return. *)
Theorem serve_starts `{JsonLib} (E : environment) c0 c :
  env_Decoded E = Ok c0 → env_order E ≡ₚ map_to_list (Plugins c0) →
  Load (env_ReadFile E) (env_Stat E) (Ok c0) (env_order E) = Ok c →
  NoDup (hs_ID <$> HmacSecrets c) → granted E c →
  ∃ w opened, balanced opened (Some w) (runServe E).2 ∧ (runServe E).1 = env_Serve E ∧
    w_listen w = Listen c ∧ w_maxBody w = MaxBodySize c ∧ LogBody (w_audit w) = AuditLogBody c ∧
    FailClosed (w_audit w) = AuditFailClosed c ∧ BodyMaxBytes (w_audit w) = AuditBodyMaxBytes c ∧
    (∀ field, field ∈ RedactFields (w_audit w) ↔ ∃ x, x ∈ AuditRedactFields c ∧ field = ToLower x) ∧
    w_limiter w = openRateLimiter c ∧ ClientIP.New (TrustedProxies c) = Ok (w_resolver w) ∧
    w_knownRoles w = dom (Plugins c) ∧
    w_admin w = (if (AdminToken c =? "")%go then None else Some (Admin_Listen c)) ∧
    (∀ secret rec, KeyHash rec = Hash (w_keygen w) secret → HmacKeyID rec = hmacKeyID (w_keygen w) →
       Authenticate (NewHmacService (w_secrets w)) secret rec = Ok ()).
Proof.
  intros Hdec Ho Hload Hnd Hg. pose proof Hload as Hl.
  apply (Load_valid _ _ _ _ _ Ho) in Hl as [Hres Hv].
  apply resolveSecretFiles_Ok in Hres. destruct (resolve_Plugins _ _ _ Hres) as [Hpl _].
  destruct (generator_verifies _ _ Hv Hnd) as (g & Hgen & Hver).
  destruct (New_resolver _ (valid_proxies _ _ Hv)) as (rs & Hrs & _).
  destruct (valid_backends _ _ Hv) as [Hb _].
  pose proof (startBackend_Ok E c (granted_urls _ _ Hg) Hb) as Hbk.
  pose proof (openAuditLog_Ok E (AuditLog c) (AuditBufferSize c) (AuditEnqueueTimeout c) (granted_log _ _ Hg)) as Hlog.
  assert (is_Ok (startPlugins E c) = true) as Hps by (apply plugins_start; [by rewrite Ho, Hpl|done]).
  pose proof (granted_store _ _ Hg) as Hst.
  destruct (openKeyStore E (DB_DSN c)) as [pg|] eqn:Epg; [|done].
  destruct (openAuditLog _ _ _ _) as [lg|] eqn:Elg; [|done].
  destruct (startPlugins E c) as [mgr|] eqn:Emg; [|done].
  destruct (startBackend E c) as [bal|] eqn:Ebk; [|done].
  rewrite <- Hdec in Hload.
  destruct (runServe_reaches E c pg lg mgr bal rs g) as (log & Hrun & Hw); try done.
  pose proof (runServe_balanced E) as Hb2. rewrite Hrun in Hb2. destruct Hb2 as (opened & served & Hbal & _).
  rewrite (served_balanced _ _ _ _ Hbal Hw) in Hbal. exists (wiring_of c rs g pg), opened. rewrite Hrun.
  split_and!; try done. intros field. cbn. rewrite elem_of_list_to_set, list_elem_of_fmap. naive_solver.
Qed.

(** C22: in every state the servers can get into, a server that fails finds room on
    the error channel, so no goroutine is left blocked; and when [listenAndServe]
    returns, each server was shut down once, in the order of the code, and none is
    still running.  It returns nil only after a signal, and otherwise the error of a
    server that failed. *)
Theorem lifecycle_no_leak admin l :
  rtc (listenAndServe admin) started l →
  (∀ s, s ∈ shutdownAll admin → l_servers l s = Running → length (l_errCh l) < errChCap) ∧
  (∀ ret, l_main l = Returned ret →
     l_shutdowns l = shutdownAll admin ∧ (∀ s, s ∈ shutdownAll admin → l_servers l s ≠ Running) ∧
     match ret with
     | Ok _ => l_cancelled l = true
     | Err e => ∃ s e0, s ∈ shutdownAll admin ∧ l_servers l s = Failed ∧ e = ErrWrap (serverName s) e0
     end).
Proof.
  intros Hr%life_inv_reachable. destruct Hr as [He Hrep Hd Hm]. split.
  - intros s Hin Hrun. destruct (failures_fails admin s (l_servers l) Hin Hrun) as [_ Hlt].
    assert (length (shutdownAll admin) ≤ errChCap) by (by destruct admin; cbn; unfold errChCap; lia). lia.
  - intros ret Hret. rewrite Hret in Hm. destruct Hm as [Hs Hj]. split; [done|].
    split; [by intros s Hin; apply Hd; rewrite Hs|done].
Qed.

(** Once a server has failed or a signal has arrived, the main goroutine is
    never stuck and needs at most five more steps to return: nothing the servers or
    further signals do adds a step, and there is always a next one. *)
Theorem lifecycle_stops admin l :
  rtc (listenAndServe admin) started l →
  (∀ l', listenAndServe admin l l' → steps_left admin (l_main l') ≤ steps_left admin (l_main l)) ∧
  steps_left admin (l_main l) ≤ 5 ∧
  ((l_errCh l ≠ [] ∨ l_cancelled l = true ∨ l_main l ≠ Selecting) →
     (∃ ret, l_main l = Returned ret) ∨
     ∃ l', listenAndServe admin l l' ∧ S (steps_left admin (l_main l')) = steps_left admin (l_main l)).
Proof.
  intros Hr%life_inv_reachable. split_and!.
  - intros l' Hs. destruct Hs; cbn; try lia; repeat match goal with H : l_main _ = _ |- _ => rewrite H end; cbn; lia.
  - pose proof (inv_main _ _ Hr) as Hm. destruct (l_main l) as [|todo ret|ret]; cbn; [by destruct admin; cbn; lia| |lia].
    destruct Hm as [Hm _]. apply (f_equal length) in Hm. rewrite length_app in Hm.
    destruct admin; cbn in Hm; lia.
  - intros Hp. destruct (l_main l) as [|[|s todo] ret|ret] eqn:Em; [| | |by left; exists ret]; right.
    + destruct (l_errCh l) as [|e rest] eqn:Ee.
      * assert (l_cancelled l = true) as Hc by (destruct Hp as [?|[?|?]]; done).
        eexists. split; [by apply life_done|done].
      * eexists. split; [by eapply life_error|done].
    + eexists. split; [by apply life_returns|done].
    + eexists. split; [by eapply life_shutdown|done].
Qed.

(** *** Signals and timers *)

#[global] Instance hupevent_eq_dec : EqDecision hupevent.
Proof. solve_decision. Defined.

(** A reopening is requested at most once per signal: signals that arrive before the
    handler gets to them are merged, and none has an effect after the end. *)
Lemma handleSIGHUP_bounded evs h :
  h_total (foldl (λ h ev, handleSIGHUP ev h) h evs) ≤
  h_total h + (if h_pending h then 1 else 0) + length (filter (λ ev, ev = Hup) evs).
Proof.
  revert h. induction evs as [|ev evs IH]; intros h; cbn [foldl]; [cbn; lia|].
  etrans; [apply IH|]. rewrite filter_cons. unfold handleSIGHUP.
  destruct ev; [rewrite decide_True by done|rewrite decide_False by done..];
    destruct (h_exited h), (h_pending h) eqn:Ep; cbn [h_total h_pending length]; rewrite ?Ep; lia.
Qed.

Section CleanupContract.
Context {S C : Type} `{KeyManagerSpec S C}.

Lemma cleanupTick_keys now (s : S) id r :
  (keys (cleanupTick now s) !! id = Some r → keys s !! id = Some r) ∧
  (keys s !! id = Some r → expired (stamp now) r = false → keys (cleanupTick now s) !! id = Some r).
Proof.
  assert (keys (cleanupTick now s) = keys s ∨
          keys (cleanupTick now s) = filter (λ kr, expired (stamp now) kr.2 = false) (keys s)) as [->| ->].
  { unfold cleanupTick. destruct (DeleteExpired now s) as [[n|e] s1] eqn:E; apply DeleteExpired_spec in E; [|by left].
    destruct E as [E _]. right. destruct (0 <? n)%Z; [|done].
    destruct (AuditKeyEvent _ s1) as [o s2] eqn:Ea. cbn. by rewrite (AuditKeyEvent_spec _ _ _ _ Ea). }
  - done.
  - rewrite map_lookup_filter_Some. cbn. tauto.
Qed.

Fixpoint ticks (evs : list timer) : list Time :=
  match evs with [] | Cancelled :: _ => [] | Tick now :: evs => now :: ticks evs end.

(** The background cleanup never adds or changes a key, and removes none
    but those whose expiry lay before the time of a tick that came before the
    shutdown. *)
Theorem cleanup_removes_only_expired (evs : list timer) (s : S) :
  keys (runKeyCleanup evs s) ⊆ keys s ∧
  ∀ id r, keys s !! id = Some r → Forall (λ now, expired (stamp now) r = false) (ticks evs) →
          keys (runKeyCleanup evs s) !! id = Some r.
Proof.
  revert s. induction evs as [|[now|] evs IH]; intros s; cbn [runKeyCleanup ticks]; [done| |done].
  destruct (IH (cleanupTick now s)) as [IH1 IH2]. split.
  - etrans; [exact IH1|]. apply map_subseteq_spec. intros id r. apply cleanupTick_keys.
  - intros id r Hr [Hnow Hf]%Forall_cons. apply IH2; [|done]. by apply cleanupTick_keys.
Qed.
End CleanupContract.

(** ** Witnesses *)

#[local] Existing Instance ex_lib.

Definition ex_opening : Pg.opening := Pg.mkOpening (Ok ()) (Ok ()) (Ok ()) (Ok ()) (Ok ()) (λ _, false).
Definition ex_environment (plugin : startEnv) : environment :=
  mkEnvironment (λ _, Err (ErrMsg "no file")) ex_stat
    (mkViper (λ _, ReadNotFound) (λ _, Ok (ex_config [ex_hs "h2" "0123456789abcdef"]))) ""
    [("admin", mkPluginEntry "/p" "" 0 (mkCBConfig 0 0 0))] (sdk_with "") (mkGlobals None [] []) (Ok "/m") (Ok ()) ex_opening (Ok ())
    (λ _, plugin) (λ _, Ok (mkURL "http" "a:8081" "" "" "")) (Ok ()).

(** A start with an admin server: its limiter is the one resource that stays open.  A start
    whose plugin does not come up leaves nothing. *)
Example serve_leaves_admin_limiter :
  let log := (runServe (ex_environment PluginManager.ex_env)).2 in
  omap (λ e, if e is Opened r then Some r else None) log = [RPlugins; RLimiter; RAdminLimiter; RSignals] ∧
  omap (λ e, if e is Closed r then Some r else None) log = [RSignals; RLimiter; RPlugins] ∧
  (runServe (ex_environment (mkStartEnv (Some "elf") (Some 493%Z) (Err (ErrMsg "refused")) (Ok ()) true))).2 = [].
Proof. split_and!; vm_compute; reflexivity. Qed.

Lemma serve_starts_witness :
  ∃ w, w_listen w = ":8080" ∧ is_Some (w_admin w) ∧ (runServe (ex_environment PluginManager.ex_env)).1 = Ok ().
Proof.
  destruct (serve_starts (ex_environment PluginManager.ex_env) (ex_config [ex_hs "h2" "0123456789abcdef"])
    (ex_config [ex_hs "h2" "0123456789abcdef"])) as (w & opened & _ & Hx & Hl & _ & _ & _ & _ & _ & _ & _ & _ & Ha & _).
  - reflexivity.
  - vm_compute. reflexivity.
  - vm_compute. reflexivity.
  - apply (bool_decide_unpack _). vm_compute. exact I.
  - split; try (intros _; reflexivity); try reflexivity.
    + split; [discriminate|]. intros name pc Hr. unfold PluginConfigResolved in Hr.
      destruct (Plugins _ !! name) as [p|] eqn:Ep; [|discriminate Hr]. injection Hr as <-.
      cbn [Plugins ex_config] in Ep. apply lookup_singleton_Some in Ep as [<- <-]. vm_compute. reflexivity.
    + constructor; [reflexivity|constructor].
  - exists w. split; [exact Hl|]. split; [rewrite Ha; vm_compute; eexists; reflexivity|exact Hx].
Defined.

(** The proxy's listener fails; the other two servers are shut down and the error is
    returned. *)
Definition ex_life : life :=
  mkLife (set_server SMetrics ShutDown (set_server SAdmin ShutDown (set_server SProxy Failed (λ _, Running)))) [] false
    [SAdmin; SMetrics; SProxy] (Returned (Err (ErrWrap "proxy server" (ErrMsg "in use")))).

Lemma ex_life_reachable : rtc (listenAndServe true) started ex_life.
Proof.
  eapply rtc_l; [apply (life_fails true SProxy (ErrMsg "in use")); [by repeat constructor|done|cbn; unfold errChCap; lia]|].
  eapply rtc_l; [by eapply life_error|]. eapply rtc_l; [by eapply life_shutdown|].
  eapply rtc_l; [by eapply life_shutdown|]. eapply rtc_l; [by eapply life_shutdown|].
  eapply rtc_l; [by apply life_returns|]. apply rtc_refl.
Defined.

Lemma lifecycle_no_leak_witness : l_shutdowns ex_life = [SAdmin; SMetrics; SProxy].
Proof.
  destruct (lifecycle_no_leak true ex_life ex_life_reachable) as [_ Hret].
  apply (Hret (Err (ErrWrap "proxy server" (ErrMsg "in use"))) eq_refl).
Defined.

Lemma lifecycle_stops_witness :
  ∃ l', listenAndServe true (mkLife (λ _, Running) [] true [] Selecting) l' ∧ S (steps_left true (l_main l')) = 5.
Proof.
  destruct (lifecycle_stops true (mkLife (λ _, Running) [] true [] Selecting)) as (_ & _ & Hgo).
  - eapply rtc_l; [apply life_signal|apply rtc_refl].
  - destruct Hgo as [[ret Hr]|(l' & Hs & Hl)].
    + right; left. reflexivity.
    + discriminate Hr.
    + exists l'. split; [exact Hs|exact Hl].
Defined.
