(* ===== verification/Cli.v ===== *)
(** * cmd/pdag: the command line

    [main] dispatches on the first argument.  A command is a function from the
    arguments, the outside world and the key store to an exit code, the lines on
    standard output, the calls on the database connection and the new store.
    Package flag's parser is modelled with its syntax and exit codes; formatting a
    time is a parameter.  The theorems: what [pdag key create] leaves behind and that
    the printed secret verifies, that every connection is closed, and that the
    command line, unlike the admin API, writes no audit rows and accepts any role. *)

From S2P Require Import Prelude GoStrings Utf8 GoNet Http Store MemoryStore Authn RateLimit Config Postgres PostgresSpec PgArray Admin.
From S2P Require Import AuditTrail Serve.
From Stdlib Require Import Ascii.

(** ** Package flag

    [names] are the defined flags, all of them strings.  Parsing stops at the first
    argument that is not a flag. *)

Inductive parsed :=
  | Parsed (vals : gmap string string) (rest : list string)
  | Exits (code : Z).

Definition starts (c : ascii) (s : string) : bool := bool_decide (shead s = Some c).

(** The name and the value after the first [=] that is not at the front. *)
Definition split_flag (name : string) : string * option string :=
  match name with
  | String c rest =>
      match Cut rest "=" with
      | Some (a, v) => (String c a, Some v)
      | None => (name, None)
      end
  | "" => ("", None)
  end.

Fixpoint flag_Parse (names : list string) (vals : gmap string string) (args : list string) : parsed :=
  match args with
  | [] => Parsed vals []
  | s :: rest =>
      if (slen s <? 2)%Z || negb (starts "-" s) then Parsed vals (s :: rest)
      else if (s =? "--")%go then Parsed vals rest
      else
        let name := TrimPrefix (stail s) "-" in
        if (name =? "")%go || starts "-" name || starts "=" name then Exits 2
        else
          let '(name, value) := split_flag name in
          if negb (bool_decide (name ∈ names)) then
            Exits (if (name =? "help")%go || (name =? "h")%go then 0 else 2)
          else match value, rest with
          | Some v, _ => flag_Parse names (<[name := v]> vals) rest
          | None, v :: rest => flag_Parse names (<[name := v]> vals) rest
          | None, [] => Exits 2
          end
  end.

Definition flag_value (vals : gmap string string) (name : string) : string := default "" (vals !! name).

(** ** cmd/pdag/version.go *)

Definition stamp_setting (cd : string * string) (kv : string * string) : string * string :=
  let '(c, d) := cd in
  if (kv.1 =? "vcs.revision")%go then (if (c =? "")%go then kv.2 else c, d)
  else if (kv.1 =? "vcs.time")%go then (c, if (d =? "")%go then kv.2 else d)
  else (c, d).

(** The variables set by the linker, and the settings Go embeds in the binary. *)
Definition buildInfo (version commit date : string) (info : option (list (string * string)))
    : string * string * string :=
  let '(c, d) := foldl stamp_setting (commit, date) (default [] info) in (version, c, d).

Definition versionString (b : string * string * string) : string :=
  let '(v, c, d) := b in
  let s := if negb (c =? "")%go then
             v +:+ " (" +:+ (if (12 <? slen c)%Z then str_firstn 12 c else c) +:+ ")" else v in
  if negb (d =? "")%go then s +:+ " " +:+ d else s.

(** ** Commands *)

Record command (S : Type) := mkCommand {
  cmd_code : Z; cmd_out : list string; cmd_calls : list Pg.dbcall; cmd_store : S;
}.
Arguments mkCommand {S}. Arguments cmd_code {S}. Arguments cmd_out {S}.
Arguments cmd_calls {S}. Arguments cmd_store {S}.

(** The world outside: viper, and the rest as in
    Serve. *)
Record cliEnv := mkCliEnv {
  cli_viper : viper;
  cli_world : environment;
  cli_build : string * string * string;
  cli_format : Time → string;                    (** [Format("2006-01-02 15:04")] *)
}.

Definition cli_decode (E : cliEnv) (path : string) : result Config := viper_decode (cli_viper E) path.

Section Commands.
Context {S C : Type} `{KeyManager S C} (E : cliEnv).

Definition load (path : string) : result Config :=
  Load (env_ReadFile (cli_world E)) (env_Stat (cli_world E)) (cli_decode E path) (env_order (cli_world E)).

(** [log and exit 1], or the printed lines. *)
Definition finish (calls : list Pg.dbcall) (res : result (list string)) (s : S) : command S :=
  match res with
  | Ok out => mkCommand 0 out calls s
  | Err _ => mkCommand 1 [] calls s
  end.

(** [openKeyEnv] after parsing: the generator and the calls on the connection, which
    is closed again when there is no secret. *)
Definition openKeyEnv (path : string) : result Generator * list Pg.dbcall :=
  match load path with
  | Err e => (Err e, [])
  | Ok cfg =>
      if (DB_DSN cfg =? "")%go then (Err (ErrMsg "key management requires a database: set db.dsn"), [])
      else match env_Abs (cli_world E) with
      | Err e => (Err (ErrWrap "resolve migrations path" e), [])
      | Ok migrationsPath =>
          match Pg.NewStore migrationsPath (env_Database (cli_world E)) with
          | (Err e, calls) => (Err (ErrWrap "open store" e), calls)
          | (Ok _, calls) =>
              match CurrentHmacSecret cfg with
              | Err e => (Err e, calls ++ [Pg.CallClose])
              | Ok current => (Ok (mkGenerator (hs_ID current) (hs_Secret current)), calls)
              end
          end
      end
  end.

(** The frame of the key commands: parse, open, run, [defer cleanup()]. *)
Definition withKeyEnv (names args : list string)
    (body : Generator → gmap string string → list string → S → result (list string) * S) (s : S) : command S :=
  match flag_Parse names ∅ args with
  | Exits code => mkCommand code [] [] s
  | Parsed vals rest =>
      match openKeyEnv (flag_value vals "config") with
      | (Err e, calls) => finish calls (Err e) s
      | (Ok keygen, calls) =>
          let '(res, s) := body keygen vals rest s in finish (calls ++ [Pg.CallClose]) res s
      end
  end.

Definition keyCreate (now : Time) (idBytes secretBytes : result (list Z)) (keygen : Generator)
    (principal roles : string) (s : S) : result (list string) * S :=
  if (principal =? "")%go || (roles =? "")%go then
    (Err (ErrMsg "--principal and --roles are required"), s)
  else
    let roleList := TrimSpace <$> Split roles "," in
    match GenerateKeyID idBytes with
    | Err e => (Err e, s)
    | Ok keyID =>
        match GenerateSecret secretBytes with
        | Err e => (Err e, s)
        | Ok secret =>
            let rec := mkKeyRecord keyID (Hash keygen secret) (hmacKeyID keygen) principal roleList [] true
                         None zeroTime zeroTime in
            match Create now rec s with
            | (Err e, s) => (Err e, s)
            | (Ok _, s) => (Ok ["Key ID:  " +:+ keyID; "Secret:  " +:+ secret;
                                "Header:  X-API-Key: " +:+ keyID +:+ ":" +:+ secret; "";
                                "This secret will not be shown again."], s)
            end
        end
    end.

Definition runKeyCreate (now : Time) (idBytes secretBytes : result (list Z)) (args : list string) (s : S)
    : command S :=
  withKeyEnv ["config"; "principal"; "roles"] args
    (λ keygen vals _ s, keyCreate now idBytes secretBytes keygen (flag_value vals "principal")
                          (flag_value vals "roles") s) s.

(** [%-20s] pads with spaces to a width in runes. *)
Definition pad (width : nat) (s : string) : string :=
  s +:+ String.concat "" (replicate (width - length (range_runes s)) " ").

Definition keyLine (id principal roles enabled expires : string) : string :=
  pad 20 id +:+ " " +:+ pad 20 principal +:+ " " +:+ pad 30 roles +:+ " " +:+ pad 8 enabled +:+ " " +:+
  pad 20 expires.

Definition keyList (c : C) (s : S) : result (list string) * S :=
  match List c s with
  | (Err e, s) => (Err e, s)
  | (Ok [], s) => (Ok ["No keys found."], s)
  | (Ok keys, s) =>
      (Ok (keyLine "ID" "PRINCIPAL" "ROLES" "ENABLED" "EXPIRES" ::
           ((λ k, keyLine (ID k) (Principal k) (Join (Roles k) ",") (if Enabled k then "true" else "false")
                    (match ExpiresAt k with None => "never" | Some t => cli_format E t end)) <$> keys)), s)
  end.

Definition runKeyList (c : C) (args : list string) (s : S) : command S :=
  withKeyEnv ["config"] args (λ _ _ _ s, keyList c s) s.

Definition runKeySetEnabled (now : Time) (enabled : bool) (args : list string) (s : S) : command S :=
  withKeyEnv ["config"] args (λ _ _ rest s,
    match rest with
    | [] => (Err (ErrMsg "key ID required"), s)
    | keyID :: _ =>
        match SetEnabled now keyID enabled s with
        | (Err e, s) => (Err e, s)
        | (Ok _, s) =>
            (Ok ["Key " +:+ keyID +:+ " " +:+ (if enabled then "enabled" else "disabled") +:+ "."], s)
        end
    end) s.

Definition runKeyDelete (args : list string) (s : S) : command S :=
  withKeyEnv ["config"] args (λ _ _ rest s,
    match rest with
    | [] => (Err (ErrMsg "key ID required"), s)
    | keyID :: _ =>
        match Delete keyID s with
        | (Err e, s) => (Err e, s)
        | (Ok _, s) => (Ok ["Key " +:+ keyID +:+ " deleted."], s)
        end
    end) s.

(** What a command may draw on: the clock, random bytes, the order of a listing. *)
Record draws := mkDraws { d_now : Time; d_idBytes : result (list Z); d_secretBytes : result (list Z); d_choice : C }.

(** [args] are the arguments after [pdag key]. *)
Definition runKey (d : draws) (args : list string) (s : S) : command S :=
  match args with
  | [] => mkCommand 1 [] [] s
  | subCmd :: args =>
      if (subCmd =? "create")%go then runKeyCreate (d_now d) (d_idBytes d) (d_secretBytes d) args s
      else if (subCmd =? "list")%go then runKeyList (d_choice d) args s
      else if (subCmd =? "disable")%go then runKeySetEnabled (d_now d) false args s
      else if (subCmd =? "enable")%go then runKeySetEnabled (d_now d) true args s
      else if (subCmd =? "delete")%go then runKeyDelete args s
      else finish [] (Err (ErrMsg ("unknown key subcommand: " +:+ subCmd))) s
  end.

Definition runValidate (args : list string) (s : S) : command S :=
  match flag_Parse ["config"] ∅ args with
  | Exits code => mkCommand code [] [] s
  | Parsed vals _ =>
      finish [] (match load (flag_value vals "config") with Err e => Err e | Ok _ => Ok ["config OK"] end) s
  end.

Definition runVersion (s : S) : command S := finish [] (Ok ["pdag " +:+ versionString (cli_build E)]) s.

(** [args] are [os.Args] after the program's name; [serve] is [runServe]. *)
Definition main (serve : list string → result unit) (d : draws) (args : list string) (s : S) : command S :=
  match args with
  | [] => mkCommand 1 [] [] s
  | cmd :: args =>
      if (cmd =? "version")%go then runVersion s
      else if (cmd =? "serve")%go then finish [] ((λ _, []) <$> serve args) s
      else if (cmd =? "key")%go then runKey d args s
      else if (cmd =? "validate")%go then runValidate args s
      else mkCommand 1 [] [] s
  end.
End Commands.

(** ** Lemmas *)

Lemma openKeyEnv_Ok E path g calls :
  openKeyEnv E path = (Ok g, calls) →
  ∃ cfg, load E path = Ok cfg ∧ adminGenerator cfg = Ok g ∧ DB_DSN cfg ≠ "".
Proof.
  unfold openKeyEnv. destruct (load E path) as [cfg|]; [|done].
  destruct (String.eqb_spec (DB_DSN cfg) ""); [done|]. destruct (env_Abs _); [|done].
  destruct (Pg.NewStore _ _) as [[]]; [|done].
  destruct (CurrentHmacSecret cfg) as [cur|] eqn:Ec; [|done]. intros [= <- <-]. exists cfg.
  unfold adminGenerator. by rewrite Ec.
Qed.

(** Whether the calls left a connection open. *)
Definition settled (o : Pg.opening) (calls : list Pg.dbcall) : Prop :=
  calls = [] ∨ is_Ok (Pg.o_Open o) = false ∨ ∃ pre, calls = pre ++ [Pg.CallClose] ∧ Pg.CallClose ∉ pre.

Lemma NewStore_calls path o r calls :
  Pg.NewStore path o = (r, calls) →
  if is_Ok r then Pg.CallClose ∉ calls
  else is_Ok (Pg.o_Open o) = false ∨ ∃ pre, calls = pre ++ [Pg.CallClose] ∧ Pg.CallClose ∉ pre.
Proof.
  assert (∀ pre, bool_decide (Pg.CallClose ∉ pre) = true → ∃ pre', pre ++ [Pg.CallClose] = pre' ++ [Pg.CallClose] ∧
    Pg.CallClose ∉ pre') as Hpre by (intros pre Hp%bool_decide_eq_true; by exists pre).
  unfold Pg.NewStore. destruct (Pg.o_Open o); [|by intros [= <- <-]; left].
  destruct (Pg.o_Ping o); [|intros [= <- <-]; right; by apply (Hpre [Pg.CallOpen; Pg.CallPing])].
  destruct (negb _); [destruct (Pg.runMigrations o)|]; intros [= <- <-];
    [by apply (bool_decide_unpack _)| |by apply (bool_decide_unpack _)].
  right. by apply (Hpre [Pg.CallOpen; Pg.CallPing; Pg.CallMigrate]).
Qed.

Lemma openKeyEnv_calls E path r calls :
  openKeyEnv E path = (r, calls) →
  if is_Ok r then Pg.CallClose ∉ calls else settled (env_Database (cli_world E)) calls.
Proof.
  unfold openKeyEnv. destruct (load E path) as [cfg|]; [|by intros [= <- <-]; left].
  destruct (DB_DSN cfg =? "")%go; [by intros [= <- <-]; left|].
  destruct (env_Abs _); [|by intros [= <- <-]; left].
  destruct (Pg.NewStore _ _) as [r0 calls0] eqn:En. apply NewStore_calls in En. destruct r0; cbn in En.
  - destruct (CurrentHmacSecret cfg); intros [= <- <-]; [done|]. right; right. by exists calls0.
  - intros [= <- <-]. by right.
Qed.

Section Contract.
Context {S C : Type} `{KeyManager S C} (E : cliEnv).

(** Every key command is such a frame around a body, or does nothing. *)
Lemma withKeyEnv_settled names args body (s : S) :
  settled (env_Database (cli_world E)) (cmd_calls (withKeyEnv E names args body s)).
Proof.
  unfold withKeyEnv. destruct (flag_Parse names ∅ args) as [vals rest|code]; [|by left].
  destruct (openKeyEnv E _) as [[g|e] calls] eqn:Eo; apply openKeyEnv_calls in Eo; cbn in Eo; [|done].
  destruct (body g vals rest s) as [[out|e] s']; cbn; right; right; by exists calls.
Qed.

(** A command keeps what its body keeps. *)
Lemma withKeyEnv_keeps {A} (f : S → A) names args body (s : S) :
  (∀ g vals rest, f (body g vals rest s).2 = f s) →
  f (cmd_store (withKeyEnv E names args body s)) = f s.
Proof.
  intros Hb. unfold withKeyEnv. destruct (flag_Parse names ∅ args) as [vals rest|code]; [|done].
  destruct (openKeyEnv E _) as [[g|e] calls]; [|done]. specialize (Hb g vals rest).
  by destruct (body g vals rest s) as [[out|e] s'].
Qed.
End Contract.

(** ** Properties *)

(** Whatever a key command does, the database connection it opened is closed
    exactly once, at the end; a command that got no connection has nothing to close. *)
Theorem cli_closes_connection {S C : Type} `{KeyManager S C} (E : cliEnv) (d : draws (C := C)) args (s : S) :
  settled (env_Database (cli_world E)) (cmd_calls (runKey E d args s)).
Proof.
  unfold runKey. destruct args as [|sub args]; [by left|].
  repeat (destruct (_ =? _)%go; [apply withKeyEnv_settled|]). by left.
Qed.

Section Create.
Context {S C : Type} `{KeyManagerSpec S C} (E : cliEnv).

(** The key the command made: fresh, enabled, never expiring, for the principal and
    the trimmed roles of the flags, and with the hash of the printed secret. *)
Definition cli_created (g : Generator) (id secret principal roles : string) (s s' : S) : Prop :=
  ∃ rec, keys s !! id = None ∧ keys s' = <[id := rec]> (keys s) ∧
    ID rec = id ∧ Enabled rec = true ∧ ExpiresAt rec = None ∧ Principal rec = principal ∧
    held Store.storable (TrimSpace <$> Split roles ",") (Roles rec) ∧
    KeyHash rec = Hash g secret ∧ HmacKeyID rec = hmacKeyID g.

Lemma keyCreate_outcome now idBytes secretBytes g principal roles (s : S) res s' :
  keyCreate now idBytes secretBytes g principal roles s = (res, s') →
  match res with
  | Err _ => keys s' = keys s
  | Ok out => principal ≠ "" ∧ roles ≠ "" ∧ ∃ id secret, GenerateKeyID idBytes = Ok id ∧
      GenerateSecret secretBytes = Ok secret ∧ out !! 2 = Some ("Header:  X-API-Key: " +:+ id +:+ ":" +:+ secret) ∧
      cli_created g id secret principal roles s s'
  end.
Proof.
  unfold keyCreate. destruct (String.eqb_spec principal "") as [|Hp]; [by intros [= <- <-]|].
  destruct (String.eqb_spec roles "") as [|Hr]; [by intros [= <- <-]|]. cbn [orb].
  destruct (GenerateKeyID idBytes) as [id|]; [|by intros [= <- <-]].
  destruct (GenerateSecret secretBytes) as [secret|]; [|by intros [= <- <-]].
  destruct (Create now _ s) as [[u|e] s1] eqn:Ec; apply Create_spec in Ec; intros [= <- <-]; [|done].
  destruct Ec as (Hn & rec & (? & ? & ? & ? & ? & _ & ? & ?) & Hk).
  split_and!; [done..|]. exists id, secret. split_and!; [done..|]. exists rec.
  cbn in *. by split_and!.
Qed.

(** C35: when [pdag key create] prints a key, exactly that key was added to the store,
    and if the HMAC secrets of the configuration have distinct IDs the printed secret
    passes the authentication service built from the same configuration; in every
    other case the keys are untouched, and the command exits
    with an error unless help was asked for. *)
Theorem cli_create_outcome now idBytes secretBytes args (s : S) :
  let cmd := runKeyCreate E now idBytes secretBytes args s in
  (∃ vals rest cfg g id secret,
     flag_Parse ["config"; "principal"; "roles"] ∅ args = Parsed vals rest ∧
     load E (flag_value vals "config") = Ok cfg ∧ cmd_code cmd = 0%Z ∧
     GenerateKeyID idBytes = Ok id ∧ GenerateSecret secretBytes = Ok secret ∧
     cmd_out cmd !! 2 = Some ("Header:  X-API-Key: " +:+ id +:+ ":" +:+ secret) ∧
     cli_created g id secret (flag_value vals "principal") (flag_value vals "roles") s (cmd_store cmd) ∧
     ∀ c0, cli_decode E (flag_value vals "config") = Ok c0 →
       env_order (cli_world E) ≡ₚ map_to_list (Plugins c0) → NoDup (hs_ID <$> HmacSecrets cfg) →
       ∀ rec, keys (cmd_store cmd) !! id = Some rec →
         Authenticate (NewHmacService (hmacSecretMap cfg)) secret rec = Ok ()) ∨
  (keys (cmd_store cmd) = keys s ∧
     (cmd_code cmd ≠ 0%Z ∨ flag_Parse ["config"; "principal"; "roles"] ∅ args = Exits 0)).
Proof.
  cbn zeta. unfold runKeyCreate, withKeyEnv.
  destruct (flag_Parse ["config"; "principal"; "roles"] ∅ args) as [vals rest|code] eqn:Ep.
  2:{ right. split; [done|]. cbn. destruct (decide (code = 0%Z)) as [->|]; [by right|by left]. }
  destruct (openKeyEnv E _) as [[g|e] calls] eqn:Eo; [|by right; split; [|left]].
  destruct (openKeyEnv_Ok _ _ _ _ Eo) as (cfg & Hload & Hgen & _).
  destruct (keyCreate _ _ _ _ _ _ s) as [[out|e] s'] eqn:Ek; apply keyCreate_outcome in Ek; cbn [finish];
    [|right; split; [done|by left]].
  left. destruct Ek as (Hp & Hr & id & secret & Hid0 & Hsec & Hout & Hcr).
  exists vals, rest, cfg, g, id, secret. split_and!; try done.
  intros c0 Hdec Ho Hnd rec Hrec. unfold load in Hload. rewrite Hdec in Hload.
  apply (Load_valid _ _ _ _ _ Ho) in Hload as [_ Hv].
  destruct (generator_verifies _ _ Hv Hnd) as (g' & Hg' & Hver). rewrite Hgen in Hg'. injection Hg' as <-.
  destruct Hcr as (rec' & _ & Hk & _ & _ & _ & _ & _ & Hh & Hid). cbn in Hrec. rewrite Hk, lookup_insert_eq in Hrec.
  injection Hrec as <-. by apply Hver.
Qed.
End Create.

(** *** What the command line leaves out *)

Section Unaudited.
Context {DB : Type} `{PostgresSpec DB} `{AuditJSON} (E : cliEnv).

Lemma exec_keeps_audit q args F (db db' : DB) r :
  documented_stmt array_in (clock db) q args F → ExecContext q args db = (r, db') →
  audit_table db' = audit_table db.
Proof.
  intros Hd Hx. destruct r as [n|e]; [by destruct (exec_ok _ _ _ _ _ _ Hd Hx)|by destruct (exec_err _ _ _ _ _ Hx) as (_ & ? & _)].
Qed.

(** No key command writes to the audit table: keys created, enabled, disabled
    or deleted from the command line leave no audit trail, unlike every mutation of the
    admin API. *)
Theorem cli_never_audits (d : draws (C := unit)) args (db : DB) :
  audit_table (cmd_store (runKey E d args db)) = audit_table db.
Proof.
  unfold runKey. destruct args as [|sub args]; [done|].
  destruct (sub =? "create")%go; [|destruct (sub =? "list")%go; [|destruct (sub =? "disable")%go;
    [|destruct (sub =? "enable")%go; [|destruct (sub =? "delete")%go; [|done]]]]];
    apply (withKeyEnv_keeps E audit_table); intros g vals rest.
  - unfold keyCreate. destruct (_ || _); [done|]. destruct (GenerateKeyID _) as [id|]; [|done].
    destruct (GenerateSecret _) as [secret|]; [|done]. cbn [Create Pg_KeyManager]. unfold Pg.Create.
    destruct (ExecContext _ _ db) as [r db1] eqn:Ex. rewrite <- (exec_keeps_audit _ _ _ _ _ _ (doc_insert _ _ _ _ _ _ _ _ _ _) Ex).
    by destruct r.
  - unfold keyList. cbn [List Pg_KeyManager]. unfold Pg.List, Pg.listing.
    destruct (QueryContext _ _ db) as [r db1] eqn:Eq.
    destruct (query_spec _ _ _ _ _ _ _ doc_all Eq) as (_ & Ha & _). rewrite <- Ha.
    destruct r as [[rows err]|e]; [|done]. by destruct (Pg.scanRows [] rows err) as [[|]|].
  - destruct rest as [|id rest]; [done|]. cbn [SetEnabled Pg_KeyManager]. unfold Pg.SetEnabled, Pg.execOne.
    destruct (ExecContext _ _ db) as [r db1] eqn:Ex. rewrite <- (exec_keeps_audit _ _ _ _ _ _ (doc_enabled _ _ _ _) Ex).
    destruct r as [n|e]; [|done]. by destruct (Pg.checkRowsAffected n id).
  - destruct rest as [|id rest]; [done|]. cbn [SetEnabled Pg_KeyManager]. unfold Pg.SetEnabled, Pg.execOne.
    destruct (ExecContext _ _ db) as [r db1] eqn:Ex. rewrite <- (exec_keeps_audit _ _ _ _ _ _ (doc_enabled _ _ _ _) Ex).
    destruct r as [n|e]; [|done]. by destruct (Pg.checkRowsAffected n id).
  - destruct rest as [|id rest]; [done|]. cbn [Delete Pg_KeyManager]. unfold Pg.Delete, Pg.execOne.
    destruct (ExecContext _ _ db) as [r db1] eqn:Ex. rewrite <- (exec_keeps_audit _ _ _ _ _ _ (doc_delete _ _ _) Ex).
    destruct r as [n|e]; [|done]. by destruct (Pg.checkRowsAffected n id).
Qed.
End Unaudited.

(** ** Witnesses and examples *)

Definition ex_cli_config : Config :=
  mkConfig ":8080" 1048576 "" false false 4096 0 8192 [] "tok" "" (30 * Second) 0 []
    [mkUpstreamBackend "http://a:8081" "ka" ""] (mkHealthCheck 0 0 "") "postgres" "dsn" ":9090" ":9091"
    [ex_hs "h2" "0123456789abcdef"] (mkRateLimit false (Float64.of_Z 10) 5)
    (mkTracing false "" false (Float64.of_Z 1)) (mkPluginDefaults Second (mkCBConfig 5 2 Second))
    {["admin" := mkPluginEntry "/p" "" 0 (mkCBConfig 0 0 0)]}.

Definition ex_cli : cliEnv :=
  mkCliEnv (mkViper (λ src, match src with ConfigFile "pdag.yaml" => ReadOk | _ => ReadFailed (ErrMsg "not found") end)
    (λ _, Ok ex_cli_config))
    (ex_environment PluginManager.ex_env) ("1.0", "", "") (λ _, "").

Definition ex_draws : draws (C := list string) := mkDraws 7 (Ok [1%Z]) (Ok [2%Z]) ["k1"].

(** The command of the README, and the same on a database. *)
Definition ex_create (roles : string) : list string :=
  ["create"; "--config"; "pdag.yaml"; "--principal=alice"; "-roles"; roles].

Lemma cli_closes_connection_witness :
  settled ex_opening (cmd_calls (runKey ex_cli ex_draws (ex_create "admin") Memory.NewStore)) ∧
  cmd_calls (runKey ex_cli ex_draws (ex_create "admin") Memory.NewStore) ≠ [].
Proof.
  split; [exact (cli_closes_connection ex_cli ex_draws (ex_create "admin") Memory.NewStore)|].
  vm_compute. discriminate.
Defined.

Lemma cli_create_outcome_witness :
  let cmd := runKeyCreate ex_cli 7 (Ok [1%Z]) (Ok [2%Z]) (tail (ex_create "read_zones, admin")) Memory.NewStore in
  cmd_code cmd = 0%Z ∧ Roles <$> (cmd_store cmd !! "k_01") = Some ["read_zones"; "admin"] ∧
  ∃ rec, cmd_store cmd !! "k_01" = Some rec ∧
    Authenticate (NewHmacService (hmacSecretMap ex_cli_config)) "pdg_02" rec = Ok ().
Proof.
  destruct (cli_create_outcome (S := Memory.Store) (C := list string) ex_cli 7 (Ok [1%Z]) (Ok [2%Z])
    (tail (ex_create "read_zones, admin")) Memory.NewStore)
    as [(vals & rest & cfg & g & id & secret & Hp & Hl & Hc & Hid & Hsec & Hout & _ & Hauth)|[Hk _]].
  - split; [vm_compute; reflexivity|]. split; [vm_compute; reflexivity|].
    vm_compute in Hp. injection Hp as <- _. vm_compute in Hl. injection Hl as <-.
    vm_compute in Hid, Hsec. injection Hid as <-. injection Hsec as <-.
    eexists. split; [vm_compute; reflexivity|]. apply (Hauth ex_cli_config); vm_compute; try reflexivity.
    apply (bool_decide_unpack _). vm_compute. exact I.
  - vm_compute in Hk. discriminate Hk.
Defined.

#[local] Existing Instance sim_Database.
#[local] Existing Instance sim_PostgresSpec.
#[local] Existing Instance sim_JSON.

Lemma cli_never_audits_witness :
  let cmd := runKey ex_cli (mkDraws (C := unit) 7 (Ok [1%Z]) (Ok [2%Z]) ()) (ex_create "admin") ex_db in
  cmd_code cmd = 0%Z ∧ sim_table (cmd_store cmd) ≠ ∅ ∧
  audit_table (cmd_store cmd) = audit_table ex_db.
Proof.
  split; [vm_compute; reflexivity|]. split; [vm_compute; discriminate|].
  exact (cli_never_audits ex_cli (mkDraws (C := unit) 7 (Ok [1%Z]) (Ok [2%Z]) ()) (ex_create "admin") ex_db).
Defined.

(** The command line stores roles that the admin API refuses. *)
Theorem cli_accepts_blank_roles :
  let cmd := runKey ex_cli ex_draws (ex_create "admin,") Memory.NewStore in
  cmd_code cmd = 0%Z ∧ Roles <$> (cmd_store cmd !! "k_01") = Some ["admin"; ""] ∧
  is_Ok (validateRoles ["admin"; ""]) = false.
Proof. vm_compute. done. Qed.

(** A flag after the key's ID is not seen. *)
Example flag_after_argument :
  flag_Parse ["config"] ∅ ["k1"; "--config"; "x"] = Parsed ∅ ["k1"; "--config"; "x"].
Proof. reflexivity. Qed.

