(* ===== verification/Bench.v ===== *)
(** * bench/bench_write.go: the write benchmark

    The workers are a transition system whose steps are the accesses to what they share:
    the counters, the slice of latencies under its lock, and the map of status codes,
    which is read and written in two steps.  What a worker is told by the clock and by the
    HTTP client is an input of its step.  The theorems: every request names a record of
    its own, and when the workers have finished the counters agree with each other and
    with the latencies, while a status count can only be too low; the figures of the
    report are ordered. *)

From S2P Require Import Prelude GoStrings RateLimit.
From Stdlib Require Import QArith Qround SpecFloat Sorting.Sorted.

(** ** The requests *)

Definition dquote : string := bytes [34%Z].
Definition quoted (s : string) : string := dquote +:+ s +:+ dquote.
Definition member (k v : string) : string := quoted k +:+ ":" +:+ v.
Definition object (members : list string) : string := "{" +:+ Join members "," +:+ "}".
Definition array (elems : list string) : string := "[" +:+ Join elems "," +:+ "]".

Definition recordName (zone : string) (n : Z) : string := "bw" +:+ pretty n +:+ "." +:+ zone.

(** The octets of the address after the first one. *)
Definition octets (n : Z) : list Z :=
  [Z.land (Z.shiftr n 16) 255; Z.land (Z.shiftr n 8) 255; Z.land n 255].
Definition recordIP (n : Z) : string := Join ("10" :: (pretty <$> octets n)) ".".

(** The body; [None] for an operation that is not known. *)
Definition requestBody (op zone : string) (n : Z) : option string :=
  let name := recordName zone n in
  if (op =? "add")%go then
    Some (object [member "rrsets" (array [object
      [member "name" (quoted name); member "type" (quoted "A"); member "ttl" "3600";
       member "changetype" (quoted "REPLACE");
       member "records" (array [object [member "content" (quoted (recordIP n)); member "disabled" "false"]])]])])
  else if (op =? "delete")%go then
    Some (object [member "rrsets" (array [object
      [member "name" (quoted name); member "type" (quoted "A"); member "changetype" (quoted "DELETE")]])])
  else None.

(** ** The workers *)

Inductive worker :=
  | WTop                                       (** before the test of the clock *)
  | WCounted (n : Z)                           (** the request has its number *)
  | WSent (n : Z)                              (** in [client.Do] *)
  | WAnswered (elapsed : Duration) (code : Z)  (** before [total.Add] *)
  | WTimed (elapsed : Duration) (code : Z)     (** before the lock *)
  | WLoad (code : Z)
  | WStore (key : string) (v : Z)
  | WDone.

Record bench := mkBench {
  counter : Z; total : Z; errors : Z;
  statuses : gmap string Z;
  latencies : list Duration;
  workers : list worker;
  exited : bool;            (** [os.Exit] was called *)
  requests : list Z;        (** the numbers of the requests handed to the client *)
  finished : list string;   (** the status codes stored, one per response *)
}.

Inductive input :=
  | INow (before : bool)                       (** [time.Now().Before(deadline)] *)
  | INew (ok : bool)                           (** [http.NewRequestWithContext] *)
  | IDo (answer : option (Duration * Z))       (** [client.Do] *)
  | IStep.

Definition set_worker (i : nat) (w : worker) (b : bench) : bench :=
  mkBench (counter b) (total b) (errors b) (statuses b) (latencies b) (<[i:=w]> (workers b)) (exited b)
    (requests b) (finished b).
Definition fails (b : bench) : bench :=
  mkBench (counter b) (total b) (wrap64 (errors b + 1)) (statuses b) (latencies b) (workers b) (exited b)
    (requests b) (finished b).

(** One step of worker [i]; a step of another kind than its input cannot happen. *)
Definition wstep (op zone : string) (i : nat) (inp : input) (b : bench) : option bench :=
  if exited b then None else
  match workers b !! i, inp with
  | Some WTop, INow before =>
      if before then
        let n := wrap64 (counter b + 1) in
        Some (set_worker i (WCounted n) (mkBench n (total b) (errors b) (statuses b) (latencies b) (workers b)
          (exited b) (requests b) (finished b)))
      else Some (set_worker i WDone b)
  | Some (WCounted n), INew ok =>
      match requestBody op zone n with
      | None => Some (mkBench (counter b) (total b) (errors b) (statuses b) (latencies b) (workers b) true
                        (requests b) (finished b))
      | Some _ =>
          if ok then Some (set_worker i (WSent n) (mkBench (counter b) (total b) (errors b) (statuses b)
                             (latencies b) (workers b) (exited b) (requests b ++ [n]) (finished b)))
          else Some (set_worker i WTop (fails b))
      end
  | Some (WSent n), IDo None => Some (set_worker i WTop (fails b))
  | Some (WSent n), IDo (Some (elapsed, code)) => Some (set_worker i (WAnswered elapsed code) b)
  | Some (WAnswered elapsed code), IStep =>
      Some (set_worker i (WTimed elapsed code) (mkBench (counter b) (wrap64 (total b + 1)) (errors b) (statuses b)
        (latencies b) (workers b) (exited b) (requests b) (finished b)))
  | Some (WTimed elapsed code), IStep =>
      Some (set_worker i (WLoad code) (mkBench (counter b) (total b) (errors b) (statuses b)
        (latencies b ++ [elapsed]) (workers b) (exited b) (requests b) (finished b)))
  | Some (WLoad code), IStep =>
      let key := pretty code in
      let v := match statuses b !! key with Some v => wrap64 (v + 1) | None => 1%Z end in
      Some (set_worker i (WStore key v) b)
  | Some (WStore key v), IStep =>
      Some (set_worker i WTop (mkBench (counter b) (total b) (errors b) (<[key:=v]> (statuses b)) (latencies b)
        (workers b) (exited b) (requests b) (finished b ++ [key])))
  | _, _ => None
  end.

Definition bench_start (concurrency : Z) : bench :=
  mkBench 0 0 0 ∅ [] (replicate (Z.to_nat concurrency) WTop) false [] [].

Fixpoint bench_run (op zone : string) (evs : list (nat * input)) (b : bench) : option bench :=
  match evs with
  | [] => Some b
  | (i, inp) :: evs' => b' ← wstep op zone i inp b; bench_run op zone evs' b'
  end.

(** ** The report *)

Section Report.
Context {F : Type} `{Arith F} (trunc : F → Z).

(** The index [pct] reads. *)
Definition pct_index (n : Z) (p : F) : Z :=
  let idx := trunc (fmul (of_int n) p) in
  if (n <=? idx)%Z then (n - 1)%Z else idx.

Record report := mkReport {
  rp_fastest : Duration; rp_slowest : Duration; rp_average : Duration; rp_percentiles : list Duration;
}.

(** [latencies[i]]; a panic is [None]. *)
Definition at_index (l : list Duration) (i : Z) : option Duration :=
  if (i <? 0)%Z then None else l !! Z.to_nat i.

(** [Some None] is the line that says that nothing completed, [None] a panic. *)
Definition summarize (ps : list F) (latencies : list Duration) : option (option report) :=
  let sorted := merge_sort Z.le latencies in
  let n := Z.of_nat (length sorted) in
  if (n =? 0)%Z then Some None
  else
    let sum := foldl (λ s l, wrap64 (s + l)) 0%Z sorted in
    fastest ← at_index sorted 0;
    slowest ← at_index sorted (n - 1);
    percentiles ← mapM (λ p, at_index sorted (pct_index n p)) ps;
    Some (Some (mkReport fastest slowest (Z.quot sum n) percentiles)).
End Report.

(** [int(f)] on binary64, for values an int64 can hold. *)
Definition float_trunc (f : Float64.t) : Z :=
  match f with
  | S754_finite s m e =>
      let z := Z.quot (Z.pos m * 2 ^ Z.max 0 e) (2 ^ Z.max 0 (- e)) in if s then (- z)%Z else z
  | _ => 0%Z
  end.

Definition percents : list Z := [50; 75; 90; 95; 99]%Z.
Definition float_percent (p : Z) : Float64.t := SFdiv 53 1024 (Float64.of_Z p) (Float64.of_Z 100).

(** ** Lemmas: counting workers *)

Definition pending (w : worker) : list Z := match w with WCounted n => [n] | _ => [] end.
Definition flying (w : worker) : list unit :=
  match w with WCounted _ | WSent _ | WAnswered _ _ => [()] | _ => [] end.
Definition timing (w : worker) : list unit := match w with WTimed _ _ => [()] | _ => [] end.
Definition storing (w : worker) : list unit := match w with WLoad _ | WStore _ _ => [()] | _ => [] end.

Lemma bind_insert {A B} (f : A → list B) (l : list A) i x y :
  l !! i = Some y → f y ++ (<[i:=x]> l ≫= f) ≡ₚ f x ++ (l ≫= f).
Proof.
  revert i. induction l as [|z l IH]; intros [|i] Hi; simplify_eq/=.
  - rewrite !app_assoc. by rewrite (Permutation_app_comm (f y)).
  - specialize (IH i Hi). rewrite (Permutation_app_swap_app (f y)), IH. apply Permutation_app_swap_app.
Qed.

Definition tally {A} (f : worker → list A) (b : bench) : Z := Z.of_nat (length (workers b ≫= f)).

Lemma tally_set {A} (f : worker → list A) b i w w' :
  workers b !! i = Some w' →
  (tally f (set_worker i w b) + Z.of_nat (length (f w')) = tally f b + Z.of_nat (length (f w)))%Z.
Proof.
  intros Hi. pose proof (Permutation_length (bind_insert f _ i w w' Hi)) as Hl.
  rewrite !length_app in Hl. unfold tally. cbn. lia.
Qed.

Lemma tally_done {A} (f : worker → list A) b :
  f WDone = [] → Forall (λ w, w = WDone) (workers b) → tally f b = 0%Z.
Proof. intros Hf Hd. unfold tally. induction Hd as [|w l -> _ IH]; cbn; [done|]. by rewrite Hf. Qed.

Definition count (key : string) (l : list string) : Z := Z.of_nat (length (filter (λ k, k = key) l)).

Lemma count_snoc key l k : count key (l ++ [k]) = (count key l + if decide (k = key) then 1 else 0)%Z.
Proof. unfold count. rewrite filter_app, length_app, filter_cons, filter_nil. case_decide; cbn; lia. Qed.

Lemma count_le key l : (0 ≤ count key l ≤ Z.of_nat (length l))%Z.
Proof. unfold count. pose proof (length_filter (λ k, k = key) l). lia. Qed.

(** ** The invariant *)

(** After [k] steps. *)
Record bench_inv (k : Z) (b : bench) : Prop := {
  bi_errors : (0 ≤ errors b)%Z;
  bi_bound : (counter b ≤ k)%Z;
  bi_flying : counter b = (errors b + total b + tally flying b)%Z;
  bi_timing : total b = (Z.of_nat (length (latencies b)) + tally timing b)%Z;
  bi_storing : Z.of_nat (length (latencies b)) = (Z.of_nat (length (finished b)) + tally storing b)%Z;
  bi_unique : NoDup ((workers b ≫= pending) ++ requests b);
  bi_numbers : Forall (λ n, 1 ≤ n ≤ counter b)%Z ((workers b ≫= pending) ++ requests b);
  bi_status key v : statuses b !! key = Some v → (1 ≤ v ≤ count key (finished b))%Z;
  bi_store i key v : workers b !! i = Some (WStore key v) → (1 ≤ v ≤ count key (finished b) + 1)%Z;
}.

Lemma tally_nonneg {A} (f : worker → list A) b : (0 ≤ tally f b)%Z.
Proof. unfold tally. lia. Qed.

Lemma bench_inv_start concurrency : bench_inv 0 (bench_start concurrency).
Proof.
  assert (∀ A (f : worker → list A), f WTop = [] → (replicate (Z.to_nat concurrency) WTop ≫= f) = []) as Hr.
  { intros A f Hf. induction (Z.to_nat concurrency) as [|m IH]; cbn; [done|]. by rewrite Hf. }
  split; unfold tally; cbn; rewrite ?Hr by done; cbn; try lia; try (by constructor).
  intros i key v [? _]%lookup_replicate. done.
Qed.

(** The numbers given out. *)
Definition numbers (b : bench) : list Z := (workers b ≫= pending) ++ requests b.

Lemma numbers_set b i w w' :
  workers b !! i = Some w' → pending w' ++ numbers (set_worker i w b) ≡ₚ pending w ++ numbers b.
Proof.
  intros Hi. unfold numbers. cbn [workers requests set_worker]. rewrite !app_assoc.
  by rewrite (bind_insert pending _ i w w' Hi).
Qed.

(** The parts a step keeps: the numbers, and the bounds of the status counts. *)
Lemma numbers_kept b b' c :
  numbers b' ≡ₚ numbers b ∨ (∃ n, n :: numbers b' ≡ₚ numbers b) → (counter b ≤ c)%Z →
  NoDup (numbers b) → Forall (λ n, 1 ≤ n ≤ counter b)%Z (numbers b) →
  NoDup (numbers b') ∧ Forall (λ n, 1 ≤ n ≤ c)%Z (numbers b').
Proof.
  intros Hp Hc Hn Hf. assert (Forall (λ n, 1 ≤ n ≤ c)%Z (numbers b)) as Hf' by (eapply Forall_impl; [exact Hf|]; cbn; lia).
  destruct Hp as [Hp|[n Hp]]; rewrite <- Hp in Hn, Hf'; [done|].
  apply NoDup_cons in Hn as [_ Hn]. by apply Forall_cons in Hf' as [_ Hf'].
Qed.

Lemma store_kept b i w fin :
  (∀ j key v, workers b !! j = Some (WStore key v) → (1 ≤ v ≤ count key (finished b) + 1)%Z) →
  (∀ key, count key (finished b) ≤ count key fin)%Z →
  (∀ key v, w = WStore key v → (1 ≤ v ≤ count key fin + 1)%Z) →
  ∀ j key v, <[i:=w]> (workers b) !! j = Some (WStore key v) → (1 ≤ v ≤ count key fin + 1)%Z.
Proof.
  intros Hs Hc Hw j key v [(_ & Hj & _)|[_ Hj]]%list_lookup_insert_Some; [by apply Hw|].
  specialize (Hs j key v Hj). specialize (Hc key). lia.
Qed.

Definition len {A} (l : list A) : Z := Z.of_nat (length l).

(** A step of worker [i] from [w'] to [w], which turns the shared part of [b] into that of
    [b1], keeps the invariant when the counters move with the worker. *)
Lemma bench_inv_set k b b1 i w w' :
  bench_inv k b → workers b !! i = Some w' → workers b1 = workers b →
  (0 ≤ errors b1)%Z → (counter b ≤ counter b1 ≤ k + 1)%Z →
  (counter b1 - errors b1 - total b1 - len (flying w) =
     counter b - errors b - total b - len (flying w'))%Z →
  (total b1 - len (latencies b1) - len (timing w) = total b - len (latencies b) - len (timing w'))%Z →
  (len (latencies b1) - len (finished b1) - len (storing w) =
     len (latencies b) - len (finished b) - len (storing w'))%Z →
  NoDup (numbers (set_worker i w b1)) ∧ Forall (λ n, 1 ≤ n ≤ counter b1)%Z (numbers (set_worker i w b1)) →
  (∀ key v, statuses b1 !! key = Some v → (1 ≤ v ≤ count key (finished b1))%Z) →
  (∀ key, count key (finished b) ≤ count key (finished b1))%Z →
  (∀ key v, w = WStore key v → (1 ≤ v ≤ count key (finished b1) + 1)%Z) →
  bench_inv (k + 1) (set_worker i w b1).
Proof.
  intros [He Hb Hfl Hti Hst Hun Hnu Hs Hsto] Hi Hw He1 Hb1 Ef Et Es [Hn1 Hf1] Hs1 Hc Hsw.
  assert (∀ A (f : worker → list A), tally f (set_worker i w b1) + len (f w') = tally f b + len (f w))%Z as Ht.
  { intros A f. pose proof (tally_set f b i w w' Hi) as E. unfold tally, len in *. cbn in *. by rewrite Hw. }
  pose proof (Ht _ flying). pose proof (Ht _ timing). pose proof (Ht _ storing).
  split; cbn [errors counter total latencies finished statuses workers set_worker] in *; unfold len in *; try lia; try done.
  rewrite Hw. by apply (store_kept b).
Qed.

Lemma numbers_same b b1 i w w' :
  workers b !! i = Some w' → workers b1 = workers b → requests b1 = requests b → pending w = [] →
  pending w' ++ numbers (set_worker i w b1) ≡ₚ numbers b.
Proof.
  intros Hi Hw Hr Hp. pose proof (numbers_set b i w w' Hi) as E. rewrite Hp in E. unfold numbers in *.
  cbn in *. by rewrite Hw, Hr.
Qed.

(** The shared facts of the steps below: bounds of the counters, and wrap-around does not
    happen. *)
Lemma bench_inv_bounds k b :
  bench_inv k b → (0 ≤ total b ∧ errors b + total b ≤ counter b ∧ len (finished b) ≤ total b)%Z.
Proof.
  intros [He Hb Hfl Hti Hst _ _ _ _]. unfold len.
  pose proof (tally_nonneg flying b). pose proof (tally_nonneg timing b). pose proof (tally_nonneg storing b). lia.
Qed.

Section Step.
Context (k : Z) (b : bench) (i : nat) (Hinv : bench_inv k b) (Hk : (k + 1 < 2 ^ 63)%Z).

Lemma wrap_small z : (0 ≤ z ≤ k + 1)%Z → wrap64 z = z.
Proof. intros Hz. apply wrap64_id. unfold int64. lia. Qed.

Lemma numbers_step w w' b1 :
  workers b !! i = Some w' → workers b1 = workers b → requests b1 = requests b →
  counter b1 = counter b → pending w = [] →
  NoDup (numbers (set_worker i w b1)) ∧ Forall (λ n, 1 ≤ n ≤ counter b1)%Z (numbers (set_worker i w b1)).
Proof.
  intros Hi Hw Hr Hc Hp. pose proof (numbers_same b b1 i w w' Hi Hw Hr Hp) as E.
  apply (numbers_kept b); [|lia|apply Hinv|apply Hinv].
  destruct w'; cbn in E; [by left|right; by eexists|by left..].
Qed.

(** [errors.Add(1)] *)
Lemma bench_inv_fails w' :
  workers b !! i = Some w' → flying w' = [()] ∧ timing w' = [] ∧ storing w' = [] →
  bench_inv (k + 1) (set_worker i WTop (fails b)).
Proof.
  intros Hi (E1 & E2 & E3). pose proof (bench_inv_bounds k b Hinv). pose proof Hinv as [He Hb _ _ _ _ _ Hs _].
  unfold fails. rewrite wrap_small by (unfold len in *; lia).
  eapply bench_inv_set; [done|done|done|rewrite ?E1, ?E2, ?E3; unfold len; cbn; lia..| |done|done|done].
  by eapply numbers_step.
Qed.

(** [counter.Add(1)] *)
Lemma bench_inv_counted c b1 :
  workers b !! i = Some WTop → c = wrap64 (counter b + 1) →
  b1 = mkBench c (total b) (errors b) (statuses b) (latencies b) (workers b) (exited b) (requests b) (finished b) →
  bench_inv (k + 1) (set_worker i (WCounted c) b1).
Proof.
  intros Hi Hc ->. pose proof (bench_inv_bounds k b Hinv). pose proof Hinv as [He Hb _ _ _ Hun Hnu Hs _].
  rewrite wrap_small in Hc by lia.
  eapply bench_inv_set; [done|done|done|unfold len; cbn; lia..| |done|done|done].
  pose proof (numbers_set b i (WCounted c) WTop Hi) as E. cbn [pending app] in E.
  assert (numbers (set_worker i (WCounted c) (mkBench c (total b) (errors b) (statuses b) (latencies b) (workers b)
    (exited b) (requests b) (finished b))) ≡ₚ c :: numbers b) as -> by exact E.
  split.
  - constructor; [|done]. intros Hin. rewrite Forall_forall in Hnu. specialize (Hnu _ Hin). lia.
  - constructor; [cbn; lia|]. eapply Forall_impl; [exact Hnu|]. cbn. lia.
Qed.

(** [client.Do] starts. *)
Lemma bench_inv_sent n :
  workers b !! i = Some (WCounted n) →
  bench_inv (k + 1) (set_worker i (WSent n) (mkBench (counter b) (total b) (errors b) (statuses b) (latencies b)
    (workers b) (exited b) (requests b ++ [n]) (finished b))).
Proof.
  intros Hi. pose proof Hinv as [He Hb _ _ _ Hun Hnu Hs _].
  eapply bench_inv_set; [done|done|done|unfold len; cbn; lia..| |done|done|done].
  apply (numbers_kept b); [left|cbn; lia|done|done].
  pose proof (numbers_set b i (WSent n) (WCounted n) Hi) as E. cbn [pending app] in E. rewrite <- E.
  unfold numbers. cbn. by rewrite app_assoc, (Permutation_app_comm _ [n]).
Qed.

(** [statuses.Load] and [statuses.Store] *)
Lemma bench_inv_load code :
  workers b !! i = Some (WLoad code) →
  bench_inv (k + 1) (set_worker i (WStore (pretty code)
    (match statuses b !! pretty code with Some v => wrap64 (v + 1) | None => 1%Z end)) b).
Proof.
  intros Hi. pose proof (bench_inv_bounds k b Hinv). pose proof Hinv as [He Hb _ _ _ _ _ Hs _].
  eapply bench_inv_set; [done|done|done|unfold len; cbn; lia..| |done|done|]; [by eapply numbers_step|].
  intros key v [= <- <-]. pose proof (count_le (pretty code) (finished b)).
  destruct (statuses b !! pretty code) as [v|] eqn:Ev; [|lia].
  specialize (Hs _ _ Ev). unfold len in *. rewrite wrap_small; lia.
Qed.

Lemma bench_inv_store key v :
  workers b !! i = Some (WStore key v) →
  bench_inv (k + 1) (set_worker i WTop (mkBench (counter b) (total b) (errors b) (<[key:=v]> (statuses b)) (latencies b)
    (workers b) (exited b) (requests b) (finished b ++ [key]))).
Proof.
  intros Hi. pose proof Hinv as [He Hb _ _ _ _ _ Hs Hsto].
  eapply bench_inv_set; [done|done|done|unfold len; cbn; rewrite ?length_app; cbn; lia..|by eapply numbers_step| | |done];
    cbn [statuses finished].
  - intros key' v'. rewrite count_snoc. destruct (decide (key = key')) as [->|Hne].
    + rewrite lookup_insert_eq. intros [= <-]. specialize (Hsto _ _ _ Hi). lia.
    + rewrite lookup_insert_ne by done. intros Hv. specialize (Hs _ _ Hv). lia.
  - intros key'. rewrite count_snoc. case_decide; lia.
Qed.
End Step.

Lemma bench_inv_step op zone k b i inp b' :
  bench_inv k b → (k + 1 < 2 ^ 63)%Z → wstep op zone i inp b = Some b' → bench_inv (k + 1) b'.
Proof.
  intros Hinv Hk. pose proof (bench_inv_bounds k b Hinv). pose proof Hinv as [He Hb Hfl Hti Hst Hun Hnu Hs Hsto].
  unfold wstep. destruct (exited b) eqn:Ex; [done|]. rewrite <- Ex.
  destruct (workers b !! i) as [[|n|n|el code|el code|code|key v|]|] eqn:Hi, inp as [before|ok|[[el' code']|]|];
    try done.
  - destruct before; intros [= <-]; [by eapply bench_inv_counted|].
    eapply bench_inv_set; [done|done|done|unfold len; cbn; lia..| |done|done|done]. by eapply numbers_step.
  - destruct (requestBody op zone n); [destruct ok|]; intros [= <-];
      [by apply bench_inv_sent|by eapply bench_inv_fails|].
    split; cbn; try done; lia.
  - intros [= <-]. eapply bench_inv_set; [done|done|done|unfold len; cbn; lia..| |done|done|done].
    by eapply numbers_step.
  - intros [= <-]. by eapply bench_inv_fails.
  - intros [= <-]. rewrite (wrap_small k Hk) by (unfold len in *; lia).
    eapply bench_inv_set; [done|done|done|unfold len; cbn; lia..| |done|done|done]. by eapply numbers_step.
  - intros [= <-].
    eapply bench_inv_set; [done|done|done|unfold len; cbn; rewrite ?length_app; cbn; lia..| |done|done|done].
    by eapply numbers_step.
  - intros [= <-]. by apply bench_inv_load.
  - intros [= <-]. by apply bench_inv_store.
Qed.

Lemma bench_inv_run op zone evs k b b' :
  bench_inv k b → (k + len evs < 2 ^ 63)%Z → bench_run op zone evs b = Some b' → bench_inv (k + len evs) b'.
Proof.
  unfold len. revert k b. induction evs as [|[i inp] evs IH]; intros k b Hinv Hk; cbn [bench_run length].
  - intros [= <-]. by replace (k + Z.of_nat 0)%Z with k by lia.
  - intros (b1 & H1 & H2)%bind_Some. cbn [length] in Hk.
    replace (k + Z.of_nat (S (length evs)))%Z with (k + 1 + Z.of_nat (length evs))%Z by lia.
    eapply IH; [eapply bench_inv_step; [exact Hinv|lia|exact H1]|lia|exact H2].
Qed.

(** Record names are as distinct as the numbers. *)
Lemma sapp_inj_r (a a' b : string) : a +:+ b = a' +:+ b → a = a'.
Proof.
  assert (∀ x y, String.length (x +:+ y) = String.length x + String.length y)%nat as Hlen
    by (intros x y; induction x; cbn; lia).
  intros E. assert (String.length a = String.length a') as Hl.
  { apply (f_equal String.length) in E. rewrite !Hlen in E. lia. }
  revert a' E Hl. induction a as [|c a IH]; intros [|c' a'] E Hl; simplify_eq/=; [done|]. f_equal. by apply IH.
Qed.

Lemma recordName_inj zone n n' : recordName zone n = recordName zone n' → n = n'.
Proof.
  unfold recordName. intros E. cbn in E. injection E as E. apply sapp_inj_r in E. by apply (inj pretty) in E.
Qed.

(** ** Properties *)

(** When the workers have finished, in whatever order they ran, the counters add up:
    every numbered request either completed or was counted as an error, every
    completed one has its latency and its status recorded, and no two requests
    named the same record.  A status count never exceeds the number of responses with
    that code. *)
Theorem bench_counts op zone concurrency evs b :
  bench_run op zone evs (bench_start concurrency) = Some b → (len evs < 2 ^ 63)%Z →
  Forall (λ w, w = WDone) (workers b) →
  counter b = (total b + errors b)%Z ∧ total b = len (latencies b) ∧ total b = len (finished b) ∧
  NoDup (recordName zone <$> requests b) ∧
  ∀ key v, statuses b !! key = Some v → (1 ≤ v ≤ count key (finished b))%Z.
Proof.
  intros Hrun Hlen Hd. pose proof (bench_inv_run op zone evs 0 _ b (bench_inv_start concurrency) ltac:(lia) Hrun)
    as [He Hb Hfl Hti Hst Hun Hnu Hs Hsto].
  rewrite (tally_done flying b) in Hfl by done. rewrite (tally_done timing b) in Hti by done.
  rewrite (tally_done storing b) in Hst by done. unfold len. split_and!; [lia|lia|lia| |exact Hs].
  apply NoDup_app in Hun as (_ & _ & Hun). apply NoDup_fmap_2_strong; [|done].
  intros n n' _ _. apply recordName_inj.
Qed.

(** Two workers read the count of the code 200 before either writes it. *)
Definition ex_lost : list (nat * input) :=
  let answer i := [(i, INow true); (i, INew true); (i, IDo (Some (Second, 200%Z))); (i, IStep); (i, IStep); (i, IStep)] in
  answer 0%nat ++ answer 1%nat ++ [(0, IStep); (1, IStep); (0, INow false); (1, INow false)]%nat.

(** The status distribution can lose responses: two of them are reported as one. *)
Example bench_lost_update :
  (λ b, (total b, statuses b !! "200")) <$> bench_run "add" "z." ex_lost (bench_start 2) = Some (2%Z, Some 1%Z).
Proof. vm_compute. reflexivity. Qed.

Lemma bench_counts_witness :
  ∃ b, bench_run "add" "z." ex_lost (bench_start 2) = Some b ∧ counter b = (total b + errors b)%Z.
Proof.
  destruct (bench_run "add" "z." ex_lost (bench_start 2)) as [b|] eqn:E; [|vm_compute in E; discriminate].
  exists b. split; [reflexivity|]. apply (bench_counts "add" "z." 2 ex_lost b E).
  - reflexivity.
  - vm_compute in E. injection E as <-. repeat constructor.
Defined.

(** *** The report *)

Definition Q_trunc (q : Q) : Z := Z.quot (Qnum q) (Zpos (Qden q)).

(** The machine's index is the exact one, for every number of latencies up to a
    thousand. *)
Example pct_index_float :
  forallb (λ n, forallb (λ p, (pct_index float_trunc (Z.of_nat n) (float_percent p) =?
                               pct_index Q_trunc (Z.of_nat n) (inject_Z p / inject_Z 100)%Q)%Z) percents)
    (seq 1 1000) = true.
Proof. vm_compute. reflexivity. Qed.

Lemma pct_index_range n (p : Q) : (0 < n)%Z → (0 <= p)%Q → (0 ≤ pct_index Q_trunc n p < n)%Z.
Proof.
  intros Hn Hp. unfold pct_index.
  assert (0 ≤ Q_trunc (fmul (of_int n) p))%Z as H0.
  { unfold Q_trunc. apply Z.quot_pos; [|lia]. destruct p as [a d]. unfold Qle in Hp. cbn in *. lia. }
  destruct (Z.leb_spec n (Q_trunc (fmul (of_int n) p))); lia.
Qed.

Lemma pct_index_mono n (p p' : Q) :
  (0 < n)%Z → (0 <= p)%Q → (p <= p')%Q → (pct_index Q_trunc n p ≤ pct_index Q_trunc n p')%Z.
Proof.
  intros Hn Hp Hle. unfold pct_index.
  assert (Q_trunc (fmul (of_int n) p) ≤ Q_trunc (fmul (of_int n) p'))%Z as Hq.
  { destruct p as [a d], p' as [a' d']. unfold Qle, Q_trunc in *. cbn in *. rewrite !Pos.mul_1_l.
    rewrite !Z.quot_div_nonneg by nia. apply Z.div_le_lower_bound; [lia|].
    pose proof (Z.mul_div_le (n * a) (Z.pos d) ltac:(lia)) as Hq. set (q := (n * a / Z.pos d)%Z) in *.
    apply (Z.mul_le_mono_pos_l _ _ (Z.pos d)); [lia|].
    transitivity (Z.pos d' * (Z.pos d * q))%Z; [lia|]. transitivity (Z.pos d' * (n * a))%Z.
    - apply Z.mul_le_mono_nonneg_l; lia.
    - transitivity (n * (a * Z.pos d'))%Z; [lia|]. transitivity (n * (a' * Z.pos d))%Z; [|lia].
      apply Z.mul_le_mono_nonneg_l; lia. }
  destruct (Z.leb_spec n (Q_trunc (fmul (of_int n) p))), (Z.leb_spec n (Q_trunc (fmul (of_int n) p'))); lia.
Qed.

Lemma sorted_lookup (l : list Z) (i j : nat) x y :
  StronglySorted Z.le l → (i ≤ j)%nat → l !! i = Some x → l !! j = Some y → (x ≤ y)%Z.
Proof.
  intros Hs. revert i j. induction Hs as [|z l Hs IH Hf]; intros i j Hij Hx Hy; [done|].
  destruct i as [|i], j as [|j]; simplify_eq/=; [done| |lia|by eapply (IH i j); [lia|..]].
  rewrite Forall_forall in Hf. apply Hf. by eapply list_elem_of_lookup_2.
Qed.

Lemma at_index_Some (l : list Duration) i : (0 ≤ i < len l)%Z → ∃ x, at_index l i = Some x ∧ l !! Z.to_nat i = Some x.
Proof.
  unfold len, at_index. intros Hi. destruct (Z.ltb_spec i 0); [lia|].
  destruct (lookup_lt_is_Some_2 l (Z.to_nat i)) as [x Hx]; [lia|]. by exists x.
Qed.

Definition total_of (l : list Duration) : Z := foldr Z.add 0%Z l.

Lemma total_cons d l : total_of (d :: l) = (d + total_of l)%Z.
Proof. done. Qed.

Lemma total_nonneg l : Forall (λ d, 0 ≤ d)%Z l → (0 ≤ total_of l)%Z.
Proof. induction 1; [done|]. rewrite total_cons. lia. Qed.

Lemma sum_exact l acc :
  (0 ≤ acc)%Z → Forall (λ d, 0 ≤ d)%Z l → (acc + total_of l < 2 ^ 63)%Z →
  foldl (λ s d, wrap64 (s + d)) acc l = (acc + total_of l)%Z.
Proof.
  intros Ha Hf. revert acc Ha. induction Hf as [|d l Hd Hf IH]; intros acc Ha Hs; [cbn; lia|].
  pose proof (total_nonneg l Hf). rewrite total_cons in *. cbn [foldl]. rewrite wrap64_id by (unfold int64; lia). rewrite IH by lia. lia.
Qed.

Lemma total_bounds l a c :
  Forall (λ d, a ≤ d ≤ c)%Z l → (len l * a ≤ total_of l ≤ len l * c)%Z.
Proof. unfold len. induction 1 as [|d l Hd Hf IH]; [done|]. rewrite total_cons. cbn [length]. lia. Qed.

Lemma percentiles_found s (ps : list Q) :
  (0 < len s)%Z → Forall (λ p, 0 <= p)%Q ps →
  ∃ ds, mapM (λ p, at_index s (pct_index Q_trunc (len s) p)) ps = Some ds ∧
    Forall2 (λ p d, s !! Z.to_nat (pct_index Q_trunc (len s) p) = Some d) ps ds.
Proof.
  intros Hn. induction 1 as [|p ps Hp _ (ds & E & Hds)]; [by exists []|].
  destruct (at_index_Some s (pct_index Q_trunc (len s) p)) as (d & Ed & Ld); [by apply pct_index_range|].
  exists (d :: ds). cbn. rewrite Ed. cbn. rewrite E. split; [done|by constructor].
Qed.

Lemma total_perm l l' : l ≡ₚ l' → total_of l = total_of l'.
Proof. induction 1; rewrite ?total_cons; lia. Qed.

(** The average of a list within bounds is within them. *)
Lemma average_bounds s a c :
  (0 < len s)%Z → Forall (λ d, 0 ≤ d)%Z s → (total_of s < 2 ^ 63)%Z → Forall (λ d, a ≤ d ≤ c)%Z s →
  (a ≤ Z.quot (foldl (λ t d, wrap64 (t + d)) 0%Z s) (len s) ≤ c)%Z.
Proof.
  intros Hn Hpos Htot Hb. rewrite sum_exact by (done || lia). apply total_bounds in Hb.
  pose proof (total_nonneg s Hpos).
  rewrite Z.quot_div_nonneg by lia. split.
  - apply Z.div_le_lower_bound; lia.
  - apply Z.div_le_upper_bound; lia.
Qed.

(** With at least one completed request the report does not panic and its figures are
    ordered: fastest and slowest are the extreme latencies, each percentile is one
    of the latencies, higher percentiles are not smaller, and the average lies between
    the extremes as long as the sum of the latencies fits an int64.  (Percentiles in
    exact arithmetic, for any list of them.) *)
Theorem summarize_ordered (ps : list Q) (l : list Duration) :
  l ≠ [] → Forall (λ p, 0 <= p)%Q ps →
  ∃ r, summarize Q_trunc ps l = Some (Some r) ∧
    rp_fastest r ∈ l ∧ rp_slowest r ∈ l ∧ Forall (λ d, rp_fastest r ≤ d ≤ rp_slowest r)%Z l ∧
    length (rp_percentiles r) = length ps ∧ Forall (λ d, d ∈ l) (rp_percentiles r) ∧
    (∀ i j p p' d d', ps !! i = Some p → ps !! j = Some p' → (p <= p')%Q →
       rp_percentiles r !! i = Some d → rp_percentiles r !! j = Some d' → (d ≤ d')%Z) ∧
    (Forall (λ d, 0 ≤ d)%Z l → (total_of l < 2 ^ 63)%Z → (rp_fastest r ≤ rp_average r ≤ rp_slowest r)%Z).
Proof.
  intros Hne Hps. unfold summarize. set (s := merge_sort Z.le l).
  assert (s ≡ₚ l) as Hperm by apply merge_sort_Permutation.
  assert (StronglySorted Z.le s) as Hsort by (apply StronglySorted_merge_sort; apply _).
  assert (0 < len s)%Z as Hn.
  { unfold len. destruct s; [|cbn; lia]. by apply Permutation_nil in Hperm. }
  fold (len s). destruct (Z.eqb_spec (len s) 0); [lia|].
  destruct (at_index_Some s 0) as (f & Ef & Lf); [lia|]. destruct (at_index_Some s (len s - 1)) as (m & Em & Lm); [lia|].
  destruct (percentiles_found s ps Hn Hps) as (ds & Eds & Hds). rewrite Ef, Em. cbn [mbind option_bind].
  rewrite Eds. cbn [mbind option_bind]. eexists. split; [reflexivity|].
  cbn [rp_fastest rp_slowest rp_percentiles rp_average].
  assert (∀ i x, s !! i = Some x → x ∈ l) as Hin.
  { intros i x Hi. rewrite <- Hperm. by eapply list_elem_of_lookup_2. }
  assert (Forall (λ d, f ≤ d ≤ m)%Z s) as Hfm.
  { apply Forall_lookup. intros i x Hi. apply lookup_lt_Some in Hi as Hlt. split.
    - apply (sorted_lookup s (Z.to_nat 0) i f x Hsort); [cbn; lia|done|done].
    - assert (i ≤ Z.to_nat (len s - 1))%nat as Hle by (unfold len; lia).
      exact (sorted_lookup s i _ x m Hsort Hle Hi Lm). }
  split_and!; [by eapply Hin|by eapply Hin|by rewrite <- Hperm|by rewrite (Forall2_length _ _ _ Hds)| | |].
  - eapply Forall2_Forall_r; [exact Hds|]. apply Forall_true. intros p d. apply Hin.
  - intros i j p p' d d' Hp Hp' Hle Hd Hd'. rewrite Forall_forall in Hps.
    pose proof (Forall2_lookup_lr _ _ _ _ _ _ Hds Hp Hd) as L1. pose proof (Forall2_lookup_lr _ _ _ _ _ _ Hds Hp' Hd') as L2.
    assert (0 <= p)%Q by (apply Hps; by eapply list_elem_of_lookup_2).
    refine (sorted_lookup s _ _ d d' Hsort _ L1 L2). apply Z2Nat.inj_le; try by apply pct_index_range.
    + by apply pct_index_range, Hps; [|by eapply list_elem_of_lookup_2].
    + by apply pct_index_mono.
  - intros Hpos Htot. apply average_bounds; [done|by rewrite Hperm|by rewrite (total_perm s l)|done].
Qed.

Lemma summarize_ordered_witness :
  ∃ r, summarize Q_trunc [1 # 2; 99 # 100]%Q [5; 1; 9]%Z = Some (Some r) ∧ (rp_fastest r ≤ rp_average r ≤ rp_slowest r)%Z.
Proof.
  destruct (summarize_ordered [1 # 2; 99 # 100]%Q [5; 1; 9]%Z) as (r & E & _ & _ & _ & _ & _ & _ & H).
  - discriminate.
  - repeat constructor; discriminate.
  - exists r. split; [exact E|]. apply H; [repeat constructor; discriminate|reflexivity].
Defined.

(** The addresses lie in 10.0.0.0/8, and two requests share one exactly when their numbers
    agree modulo 2^24. *)
Lemma octets_ok n n' :
  Forall (λ o, 0 ≤ o < 256)%Z (octets n) ∧ (octets n = octets n' ↔ (n `mod` 2 ^ 24 = n' `mod` 2 ^ 24)%Z).
Proof.
  assert (∀ z, Z.land z 255 = z `mod` 256)%Z as Hl by (intros z; apply (Z.land_ones z 8); lia).
  unfold octets. rewrite !Hl, !Z.shiftr_div_pow2 by lia.
  change (2 ^ 16)%Z with 65536%Z. change (2 ^ 8)%Z with 256%Z. change (2 ^ 24)%Z with 16777216%Z. split.
  - repeat constructor; apply Z.mod_pos_bound; lia.
  - assert (∀ z, z `mod` 16777216 = (z / 65536) `mod` 256 * 65536 + (z / 256) `mod` 256 * 256 + z `mod` 256)%Z as Hz
      by (intros z; Z.to_euclidean_division_equations; lia).
    pose proof (Hz n). pose proof (Hz n'). split; [intros [= E1 E2 E3]; lia|]. intros E.
    assert (∀ z, 0 ≤ z `mod` 256 < 256)%Z as Hb by (intros z; apply Z.mod_pos_bound; lia).
    pose proof (Hb n). pose proof (Hb n'). pose proof (Hb (n / 256)%Z). pose proof (Hb (n' / 256)%Z).
    pose proof (Hb (n / 65536)%Z). pose proof (Hb (n' / 65536)%Z).
    f_equal; [lia|f_equal; [lia|f_equal; lia]].
Qed.
